(** * Weber sound scheduler: a shallow embedding of [weber_sound.c]

    The C file keeps, per channel, a ring of pointers to timed sounds that a
    producer ([ws_play], [ws_play_next]) fills and the audio callback
    ([ws_callback]) drains while it mixes the due samples into the output
    buffer.  This development embeds those functions as executable Rocq
    functions and proves the properties the specification states about them.

    Modelling conventions.
    - [int] and [unsigned long] values are integers of [Z].  The conversions
      whose result C defines are written out ([to_int], [to_ulong] for a
      64-bit [unsigned long], [to_int16]); signed [int] arithmetic, whose
      overflow C leaves undefined, is computed in [Z] and the theorems carry
      the range hypotheses under which it stays inside the type.
    - [PaTime] and [double] values are exact rationals of [Q]: the rounding of
      binary floating point is abstracted, and [(int)floor(x)] is the floor
      of the rational.  [INFINITY] is a separate constructor of [xtime].
      The model and the program agree where every operand and intermediate
      result is a binary64 number and the floor is in the range of [int];
      the predicates [binary64], [exact_start], [exact_timing] and
      [exact_warning] say so, and the theorems that state at which frame a
      sound is heard, or the number of frames it is late by, assume
      them.
    - A loop is a structural recursion on a number of turns that bounds it:
      the channels of the set, the frames of the buffer, the slots of a
      ring.  Running out of turns is the fault [OutOfFuel]; the theorems
      that state a result show that it does not occur.
    - A pointer that may be null is an [option]; an array is a list read and
      written by index.  Dereferencing a null pointer, indexing outside an
      array and freeing a block twice are undefined in C: the model stops
      with a [fault].
    - The backend (PortAudio) is outside the file: the stream clock read by
      [Pa_GetStreamTime] and the timing record passed to the callback are
      arguments of the embedded functions. *)

From Stdlib Require Import ZArith QArith Qround Qabs String Ascii DecimalString Lia Lqa.
From stdpp Require Import base list.

Local Open Scope Z_scope.

(** ** Faults and the result monad *)

Inductive fault : Type :=
| NullDeref
| OutOfBounds
| OutOfFuel
| DoubleFree.

Inductive result (A : Type) : Type :=
| Ok (a : A)
| Fault (f : fault).

Arguments Ok {A} a.
Arguments Fault {A} f.

Definition bind {A B : Type} (r : result A) (k : A -> result B) : result B :=
  match r with
  | Ok a => k a
  | Fault f => Fault f
  end.

Notation "x <- c ;; k" := (bind c (fun x => k))
  (at level 100, c at next level, right associativity).

(** [p->field] on a pointer that may be null. *)
Definition deref {A : Type} (p : option A) : result A :=
  match p with
  | Some a => Ok a
  | None => Fault NullDeref
  end.

(** [a[i]] as an rvalue. *)
Definition array_get {A : Type} (a : list A) (i : Z) : result A :=
  if 0 <=? i then
    match a !! Z.to_nat i with
    | Some x => Ok x
    | None => Fault OutOfBounds
    end
  else Fault OutOfBounds.

(** [a[i] = x]. *)
Definition array_set {A : Type} (a : list A) (i : Z) (x : A) : result (list A) :=
  if (0 <=? i) && (i <? Z.of_nat (length a)) then Ok (<[Z.to_nat i := x]> a)
  else Fault OutOfBounds.

(** ** Machine integers *)

Definition INT_MAX : Z := 2147483647.
Definition INT_MIN : Z := -2147483648.

(** Conversion to [int] (32 bits, two's complement). *)
Definition to_int (z : Z) : Z := (z + 2 ^ 31) mod 2 ^ 32 - 2 ^ 31.

(** Conversion to [unsigned long] (64 bits). *)
Definition to_ulong (z : Z) : Z := z mod 2 ^ 64.

(** Conversion to [Int16]. *)
Definition to_int16 (z : Z) : Z := (z + 2 ^ 15) mod 2 ^ 16 - 2 ^ 15.

(** ** Time *)

Definition Qltb (a b : Q) : bool := negb (Qle_bool b a).

(** The running minimum of the channel scan starts at [INFINITY]. *)
Inductive xtime : Type :=
| Finite (t : Q)
| INFINITY.

(** [m > t] for a running minimum [m]. *)
Definition xgt (m : xtime) (t : Q) : bool :=
  match m with
  | INFINITY => true
  | Finite q => Qltb t q
  end.

(** ** Data model *)

Definition TRUE : Z := 1.
Definition FALSE : Z := 0.
Definition NO_CHANNELS : Z := -2.
Definition paNoError : Z := 0.

Module Sound.
Record t : Type := mk { buffer : list Z; len : Z }.
End Sound.

Module TimedSound.
Record t : Type := mk { buffer : list Z; start : Q; offset : Z; len : Z }.

Definition set_offset (s : t) (o : Z) : t :=
  mk (buffer s) (start s) o (len s).
End TimedSound.

Definition newTimedSound (x : Sound.t) (start : Q) : TimedSound.t :=
  TimedSound.mk (Sound.buffer x) start 0 (Sound.len x).

Module Sounds.
Record t : Type := mk {
  data : list (option TimedSound.t);
  len : Z;
  paused : Z;
  consumer_index : Z;
  producer_index : Z;
  done_at : Q
}.

Definition set_data (s : t) (d : list (option TimedSound.t)) : t :=
  mk d (len s) (paused s) (consumer_index s) (producer_index s) (done_at s).
Definition set_paused (s : t) (p : Z) : t :=
  mk (data s) (len s) p (consumer_index s) (producer_index s) (done_at s).
Definition set_consumer_index (s : t) (i : Z) : t :=
  mk (data s) (len s) (paused s) i (producer_index s) (done_at s).
Definition set_producer_index (s : t) (i : Z) : t :=
  mk (data s) (len s) (paused s) (consumer_index s) i (done_at s).
Definition set_done_at (s : t) (d : Q) : t :=
  mk (data s) (len s) (paused s) (consumer_index s) (producer_index s) d.
End Sounds.

Definition newSounds (queue_size : Z) : Sounds.t :=
  Sounds.mk (replicate (Z.to_nat queue_size) None) queue_size FALSE 0 0 0%Q.

Module Channels.
Record t : Type := mk {
  data : list Sounds.t;
  len : Z;
  playback_error : Z;
  last_buffer_size : Z;
  last_latency : Q;
  samplerate : Q;
  samplelen : Q
}.

Definition set_data (c : t) (d : list Sounds.t) : t :=
  mk d (len c) (playback_error c) (last_buffer_size c) (last_latency c)
     (samplerate c) (samplelen c).
Definition set_playback_error (c : t) (e : Z) : t :=
  mk (data c) (len c) e (last_buffer_size c) (last_latency c)
     (samplerate c) (samplelen c).
Definition set_last (c : t) (size : Z) (latency : Q) : t :=
  mk (data c) (len c) (playback_error c) size latency
     (samplerate c) (samplelen c).
End Channels.

(** The one-shot channels take the caller's queue size; the streaming
    channels that follow them have a queue of two.  [samplelen] is the
    exact quotient [1 / samplerate], where the program has the [double]
    nearest to it, and the [int] product [2 * num_channels] is not wrapped:
    the model is that of a call with a positive sample rate whose inverse
    is a [double] and with [2 * num_channels] in the range of [int]. *)
Definition newChannels (samplerate num_channels queue_size : Z) : Channels.t :=
  Channels.mk
    (replicate (Z.to_nat num_channels) (newSounds queue_size)
       ++ replicate (Z.to_nat num_channels) (newSounds 2))
    (2 * num_channels) 0 0 0%Q
    (inject_Z samplerate) (1 / inject_Z samplerate)%Q.

Record WsState : Type := mkWsState {
  errcode : Z;
  weber_error : Z;
  channels : option Channels.t;
  stream : bool
}.

Definition set_channels (state : WsState) (c : option Channels.t) : WsState :=
  mkWsState (errcode state) (weber_error state) c (stream state).
Definition set_weber_error (state : WsState) (e : Z) : WsState :=
  mkWsState (errcode state) e (channels state) (stream state).

(** The loop [for(int i=0;i<2*num_channels;i++) free(state->channels->data)]
    of the two failure paths of [ws_setup]: every turn frees the one array
    [data], so that a second turn, which there is as soon as there is one
    channel, frees it again. *)
Definition release_data (num_channels : Z) : result unit :=
  if 1 <? 2 * num_channels then Fault DoubleFree else Ok tt.

(** [ws_setup]: the three backend calls ([Pa_Initialize],
    [Pa_OpenDefaultStream], [Pa_StartStream]) are outside the file and their
    return codes are arguments.  When [Pa_Initialize] fails no channel set
    is made; when one of the other two fails the channel set that was made
    is released by the loop above before the state is returned. *)
Definition ws_setup (init_code open_code start_code : Z)
    (samplerate num_channels queue_size : Z) : result WsState :=
  if negb (init_code =? paNoError) then Ok (mkWsState init_code 0 None false)
  else if negb (open_code =? paNoError) then
    bind (release_data num_channels)
      (fun _ => Ok (mkWsState open_code 0 None false))
  else if negb (start_code =? paNoError) then
    bind (release_data num_channels)
      (fun _ => Ok (mkWsState start_code 0 None false))
  else
    Ok (mkWsState start_code 0
          (Some (newChannels samplerate num_channels queue_size)) true).

(** ** Producer side *)

(** [channels->data[i] = sounds]. *)
Definition put_channel (chs : Channels.t) (i : Z) (sounds : Sounds.t)
  : result Channels.t :=
  d <- array_set (Channels.data chs) i sounds ;;
  Ok (Channels.set_data chs d).

(** The tail of [ws_play] and of the success branch of [ws_play_next]:
    store the sound at [producer_index] and advance the index round the
    ring. *)
Definition push_sound (sounds : Sounds.t) (sound : TimedSound.t)
  : result Sounds.t :=
  d <- array_set (Sounds.data sounds) (Sounds.producer_index sounds)
         (Some sound) ;;
  let p := Sounds.producer_index sounds + 1 in
  Ok (Sounds.set_producer_index (Sounds.set_data sounds d)
        (if p =? Sounds.len sounds then 0 else p)).

(** The scan of [ws_play] over the first half of the channels, from
    channel [i], with [n] channels left to visit. *)
Fixpoint pick_channel (n : nat) (i : Z) (chs : Channels.t)
    (channel : Z) (min_done_at : xtime) : result Z :=
  match n with
  | O => Ok channel
  | S n' =>
    sounds <- array_get (Channels.data chs) i ;;
    if negb (Sounds.paused sounds =? 0) then
      pick_channel n' (i + 1) chs channel min_done_at
    else
      slot <- array_get (Sounds.data sounds) (Sounds.producer_index sounds) ;;
      match slot with
      | Some _ => pick_channel n' (i + 1) chs channel min_done_at
      | None =>
        if xgt min_done_at (Sounds.done_at sounds) then
          pick_channel n' (i + 1) chs i (Finite (Sounds.done_at sounds))
        else pick_channel n' (i + 1) chs channel min_done_at
      end
  end.

(** [ws_play]; [pa_now] is the value of [Pa_GetStreamTime]. *)
Definition ws_play (pa_now now playat : Q) (channel : Z) (toplay : Sound.t)
    (state : WsState) : result (Z * WsState) :=
  let time := ((pa_now - now) + playat)%Q in
  let sound := newTimedSound toplay time in
  chs <- deref (channels state) ;;
  channel <-
    (if channel <? 0 then
       pick_channel (Z.to_nat (Channels.len chs ÷ 2)) 0 chs channel INFINITY
     else Ok channel) ;;
  if channel <? 0 then Ok (-1, set_weber_error state NO_CHANNELS)
  else
    sounds <- array_get (Channels.data chs) channel ;;
    sounds' <- push_sound sounds sound ;;
    chs' <- put_channel chs channel sounds' ;;
    Ok (channel, set_channels state (Some chs')).

(** The first part of [ws_play_next]: a paused channel has the sound at its
    consumer slot marked as played to the end, and is unpaused. *)
Definition interrupt_paused (sounds : Sounds.t) : result Sounds.t :=
  if negb (Sounds.paused sounds =? 0) then
    slot <- array_get (Sounds.data sounds) (Sounds.consumer_index sounds) ;;
    paused_sound <- deref slot ;;
    d <- array_set (Sounds.data sounds) (Sounds.consumer_index sounds)
           (Some (TimedSound.set_offset paused_sound
                    (TimedSound.len paused_sound))) ;;
    Ok (Sounds.set_paused (Sounds.set_data sounds d) FALSE)
  else Ok sounds.

(** [ws_play_next]; the result is the returned [double] and the state. *)
Definition ws_play_next (pa_now now : Q) (channel : Z) (toplay : Sound.t)
    (state : WsState) : result (Q * WsState) :=
  chs <- deref (channels state) ;;
  let channel := Channels.len chs ÷ 2 + channel in
  let sound := newTimedSound toplay (-1)%Q in
  sounds <- array_get (Channels.data chs) channel ;;
  sounds <- interrupt_paused sounds ;;
  let done_at :=
    (Sounds.done_at sounds
     + inject_Z (Sound.len toplay) * Channels.samplelen chs)%Q in
  slot <- array_get (Sounds.data sounds) (Sounds.producer_index sounds) ;;
  match slot with
  | None =>
    sounds' <- push_sound sounds sound ;;
    chs' <- put_channel chs channel sounds' ;;
    Ok (((done_at - pa_now) + now)%Q, set_channels state (Some chs'))
  | Some _ =>
    chs' <- put_channel chs channel sounds ;;
    Ok ((-1)%Q, set_channels state (Some chs'))
  end.

(** ** Pause *)

(** [channels->data[i].paused = pause]. *)
Definition pause_channel (chs : Channels.t) (i : Z) (pause : Z)
  : result Channels.t :=
  sounds <- array_get (Channels.data chs) i ;;
  put_channel chs i (Sounds.set_paused sounds pause).

(** The loop of [ws_pause] over all channels, from channel [i]. *)
Fixpoint pause_from (n : nat) (i : Z) (chs : Channels.t) (pause : Z)
  : result Channels.t :=
  match n with
  | O => Ok chs
  | S n' =>
    chs' <- pause_channel chs i pause ;;
    pause_from n' (i + 1) chs' pause
  end.

(** [ws_pause].  The loop over all channels is followed, whatever
    [channel] is, by the single assignment. *)
Definition ws_pause (state : WsState) (channel isstream pause : Z)
  : result WsState :=
  chs <- deref (channels state) ;;
  chs <-
    (if channel <? 0 then
       pause_from (Z.to_nat (Channels.len chs)) 0 chs pause
     else Ok chs) ;;
  chs <-
    (if negb (isstream =? 0) then
       pause_channel chs (Channels.len chs ÷ 2 + channel) pause
     else pause_channel chs channel pause) ;;
  Ok (set_channels state (Some chs)).

(** ** Timing warning *)

Definition warn_prefix : string := "A previously played sound occured ".
Definition warn_suffix : string := "ms after it should have.".

(** [snprintf(buf,size,...)] keeps at most [size - 1] characters. *)
Definition snprintf (size : nat) (s : string) : string :=
  substring 0 (size - 1) s.

Section WarnStr.
(** The text libc produces for a [double] under the conversion ["%3.2f"]. *)
Variable format_3_2f : Q -> string.

(** [ws_warn_str]; the result is the returned text and the state.  The
    negation [-playback_error] is one of [int]: at [INT_MIN] it gives
    [INT_MIN] again. *)
Definition ws_warn_str (state : WsState) : string * WsState :=
  match channels state with
  | Some chs =>
    if Channels.playback_error chs <? 0 then
      let latency :=
        (inject_Z (to_int (- Channels.playback_error chs))
         * Channels.samplelen chs)%Q in
      (snprintf 100
         (warn_prefix ++ format_3_2f (latency * 1000)%Q ++ warn_suffix),
       set_channels state (Some (Channels.set_playback_error chs 0)))
    else (EmptyString, state)
  | None => (EmptyString, state)
  end.
End WarnStr.

(** ** Consumer side: the audio callback *)

(** What the loops of [ws_callback] read and write while they drain one
    channel: the channel, [channels->playback_error], the output buffer and
    the locals [outi], [should_start] and [zero_padding]. *)
Record cb : Type := mkCb {
  cb_sounds : Sounds.t;
  cb_error : Z;
  cb_out : list Z;
  cb_outi : Z;
  cb_should_start : bool;
  cb_zero_padding : Z
}.

Definition cb_set_sounds (st : cb) (s : Sounds.t) : cb :=
  mkCb s (cb_error st) (cb_out st) (cb_outi st) (cb_should_start st)
       (cb_zero_padding st).
Definition cb_set_outi (st : cb) (outi : Z) : cb :=
  mkCb (cb_sounds st) (cb_error st) (cb_out st) outi (cb_should_start st)
       (cb_zero_padding st).
Definition cb_set_out (st : cb) (outi : Z) (out : list Z) : cb :=
  mkCb (cb_sounds st) (cb_error st) out outi (cb_should_start st)
       (cb_zero_padding st).

Section Callback.
(** The arguments of one invocation: the buffer length in frames and the
    instant of the buffer's first frame; the two rates of the channel
    set. *)
Variable len : Z.
Variable buffer_start : Q.
Variable samplerate samplelen : Q.

(** The first loop: every sample of the output buffer is set to 0. *)
Fixpoint zero_fill (n : nat) (outi : Z) (out : list Z) : result (list Z) :=
  match n with
  | O => Ok out
  | S n' =>
    out <- array_set out (Z.shiftl outi 1) 0 ;;
    out <- array_set out (Z.shiftl outi 1 + 1) 0 ;;
    zero_fill n' (outi + 1) out
  end.

(** The block under [if(sound->offset == 0)]: decide whether the sound at
    the head starts in this buffer, and where.  The sums, the difference
    and the product are exact and the floor is not wrapped to [int]: see
    [exact_timing] for the instants at which the program computes the same
    values. *)
Definition schedule (sound : TimedSound.t) (st : cb) : cb :=
  let sounds := cb_sounds st in
  let slen := inject_Z (TimedSound.len sound) in
  if TimedSound.offset sound =? 0 then
    if Qltb 0 (TimedSound.start sound) then
      if Qltb (TimedSound.start sound)
              (buffer_start + samplelen * inject_Z len)%Q then
        let zero_padding :=
          Qfloor ((TimedSound.start sound - buffer_start) * samplerate)%Q in
        if zero_padding <? cb_outi st then
          mkCb (Sounds.set_done_at sounds
                  (buffer_start + inject_Z (cb_outi st) * samplelen
                   + slen * samplelen)%Q)
               (zero_padding - cb_outi st) (cb_out st) (cb_outi st) true
               (cb_outi st)
        else
          mkCb (Sounds.set_done_at sounds
                  (TimedSound.start sound + slen * samplelen)%Q)
               (cb_error st) (cb_out st) (cb_outi st) true zero_padding
      else cb_set_outi st (to_int len)
    else
      mkCb (Sounds.set_done_at sounds
              (buffer_start + inject_Z (cb_zero_padding st) * samplelen
               + slen * samplelen)%Q)
           (cb_error st) (cb_out st) (cb_outi st) true (cb_outi st)
  else st.

(** The [for] loop that adds the samples of [sound] to the output, from
    frame [outi]; left samples are the first half of the sound's buffer,
    right samples the second half. *)
Fixpoint mix (fuel : nat) (sound : TimedSound.t) (offset zero_padding : Z)
    (outi : Z) (out : list Z) : result (Z * list Z) :=
  if (to_ulong outi <? len)
     && (outi - zero_padding <? TimedSound.len sound - offset) then
    match fuel with
    | O => Fault OutOfFuel
    | S fuel' =>
      l <- array_get (TimedSound.buffer sound)
             (outi - zero_padding + offset) ;;
      o <- array_get out (Z.shiftl outi 1) ;;
      out <- array_set out (Z.shiftl outi 1) (to_int16 (o + l)) ;;
      r <- array_get (TimedSound.buffer sound)
             (outi - zero_padding + TimedSound.len sound + offset) ;;
      o <- array_get out (Z.shiftl outi 1 + 1) ;;
      out <- array_set out (Z.shiftl outi 1 + 1) (to_int16 (o + r)) ;;
      mix fuel' sound offset zero_padding (outi + 1) out
    end
  else Ok (outi, out).

(** The block under [// sum samples to output as needed]: the sound after
    it, and the state. *)
Definition play (sound : TimedSound.t) (st : cb)
  : result (TimedSound.t * cb) :=
  let offset := TimedSound.offset sound in
  if ((0 <? offset) || cb_should_start st)
     && (offset <? TimedSound.len sound) then
    r <- mix (Z.to_nat len) sound offset (cb_zero_padding st)
           (cb_zero_padding st) (cb_out st) ;;
    let sound' :=
      TimedSound.set_offset sound
        (to_int (to_ulong (len - cb_zero_padding st + offset))) in
    let sounds := cb_sounds st in
    d <- array_set (Sounds.data sounds) (Sounds.consumer_index sounds)
           (Some sound') ;;
    Ok (sound', cb_set_sounds (cb_set_out st (fst r) (snd r))
                  (Sounds.set_data sounds d))
  else Ok (sound, st).

(** The block under [// if we're done with the sound]: the finished sound
    is freed, the consumer index moves on and the slot is cleared. *)
Definition retire (sound : TimedSound.t) (st : cb) : result cb :=
  if TimedSound.len sound <=? TimedSound.offset sound then
    let sounds := cb_sounds st in
    let old_index := Sounds.consumer_index sounds in
    let next := old_index + 1 in
    let sounds :=
      Sounds.set_consumer_index sounds
        (if next =? Sounds.len sounds then 0 else next) in
    d <- array_set (Sounds.data sounds) old_index None ;;
    Ok (cb_set_sounds st (Sounds.set_data sounds d))
  else Ok st.

(** One turn of the [while] loop on the sound at the head. *)
Definition consume (sound : TimedSound.t) (st : cb) : result cb :=
  r <- play sound (schedule sound st) ;;
  retire (fst r) (snd r).

(** The [while] loop of one channel. *)
Fixpoint drain (fuel : nat) (st : cb) : result cb :=
  slot <- array_get (Sounds.data (cb_sounds st))
            (Sounds.consumer_index (cb_sounds st)) ;;
  match slot with
  | Some sound =>
    if to_ulong (cb_outi st) <? len then
      match fuel with
      | O => Fault OutOfFuel
      | S fuel' => st' <- consume sound st ;; drain fuel' st'
      end
    else Ok st
  | None => Ok st
  end.

(** The body of the loop over the channels, for a channel that is not
    paused; [should_start] is the value the earlier channels left. *)
Definition drain_channel (sounds : Sounds.t) (error : Z) (out : list Z)
    (should_start : bool) : result cb :=
  slot <- array_get (Sounds.data sounds) (Sounds.consumer_index sounds) ;;
  let sounds :=
    match slot with
    | None =>
      Sounds.set_done_at sounds (buffer_start + samplelen * inject_Z len)%Q
    | Some _ => sounds
    end in
  drain (length (Sounds.data sounds))
    (mkCb sounds error out 0 should_start 0).
End Callback.

(** What the loop over the channels carries from one channel to the next. *)
Record mixer : Type := mkMixer {
  mx_channels : Channels.t;
  mx_out : list Z;
  mx_should_start : bool
}.

(** The body of the loop over the channels. *)
Definition mix_channel (len : Z) (buffer_start : Q) (c : Z) (m : mixer)
  : result mixer :=
  let chs := mx_channels m in
  sounds <- array_get (Channels.data chs) c ;;
  if negb (Sounds.paused sounds =? 0) then Ok m
  else
    st <- drain_channel len buffer_start (Channels.samplerate chs)
            (Channels.samplelen chs) sounds (Channels.playback_error chs)
            (mx_out m) (mx_should_start m) ;;
    chs' <- put_channel (Channels.set_playback_error chs (cb_error st)) c
              (cb_sounds st) ;;
    Ok (mkMixer chs' (cb_out st) (cb_should_start st)).

(** The loop over the channels, from channel [c]. *)
Fixpoint mix_from (n : nat) (len : Z) (buffer_start : Q) (c : Z) (m : mixer)
  : result mixer :=
  match n with
  | O => Ok m
  | S n' =>
    m' <- mix_channel len buffer_start c m ;;
    mix_from n' len buffer_start (c + 1) m'
  end.

(** [ws_callback]: [out] is the backend's buffer, [len] its length in
    frames, [outputBufferDacTime] and [currentTime] the two fields read from
    the timing record.  The result is the channel set and the buffer as the
    callback leaves them; the returned status is always 0. *)
Definition ws_callback (out : list Z) (len : Z)
    (outputBufferDacTime currentTime : Q) (channels : Channels.t)
  : result (Channels.t * list Z) :=
  let buffer_start := outputBufferDacTime in
  out <- zero_fill (Z.to_nat len) 0 out ;;
  let channels :=
    Channels.set_last channels len (outputBufferDacTime - currentTime)%Q in
  m <- mix_from (Z.to_nat (Channels.len channels)) len buffer_start 0
         (mkMixer channels out false) ;;
  Ok (mx_channels m, mx_out m).

(** ** Well-formed states *)

(** A channel whose [len] is the size of its ring and whose two indices lie
    inside the ring, as [newSounds] builds it and every operation keeps it. *)
Record wf_sounds (s : Sounds.t) : Prop := mk_wf_sounds {
  wf_capacity : Sounds.len s = Z.of_nat (length (Sounds.data s));
  wf_consumer : 0 <= Sounds.consumer_index s < Sounds.len s;
  wf_producer : 0 <= Sounds.producer_index s < Sounds.len s
}.

Record wf_channels (chs : Channels.t) : Prop := mk_wf_channels {
  wf_count : Channels.len chs = Z.of_nat (length (Channels.data chs));
  wf_each : Forall wf_sounds (Channels.data chs)
}.

(** The sound, if any, in slot [i] of channel [c]. *)
Definition slot_of (chs : Channels.t) (c i : nat) : option (option TimedSound.t) :=
  sounds ← Channels.data chs !! c; Sounds.data sounds !! i.

(** Channel [i] can take a sound from the automatic choice of [ws_play]: it
    is a one-shot channel, it is not paused and its producer slot is empty. *)
Definition eligible (chs : Channels.t) (i : Z) : Prop :=
  0 <= i < Channels.len chs ÷ 2 /\
  exists sounds,
    Channels.data chs !! Z.to_nat i = Some sounds /\
    Sounds.paused sounds = 0 /\
    Sounds.data sounds !! Z.to_nat (Sounds.producer_index sounds) = Some None.

(** [done_at] of channel [i]. *)
Definition done_at_of (chs : Channels.t) (i : Z) : Q :=
  match Channels.data chs !! Z.to_nat i with
  | Some sounds => Sounds.done_at sounds
  | None => 0%Q
  end.

(** The channel as [ws_play] and [ws_play_next] leave it after they stored
    [sound]. *)
Definition pushed (sounds : Sounds.t) (sound : TimedSound.t) : Sounds.t :=
  Sounds.mk
    (<[Z.to_nat (Sounds.producer_index sounds) := Some sound]> (Sounds.data sounds))
    (Sounds.len sounds) (Sounds.paused sounds) (Sounds.consumer_index sounds)
    ((Sounds.producer_index sounds + 1) mod Sounds.len sounds)
    (Sounds.done_at sounds).

(** The channel set with channel [c] replaced. *)
Definition with_channel (chs : Channels.t) (c : Z) (sounds : Sounds.t) : Channels.t :=
  Channels.set_data chs (<[Z.to_nat c := sounds]> (Channels.data chs)).

(** What the scan of [ws_play] knows after the channels below [i]:
    either nothing qualified and [channel] is still the caller's value, or
    [channel] is a qualifying channel with the smallest [done_at] so far. *)
Definition scan_inv (chs : Channels.t) (channel0 i channel : Z) (m : xtime) : Prop :=
  (m = INFINITY /\ channel = channel0 /\
   forall j, j < i -> ~ eligible chs j)
  \/
  (m = Finite (done_at_of chs channel) /\ eligible chs channel /\
   forall j, j < i -> eligible chs j ->
             (done_at_of chs channel <= done_at_of chs j)%Q).

(** Two channels that differ at most in their [paused] flag. *)
Definition same_but_paused (a b : Sounds.t) : Prop :=
  Sounds.data a = Sounds.data b /\
  Sounds.len a = Sounds.len b /\
  Sounds.consumer_index a = Sounds.consumer_index b /\
  Sounds.producer_index a = Sounds.producer_index b /\
  Sounds.done_at a = Sounds.done_at b.

(** Two channel sets that differ at most in the [paused] flags. *)
Definition paused_only (a b : Channels.t) : Prop :=
  Forall2 same_but_paused (Channels.data a) (Channels.data b) /\
  Channels.len a = Channels.len b /\
  Channels.playback_error a = Channels.playback_error b /\
  Channels.last_buffer_size a = Channels.last_buffer_size b /\
  Channels.last_latency a = Channels.last_latency b /\
  Channels.samplerate a = Channels.samplerate b /\
  Channels.samplelen a = Channels.samplelen b.

(** ** Invariants of the callback *)

(** The two rates of a channel set as [newChannels] sets them for a positive
    sample rate. *)
Definition exact_rates (samplerate samplelen : Q) : Prop :=
  (0 < samplerate)%Q /\ (samplelen * samplerate == 1)%Q.

(** A queued sound the callback can handle with a buffer of [len] frames:
    the offset is inside the sound, the sample buffer has the two halves the
    mixing loop reads, and the new offset fits an [int]. *)
Record sound_ok (len : Z) (s : TimedSound.t) : Prop := mk_sound_ok {
  ok_offset : 0 <= TimedSound.offset s <= TimedSound.len s;
  ok_buffer : 2 * TimedSound.len s <= Z.of_nat (length (TimedSound.buffer s));
  ok_range : TimedSound.len s + len <= INT_MAX
}.

Definition sounds_ok (len : Z) (sounds : Sounds.t) : Prop :=
  forall (i : nat) (s : TimedSound.t),
    Sounds.data sounds !! i = Some (Some s) -> sound_ok len s.

Definition channels_ok (len : Z) (chs : Channels.t) : Prop :=
  forall (c : nat) (sounds : Sounds.t),
    Channels.data chs !! c = Some sounds -> sounds_ok len sounds.

(** The invariant of the [while] loop of one channel. *)
Record cb_ok (len : Z) (st : cb) : Prop := mk_cb_ok {
  ok_ring : wf_sounds (cb_sounds st);
  ok_sounds : sounds_ok len (cb_sounds st);
  ok_out : Z.of_nat (length (cb_out st)) = 2 * len;
  ok_outi : 0 <= cb_outi st <= len;
  ok_padding : 0 <= cb_zero_padding st <= len
}.

(** Two channels with the same ring, indices and flag. *)
Definition same_ring (a b : Sounds.t) : Prop :=
  Sounds.data a = Sounds.data b /\
  Sounds.len a = Sounds.len b /\
  Sounds.paused a = Sounds.paused b /\
  Sounds.consumer_index a = Sounds.consumer_index b /\
  Sounds.producer_index a = Sounds.producer_index b.

(** [s'] is [s] itself, or [s] consumed further and not to its end. *)
Definition progressed (s s' : TimedSound.t) : Prop :=
  s' = s \/
  (TimedSound.buffer s' = TimedSound.buffer s /\
   TimedSound.start s' = TimedSound.start s /\
   TimedSound.len s' = TimedSound.len s /\
   TimedSound.offset s <= TimedSound.offset s' /\
   TimedSound.offset s' < TimedSound.len s').

(** Every sound of ring [b] sits in the same slot of ring [a], from which
    it has progressed. *)
Definition advanced (a b : list (option TimedSound.t)) : Prop :=
  forall (i : nat) (s' : TimedSound.t),
    b !! i = Some (Some s') ->
    exists s, a !! i = Some (Some s) /\ progressed s s'.

(** The number of occupied slots of a ring. *)
Definition occupied (d : list (option TimedSound.t)) : nat :=
  length (omap id d).

(** The same relation on channel sets. *)
Definition channels_advanced (a b : Channels.t) : Prop :=
  forall (c i : nat) (s' : TimedSound.t),
    slot_of b c i = Some (Some s') ->
    exists s, slot_of a c i = Some (Some s) /\ progressed s s'.

(** The invariant of the loop over the channels. *)
Record mixer_ok (len : Z) (m : mixer) : Prop := mk_mixer_ok {
  mo_wf : wf_channels (mx_channels m);
  mo_sounds : channels_ok len (mx_channels m);
  mo_out : Z.of_nat (length (mx_out m)) = 2 * len;
  mo_rates : exact_rates (Channels.samplerate (mx_channels m))
               (Channels.samplelen (mx_channels m))
}.

(** ** A sound alone in the channel set *)

(** Sample [i] of a sound's buffer. *)
Definition sample_at (s : TimedSound.t) (i : Z) : Z :=
  default 0 (TimedSound.buffer s !! Z.to_nat i).

(** Sample [j] of an output buffer. *)
Definition out_at (out : list Z) (j : Z) : Z :=
  default 0 (out !! Z.to_nat j).

(** One turn of the mixing loop on the output buffer: frame [outi] of the
    output receives frame [outi - zero_padding + offset] of the sound. *)
Definition add_frame (s : TimedSound.t) (offset zero_padding outi : Z)
    (out : list Z) : list Z :=
  <[Z.to_nat (2 * outi + 1) :=
      to_int16 (out_at out (2 * outi + 1)
                + sample_at s (outi - zero_padding + TimedSound.len s + offset))]>
    (<[Z.to_nat (2 * outi) :=
         to_int16 (out_at out (2 * outi)
                   + sample_at s (outi - zero_padding + offset))]> out).

(** Every sample of the sound fits an [Int16]. *)
Definition int16_samples (s : TimedSound.t) : Prop :=
  forall i : Z, - 2 ^ 15 <= sample_at s i < 2 ^ 15.

(** The output of one callback in which the sound is played from its
    frame [o], from the first frame of the buffer of [len] frames. *)
Definition burst_sample (s : TimedSound.t) (o : Z) (j : nat) : Z :=
  let frame := Z.of_nat j / 2 in
  let side := Z.of_nat j mod 2 in
  if frame <? TimedSound.len s - o then
    sample_at s (frame + o + side * TimedSound.len s)
  else 0.

Definition burst (s : TimedSound.t) (o len : Z) : list Z :=
  burst_sample s o <$> seq 0 (Z.to_nat (2 * len)).

(** No slot of any channel holds a sound. *)
Definition silent (chs : Channels.t) : Prop :=
  forall (c i : nat) (x : option TimedSound.t),
    slot_of chs c i = Some x -> x = None.

(** Channel [c] is not paused and has [s] at its consumer slot; no other
    slot of any channel holds a sound. *)
Definition solo (chs : Channels.t) (c : nat) (s : TimedSound.t) : Prop :=
  exists sounds : Sounds.t,
    Channels.data chs !! c = Some sounds /\
    Sounds.paused sounds = 0 /\
    Sounds.data sounds !! Z.to_nat (Sounds.consumer_index sounds)
      = Some (Some s) /\
    forall (c' i : nat) (x : TimedSound.t),
      slot_of chs c' i = Some (Some x) ->
      c' = c /\ i = Z.to_nat (Sounds.consumer_index sounds).

(** A channel of the set whose consumer slot is empty. *)
Definition idle (chs : Channels.t) (c : Z) : Prop :=
  exists sounds : Sounds.t,
    Channels.data chs !! Z.to_nat c = Some sounds /\
    Sounds.data sounds !! Z.to_nat (Sounds.consumer_index sounds) = Some None.

(** Two channel sets with the same rings, indices, flags, rates and
    recorded lateness: they differ at most in [done_at] and in the last
    buffer size and latency. *)
Definition same_slots (a b : Channels.t) : Prop :=
  length (Channels.data a) = length (Channels.data b) /\
  (forall (c : nat) (x : Sounds.t),
     Channels.data a !! c = Some x ->
     exists y, Channels.data b !! c = Some y /\ same_ring x y) /\
  Channels.len a = Channels.len b /\
  Channels.playback_error a = Channels.playback_error b /\
  Channels.samplerate a = Channels.samplerate b /\
  Channels.samplelen a = Channels.samplelen b.

(** The instant of the first frame of buffer [k], when buffers of [len]
    frames follow one another from instant [t0]. *)
Definition buffer_instant (t0 samplelen : Q) (len k : Z) : Q :=
  (t0 + inject_Z k * (samplelen * inject_Z len))%Q.

(** [n] consecutive invocations of the callback from buffer [k], each on
    the backend's buffer [out] of [len] frames and [latency] ahead of the
    current time; the outputs are put end to end. *)
Fixpoint play_buffers (n : nat) (out : list Z) (len : Z) (t0 latency : Q)
    (k : Z) (chs : Channels.t) : result (Channels.t * list Z) :=
  match n with
  | O => Ok (chs, [])
  | S n' =>
    let dac := buffer_instant t0 (Channels.samplelen chs) len k in
    r <- ws_callback out len dac (dac - latency)%Q chs ;;
    r' <- play_buffers n' out len t0 latency (k + 1) (fst r) ;;
    Ok (fst r', snd r ++ snd r')
  end.

(** Sample [j] of the output stream in which the sound [s] starts at frame
    [first] and nothing else plays: frame [j / 2], left or right as [j] is
    even or odd. *)
Definition stream_sample (s : TimedSound.t) (first : Z) (j : nat) : Z :=
  let frame := Z.of_nat j / 2 - first in
  if (0 <=? frame) && (frame <? TimedSound.len s) then
    sample_at s (frame + Z.of_nat j mod 2 * TimedSound.len s)
  else 0.

(** Where the only sound [s] of the set is when buffer [k] is about to be
    filled, if it starts with buffer [b]: untouched, or consumed up to the
    frames of the buffers since [b], or gone. *)
Definition phase (len b : Z) (c : nat) (s : TimedSound.t) (k : Z)
    (chs : Channels.t) : Prop :=
  (k <= b /\ solo chs c s) \/
  (b < k /\ (k - b) * len < TimedSound.len s /\
   solo chs c (TimedSound.set_offset s ((k - b) * len))) \/
  (b < k /\ TimedSound.len s <= (k - b) * len /\ silent chs).

(** ** Concrete states used to exercise the theorems *)

(** A sound of four frames: left samples 1..4, right samples 5..8. *)
Definition four_frames : Sound.t := Sound.mk [1; 2; 3; 4; 5; 6; 7; 8] 4.

(** A sound of two frames: left samples 10, 20, right samples 30, 40. *)
Definition two_frames : Sound.t := Sound.mk [10; 20; 30; 40] 2.

(** The state a call of [ws_setup] returns, for a call that returns. *)
Definition started (r : result WsState) : WsState :=
  match r with
  | Ok s => s
  | Fault _ => mkWsState paNoError 0 None false
  end.

(** A session of two one-shot and two streaming channels, four frames a
    second, rings of three slots. *)
Definition session : WsState :=
  started (ws_setup paNoError paNoError paNoError 4 2 3).

Definition state_of (r : result WsState) : WsState :=
  match r with
  | Ok s => s
  | Fault _ => session
  end.

Definition after_play (r : result (Z * WsState)) : WsState :=
  match r with
  | Ok (_, s) => s
  | Fault _ => session
  end.

Definition after_play_next (r : result (Q * WsState)) : WsState :=
  match r with
  | Ok (_, s) => s
  | Fault _ => session
  end.

Definition channels_of (state : WsState) : Channels.t :=
  match channels state with
  | Some chs => chs
  | None => newChannels 4 2 3
  end.

(** Streaming channel 0 paused before anything was played on it. *)
Definition paused_idle_stream : WsState := state_of (ws_pause session 0 1 TRUE).

(** Streaming channel 0 with one sound queued. *)
Definition streaming : WsState :=
  after_play_next (ws_play_next 8 8 0 four_frames session).

(** ... and then paused. *)
Definition paused_streaming : WsState := state_of (ws_pause streaming 0 1 TRUE).

(** Channel [c] of a state. *)
Definition channel_at (state : WsState) (c : nat) : Sounds.t :=
  default (newSounds 0) (Channels.data (channels_of state) !! c).

(** A session with a single one-shot channel whose ring has one slot. *)
Definition one_slot_session : WsState :=
  started (ws_setup paNoError paNoError paNoError 4 1 1).

(** ... with that slot taken. *)
Definition one_slot_full : WsState :=
  after_play (ws_play 8 8 9 0 four_frames one_slot_session).

(** Every channel of [session] paused (through the streaming branch of
    [ws_pause]). *)
Definition all_paused : WsState := state_of (ws_pause session (-1) 1 TRUE).

(** What libc prints for the value [x] of a [double] under ["%3.2f"]: a
    minus sign for a negative value, then the magnitude with two decimals,
    rounded to the nearest hundredth and, halfway between two, to the even
    one. *)
Definition format_fixed2 (x : Q) : string :=
  let y := (Qabs x * 100)%Q in
  let f := Qfloor y in
  let h :=
    match (y - inject_Z f ?= 1 # 2)%Q with
    | Lt => f
    | Gt => f + 1
    | Eq => if Z.even f then f else f + 1
    end in
  let digit (d : Z) : string :=
    String (ascii_of_nat (48 + Z.to_nat d)) EmptyString in
  ((if Qltb x 0 then "-" else "")
   ++ NilZero.string_of_uint (N.to_uint (Z.to_N (h / 100)))
   ++ "." ++ digit (h / 10 mod 10) ++ digit (h mod 10))%string.

(** [session] with a recorded lateness of five frames. *)
Definition late_session : WsState :=
  set_channels session
    (Some (Channels.set_playback_error (channels_of session) (-5))).

(** [session] with the lowest lateness an [int] holds. *)
Definition latest_session : WsState :=
  set_channels session
    (Some (Channels.set_playback_error (channels_of session) INT_MIN)).

(** One-shot channel 0 of [session] with a four-frame sound asked for at
    instant 27/4, five frames before instant 8. *)
Definition late_queued : WsState :=
  after_play (ws_play 8 8 (27 # 4) 0 four_frames session).

(** One-shot channel 0 of [session] with a four-frame sound asked for at
    instant 10. *)
Definition early_queued : WsState :=
  after_play (ws_play 8 8 10 0 four_frames session).

(** One-shot channel 0 with a four-frame sound due at instant 8 and one-shot
    channel 1 with a two-frame sound due at instant 9. *)
Definition two_queued : WsState :=
  after_play (ws_play 8 8 9 1 two_frames
                (after_play (ws_play 8 8 8 0 four_frames session))).

(** One-shot channel 1 alone with the two-frame sound due at instant 9. *)
Definition second_queued : WsState :=
  after_play (ws_play 8 8 9 1 two_frames session).

(** An output buffer of four frames with arbitrary content. *)
Definition stale_buffer : list Z := [9; 9; 9; 9; 9; 9; 9; 9].

Definition channels_after (r : result (Channels.t * list Z)) : Channels.t :=
  match r with
  | Ok (chs, _) => chs
  | Fault _ => newChannels 4 2 3
  end.

Definition output_of (r : result (Channels.t * list Z)) : list Z :=
  match r with
  | Ok (_, out) => out
  | Fault _ => []
  end.

(** A sound without frames. *)
Definition no_frames : Sound.t := Sound.mk [] 0.

(** One-shot channel 0 of [session] with the empty sound asked for at
    instant 10. *)
Definition empty_queued : WsState :=
  after_play (ws_play 8 8 10 0 no_frames session).

(** A sound of a hundred frames: left samples 1..100, right samples
    101..200. *)
Definition hundred_frames : Sound.t := Sound.mk (Z.of_nat <$> seq 1 200) 100.

(** A session at 64 frames a second with one one-shot channel, and the
    hundred-frame sound asked for at instant 9 on it. *)
Definition hundred_queued : WsState :=
  after_play
    (ws_play 8 8 9 0 hundred_frames
       (started (ws_setup paNoError paNoError paNoError 64 1 2))).

(** A backend buffer of 64 frames. *)
Definition buffer_64 : list Z := replicate 128 9.

(** ** Error text *)

Definition no_channels_text : string :=
  "All unpaused channels have full buffers.".
Definition unknown_prefix : string := "Unknown Error Code: ".

(** The decimal digits of [n], for [0 <= n < 10 ^ fuel]. *)
Fixpoint decimal (fuel : nat) (n : Z) : string :=
  match fuel with
  | O => EmptyString
  | S fuel' =>
    (if n <? 10 then EmptyString else decimal fuel' (n / 10))
    ++ String (ascii_of_nat (48 + Z.to_nat (n mod 10))) EmptyString
  end.

(** [k] characters ['0']. *)
Fixpoint zeros (k : nat) : string :=
  match k with
  | O => EmptyString
  | S k' => String "0"%char (zeros k')
  end.

(** The text of an [int] under the conversion ["%03d"]: the sign, if any,
    then the digits, with zeros in between up to a width of three. *)
Definition format_03d (v : Z) : string :=
  let sign : string := if v <? 0 then "-"%string else EmptyString in
  let digits := decimal 10 (Z.abs v) in
  sign ++ zeros (3 - String.length sign - String.length digits) ++ digits.

(** [sprintf] into an array of [size] characters: the text and its
    terminator must fit, writing past the array is undefined. *)
Definition sprintf (size : nat) (s : string) : result string :=
  if (String.length s <? size)%nat then Ok s else Fault OutOfBounds.

Section ErrorStr.
(** The text the backend gives for one of its error codes. *)
Variable Pa_GetErrorText : Z -> string.

(** [ws_error_str]; the state is only read. *)
Definition ws_error_str (state : WsState) : result string :=
  if negb (errcode state =? paNoError) then
    Ok (Pa_GetErrorText (errcode state))
  else if negb (weber_error state =? 0) then
    if weber_error state =? NO_CHANNELS then Ok no_channels_text
    else sprintf 25 (unknown_prefix ++ format_03d (weber_error state))
  else Ok EmptyString.
End ErrorStr.

(** ** Latency *)

(** [ws_cur_latency].  The quotient is the exact one, which is the C value
    up to rounding when [samplerate] is not zero; for a sample rate of zero
    the C value is not a number, and the rational 0 of the model stands for
    nothing. *)
Definition ws_cur_latency (state : WsState) : result Q :=
  chs <- deref (channels state) ;;
  Ok (inject_Z (Channels.last_buffer_size chs) / Channels.samplerate chs
      + Channels.last_latency chs)%Q.

(** ** Release *)

(** The loop of [freeSounds] from the consumer slot: the slots whose sound
    is passed to [free], in the order of the calls, and the ring as the loop
    leaves it. *)
Fixpoint free_queued (fuel : nat) (sounds : Sounds.t) (freed : list Z)
  : result (list Z * Sounds.t) :=
  slot <- array_get (Sounds.data sounds) (Sounds.consumer_index sounds) ;;
  match slot with
  | Some _ =>
    match fuel with
    | O => Fault OutOfFuel
    | S fuel' =>
      let old := Sounds.consumer_index sounds in
      d <- array_set (Sounds.data sounds) old None ;;
      let next := old + 1 in
      free_queued fuel'
        (Sounds.set_consumer_index (Sounds.set_data sounds d)
           (if next =? Sounds.len sounds then 0 else next))
        (freed ++ [old])
    end
  | None => Ok (freed, sounds)
  end.

(** [freeSounds]; the array of the ring is released after the loop, the
    result describes it as the loop leaves it. *)
Definition freeSounds (sounds : Sounds.t) : result (list Z * Sounds.t) :=
  free_queued (length (Sounds.data sounds)) sounds [].

(** The loop of [freeChannels], from channel [i]: for each channel in turn,
    the slots [freeSounds] released. *)
Fixpoint free_from (n : nat) (i : Z) (chs : Channels.t)
  : result (list (Z * list Z)) :=
  match n with
  | O => Ok []
  | S n' =>
    sounds <- array_get (Channels.data chs) i ;;
    r <- freeSounds sounds ;;
    rest <- free_from n' (i + 1) chs ;;
    Ok ((i, fst r) :: rest)
  end.

(** [freeChannels]; the channel array and the channel set are released
    after the loop. *)
Definition freeChannels (chs : Channels.t) : result (list (Z * list Z)) :=
  free_from (Z.to_nat (Channels.len chs)) 0 chs.

Definition set_errcode (state : WsState) (e : Z) : WsState :=
  mkWsState e (weber_error state) (channels state) (stream state).

(** [ws_close]: the return codes of [Pa_StopStream], [Pa_CloseStream] and
    [Pa_Terminate] are arguments.  The result is the state and the sounds
    released, channel by channel. *)
Definition ws_close (stop_code close_code terminate_code : Z)
    (state : WsState) : result (WsState * list (Z * list Z)) :=
  let state := set_errcode state stop_code in
  if negb (stop_code =? paNoError) then Ok (state, [])
  else
    let state := set_errcode state close_code in
    if negb (close_code =? paNoError) then Ok (state, [])
    else
      match channels state with
      | Some chs =>
        freed <- freeChannels chs ;;
        Ok (set_errcode (set_channels state None) terminate_code, freed)
      | None => Ok (set_errcode state terminate_code, [])
      end.

(** ** Vocabulary of the session properties *)

(** Channel [c] contributes nothing to a buffer: it is paused, or the slot
    at its consumer index is empty. *)
Definition quiet (chs : Channels.t) (c : Z) : Prop :=
  exists sounds : Sounds.t,
    Channels.data chs !! Z.to_nat c = Some sounds /\
    (Sounds.paused sounds <> 0 \/
     Sounds.data sounds !! Z.to_nat (Sounds.consumer_index sounds) = Some None).

(** The channel set with the [paused] flag of every channel set to
    [pause]. *)
Definition with_all_paused (chs : Channels.t) (pause : Z) : Channels.t :=
  Channels.set_data chs
    ((fun sounds => Sounds.set_paused sounds pause) <$> Channels.data chs).

(** What the loops over the channels never write: the size of the set, the
    two rates and the record of the last buffer. *)
Definition same_settings (a b : Channels.t) : Prop :=
  Channels.len a = Channels.len b /\
  Channels.last_buffer_size a = Channels.last_buffer_size b /\
  Channels.last_latency a = Channels.last_latency b /\
  Channels.samplerate a = Channels.samplerate b /\
  Channels.samplelen a = Channels.samplelen b.

(** ** The frame at which a sound is heard *)

(** The frame, counted from the first frame of the buffer that starts at
    [buffer_start], at which the callback starts an untouched sound: the
    frame of its start instant, or frame 0 for a sound to be played as soon
    as possible ([start <= 0]) and for one whose instant has passed. *)
Definition start_frame (buffer_start samplerate : Q) (s : TimedSound.t) : Z :=
  if Qltb 0 (TimedSound.start s) then
    Z.max 0 (Qfloor ((TimedSound.start s - buffer_start) * samplerate)%Q)
  else 0.

(** The lateness the callback records when it starts the sound in the
    buffer at [buffer_start]: the negative number of frames between the
    start instant and the buffer, or [error], the value recorded before, for
    a sound that is not late. *)
Definition lateness_of (buffer_start samplerate : Q) (s : TimedSound.t)
    (error : Z) : Z :=
  let frame := Qfloor ((TimedSound.start s - buffer_start) * samplerate)%Q in
  if Qltb 0 (TimedSound.start s) && (frame <? 0) then frame else error.

(** The output of one callback in which the sound is played from its frame
    [o], starting at frame [zero_padding] of a buffer of [len] frames. *)
Definition burst_at_sample (s : TimedSound.t) (o zero_padding : Z) (j : nat)
  : Z :=
  let frame := Z.of_nat j / 2 - zero_padding in
  let side := Z.of_nat j mod 2 in
  if (0 <=? frame) && (frame <? TimedSound.len s - o) then
    sample_at s (frame + o + side * TimedSound.len s)
  else 0.

Definition burst_at (s : TimedSound.t) (o zero_padding len : Z) : list Z :=
  burst_at_sample s o zero_padding <$> seq 0 (Z.to_nat (2 * len)).

(** Where the only sound [s] of the set is when [frames] frames have been
    output, if its first frame is frame [first] of the stream: untouched, or
    consumed up to the frames output since, or gone. *)
Definition heard (first frames : Z) (c : nat) (s : TimedSound.t)
    (chs : Channels.t) : Prop :=
  (frames <= first /\ solo chs c s) \/
  (first < frames /\ frames - first < TimedSound.len s /\
   solo chs c (TimedSound.set_offset s (frames - first))) \/
  (first < frames /\ TimedSound.len s <= frames - first /\ silent chs).

(** The sound at the head of a channel is under way, or it is to start in
    the buffer of [len] frames at [buffer_start]: as soon as possible, or at
    an instant before the end of the buffer. *)
Definition starts_now (len : Z) (buffer_start samplelen : Q)
    (s : TimedSound.t) : Prop :=
  0 < TimedSound.offset s \/
  (TimedSound.offset s = 0 /\
   ((TimedSound.start s <= 0)%Q \/
    (TimedSound.start s < buffer_start + samplelen * inject_Z len)%Q)).

(** The frame of the buffer at which such a sound goes on or starts. *)
Definition padding_of (buffer_start samplerate : Q) (s : TimedSound.t) : Z :=
  if TimedSound.offset s =? 0 then start_frame buffer_start samplerate s
  else 0.

(** The lateness recorded once the callback has dealt with such a sound. *)
Definition error_after (buffer_start samplerate : Q) (s : TimedSound.t)
    (error : Z) : Z :=
  if TimedSound.offset s =? 0 then lateness_of buffer_start samplerate s error
  else error.

(** ** Further concrete states *)

(** One-shot channel 1 of [session] with the two-frame sound asked for at
    instant 35/4, three frames after instant 8. *)
Definition offbeat_queued : WsState :=
  after_play (ws_play 8 8 (35 # 4) 1 two_frames session).

(** ** The ring discipline and the life of a session *)

(** Slot [i] of the ring holds a sound. *)
Definition taken (sounds : Sounds.t) (i : Z) : Prop :=
  exists x : TimedSound.t, Sounds.data sounds !! Z.to_nat i = Some (Some x).

(** The ring discipline: the sounds of the channel sit in the [queued] slots
    that follow the consumer index round the ring, in the order in which the
    callback reaches them, and the producer index is the slot after the last
    of them. *)
Definition fifo (sounds : Sounds.t) : Prop :=
  exists queued : Z,
    0 <= queued <= Sounds.len sounds /\
    Sounds.producer_index sounds
      = (Sounds.consumer_index sounds + queued) mod Sounds.len sounds /\
    forall j : Z,
      0 <= j < Sounds.len sounds ->
      taken sounds ((Sounds.consumer_index sounds + j) mod Sounds.len sounds)
      <-> j < queued.

(** A channel set whose channels are well formed and keep the discipline. *)
Definition rings_ok (chs : Channels.t) : Prop :=
  wf_channels chs /\
  forall (c : nat) (sounds : Sounds.t),
    Channels.data chs !! c = Some sounds -> fifo sounds.

(** The producer slot of channel [c] is empty. *)
Definition room_on (chs : Channels.t) (c : Z) : Prop :=
  exists sounds : Sounds.t,
    Channels.data chs !! Z.to_nat c = Some sounds /\
    Sounds.data sounds !! Z.to_nat (Sounds.producer_index sounds) = Some None.

(** One event of a session that leaves its state usable: a call of an
    entry point that returns, or an invocation of the callback that
    returns.  A caller who names the channel of [ws_play] is taken to do so
    only when the producer slot of that channel is empty, which [ws_play]
    does not check. *)
Inductive step : WsState -> WsState -> Prop :=
| step_play (pa_now now playat : Q) (channel : Z) (toplay : Sound.t)
    (state state' : WsState) (r : Z) :
    (0 <= channel ->
     exists chs, channels state = Some chs /\ room_on chs channel) ->
    ws_play pa_now now playat channel toplay state = Ok (r, state') ->
    step state state'
| step_play_next (pa_now now : Q) (channel : Z) (toplay : Sound.t)
    (state state' : WsState) (r : Q) :
    ws_play_next pa_now now channel toplay state = Ok (r, state') ->
    step state state'
| step_pause (channel isstream pause : Z) (state state' : WsState) :
    ws_pause state channel isstream pause = Ok state' ->
    step state state'
| step_warn (format : Q -> string) (state : WsState) :
    step state (snd (ws_warn_str format state))
| step_callback (out : list Z) (len : Z)
    (outputBufferDacTime currentTime : Q) (state : WsState)
    (chs chs' : Channels.t) (out' : list Z) :
    channels state = Some chs ->
    ws_callback out len outputBufferDacTime currentTime chs = Ok (chs', out') ->
    step state (set_channels state (Some chs')).

(** The states a session goes through after a successful [ws_setup]. *)
Inductive reachable (samplerate num_channels queue_size : Z)
  : WsState -> Prop :=
| reach_setup (state : WsState) :
    ws_setup paNoError paNoError paNoError samplerate num_channels queue_size
      = Ok state ->
    reachable samplerate num_channels queue_size state
| reach_step (state state' : WsState) :
    reachable samplerate num_channels queue_size state ->
    step state state' ->
    reachable samplerate num_channels queue_size state'.

(** What every state of a session satisfies: no backend error, an own
    error that is 0 or [NO_CHANNELS], and a channel set that keeps the ring
    discipline. *)
Definition session_ok (state : WsState) : Prop :=
  errcode state = paNoError /\
  (weber_error state = 0 \/ weber_error state = NO_CHANNELS) /\
  exists chs : Channels.t, channels state = Some chs /\ rings_ok chs.

(** [session] after an automatic [ws_play] that found every channel
    paused. *)
Definition refused : WsState :=
  after_play (ws_play 8 8 9 (-1) four_frames all_paused).


(** ** Two sounds in a row on one channel *)

(** Channel [c] is not paused, has [s1] at its consumer slot and [s2] at
    the slot after it; no other slot of any channel holds a sound. *)
Definition duo (chs : Channels.t) (c : nat) (s1 s2 : TimedSound.t) : Prop :=
  exists sounds : Sounds.t,
    let head := Z.to_nat (Sounds.consumer_index sounds) in
    let next :=
      Z.to_nat ((Sounds.consumer_index sounds + 1) mod Sounds.len sounds) in
    Channels.data chs !! c = Some sounds /\
    Sounds.paused sounds = 0 /\
    head <> next /\
    Sounds.data sounds !! head = Some (Some s1) /\
    Sounds.data sounds !! next = Some (Some s2) /\
    forall (c' i : nat) (x : TimedSound.t),
      slot_of chs c' i = Some (Some x) -> c' = c /\ (i = head \/ i = next).

(** A sound as [ws_play_next] enqueues it, with at least one frame:
    untouched, and to be played as soon as possible. *)
Definition streamed (s : TimedSound.t) : Prop :=
  TimedSound.offset s = 0 /\ (TimedSound.start s <= 0)%Q /\
  0 < TimedSound.len s.

(** A sound the callback goes on with, or starts, at the first frame of
    the next buffer: it is under way, or untouched and to be played as soon
    as possible. *)
Definition on_air (s : TimedSound.t) : Prop :=
  0 < TimedSound.offset s \/
  (TimedSound.offset s = 0 /\ (TimedSound.start s <= 0)%Q).

(** The output of one callback in which [s1] is played from its frame [o]
    on and [s2] from its first frame on, right after the last frame of
    [s1]. *)
Definition relay_sample (s1 s2 : TimedSound.t) (o : Z) (j : nat) : Z :=
  burst_at_sample s1 o 0 j + burst_at_sample s2 0 (TimedSound.len s1 - o) j.

Definition relay_burst (s1 s2 : TimedSound.t) (o len : Z) : list Z :=
  relay_sample s1 s2 o <$> seq 0 (Z.to_nat (2 * len)).

(** Sample [j] of the output stream in which [s1] goes on from the frame
    it has reached and [s2] follows its last frame without a gap. *)
Definition chained_sample (s1 s2 : TimedSound.t) (j : nat) : Z :=
  stream_sample s1 (- TimedSound.offset s1) j
  + stream_sample s2 (TimedSound.len s1 - TimedSound.offset s1) j.

(** Where the two sounds are when [frames] frames have been output: the
    first under way with the second behind it, or the second alone, or
    both gone. *)
Definition relayed (frames : Z) (c : nat) (s1 s2 : TimedSound.t)
    (chs : Channels.t) : Prop :=
  let at1 := TimedSound.offset s1 + frames in
  let at2 := at1 - TimedSound.len s1 in
  (at1 < TimedSound.len s1 /\ duo chs c (TimedSound.set_offset s1 at1) s2) \/
  (0 <= at2 < TimedSound.len s2 /\
   solo chs c (TimedSound.set_offset s2 at2)) \/
  (TimedSound.len s2 <= at2 /\ silent chs).

(** Streaming channel 0 of [session] with the four-frame sound and, behind
    it, the two-frame sound. *)
Definition two_streamed : WsState :=
  after_play_next (ws_play_next 8 8 0 two_frames streaming).

(** ** Several channels at once *)

(** What a channel adds to sample [j] of the next buffer when the sound at
    its consumer slot is on air: the sample of the frame the sound has
    reached, and nothing if the channel is paused or the slot is empty. *)
Definition voice (sounds : Sounds.t) (j : nat) : Z :=
  if negb (Sounds.paused sounds =? 0) then 0
  else
    match Sounds.data sounds !! Z.to_nat (Sounds.consumer_index sounds) with
    | Some (Some s) => burst_at_sample s (TimedSound.offset s) 0 j
    | _ => 0
    end.

(** The sum of what the channels add to sample [j]. *)
Definition chorus (channels : list Sounds.t) (j : nat) : Z :=
  foldr Z.add 0 ((fun sounds => voice sounds j) <$> channels).

(** A channel that is paused, or whose ring holds no sound but, at the
    consumer slot, one that is on air and not at its end. *)
Definition one_voice (len : Z) (sounds : Sounds.t) : Prop :=
  Sounds.paused sounds <> 0 \/
  forall (i : nat) (s : TimedSound.t),
    Sounds.data sounds !! i = Some (Some s) ->
    i = Z.to_nat (Sounds.consumer_index sounds) /\
    on_air s /\ sound_ok len s /\ TimedSound.offset s < TimedSound.len s.

(** Streaming channel 0 of [session] with the four-frame sound and
    streaming channel 1 with the two-frame sound. *)
Definition two_voices : WsState :=
  after_play_next (ws_play_next 8 8 1 two_frames streaming).

(** ** Sessions whose sounds fit the callback *)




(** ** A sound that has to wait for the one before it *)

(** A sound that the loop of a channel starts at frame [outi] of the
    buffer at [buffer_start] when it comes to it there: it is untouched,
    has at least one frame, and is to be played as soon as possible or was
    due at a frame before [outi]. *)
Definition follows (buffer_start samplerate : Q) (outi : Z)
    (s : TimedSound.t) : Prop :=
  TimedSound.offset s = 0 /\ 0 < TimedSound.len s /\
  ((TimedSound.start s <= 0)%Q \/
   Qfloor ((TimedSound.start s - buffer_start) * samplerate)%Q < outi).

(** The lateness recorded when such a sound starts at frame [outi]: the
    negative number of frames from [outi] back to the frame at which it was
    due, or [error], the value recorded before, for a sound to be played as
    soon as possible. *)
Definition lateness_at (buffer_start samplerate : Q) (outi : Z)
    (s : TimedSound.t) (error : Z) : Z :=
  if Qltb 0 (TimedSound.start s) then
    Qfloor ((TimedSound.start s - buffer_start) * samplerate)%Q - outi
  else error.

(** One-shot channel 0 of [session] with the four-frame sound to be played
    as soon as possible and, behind it, the two-frame sound asked for at
    instant 33/4, one frame after instant 8. *)
Definition overlapping : WsState :=
  after_play
    (ws_play 8 8 (33 # 4) 0 two_frames
       (after_play (ws_play 8 8 0 0 four_frames session))).

(** ** Where the arithmetic on [double]s is exact *)

(** The finite values of a [double]: [m * 2 ^ e] with a mantissa of at most
    53 bits and an exponent of the binary64 format. *)
Definition binary64 (x : Q) : Prop :=
  exists m e : Z,
    Z.abs m < 2 ^ 53 /\ -1074 <= e <= 971 /\ (x == inject_Z m * 2 ^ e)%Q.

(** The start instant [ws_play] computes is exact: the three instants are
    [double]s and so are the difference and the sum, which rounding then
    leaves as they are. *)
Definition exact_start (pa_now now playat : Q) : Prop :=
  binary64 pa_now /\ binary64 now /\ binary64 playat /\
  binary64 (pa_now - now) /\ binary64 ((pa_now - now) + playat).

(** The timing arithmetic of the callback is exact for a sound with start
    instant [start] that the loop of a channel meets, untouched, at frame
    [outi] of the buffer of [len] frames at [buffer_start]: the operands are
    [double]s, and so is every intermediate result on the way to the frame
    the sound is due at, which rounding then leaves as it is; that frame
    and the lateness [playback_error] may be given are in the range of
    [int].  With [samplelen * samplerate == 1] this makes the sample rate a
    power of two. *)
Definition exact_timing (len outi : Z)
    (buffer_start samplerate samplelen start : Q) : Prop :=
  binary64 buffer_start /\ binary64 samplerate /\ binary64 samplelen /\
  binary64 start /\
  ((0 < start)%Q ->
   binary64 (samplelen * inject_Z len) /\
   binary64 (buffer_start + samplelen * inject_Z len) /\
   ((start < buffer_start + samplelen * inject_Z len)%Q ->
    binary64 (start - buffer_start) /\
    binary64 ((start - buffer_start) * samplerate) /\
    INT_MIN <= Qfloor ((start - buffer_start) * samplerate)%Q <= INT_MAX /\
    INT_MIN <= Qfloor ((start - buffer_start) * samplerate)%Q - outi)).

(** The arithmetic of [ws_warn_str] on a lateness of [late] frames is
    exact: the negation stays in the range of [int], and the latency in
    seconds and in milliseconds are [double]s. *)
Definition exact_warning (late : Z) (samplelen : Q) : Prop :=
  INT_MIN < late /\
  binary64 (inject_Z (- late) * samplelen) /\
  binary64 (inject_Z (- late) * samplelen * 1000).

(** ** A sound under way *)

(** ** Arrays *)

Lemma array_get_ok {A : Type} (a : list A) (i : Z) (x : A) :
  0 <= i -> a !! Z.to_nat i = Some x -> array_get a i = Ok x.
Proof.
  intros Hi Hx. unfold array_get.
  destruct (Z.leb_spec 0 i); [|lia]. now rewrite Hx.
Qed.

Lemma array_get_inv {A : Type} (a : list A) (i : Z) (x : A) :
  array_get a i = Ok x -> 0 <= i /\ a !! Z.to_nat i = Some x.
Proof.
  unfold array_get. destruct (Z.leb_spec 0 i); [|discriminate].
  destruct (a !! Z.to_nat i); [|discriminate].
  intros [= ->]. split; [assumption|reflexivity].
Qed.

Lemma array_get_negative {A : Type} (a : list A) (i : Z) :
  i < 0 -> array_get a i = Fault OutOfBounds.
Proof.
  intros Hi. unfold array_get. destruct (Z.leb_spec 0 i); [lia|reflexivity].
Qed.

Lemma array_set_ok {A : Type} (a : list A) (i : Z) (x : A) :
  0 <= i < Z.of_nat (length a) ->
  array_set a i x = Ok (<[Z.to_nat i := x]> a).
Proof.
  intros Hi. unfold array_set.
  destruct (Z.leb_spec 0 i); [|lia].
  destruct (Z.ltb_spec i (Z.of_nat (length a))); [reflexivity|lia].
Qed.

Lemma array_set_inv {A : Type} (a b : list A) (i : Z) (x : A) :
  array_set a i x = Ok b ->
  0 <= i < Z.of_nat (length a) /\ b = <[Z.to_nat i := x]> a.
Proof.
  unfold array_set.
  destruct (Z.leb_spec 0 i); [|discriminate].
  destruct (Z.ltb_spec i (Z.of_nat (length a))); [|discriminate].
  intros [= <-]. split; [lia|reflexivity].
Qed.

Lemma lookup_in_range {A : Type} (a : list A) (i : Z) (x : A) :
  0 <= i -> a !! Z.to_nat i = Some x -> 0 <= i < Z.of_nat (length a).
Proof.
  intros Hi Hx. apply lookup_lt_Some in Hx. lia.
Qed.

Lemma in_range_lookup {A : Type} (a : list A) (i : Z) :
  0 <= i < Z.of_nat (length a) -> exists x, a !! Z.to_nat i = Some x.
Proof.
  intros Hi. apply lookup_lt_is_Some. lia.
Qed.

Lemma wf_channel_lookup (chs : Channels.t) (c : nat) (sounds : Sounds.t) :
  wf_channels chs -> Channels.data chs !! c = Some sounds -> wf_sounds sounds.
Proof.
  intros [_ Hall] Hc. rewrite Forall_lookup in Hall. exact (Hall c sounds Hc).
Qed.

Lemma push_sound_ok (sounds : Sounds.t) (sound : TimedSound.t) :
  wf_sounds sounds -> push_sound sounds sound = Ok (pushed sounds sound).
Proof.
  intros [Hcap Hci Hpi]. unfold push_sound, pushed.
  rewrite array_set_ok by lia. cbn.
  unfold Sounds.set_producer_index, Sounds.set_data. cbn. do 2 f_equal.
  destruct (Z.eqb_spec (Sounds.producer_index sounds + 1) (Sounds.len sounds))
    as [E|E].
  - rewrite E, Z.mod_same by lia. reflexivity.
  - rewrite Z.mod_small by lia. reflexivity.
Qed.

Lemma put_channel_ok (chs : Channels.t) (c : Z) (old sounds : Sounds.t) :
  0 <= c -> Channels.data chs !! Z.to_nat c = Some old ->
  put_channel chs c sounds = Ok (with_channel chs c sounds).
Proof.
  intros Hc Hold. unfold put_channel, with_channel.
  rewrite array_set_ok by eauto using lookup_in_range. reflexivity.
Qed.

Lemma with_channel_same (chs : Channels.t) (c : Z) (sounds : Sounds.t) :
  Channels.data chs !! Z.to_nat c = Some sounds -> with_channel chs c sounds = chs.
Proof.
  intros Hc. unfold with_channel. rewrite list_insert_id by assumption.
  now destruct chs.
Qed.

Lemma set_channels_same (state : WsState) (chs : Channels.t) :
  channels state = Some chs -> set_channels state (Some chs) = state.
Proof.
  intros H. destruct state. cbn in *. now subst.
Qed.

Lemma wf_sounds_set_slot (sounds : Sounds.t) (i : nat) (x : option TimedSound.t) :
  wf_sounds sounds -> wf_sounds (Sounds.set_data sounds (<[i := x]> (Sounds.data sounds))).
Proof.
  intros [Hcap Hci Hpi]. split; cbn; rewrite ?length_insert; assumption.
Qed.

Lemma wf_sounds_set_paused (sounds : Sounds.t) (p : Z) :
  wf_sounds sounds -> wf_sounds (Sounds.set_paused sounds p).
Proof. intros [Hcap Hci Hpi]. split; assumption. Qed.

Lemma wf_half_nonneg (chs : Channels.t) :
  wf_channels chs -> 0 <= Channels.len chs ÷ 2.
Proof.
  intros [Hlen _]. apply Z.quot_pos; lia.
Qed.

(** ** Streaming enqueue *)

Lemma interrupt_paused_ok (sounds : Sounds.t) (s : TimedSound.t) :
  wf_sounds sounds ->
  Sounds.paused sounds <> 0 ->
  Sounds.data sounds !! Z.to_nat (Sounds.consumer_index sounds) = Some (Some s) ->
  interrupt_paused sounds =
    Ok (Sounds.set_paused
          (Sounds.set_data sounds
             (<[Z.to_nat (Sounds.consumer_index sounds) :=
                  Some (TimedSound.set_offset s (TimedSound.len s))]>
                (Sounds.data sounds)))
          FALSE).
Proof.
  intros [Hcap Hci Hpi] Hp Hs. unfold interrupt_paused.
  destruct (Z.eqb_spec (Sounds.paused sounds) 0) as [E|_]; [contradiction|].
  cbn. rewrite (array_get_ok _ _ _ (proj1 Hci) Hs). cbn.
  rewrite array_set_ok by lia. reflexivity.
Qed.

Lemma interrupt_paused_unpaused (sounds : Sounds.t) :
  Sounds.paused sounds = 0 -> interrupt_paused sounds = Ok sounds.
Proof.
  intros Hp. unfold interrupt_paused. now rewrite Hp.
Qed.

(** C10. A paused streaming channel whose consumer slot is empty makes
    [ws_play_next] dereference the null slot: the call ends in the
    null-dereference fault, whatever sound is passed.  Pausing a streaming
    channel before anything was queued on it reaches such a state. *)
Theorem ws_play_next_null_head
    (pa_now now : Q) (channel : Z) (toplay : Sound.t) (state : WsState)
    (chs : Channels.t) (sounds : Sounds.t) :
  channels state = Some chs ->
  0 <= Channels.len chs ÷ 2 + channel ->
  Channels.data chs !! Z.to_nat (Channels.len chs ÷ 2 + channel) = Some sounds ->
  Sounds.paused sounds <> 0 ->
  0 <= Sounds.consumer_index sounds ->
  Sounds.data sounds !! Z.to_nat (Sounds.consumer_index sounds) = Some None ->
  ws_play_next pa_now now channel toplay state = Fault NullDeref.
Proof.
  intros Hchs Hc Hsounds Hp Hci Hhead. unfold ws_play_next.
  rewrite Hchs. cbn. rewrite (array_get_ok _ _ _ Hc Hsounds). cbn.
  unfold interrupt_paused.
  destruct (Z.eqb_spec (Sounds.paused sounds) 0) as [E|_]; [contradiction|].
  cbn. rewrite (array_get_ok _ _ _ Hci Hhead). reflexivity.
Qed.

Lemma ws_play_next_null_head_witness :
  ws_play_next 8 8 0 four_frames paused_idle_stream = Fault NullDeref.
Proof.
  apply (ws_play_next_null_head 8 8 0 four_frames paused_idle_stream
           (channels_of paused_idle_stream)
           (Sounds.set_paused (newSounds 2) TRUE)).
  - reflexivity.
  - vm_compute. discriminate.
  - reflexivity.
  - vm_compute. discriminate.
  - vm_compute. discriminate.
  - reflexivity.
Defined.

(** C6. On a paused streaming channel with a sound at its consumer slot,
    [ws_play_next] first marks that sound as consumed to its end and
    unpauses the channel; the channel it then considers for the new sound,
    and the channel it leaves behind, hold the completed sound at the
    consumer slot and are not paused. *)
Theorem ws_play_next_force_completes
    (pa_now now : Q) (channel : Z) (toplay : Sound.t) (state : WsState)
    (chs : Channels.t) (sounds : Sounds.t) (s : TimedSound.t) :
  channels state = Some chs ->
  wf_channels chs ->
  0 <= channel ->
  Channels.data chs !! Z.to_nat (Channels.len chs ÷ 2 + channel) = Some sounds ->
  Sounds.paused sounds <> 0 ->
  Sounds.data sounds !! Z.to_nat (Sounds.consumer_index sounds) = Some (Some s) ->
  let finished := TimedSound.set_offset s (TimedSound.len s) in
  let head := Z.to_nat (Sounds.consumer_index sounds) in
  TimedSound.offset finished = TimedSound.len s /\
  interrupt_paused sounds =
    Ok (Sounds.set_paused
          (Sounds.set_data sounds (<[head := Some finished]> (Sounds.data sounds)))
          FALSE) /\
  exists (r : Q) (chs' : Channels.t) (sounds' : Sounds.t),
    ws_play_next pa_now now channel toplay state
      = Ok (r, set_channels state (Some chs')) /\
    Channels.data chs' !! Z.to_nat (Channels.len chs ÷ 2 + channel) = Some sounds' /\
    Sounds.paused sounds' = 0 /\
    Sounds.consumer_index sounds' = Sounds.consumer_index sounds /\
    Sounds.data sounds' !! head = Some (Some finished).
Proof.
  intros Hchs Hwf Hchan Hsounds Hp Hs finished head.
  pose proof (wf_half_nonneg chs Hwf) as Hhalf.
  assert (Hc : 0 <= Channels.len chs ÷ 2 + channel) by lia.
  pose proof (wf_channel_lookup _ _ _ Hwf Hsounds) as Hws.
  pose proof (interrupt_paused_ok sounds s Hws Hp Hs) as Hint.
  split; [reflexivity|]. split; [exact Hint|].
  fold head finished in Hint.
  set (mid := Sounds.set_paused _ _) in Hint.
  assert (Hmid : wf_sounds mid)
    by (apply wf_sounds_set_paused, wf_sounds_set_slot, Hws).
  assert (Hhead : Sounds.data mid !! head = Some (Some finished)).
  { apply list_lookup_insert_eq. apply lookup_lt_Some in Hs. exact Hs. }
  destruct (in_range_lookup (Sounds.data mid) (Sounds.producer_index mid))
    as [slot Hslot].
  { destruct Hmid as [Hcap _ Hpi]. lia. }
  assert (Hin : (Z.to_nat (Channels.len chs ÷ 2 + channel)
                 < length (Channels.data chs))%nat)
    by (apply lookup_lt_Some in Hsounds; exact Hsounds).
  unfold ws_play_next. rewrite Hchs. cbn [deref bind].
  rewrite (array_get_ok _ _ _ Hc Hsounds). cbn [bind]. rewrite Hint.
  cbn [bind].
  rewrite (array_get_ok _ _ _ (proj1 (wf_producer _ Hmid)) Hslot). cbn [bind].
  destruct slot as [old|].
  - rewrite (put_channel_ok _ _ _ _ Hc Hsounds). cbn [bind].
    eexists _, _, mid. split; [reflexivity|].
    split; [apply list_lookup_insert_eq; exact Hin|].
    split; [reflexivity|]. split; [reflexivity|exact Hhead].
  - rewrite (push_sound_ok _ _ Hmid). cbn [bind].
    rewrite (put_channel_ok _ _ _ _ Hc Hsounds). cbn [bind].
    eexists _, _, _. split; [reflexivity|].
    split; [apply list_lookup_insert_eq; exact Hin|].
    split; [reflexivity|]. split; [reflexivity|].
    unfold pushed. cbn [Sounds.data].
    rewrite list_lookup_insert_ne; [apply Hhead|].
    intros E. replace (Z.to_nat (Sounds.producer_index mid)) with head in Hslot
      by exact (eq_sym E).
    congruence.
Qed.

(** Well-formedness of a concrete state, by evaluation. *)
Ltac wf_sounds_by_compute :=
  split; cbn; first [reflexivity | lia].
Ltac wf_channels_by_compute :=
  split;
  [ reflexivity
  | vm_compute; repeat (constructor; [wf_sounds_by_compute|]); constructor ].

Lemma ws_play_next_force_completes_witness :
  exists (r : Q) (chs' : Channels.t) (sounds' : Sounds.t),
    ws_play_next 9 9 0 two_frames paused_streaming
      = Ok (r, set_channels paused_streaming (Some chs')) /\
    Channels.data chs' !! 2%nat = Some sounds' /\
    Sounds.paused sounds' = 0 /\
    Sounds.consumer_index sounds' = 0 /\
    Sounds.data sounds' !! 0%nat
      = Some (Some (TimedSound.mk [1; 2; 3; 4; 5; 6; 7; 8] (-1) 4 4)).
Proof.
  refine (proj2 (proj2
    (ws_play_next_force_completes 9 9 0 two_frames paused_streaming
       (channels_of paused_streaming) (channel_at paused_streaming 2)
       (newTimedSound four_frames (-1)) _ _ _ _ _ _))).
  - reflexivity.
  - wf_channels_by_compute.
  - lia.
  - reflexivity.
  - vm_compute. discriminate.
  - reflexivity.
Defined.

(** C7. On a streaming channel that is not paused, [ws_play_next] with an
    empty producer slot stores the new sound there with the start value -1
    (as soon as possible), advances the producer index round the ring and
    returns [done_at + len * samplelen] moved to the caller's clock, that
    is, minus [pa_now - now]; with an occupied producer slot it returns -1
    and the state is the one it was given. *)
Theorem ws_play_next_unpaused
    (pa_now now : Q) (channel : Z) (toplay : Sound.t) (state : WsState)
    (chs : Channels.t) (sounds : Sounds.t) :
  channels state = Some chs ->
  wf_channels chs ->
  0 <= channel ->
  Channels.data chs !! Z.to_nat (Channels.len chs ÷ 2 + channel) = Some sounds ->
  Sounds.paused sounds = 0 ->
  (Sounds.data sounds !! Z.to_nat (Sounds.producer_index sounds) = Some None ->
   exists finish : Q,
     ws_play_next pa_now now channel toplay state
       = Ok (finish,
             set_channels state
               (Some (with_channel chs (Channels.len chs ÷ 2 + channel)
                        (pushed sounds
                           (TimedSound.mk (Sound.buffer toplay) (-1) 0
                              (Sound.len toplay)))))) /\
     (finish ==
        Sounds.done_at sounds + inject_Z (Sound.len toplay) * Channels.samplelen chs
        - (pa_now - now))%Q) /\
  (forall old : TimedSound.t,
     Sounds.data sounds !! Z.to_nat (Sounds.producer_index sounds) = Some (Some old) ->
     ws_play_next pa_now now channel toplay state = Ok ((-1)%Q, state)).
Proof.
  intros Hchs Hwf Hchan Hsounds Hp.
  pose proof (wf_half_nonneg chs Hwf) as Hhalf.
  assert (Hc : 0 <= Channels.len chs ÷ 2 + channel) by lia.
  pose proof (wf_channel_lookup _ _ _ Hwf Hsounds) as Hws.
  split.
  - intros Hslot. eexists. split.
    + unfold ws_play_next. rewrite Hchs. cbn [deref bind].
      rewrite (array_get_ok _ _ _ Hc Hsounds). cbn [bind].
      rewrite (interrupt_paused_unpaused _ Hp). cbn [bind].
      rewrite (array_get_ok _ _ _ (proj1 (wf_producer _ Hws)) Hslot).
      cbn [bind].
      rewrite (push_sound_ok _ _ Hws). cbn [bind].
      rewrite (put_channel_ok _ _ _ _ Hc Hsounds). cbn [bind].
      reflexivity.
    + ring.
  - intros old Hslot.
    unfold ws_play_next. rewrite Hchs. cbn [deref bind].
    rewrite (array_get_ok _ _ _ Hc Hsounds). cbn [bind].
    rewrite (interrupt_paused_unpaused _ Hp). cbn [bind].
    rewrite (array_get_ok _ _ _ (proj1 (wf_producer _ Hws)) Hslot).
    cbn [bind].
    rewrite (put_channel_ok _ _ _ _ Hc Hsounds). cbn [bind].
    rewrite (with_channel_same _ _ _ Hsounds).
    rewrite (set_channels_same _ _ Hchs). reflexivity.
Qed.

Lemma ws_play_next_unpaused_witness :
  (exists finish : Q,
     ws_play_next 8 6 1 two_frames streaming
       = Ok (finish,
             set_channels streaming
               (Some (with_channel (channels_of streaming) 3
                        (pushed (newSounds 2)
                           (TimedSound.mk [10; 20; 30; 40] (-1) 0 2))))) /\
     (finish == 0 + inject_Z 2 * (1 / inject_Z 4) - (8 - 6))%Q) /\
  ws_play_next 8 6 0 two_frames
    (after_play_next (ws_play_next 8 6 0 two_frames streaming))
  = Ok ((-1)%Q, after_play_next (ws_play_next 8 6 0 two_frames streaming)).
Proof.
  split.
  - refine (proj1
      (ws_play_next_unpaused 8 6 1 two_frames streaming
         (channels_of streaming) (newSounds 2) _ _ _ _ _) _);
      first [reflexivity | lia | wf_channels_by_compute].
  - refine (proj2
      (ws_play_next_unpaused 8 6 0 two_frames
         (after_play_next (ws_play_next 8 6 0 two_frames streaming))
         (channels_of (after_play_next (ws_play_next 8 6 0 two_frames streaming)))
         (channel_at (after_play_next (ws_play_next 8 6 0 two_frames streaming)) 2)
         _ _ _ _ _) (newTimedSound four_frames (-1)) _);
      first [reflexivity | lia | wf_channels_by_compute].
Defined.

(** ** Explicit-channel enqueue *)

(** With an explicit channel [ws_play] never looks at the producer slot: it
    stores the new sound there and advances the index, whatever the slot
    held. *)
Lemma ws_play_explicit_stores
    (pa_now now playat : Q) (channel : Z) (toplay : Sound.t) (state : WsState)
    (chs : Channels.t) (sounds : Sounds.t) :
  channels state = Some chs ->
  wf_channels chs ->
  0 <= channel ->
  Channels.data chs !! Z.to_nat channel = Some sounds ->
  ws_play pa_now now playat channel toplay state
    = Ok (channel,
          set_channels state
            (Some (with_channel chs channel
                     (pushed sounds
                        (newTimedSound toplay ((pa_now - now) + playat)%Q))))).
Proof.
  intros Hchs Hwf Hc Hsounds.
  pose proof (wf_channel_lookup _ _ _ Hwf Hsounds) as Hws.
  unfold ws_play. rewrite Hchs. cbn [deref bind].
  destruct (Z.ltb_spec channel 0); [lia|]. cbn [bind].
  destruct (Z.ltb_spec channel 0); [lia|].
  rewrite (array_get_ok _ _ _ Hc Hsounds). cbn [bind].
  rewrite (push_sound_ok _ _ Hws). cbn [bind].
  rewrite (put_channel_ok _ _ _ _ Hc Hsounds). reflexivity.
Qed.

(** C3. An enqueue on an explicit channel must fail when the producer slot
    is taken, and must not overwrite it.  [ws_play] does not behave so: on
    channel 0 of a session whose ring has one slot, already taken by a
    four-frame sound, [ws_play] with the explicit channel 0 returns 0, not a
    failure value, and the slot now holds the new two-frame sound. *)
Theorem ws_play_overwrites_occupied_slot :
  slot_of (channels_of one_slot_full) 0 0
    = Some (Some (TimedSound.mk [1; 2; 3; 4; 5; 6; 7; 8] ((8 - 8) + 9) 0 4)) /\
  Sounds.producer_index (channel_at one_slot_full 0) = 0 /\
  exists state' : WsState,
    ws_play 8 8 10 0 two_frames one_slot_full = Ok (0, state') /\
    slot_of (channels_of state') 0 0
      = Some (Some (TimedSound.mk [10; 20; 30; 40] ((8 - 8) + 10) 0 2)).
Proof.
  split; [reflexivity|]. split; [reflexivity|].
  eexists. split; reflexivity.
Qed.

(** ** Automatic channel choice *)

Lemma Qltb_true (a b : Q) : Qltb a b = true -> (a < b)%Q.
Proof.
  unfold Qltb. intros H. apply negb_true_iff in H.
  apply Qnot_le_lt. intros Hle. apply Qle_bool_iff in Hle. congruence.
Qed.

Lemma Qltb_false (a b : Q) : Qltb a b = false -> (b <= a)%Q.
Proof.
  unfold Qltb. intros H. apply negb_false_iff in H.
  now apply Qle_bool_iff.
Qed.

Lemma Qltb_lt (a b : Q) : (a < b)%Q -> Qltb a b = true.
Proof.
  intros H. destruct (Qltb a b) eqn:E; [reflexivity|].
  apply Qltb_false in E. exfalso. exact (Qlt_not_le _ _ H E).
Qed.

Lemma Qltb_ge (a b : Q) : (b <= a)%Q -> Qltb a b = false.
Proof.
  intros H. destruct (Qltb a b) eqn:E; [|reflexivity].
  apply Qltb_true in E. exfalso. exact (Qlt_not_le _ _ E H).
Qed.

Lemma done_at_of_lookup (chs : Channels.t) (i : Z) (sounds : Sounds.t) :
  Channels.data chs !! Z.to_nat i = Some sounds ->
  done_at_of chs i = Sounds.done_at sounds.
Proof. intros H. unfold done_at_of. now rewrite H. Qed.

Lemma scan_inv_skip (chs : Channels.t) (channel0 i channel : Z) (m : xtime) :
  ~ eligible chs i ->
  scan_inv chs channel0 i channel m -> scan_inv chs channel0 (i + 1) channel m.
Proof.
  intros Hno [(Hm & Hc & Hnone)|(Hm & Hel & Hmin)]; [left|right].
  - split; [assumption|]. split; [assumption|]. intros j Hj.
    destruct (Z.eq_dec j i) as [->|]; [assumption|apply Hnone; lia].
  - split; [assumption|]. split; [assumption|]. intros j Hj Hej.
    destruct (Z.eq_dec j i) as [->|]; [contradiction|apply Hmin; [lia|assumption]].
Qed.

Lemma pick_channel_spec (chs : Channels.t) (channel0 : Z) :
  wf_channels chs ->
  forall (n : nat) (i channel : Z) (m : xtime),
    0 <= i ->
    i + Z.of_nat n = Channels.len chs ÷ 2 ->
    scan_inv chs channel0 i channel m ->
    exists (c : Z) (m' : xtime),
      pick_channel n i chs channel m = Ok c /\
      scan_inv chs channel0 (Channels.len chs ÷ 2) c m'.
Proof.
  intros Hwf. induction n as [|n IH]; intros i channel m Hi Hn Hinv.
  - exists channel, m. split; [reflexivity|].
    replace (Channels.len chs ÷ 2) with i by lia. exact Hinv.
  - assert (Hhalf : Channels.len chs ÷ 2 <= Channels.len chs).
    { destruct Hwf as [Hlen _]. apply Z.quot_le_upper_bound; lia. }
    destruct (in_range_lookup (Channels.data chs) i) as [sounds Hsounds].
    { destruct Hwf as [Hlen _]. lia. }
    pose proof (wf_channel_lookup _ _ _ Hwf Hsounds) as Hws.
    cbn [pick_channel]. rewrite (array_get_ok _ _ _ Hi Hsounds). cbn [bind].
    destruct (Z.eqb_spec (Sounds.paused sounds) 0) as [Hp|Hp]; cbn [negb].
    2:{ apply IH; [lia|lia|]. apply scan_inv_skip; [|exact Hinv].
        intros (_ & s & Hs & Hps & _). congruence. }
    destruct (in_range_lookup (Sounds.data sounds) (Sounds.producer_index sounds))
      as [slot Hslot].
    { destruct Hws as [Hcap _ Hpi]. lia. }
    rewrite (array_get_ok _ _ _ (proj1 (wf_producer _ Hws)) Hslot). cbn [bind].
    destruct slot as [old|].
    { apply IH; [lia|lia|]. apply scan_inv_skip; [|exact Hinv].
      intros (_ & s & Hs & _ & Hempty). congruence. }
    assert (Hel : eligible chs i).
    { split; [lia|]. exists sounds. auto. }
    pose proof (done_at_of_lookup _ _ _ Hsounds) as Hd.
    destruct Hinv as [(-> & Hc & Hnone)|(-> & Helc & Hmin)]; cbn [xgt].
    + apply IH; [lia|lia|]. right. rewrite <- Hd.
      split; [reflexivity|]. split; [exact Hel|].
      intros j Hj Hej. destruct (Z.eq_dec j i) as [->|]; [apply Qle_refl|].
      exfalso. apply (Hnone j); [lia|assumption].
    + destruct (Qltb (Sounds.done_at sounds) (done_at_of chs channel)) eqn:E.
      * apply Qltb_true in E.
        apply IH; [lia|lia|]. right. rewrite <- Hd in *.
        split; [reflexivity|]. split; [exact Hel|].
        intros j Hj Hej. destruct (Z.eq_dec j i) as [->|]; [apply Qle_refl|].
        apply Qle_trans with (done_at_of chs channel);
          [apply Qlt_le_weak, E|apply Hmin; [lia|assumption]].
      * apply Qltb_false in E.
        apply IH; [lia|lia|]. right.
        split; [reflexivity|]. split; [exact Helc|].
        intros j Hj Hej. destruct (Z.eq_dec j i) as [->|].
        -- rewrite Hd. exact E.
        -- apply Hmin; [lia|assumption].
Qed.

(** C5. With no channel given (a negative [channel]) [ws_play] looks at
    the first half of the channels only.  Either none of them qualifies (each
    is paused or has its producer slot taken): the call returns -1 and its
    state differs from the given one in [weber_error] alone, now
    [NO_CHANNELS].  Or it stores the sound on a qualifying channel whose
    [done_at] is the smallest among the qualifying ones, and returns that
    channel. *)
Theorem ws_play_auto_select
    (pa_now now playat : Q) (channel : Z) (toplay : Sound.t) (state : WsState)
    (chs : Channels.t) :
  channels state = Some chs ->
  wf_channels chs ->
  channel < 0 ->
  ((forall i, ~ eligible chs i) /\
   ws_play pa_now now playat channel toplay state
     = Ok (-1, set_weber_error state NO_CHANNELS) /\
   weber_error (set_weber_error state NO_CHANNELS) = NO_CHANNELS /\
   channels (set_weber_error state NO_CHANNELS) = channels state)
  \/
  (exists (c : Z) (sounds : Sounds.t),
     eligible chs c /\
     (forall i, eligible chs i -> (done_at_of chs c <= done_at_of chs i)%Q) /\
     Channels.data chs !! Z.to_nat c = Some sounds /\
     ws_play pa_now now playat channel toplay state
       = Ok (c,
             set_channels state
               (Some (with_channel chs c
                        (pushed sounds
                           (newTimedSound toplay ((pa_now - now) + playat)%Q)))))).
Proof.
  intros Hchs Hwf Hneg.
  destruct (pick_channel_spec chs channel Hwf
              (Z.to_nat (Channels.len chs ÷ 2)) 0 channel INFINITY)
    as (c & m' & Hpick & Hinv).
  - lia.
  - pose proof (wf_half_nonneg chs Hwf). lia.
  - left. split; [reflexivity|]. split; [reflexivity|].
    intros j Hj [Hrange _]. lia.
  - unfold ws_play. rewrite Hchs. cbn [deref bind].
    destruct (Z.ltb_spec channel 0); [|lia]. rewrite Hpick. cbn [bind].
    destruct Hinv as [(_ & -> & Hnone)|(_ & Hel & Hmin)].
    + left. destruct (Z.ltb_spec channel 0); [|lia].
      split; [|split; [reflexivity|split; [reflexivity|exact Hchs]]].
      intros i Hei. apply (Hnone i); [|exact Hei]. destruct Hei as [? _]. lia.
    + right. pose proof Hel as ([Hc0 Hc1] & sounds & Hsounds & _ & _).
      destruct (Z.ltb_spec c 0); [lia|].
      exists c, sounds. split; [exact Hel|].
      split; [intros i Hei; apply Hmin; [destruct Hei as [? _]; lia|exact Hei]|].
      split; [exact Hsounds|].
      pose proof (wf_channel_lookup _ _ _ Hwf Hsounds) as Hws.
      rewrite (array_get_ok _ _ _ Hc0 Hsounds). cbn [bind].
      rewrite (push_sound_ok _ _ Hws). cbn [bind].
      rewrite (put_channel_ok _ _ _ _ Hc0 Hsounds). reflexivity.
Qed.

Lemma ws_play_auto_select_witness :
  ((forall i, ~ eligible (channels_of all_paused) i) /\
   ws_play 8 8 9 (-1) four_frames all_paused
     = Ok (-1, set_weber_error all_paused NO_CHANNELS) /\
   weber_error (set_weber_error all_paused NO_CHANNELS) = NO_CHANNELS /\
   channels (set_weber_error all_paused NO_CHANNELS) = channels all_paused)
  \/
  (exists (c : Z) (sounds : Sounds.t),
     eligible (channels_of all_paused) c /\
     (forall i, eligible (channels_of all_paused) i ->
                (done_at_of (channels_of all_paused) c
                 <= done_at_of (channels_of all_paused) i)%Q) /\
     Channels.data (channels_of all_paused) !! Z.to_nat c = Some sounds /\
     ws_play 8 8 9 (-1) four_frames all_paused
       = Ok (c,
             set_channels all_paused
               (Some (with_channel (channels_of all_paused) c
                        (pushed sounds
                           (newTimedSound four_frames ((8 - 8) + 9)%Q)))))).
Proof.
  apply (ws_play_auto_select 8 8 9 (-1) four_frames all_paused
           (channels_of all_paused)).
  - reflexivity.
  - wf_channels_by_compute.
  - lia.
Defined.

(** With every channel paused the automatic choice finds nothing. *)
Example ws_play_all_paused :
  ws_play 8 8 9 (-1) four_frames all_paused
    = Ok (-1, set_weber_error all_paused NO_CHANNELS).
Proof. reflexivity. Qed.

(** On a fresh session both one-shot channels qualify with the same
    [done_at]; the first is taken. *)
Example ws_play_fresh_session :
  exists state', ws_play 8 8 9 (-1) four_frames session = Ok (0, state').
Proof. eexists. reflexivity. Qed.

(** ** Pause *)

Lemma same_but_paused_refl (a : Sounds.t) : same_but_paused a a.
Proof. repeat split. Qed.

Lemma same_but_paused_trans (a b c : Sounds.t) :
  same_but_paused a b -> same_but_paused b c -> same_but_paused a c.
Proof.
  intros (?&?&?&?&?) (?&?&?&?&?). repeat split; congruence.
Qed.

Lemma paused_only_refl (a : Channels.t) : paused_only a a.
Proof.
  split; [|repeat split].
  apply Forall2_same_length_lookup. split; [reflexivity|].
  intros i x y Hx Hy. rewrite Hx in Hy. injection Hy as <-.
  apply same_but_paused_refl.
Qed.

Lemma paused_only_trans (a b c : Channels.t) :
  paused_only a b -> paused_only b c -> paused_only a c.
Proof.
  intros (Hab&?&?&?&?&?&?) (Hbc&?&?&?&?&?&?).
  split; [|repeat split; congruence].
  apply Forall2_same_length_lookup.
  pose proof (Forall2_length _ _ _ Hab) as Lab.
  pose proof (Forall2_length _ _ _ Hbc) as Lbc.
  split; [congruence|].
  intros i x z Hx Hz.
  destruct (lookup_lt_is_Some_2 (Channels.data b) i) as [y Hy].
  { apply lookup_lt_Some in Hx. lia. }
  apply same_but_paused_trans with y.
  - exact (Forall2_lookup_lr _ _ _ _ _ _ Hab Hx Hy).
  - exact (Forall2_lookup_lr _ _ _ _ _ _ Hbc Hy Hz).
Qed.

Lemma pause_channel_ok (chs : Channels.t) (i : Z) (sounds : Sounds.t) (pause : Z) :
  0 <= i -> Channels.data chs !! Z.to_nat i = Some sounds ->
  pause_channel chs i pause
    = Ok (with_channel chs i (Sounds.set_paused sounds pause)).
Proof.
  intros Hi Hs. unfold pause_channel.
  rewrite (array_get_ok _ _ _ Hi Hs). cbn [bind].
  apply (put_channel_ok _ _ _ _ Hi Hs).
Qed.

Lemma pause_channel_inv (chs chs' : Channels.t) (i pause : Z) :
  pause_channel chs i pause = Ok chs' ->
  exists sounds,
    0 <= i /\ Channels.data chs !! Z.to_nat i = Some sounds /\
    chs' = with_channel chs i (Sounds.set_paused sounds pause).
Proof.
  unfold pause_channel. intros H.
  destruct (array_get (Channels.data chs) i) as [sounds|] eqn:E; [|discriminate].
  apply array_get_inv in E as [Hi Hs]. exists sounds.
  split; [exact Hi|]. split; [exact Hs|].
  cbn [bind] in H. rewrite (put_channel_ok _ _ _ _ Hi Hs) in H. congruence.
Qed.

Lemma pause_channel_paused_only (chs chs' : Channels.t) (i pause : Z) :
  pause_channel chs i pause = Ok chs' -> paused_only chs chs'.
Proof.
  intros H. apply pause_channel_inv in H as (sounds & Hi & Hs & ->).
  split; [|repeat split].
  cbn. apply Forall2_same_length_lookup. split; [now rewrite length_insert|].
  intros j x y Hx Hy.
  destruct (Nat.eq_dec (Z.to_nat i) j) as [<-|Hne].
  - rewrite list_lookup_insert_eq in Hy by (eapply lookup_lt_Some; eassumption).
    rewrite Hs in Hx. injection Hx as <-. injection Hy as <-.
    repeat split.
  - rewrite list_lookup_insert_ne in Hy by assumption.
    rewrite Hx in Hy. injection Hy as <-. apply same_but_paused_refl.
Qed.

Lemma pause_from_paused_only (n : nat) :
  forall (i : Z) (chs chs' : Channels.t) (pause : Z),
    pause_from n i chs pause = Ok chs' -> paused_only chs chs'.
Proof.
  induction n as [|n IH]; intros i chs chs' pause H; cbn [pause_from] in H.
  - injection H as <-. apply paused_only_refl.
  - destruct (pause_channel chs i pause) as [mid|] eqn:E; [|discriminate].
    cbn [bind] in H. apply paused_only_trans with mid.
    + exact (pause_channel_paused_only _ _ _ _ E).
    + exact (IH _ _ _ _ H).
Qed.

(** Whenever [ws_pause] returns, the state differs from the given one in
    [paused] flags only. *)
Lemma ws_pause_frame (state state' : WsState) (channel isstream pause : Z) :
  ws_pause state channel isstream pause = Ok state' ->
  errcode state' = errcode state /\
  weber_error state' = weber_error state /\
  stream state' = stream state /\
  exists chs chs',
    channels state = Some chs /\ channels state' = Some chs' /\
    paused_only chs chs'.
Proof.
  unfold ws_pause. destruct (channels state) as [chs|] eqn:Hchs; [|discriminate].
  cbn [deref bind].
  destruct (if channel <? 0 then _ else _) as [chs1|] eqn:E1; [|discriminate].
  cbn [bind].
  destruct (if negb (isstream =? 0) then _ else _) as [chs2|] eqn:E2;
    [|discriminate].
  cbn [bind]. intros [= <-]. repeat split.
  exists chs, chs2. split; [reflexivity|]. split; [reflexivity|].
  apply paused_only_trans with chs1.
  - destruct (channel <? 0).
    + exact (pause_from_paused_only _ _ _ _ _ E1).
    + injection E1 as <-. apply paused_only_refl.
  - destruct (negb (isstream =? 0));
      exact (pause_channel_paused_only _ _ _ _ E2).
Qed.

(** With a channel given, [ws_pause] sets the flag of that channel (of the
    one-shot half, or of the streaming half when [isstream] is set) and
    nothing else. *)
Lemma ws_pause_single (state : WsState) (channel isstream pause : Z)
    (chs : Channels.t) (sounds : Sounds.t) :
  channels state = Some chs ->
  0 <= channel ->
  0 <= Channels.len chs ->
  let target :=
    if isstream =? 0 then channel else Channels.len chs ÷ 2 + channel in
  Channels.data chs !! Z.to_nat target = Some sounds ->
  ws_pause state channel isstream pause
    = Ok (set_channels state
            (Some (with_channel chs target (Sounds.set_paused sounds pause)))).
Proof.
  intros Hchs Hc Hlen target Hs. unfold ws_pause.
  rewrite Hchs. cbn [deref bind].
  destruct (Z.ltb_spec channel 0); [lia|]. cbn [bind].
  assert (0 <= Channels.len chs ÷ 2) by (apply Z.quot_pos; lia).
  subst target. destruct (isstream =? 0); cbn [negb];
    rewrite (pause_channel_ok _ _ sounds) by (assumption || lia); reflexivity.
Qed.

(** With a negative channel and [isstream] clear, the assignment that
    follows the loop indexes the channel array at [channel], below its first
    element. *)
Lemma ws_pause_all_one_shot_faults (state : WsState) (channel pause : Z) :
  channel < 0 -> exists f, ws_pause state channel 0 pause = Fault f.
Proof.
  intros Hneg. unfold ws_pause.
  destruct (channels state) as [chs|]; [|eexists; reflexivity].
  cbn [deref bind]. destruct (Z.ltb_spec channel 0); [|lia].
  destruct (pause_from _ 0 chs pause) as [chs1|]; [|eexists; reflexivity].
  cbn [bind Z.eqb negb]. unfold pause_channel.
  rewrite array_get_negative by assumption. eexists. reflexivity.
Qed.

(** C8. Pausing must change [paused] flags of the targeted channels and
    nothing else.  [ws_pause] does not behave so when all channels are
    targeted: with channel -1 and [isstream] clear it sets every flag and
    then assigns [data[-1].paused], outside the channel array. *)
Theorem ws_pause_all_writes_out_of_bounds :
  ws_pause session (-1) 0 TRUE = Fault OutOfBounds /\
  pause_from (Z.to_nat (Channels.len (channels_of session))) 0
    (channels_of session) TRUE = Ok (channels_of all_paused) /\
  pause_channel (channels_of all_paused) (-1) TRUE = Fault OutOfBounds.
Proof. repeat split. Qed.

(** ** Machine integers *)

Lemma to_int_small (z : Z) : INT_MIN <= z <= INT_MAX -> to_int z = z.
Proof.
  unfold to_int, INT_MIN, INT_MAX. intros H.
  rewrite Z.mod_small by lia. lia.
Qed.

Lemma to_ulong_small (z : Z) : 0 <= z < 2 ^ 64 -> to_ulong z = z.
Proof. unfold to_ulong. intros H. now rewrite Z.mod_small. Qed.

Lemma to_ulong_int (z : Z) : 0 <= z <= INT_MAX -> to_ulong z = z.
Proof. unfold INT_MAX. intros H. apply to_ulong_small. lia. Qed.

Lemma to_int16_small (z : Z) : - 2 ^ 15 <= z < 2 ^ 15 -> to_int16 z = z.
Proof.
  unfold to_int16. intros H. rewrite Z.mod_small by lia. lia.
Qed.

(** ** Timing warning *)

(** C9. [ws_warn_str] reads and clears.  With a negative
    [playback_error] it returns the warning text, which is not empty, and
    sets [playback_error] to 0, so that the next call returns the empty
    text; with [playback_error] at or above 0, or without a channel set, it
    returns the empty text and the state it was given.  The number in the
    text is the [int] negation of [playback_error] times [samplelen] times
    1000 under the format: above [INT_MIN] this is the lateness
    [-playback_error * samplelen * 1000]; at [INT_MIN] the negation gives
    [INT_MIN] again and the number printed is negative. *)
Theorem ws_warn_str_read_and_clear (format_3_2f : Q -> string) (state : WsState) :
  (forall chs : Channels.t,
     channels state = Some chs ->
     Channels.playback_error chs < 0 ->
     let r := ws_warn_str format_3_2f state in
     fst r <> EmptyString /\
     fst r = snprintf 100
               (warn_prefix
                ++ format_3_2f
                     (inject_Z (to_int (- Channels.playback_error chs))
                      * Channels.samplelen chs * 1000)%Q
                ++ warn_suffix) /\
     (INT_MIN < Channels.playback_error chs ->
      fst r = snprintf 100
                (warn_prefix
                 ++ format_3_2f
                      (inject_Z (- Channels.playback_error chs)
                       * Channels.samplelen chs * 1000)%Q
                 ++ warn_suffix)) /\
     (Channels.playback_error chs = INT_MIN ->
      fst r = snprintf 100
                (warn_prefix
                 ++ format_3_2f
                      (inject_Z INT_MIN * Channels.samplelen chs * 1000)%Q
                 ++ warn_suffix)) /\
     snd r = set_channels state (Some (Channels.set_playback_error chs 0)) /\
     ws_warn_str format_3_2f (snd r) = (EmptyString, snd r)) /\
  ((forall chs : Channels.t,
      channels state = Some chs -> 0 <= Channels.playback_error chs) ->
   ws_warn_str format_3_2f state = (EmptyString, state)).
Proof.
  split.
  - intros chs Hchs Hneg r. subst r. unfold ws_warn_str. rewrite Hchs.
    destruct (Z.ltb_spec (Channels.playback_error chs) 0); [|lia].
    cbn [fst snd].
    split; [|split; [reflexivity|split; [|split; [|split; [reflexivity|]]]]].
    + unfold snprintf, warn_prefix. cbn. discriminate.
    + intros Hmin. rewrite to_int_small; [reflexivity|].
      unfold INT_MIN, INT_MAX in *. lia.
    + intros ->. reflexivity.
    + cbn. reflexivity.
  - intros Hpos. unfold ws_warn_str.
    destruct (channels state) as [chs|] eqn:Hchs; [|reflexivity].
    specialize (Hpos chs eq_refl).
    destruct (Z.ltb_spec (Channels.playback_error chs) 0); [lia|reflexivity].
Qed.

Lemma ws_warn_str_read_and_clear_witness :
  fst (ws_warn_str format_fixed2 late_session)
    = "A previously played sound occured 1250.00ms after it should have."%string /\
  fst (ws_warn_str format_fixed2 latest_session)
    = "A previously played sound occured -536870912000.00ms after it should have."%string /\
  ws_warn_str format_fixed2 (snd (ws_warn_str format_fixed2 late_session))
    = (EmptyString, snd (ws_warn_str format_fixed2 late_session)) /\
  ws_warn_str format_fixed2 (snd (ws_warn_str format_fixed2 latest_session))
    = (EmptyString, snd (ws_warn_str format_fixed2 latest_session)) /\
  ws_warn_str format_fixed2 session = (EmptyString, session).
Proof.
  destruct (ws_warn_str_read_and_clear format_fixed2 late_session) as [Hneg _].
  destruct (ws_warn_str_read_and_clear format_fixed2 latest_session) as [Hmin _].
  destruct (ws_warn_str_read_and_clear format_fixed2 session) as [_ Hpos].
  specialize (Hneg (channels_of late_session) eq_refl).
  specialize (Hmin (channels_of latest_session) eq_refl).
  destruct Hneg as (_ & _ & Htext & _ & _ & Hnext).
  - vm_compute. reflexivity.
  - destruct Hmin as (_ & _ & _ & Hlow & _ & Hnext').
    + vm_compute. reflexivity.
    + split; [apply Htext; vm_compute; reflexivity|].
      split; [apply Hlow; vm_compute; reflexivity|].
      split; [exact Hnext|]. split; [exact Hnext'|].
      apply Hpos. intros chs [= <-]. vm_compute. discriminate.
Defined.

(** ** The callback: a sound that is not due yet *)

Lemma set_playback_error_same (chs : Channels.t) :
  Channels.set_playback_error chs (Channels.playback_error chs) = chs.
Proof. now destruct chs. Qed.

(** C1 as stated does not hold.  The head sound of channel 0 has
    offset 0 and the explicit start 27/4, which is outside [8, 9), the
    window of a buffer of four frames at instant 8 and four frames a second.
    The callback plays it all the same, from the first frame of the buffer:
    the four frames are in the output, the lateness of five frames is
    recorded and the slot is cleared. *)
Lemma late_sound_is_played :
  let chs := channels_of late_queued in
  let s := TimedSound.mk [1; 2; 3; 4; 5; 6; 7; 8] ((8 - 8) + (27 # 4)) 0 4 in
  slot_of chs 0 0 = Some (Some s) /\
  Sounds.paused (channel_at late_queued 0) = 0 /\
  Sounds.consumer_index (channel_at late_queued 0) = 0 /\
  TimedSound.offset s = 0 /\
  (0 < TimedSound.start s)%Q /\
  ~ (8 <= TimedSound.start s
     /\ TimedSound.start s < 8 + Channels.samplelen chs * inject_Z 4)%Q /\
  output_of (ws_callback stale_buffer 4 8 8 chs) = [1; 5; 2; 6; 3; 7; 4; 8] /\
  slot_of (channels_after (ws_callback stale_buffer 4 8 8 chs)) 0 0 = Some None /\
  Channels.playback_error (channels_after (ws_callback stale_buffer 4 8 8 chs))
    = -5.
Proof.
  cbv zeta. split; [reflexivity|]. split; [reflexivity|].
  split; [reflexivity|]. split; [reflexivity|]. split; [reflexivity|].
  split; [|split; [reflexivity|split; reflexivity]].
  intros [H _]. vm_compute in H. apply H. reflexivity.
Qed.

Lemma mix_channel_inv (len : Z) (buffer_start : Q) (c : Z) (m m' : mixer) :
  mix_channel len buffer_start c m = Ok m' ->
  m' = m \/
  exists (sounds' : Sounds.t) (e : Z),
    0 <= c /\
    mx_channels m'
      = with_channel (Channels.set_playback_error (mx_channels m) e) c sounds'.
Proof.
  unfold mix_channel. intros H.
  destruct (array_get _ c) as [sounds|] eqn:E; [|discriminate].
  cbn [bind] in H. apply array_get_inv in E as [Hc Hs].
  destruct (negb (Sounds.paused sounds =? 0)); [left; congruence|].
  destruct (drain_channel _ _ _ _ _ _ _ _) as [st|]; [|discriminate].
  cbn [bind] in H.
  rewrite (put_channel_ok _ _ sounds) in H by assumption.
  cbn [bind] in H. injection H as <-. right. eauto.
Qed.

(** The turns of the channels [c0], ..., [c0 + n - 1] leave every other
    channel alone. *)
Lemma mix_from_other_channel (len : Z) (buffer_start : Q) (n : nat) :
  forall (c0 : Z) (m m' : mixer) (c : Z),
    0 <= c /\ (c < c0 \/ c0 + Z.of_nat n <= c) ->
    mix_from n len buffer_start c0 m = Ok m' ->
    Channels.data (mx_channels m') !! Z.to_nat c
      = Channels.data (mx_channels m) !! Z.to_nat c.
Proof.
  induction n as [|n IH]; intros c0 m m' c Hc H; cbn [mix_from] in H.
  - congruence.
  - destruct (mix_channel len buffer_start c0 m) as [m1|] eqn:E; [|discriminate].
    cbn [bind] in H. rewrite (IH (c0 + 1) m1 m' c) by (lia || exact H).
    apply mix_channel_inv in E as [->|(sounds' & e & Hc0 & ->)]; [reflexivity|].
    cbn. apply list_lookup_insert_ne. lia.
Qed.

(** The turn of a channel whose head sound is not due and which no earlier
    sound of the invocation has flagged: nothing changes. *)
Lemma mix_channel_not_due
    (len : Z) (buffer_start : Q) (c : Z) (m : mixer) (sounds : Sounds.t)
    (s : TimedSound.t) :
  0 <= len <= INT_MAX ->
  0 <= c ->
  Channels.data (mx_channels m) !! Z.to_nat c = Some sounds ->
  Sounds.paused sounds = 0 ->
  0 <= Sounds.consumer_index sounds ->
  Sounds.data sounds !! Z.to_nat (Sounds.consumer_index sounds) = Some (Some s) ->
  TimedSound.offset s = 0 ->
  (0 < TimedSound.start s)%Q ->
  (buffer_start + Channels.samplelen (mx_channels m) * inject_Z len
   <= TimedSound.start s)%Q ->
  0 < TimedSound.len s ->
  mx_should_start m = false ->
  mix_channel len buffer_start c m = Ok m.
Proof.
  intros Hlen Hc Hsounds Hp Hci Hs Hoff Hpos Hdue Hslen Hflag.
  unfold mix_channel. rewrite (array_get_ok _ _ _ Hc Hsounds). cbn [bind].
  rewrite Hp. cbn [Z.eqb negb].
  assert (Hdrain :
    exists outi,
      drain_channel len buffer_start (Channels.samplerate (mx_channels m))
        (Channels.samplelen (mx_channels m)) sounds
        (Channels.playback_error (mx_channels m)) (mx_out m) (mx_should_start m)
      = Ok (mkCb sounds (Channels.playback_error (mx_channels m)) (mx_out m)
              outi false 0)).
  { unfold drain_channel. rewrite (array_get_ok _ _ _ Hci Hs). cbn [bind].
    rewrite Hflag.
    destruct (length (Sounds.data sounds)) as [|fuel] eqn:Hfuel.
    { apply lookup_lt_Some in Hs. lia. }
    cbn [drain cb_sounds cb_outi]. rewrite (array_get_ok _ _ _ Hci Hs).
    cbn [bind].
    destruct (Z.ltb_spec (to_ulong 0) len) as [Hlt|Hge]; [|eauto].
    unfold consume, schedule. cbn [cb_sounds cb_outi]. rewrite Hoff.
    cbn [Z.eqb]. rewrite (Qltb_lt _ _ Hpos), (Qltb_ge _ _ Hdue).
    unfold play, cb_set_outi.
    cbn [cb_should_start cb_sounds cb_error cb_out cb_zero_padding].
    rewrite Hoff. cbn [Z.ltb Z.compare orb andb bind fst snd].
    unfold retire. rewrite Hoff.
    destruct (Z.leb_spec (TimedSound.len s) 0); [lia|].
    exists (to_int len). cbn [bind]. destruct fuel as [|fuel];
      cbn [drain cb_sounds cb_outi]; rewrite (array_get_ok _ _ _ Hci Hs);
      cbn [bind]; rewrite to_int_small by (unfold INT_MIN; lia);
      rewrite to_ulong_int by lia; rewrite Z.ltb_irrefl; reflexivity. }
  destruct Hdrain as [outi ->]. cbn [bind cb_error cb_sounds cb_out cb_should_start].
  rewrite set_playback_error_same.
  rewrite (put_channel_ok _ _ _ _ Hc Hsounds). cbn [bind].
  rewrite (with_channel_same _ _ _ Hsounds). rewrite <- Hflag.
  now destruct m.
Qed.

(** C1, amended.  A head sound with offset 0, a positive length and an
    explicit start at or after the end of the buffer is left alone by the
    turn of its channel, provided no sound was started earlier in the same
    invocation ([should_start] is still clear): the turn changes neither
    the channel set nor the output buffer, and the rest of the invocation
    does not touch the channel. *)
Theorem not_yet_due_sound_untouched
    (len : Z) (buffer_start : Q) (c : Z) (m : mixer) (sounds : Sounds.t)
    (s : TimedSound.t) :
  0 <= len <= INT_MAX ->
  0 <= c ->
  Channels.data (mx_channels m) !! Z.to_nat c = Some sounds ->
  Sounds.paused sounds = 0 ->
  0 <= Sounds.consumer_index sounds ->
  Sounds.data sounds !! Z.to_nat (Sounds.consumer_index sounds) = Some (Some s) ->
  TimedSound.offset s = 0 ->
  (0 < TimedSound.start s)%Q ->
  (buffer_start + Channels.samplelen (mx_channels m) * inject_Z len
   <= TimedSound.start s)%Q ->
  0 < TimedSound.len s ->
  mx_should_start m = false ->
  mix_channel len buffer_start c m = Ok m /\
  forall (n : nat) (m' : mixer),
    mix_from n len buffer_start (c + 1) m = Ok m' ->
    Channels.data (mx_channels m') !! Z.to_nat c = Some sounds.
Proof.
  intros Hlen Hc Hsounds Hp Hci Hs Hoff Hpos Hdue Hslen Hflag.
  split.
  - now apply (mix_channel_not_due len buffer_start c m sounds s).
  - intros n m' H. rewrite <- Hsounds.
    apply (mix_from_other_channel len buffer_start n (c + 1)); [lia|exact H].
Qed.

Lemma not_yet_due_sound_untouched_witness :
  mix_channel 4 8 0 (mkMixer (channels_of early_queued) stale_buffer false)
    = Ok (mkMixer (channels_of early_queued) stale_buffer false).
Proof.
  refine (proj1
    (not_yet_due_sound_untouched 4 8 0
       (mkMixer (channels_of early_queued) stale_buffer false)
       (channel_at early_queued 0) (newTimedSound four_frames ((8 - 8) + 10))
       _ _ _ _ _ _ _ _ _ _ _)); try reflexivity; try (unfold INT_MAX; lia).
  vm_compute. discriminate.
Defined.

(** A sound without frames is retired by the first callback that sees it,
    due or not: the test [offset >= len] holds at once. *)
Example empty_sound_is_retired_at_once :
  slot_of (channels_of empty_queued) 0 0
    = Some (Some (TimedSound.mk [] ((8 - 8) + 10) 0 0)) /\
  slot_of (channels_after
             (ws_callback stale_buffer 4 8 8 (channels_of empty_queued))) 0 0
    = Some None.
Proof. split; reflexivity. Qed.

(** ** The callback: a sound scheduled at a buffer boundary *)

(** C4. A sound alone on its channel and scheduled at a buffer boundary
    must contribute nothing before the boundary and its frames, once each,
    from the boundary on.  The callback does not behave so when another
    channel starts a sound first.  Channel 0 holds a four-frame sound due at
    instant 8 and channel 1, alone on it, a two-frame sound due at instant 9;
    buffers have four frames, one second each, so that both starts are
    buffer boundaries.  In the callback of the buffer at 8 the two frames of
    channel 1 are already added, to the first two frames of the output, a
    whole buffer before their start, and the slot is cleared; the buffer at
    9 is silent.  The flag [should_start], raised by channel 0, is still up
    when channel 1 is visited.  When channel 0 is empty the same sound
    is played where it belongs. *)
Theorem sound_on_second_channel_starts_early :
  let chs := channels_of two_queued in
  let first := ws_callback stale_buffer 4 8 8 chs in
  let second := ws_callback stale_buffer 4 9 9 (channels_after first) in
  let alone_first := ws_callback stale_buffer 4 8 8 (channels_of second_queued) in
  let alone_second := ws_callback stale_buffer 4 9 9 (channels_after alone_first) in
  slot_of chs 0 0
    = Some (Some (TimedSound.mk [1; 2; 3; 4; 5; 6; 7; 8] ((8 - 8) + 8) 0 4)) /\
  slot_of chs 1 0 = Some (Some (TimedSound.mk [10; 20; 30; 40] ((8 - 8) + 9) 0 2)) /\
  output_of first = [11; 35; 22; 46; 3; 7; 4; 8] /\
  slot_of (channels_after first) 1 0 = Some None /\
  output_of second = [0; 0; 0; 0; 0; 0; 0; 0] /\
  output_of alone_first = [0; 0; 0; 0; 0; 0; 0; 0] /\
  output_of alone_second = [10; 30; 20; 40; 0; 0; 0; 0] /\
  slot_of (channels_after alone_second) 1 0 = Some None.
Proof. cbv zeta. repeat split. Qed.

(** ** The callback: offsets only grow, and stay inside the sound *)

Lemma progressed_refl (s : TimedSound.t) : progressed s s.
Proof. now left. Qed.

Lemma progressed_trans (a b c : TimedSound.t) :
  progressed a b -> progressed b c -> progressed a c.
Proof.
  intros [->|(Hb & Hs & Hl & Ho & Hlt)] [->|(Hb' & Hs' & Hl' & Ho' & Hlt')].
  - now left.
  - right. auto.
  - right. auto.
  - right. repeat split; try congruence; lia.
Qed.

Lemma advanced_refl (a : list (option TimedSound.t)) : advanced a a.
Proof. intros i s H. exists s. split; [exact H|apply progressed_refl]. Qed.

Lemma advanced_trans (a b c : list (option TimedSound.t)) :
  advanced a b -> advanced b c -> advanced a c.
Proof.
  intros Hab Hbc i s'' H.
  destruct (Hbc i s'' H) as (s' & H' & P').
  destruct (Hab i s' H') as (s & H0 & P).
  exists s. split; [exact H0|exact (progressed_trans _ _ _ P P')].
Qed.

Lemma occupied_insert_some (d : list (option TimedSound.t)) (i : nat)
    (s s' : TimedSound.t) :
  d !! i = Some (Some s) -> occupied (<[i := Some s']> d) = occupied d.
Proof.
  intros H. unfold occupied.
  rewrite insert_take_drop by (eapply lookup_lt_Some; eassumption).
  rewrite <- (take_drop_middle d i (Some s) H) at 3.
  rewrite !omap_app. cbn. now rewrite !length_app.
Qed.

Lemma occupied_insert_none (d : list (option TimedSound.t)) (i : nat)
    (s : TimedSound.t) :
  d !! i = Some (Some s) -> S (occupied (<[i := None]> d)) = occupied d.
Proof.
  intros H. unfold occupied.
  rewrite insert_take_drop by (eapply lookup_lt_Some; eassumption).
  rewrite <- (take_drop_middle d i (Some s) H) at 3.
  rewrite !omap_app. cbn. rewrite !length_app. cbn. lia.
Qed.

Lemma occupied_positive (d : list (option TimedSound.t)) (i : nat)
    (s : TimedSound.t) :
  d !! i = Some (Some s) -> (0 < occupied d)%nat.
Proof.
  intros H. rewrite <- (occupied_insert_none d i s H). lia.
Qed.

Lemma occupied_le_length (d : list (option TimedSound.t)) :
  (occupied d <= length d)%nat.
Proof.
  unfold occupied. induction d as [|[x|] d IH]; cbn; lia.
Qed.

Lemma array_get_in_range {A : Type} (a : list A) (i : Z) :
  0 <= i < Z.of_nat (length a) -> exists x, array_get a i = Ok x.
Proof.
  intros Hi. destruct (in_range_lookup a i Hi) as [x Hx].
  exists x. apply array_get_ok; [lia|exact Hx].
Qed.

Lemma shiftl_1 (z : Z) : Z.shiftl z 1 = 2 * z.
Proof. rewrite Z.shiftl_mul_pow2 by lia. lia. Qed.

(** Projections of the loop state and of a channel, and nothing else. *)
Ltac cb_simpl :=
  cbn [cb_sounds cb_error cb_out cb_outi cb_should_start cb_zero_padding
       cb_set_sounds cb_set_outi cb_set_out
       Sounds.data Sounds.len Sounds.paused Sounds.consumer_index
       Sounds.producer_index Sounds.done_at Sounds.set_data
       Sounds.set_done_at Sounds.set_consumer_index Sounds.set_paused
       Sounds.set_producer_index
       TimedSound.buffer TimedSound.start TimedSound.offset TimedSound.len
       TimedSound.set_offset fst snd bind] in *.

(** The loop stops in the state it is in. *)
Ltac stop_here st Hok :=
  exists st; split; [reflexivity|]; split; [exact Hok|];
  split; [apply advanced_refl|]; split; reflexivity.

Section CallbackInvariant.
Variable len : Z.
Variable buffer_start : Q.
Variable samplerate samplelen : Q.
Hypothesis Hlen : 0 <= len <= INT_MAX.
Hypothesis Hrates : exact_rates samplerate samplelen.

(** A sound that is due in this buffer starts before the buffer ends. *)
Lemma due_padding_below_len (start : Q) :
  (start < buffer_start + samplelen * inject_Z len)%Q ->
  Qfloor ((start - buffer_start) * samplerate) < len.
Proof.
  intros Hdue. destruct Hrates as [Hpos Hone].
  rewrite Zlt_Qlt.
  apply Qle_lt_trans with ((start - buffer_start) * samplerate)%Q;
    [apply Qfloor_le|].
  assert (E : (inject_Z len == samplelen * inject_Z len * samplerate)%Q).
  { rewrite <- Qmult_assoc, (Qmult_comm (inject_Z len)), Qmult_assoc, Hone.
    ring. }
  rewrite E. apply Qmult_lt_compat_r; [exact Hpos|].
  lra.
Qed.

Lemma schedule_spec (s : TimedSound.t) (st : cb) :
  cb_ok len st ->
  let st1 := schedule len buffer_start samplerate samplelen s st in
  same_ring (cb_sounds st1) (cb_sounds st) /\
  cb_out st1 = cb_out st /\
  0 <= cb_outi st1 <= len /\
  0 <= cb_zero_padding st1 <= len /\
  (cb_should_start st = true -> cb_should_start st1 = true) /\
  (TimedSound.offset s = 0 ->
   cb_should_start st1 = true \/ cb_outi st1 = len).
Proof.
  intros [Hring Hsounds Hout Houti Hzp]. unfold schedule, same_ring.
  destruct (TimedSound.offset s =? 0) eqn:Eoff.
  2:{ cbv zeta. apply Z.eqb_neq in Eoff.
      repeat split; try assumption; try lia; auto. }
  destruct (Qltb 0 (TimedSound.start s)) eqn:Epos.
  2:{ cbv zeta. cb_simpl. repeat split; try lia; auto. }
  destruct (Qltb (TimedSound.start s) _) eqn:Edue.
  2:{ cbv zeta. cb_simpl. rewrite to_int_small by (unfold INT_MIN; lia).
      repeat split; try lia; auto. }
  apply Qltb_true in Edue. apply due_padding_below_len in Edue.
  cbv zeta.
  destruct (Z.ltb_spec
              (Qfloor ((TimedSound.start s - buffer_start) * samplerate))
              (cb_outi st)); cb_simpl; repeat split; try lia; auto.
Qed.

Lemma mix_ok (s : TimedSound.t) (offset zero_padding : Z) :
  0 <= offset ->
  2 * TimedSound.len s <= Z.of_nat (length (TimedSound.buffer s)) ->
  0 <= zero_padding ->
  forall (fuel : nat) (outi : Z) (out : list Z),
    zero_padding <= outi <= len ->
    len - outi <= Z.of_nat fuel ->
    Z.of_nat (length out) = 2 * len ->
    exists out',
      mix len fuel s offset zero_padding outi out
        = Ok (Z.min len
                (Z.max outi (zero_padding + (TimedSound.len s - offset))),
              out') /\
      length out' = length out.
Proof.
  intros Hoff Hbuf Hzp. induction fuel as [|fuel IH]; intros outi out Houti Hfuel Hout.
  - assert (outi = len) by lia. subst outi. cbn [mix].
    rewrite to_ulong_int by lia. rewrite Z.ltb_irrefl. cbn [andb].
    exists out. split; [|reflexivity]. f_equal. f_equal. lia.
  - cbn [mix]. rewrite to_ulong_int by lia.
    destruct (Z.ltb_spec outi len) as [Hlt|Hge]; cbn [andb].
    2:{ exists out. split; [|reflexivity]. f_equal. f_equal. lia. }
    destruct (Z.ltb_spec (outi - zero_padding) (TimedSound.len s - offset))
      as [Hin|Hdone].
    2:{ exists out. split; [|reflexivity]. f_equal. f_equal. lia. }
    destruct (array_get_in_range (TimedSound.buffer s)
                (outi - zero_padding + offset)) as [l ->]; [lia|].
    cbn [bind]. rewrite !shiftl_1.
    destruct (array_get_in_range out (2 * outi)) as [o ->]; [lia|].
    cbn [bind]. rewrite array_set_ok by lia. cbn [bind].
    destruct (array_get_in_range (TimedSound.buffer s)
                (outi - zero_padding + TimedSound.len s + offset)) as [r ->];
      [lia|].
    cbn [bind].
    destruct (array_get_in_range
                (<[Z.to_nat (2 * outi) := to_int16 (o + l)]> out)
                (2 * outi + 1)) as [o' ->]; [rewrite length_insert; lia|].
    cbn [bind]. rewrite array_set_ok by (rewrite length_insert; lia).
    cbn [bind].
    destruct (IH (outi + 1)
                (<[Z.to_nat (2 * outi + 1) := to_int16 (o' + r)]>
                   (<[Z.to_nat (2 * outi) := to_int16 (o + l)]> out)))
      as (out' & -> & Hlen'); [lia|lia|rewrite !length_insert; lia|].
    exists out'. split; [|now rewrite Hlen', !length_insert].
    f_equal. f_equal. lia.
Qed.
Lemma mix_stop (fuel : nat) (s : TimedSound.t) (offset zero_padding outi : Z)
    (out : list Z) :
  0 <= outi <= len ->
  len <= outi \/ TimedSound.len s - offset <= outi - zero_padding ->
  mix len fuel s offset zero_padding outi out = Ok (outi, out).
Proof.
  intros Houti Hstop.
  assert (E : (to_ulong outi <? len)
              && (outi - zero_padding <? TimedSound.len s - offset) = false).
  { rewrite to_ulong_int by lia. apply andb_false_iff.
    destruct Hstop; [left|right]; apply Z.ltb_ge; lia. }
  destruct fuel; cbn [mix]; rewrite E; reflexivity.
Qed.

Lemma array_get_sample (s : TimedSound.t) (i : Z) :
  0 <= i < Z.of_nat (length (TimedSound.buffer s)) ->
  array_get (TimedSound.buffer s) i = Ok (sample_at s i).
Proof.
  intros Hi. destruct (in_range_lookup _ _ Hi) as [x Hx].
  unfold sample_at. rewrite Hx. apply array_get_ok; [lia|exact Hx].
Qed.

Lemma array_get_out (out : list Z) (j : Z) :
  0 <= j < Z.of_nat (length out) -> array_get out j = Ok (out_at out j).
Proof.
  intros Hj. destruct (in_range_lookup _ _ Hj) as [x Hx].
  unfold out_at. rewrite Hx. apply array_get_ok; [lia|exact Hx].
Qed.

Lemma out_at_insert_ne (out : list Z) (i : nat) (j : Z) (v : Z) :
  i <> Z.to_nat j -> out_at (<[i := v]> out) j = out_at out j.
Proof.
  intros H. unfold out_at. now rewrite list_lookup_insert_ne.
Qed.

Lemma mix_step (fuel : nat) (s : TimedSound.t) (offset zero_padding outi : Z)
    (out : list Z) :
  0 <= offset ->
  2 * TimedSound.len s <= Z.of_nat (length (TimedSound.buffer s)) ->
  0 <= zero_padding <= outi ->
  outi < len ->
  outi - zero_padding < TimedSound.len s - offset ->
  Z.of_nat (length out) = 2 * len ->
  mix len (S fuel) s offset zero_padding outi out
    = mix len fuel s offset zero_padding (outi + 1)
        (add_frame s offset zero_padding outi out).
Proof.
  intros Hoff Hbuf Hzp Hlt Hin Hout. cbn [mix].
  rewrite to_ulong_int by lia.
  destruct (Z.ltb_spec outi len); [|lia].
  destruct (Z.ltb_spec (outi - zero_padding) (TimedSound.len s - offset));
    [|lia].
  cbn [andb]. rewrite !shiftl_1.
  rewrite array_get_sample by lia. cbn [bind].
  rewrite array_get_out by lia. cbn [bind].
  rewrite array_set_ok by lia. cbn [bind].
  rewrite array_get_sample by lia. cbn [bind].
  rewrite array_get_out by (rewrite length_insert; lia). cbn [bind].
  rewrite array_set_ok by (rewrite length_insert; lia). cbn [bind].
  rewrite out_at_insert_ne by lia. reflexivity.
Qed.

Lemma length_add_frame (s : TimedSound.t) (offset zero_padding outi : Z)
    (out : list Z) :
  length (add_frame s offset zero_padding outi out) = length out.
Proof. unfold add_frame. now rewrite !length_insert. Qed.

(** What the mixing loop leaves in the output buffer: each frame from
    [outi] up to the frame where the loop stops has received one frame of
    the sound, on both sides; the other frames are as they were. *)
Lemma mix_content (s : TimedSound.t) (offset zero_padding : Z) :
  0 <= offset ->
  2 * TimedSound.len s <= Z.of_nat (length (TimedSound.buffer s)) ->
  0 <= zero_padding ->
  forall (fuel : nat) (outi : Z) (out : list Z),
    zero_padding <= outi <= len ->
    len - outi <= Z.of_nat fuel ->
    Z.of_nat (length out) = 2 * len ->
    let stop :=
      Z.min len (Z.max outi (zero_padding + (TimedSound.len s - offset))) in
    exists out',
      mix len fuel s offset zero_padding outi out = Ok (stop, out') /\
      length out' = length out /\
      forall f side : Z,
        0 <= f < len -> 0 <= side < 2 ->
        out_at out' (2 * f + side)
        = if (outi <=? f) && (f <? stop) then
            to_int16 (out_at out (2 * f + side)
                      + sample_at s (f - zero_padding + offset
                                     + side * TimedSound.len s))
          else out_at out (2 * f + side).
Proof.
  intros Hoff Hbuf Hzp.
  induction fuel as [|fuel IH]; intros outi out Houti Hfuel Hout stop.
  - assert (outi = len) by lia. subst outi.
    rewrite mix_stop by lia. exists out.
    split; [f_equal; f_equal; lia|]. split; [reflexivity|].
    intros f side Hf Hside.
    destruct (Z.leb_spec len f); [lia|reflexivity].
  - destruct (Z_lt_dec outi len) as [Hlt|Hge].
    2:{ rewrite mix_stop by lia. exists out.
        split; [f_equal; f_equal; lia|]. split; [reflexivity|].
        intros f side Hf Hside.
        destruct (Z.leb_spec outi f); [lia|reflexivity]. }
    destruct (Z_lt_dec (outi - zero_padding) (TimedSound.len s - offset))
      as [Hin|Hdone].
    2:{ rewrite mix_stop by lia. exists out.
        split; [f_equal; f_equal; lia|]. split; [reflexivity|].
        intros f side Hf Hside. subst stop.
        destruct (Z.leb_spec outi f); [|reflexivity].
        destruct (Z.ltb_spec f
                    (Z.min len
                       (Z.max outi (zero_padding + (TimedSound.len s - offset)))));
          [lia|reflexivity]. }
    rewrite mix_step by lia.
    destruct (IH (outi + 1) (add_frame s offset zero_padding outi out))
      as (out' & Hrun & Hlen' & Hget);
      [lia|lia|rewrite length_add_frame; lia|].
    exists out'. split; [rewrite Hrun; f_equal; f_equal; lia|].
    split; [now rewrite Hlen', length_add_frame|].
    intros f side Hf Hside. rewrite (Hget f side Hf Hside).
    replace (Z.min len
               (Z.max (outi + 1) (zero_padding + (TimedSound.len s - offset))))
      with stop by (subst stop; lia).
    assert (Hstop : outi < stop) by (subst stop; lia).
    unfold add_frame.
    destruct (Z.eq_dec f outi) as [->|Hne].
    + destruct (Z.leb_spec (outi + 1) outi); [lia|]. cbn [andb].
      destruct (Z.leb_spec outi outi); [|lia].
      destruct (Z.ltb_spec outi stop); [|lia]. cbn [andb].
      assert (side = 0 \/ side = 1) as [-> | ->] by lia.
      * replace (2 * outi + 0) with (2 * outi) by lia.
        rewrite out_at_insert_ne by lia. unfold out_at at 1.
        rewrite list_lookup_insert_eq by lia. cbn [default id].
        f_equal. f_equal. f_equal. lia.
      * unfold out_at at 1.
        rewrite list_lookup_insert_eq by (rewrite length_insert; lia).
        cbn [default id]. f_equal. f_equal. f_equal. lia.
    + rewrite !out_at_insert_ne by lia.
      destruct (Z.leb_spec (outi + 1) f), (Z.leb_spec outi f); try lia;
        reflexivity.
Qed.

Lemma set_data_same (sounds : Sounds.t) :
  Sounds.set_data sounds (Sounds.data sounds) = sounds.
Proof. now destruct sounds. Qed.

(** The mixing block: the sound after it is the same sound further on;
    unless the block does nothing, a sound that is not consumed to its end
    has filled the buffer to its end. *)
Lemma play_spec (s : TimedSound.t) (st : cb) :
  cb_ok len st ->
  Sounds.data (cb_sounds st) !! Z.to_nat (Sounds.consumer_index (cb_sounds st))
    = Some (Some s) ->
  exists (s' : TimedSound.t) (st' : cb),
    play len s st = Ok (s', st') /\
    TimedSound.buffer s' = TimedSound.buffer s /\
    TimedSound.start s' = TimedSound.start s /\
    TimedSound.len s' = TimedSound.len s /\
    TimedSound.offset s <= TimedSound.offset s' /\
    cb_sounds st'
      = Sounds.set_data (cb_sounds st)
          (<[Z.to_nat (Sounds.consumer_index (cb_sounds st)) := Some s']>
             (Sounds.data (cb_sounds st))) /\
    length (cb_out st') = length (cb_out st) /\
    0 <= cb_outi st' <= len /\
    cb_zero_padding st' = cb_zero_padding st /\
    cb_should_start st' = cb_should_start st /\
    ((s' = s /\ cb_outi st' = cb_outi st /\
      (TimedSound.len s <= TimedSound.offset s \/
       (TimedSound.offset s = 0 /\ cb_should_start st = false)))
     \/
     (TimedSound.offset s' < TimedSound.len s' -> cb_outi st' = len)).
Proof.
  intros [Hring Hsounds Hout Houti Hzp] Hhead.
  pose proof (Hsounds _ _ Hhead) as [Hoff Hbuf Hrange].
  unfold play.
  destruct (((0 <? TimedSound.offset s) || cb_should_start st)
            && (TimedSound.offset s <? TimedSound.len s)) eqn:Econd.
  - apply andb_true_iff in Econd as [_ Elt]. apply Z.ltb_lt in Elt.
    destruct (mix_ok s (TimedSound.offset s) (cb_zero_padding st)
                (proj1 Hoff) Hbuf (proj1 Hzp) (Z.to_nat len)
                (cb_zero_padding st) (cb_out st))
      as (out' & -> & Hlen'); [lia|lia|exact Hout|].
    cb_simpl.
    rewrite array_set_ok
      by (destruct Hring as [Hcap Hci _]; lia).
    rewrite to_ulong_int by lia.
    rewrite to_int_small by (unfold INT_MIN; lia).
    eexists _, _. split; [reflexivity|]. cb_simpl.
    repeat (split; [first [reflexivity | assumption | lia]|]).
    right. intros Hkept. lia.
  - exists s, st. split; [reflexivity|].
    repeat (split; [first [reflexivity | lia]|]).
    split.
    { rewrite list_insert_id by exact Hhead. now rewrite set_data_same. }
    repeat (split; [first [reflexivity | lia]|]).
    left. split; [reflexivity|]. split; [reflexivity|].
    apply andb_false_iff in Econd as [E|E].
    + apply orb_false_iff in E as [E1 E2]. apply Z.ltb_ge in E1.
      right. split; [lia|exact E2].
    + apply Z.ltb_ge in E. left. exact E.
Qed.

(** The retiring block. *)
Lemma retire_spec (s : TimedSound.t) (st : cb) :
  wf_sounds (cb_sounds st) ->
  retire s st
    = Ok (if TimedSound.len s <=? TimedSound.offset s then
            cb_set_sounds st
              (Sounds.mk
                 (<[Z.to_nat (Sounds.consumer_index (cb_sounds st)) := None]>
                    (Sounds.data (cb_sounds st)))
                 (Sounds.len (cb_sounds st)) (Sounds.paused (cb_sounds st))
                 ((Sounds.consumer_index (cb_sounds st) + 1)
                    mod Sounds.len (cb_sounds st))
                 (Sounds.producer_index (cb_sounds st))
                 (Sounds.done_at (cb_sounds st)))
          else st).
Proof.
  intros [Hcap Hci Hpi]. unfold retire.
  destruct (TimedSound.len s <=? TimedSound.offset s); [|reflexivity].
  cbv zeta. cb_simpl. rewrite array_set_ok by lia. cb_simpl.
  do 3 f_equal.
  destruct (Z.eqb_spec (Sounds.consumer_index (cb_sounds st) + 1)
              (Sounds.len (cb_sounds st))) as [E|E].
  - rewrite E, Z.mod_same by lia. reflexivity.
  - rewrite Z.mod_small by lia. reflexivity.
Qed.
Lemma cb_ok_schedule (s : TimedSound.t) (st : cb) :
  cb_ok len st ->
  cb_ok len (schedule len buffer_start samplerate samplelen s st).
Proof.
  intros Hok. pose proof (schedule_spec s st Hok) as Hspec.
  cbv zeta in Hspec.
  destruct Hspec as ((Hd & Hl & Hp & Hc & Hpi) & Hout & Houti & Hzp & _).
  destruct Hok as [[Hcap Hci Hpr] Hsounds Hlen' _ _].
  split; [split| | | |]; try lia; try congruence.
  intros i x Hx. rewrite Hd in Hx. exact (Hsounds i x Hx).
Qed.

(** One turn of the [while] loop keeps the invariant, only lets sounds
    progress, and either fills the buffer or clears a slot. *)
Lemma consume_step (s : TimedSound.t) (st : cb) :
  cb_ok len st ->
  Sounds.data (cb_sounds st) !! Z.to_nat (Sounds.consumer_index (cb_sounds st))
    = Some (Some s) ->
  exists st' : cb,
    consume len buffer_start samplerate samplelen s st = Ok st' /\
    cb_ok len st' /\
    advanced (Sounds.data (cb_sounds st)) (Sounds.data (cb_sounds st')) /\
    Sounds.paused (cb_sounds st') = Sounds.paused (cb_sounds st) /\
    Sounds.producer_index (cb_sounds st') = Sounds.producer_index (cb_sounds st) /\
    (len <= cb_outi st' \/
     (occupied (Sounds.data (cb_sounds st'))
      < occupied (Sounds.data (cb_sounds st)))%nat) /\
    (occupied (Sounds.data (cb_sounds st'))
     <= occupied (Sounds.data (cb_sounds st)))%nat.
Proof.
  intros Hok Hhead.
  pose proof (schedule_spec s st Hok) as Hspec. cbv zeta in Hspec.
  pose proof (cb_ok_schedule s st Hok) as Hok1.
  set (st1 := schedule len buffer_start samplerate samplelen s st) in *.
  destruct Hspec as ((Hd & Hl & Hp & Hc & Hpi) & _ & _ & _ & _ & Hstart).
  assert (Hhead1 :
    Sounds.data (cb_sounds st1)
      !! Z.to_nat (Sounds.consumer_index (cb_sounds st1)) = Some (Some s))
    by (rewrite Hd, Hc; exact Hhead).
  destruct (play_spec s st1 Hok1 Hhead1)
    as (s' & st2 & Hplay & Hb' & Hs' & Hl' & Ho' & Hsounds2 & Hout2 & Houti2
        & Hzp2 & _ & Hcases).
  pose proof (ok_sounds _ _ Hok _ _ Hhead) as [Hoff Hbuf Hrange].
  destruct Hok1 as [Hring1 Hsok1 Hlen1 Houti1 Hzp1].
  pose proof Hring1 as [Hcap1 Hci1 Hpr1].
  assert (Hin : (Z.to_nat (Sounds.consumer_index (cb_sounds st1))
                 < length (Sounds.data (cb_sounds st1)))%nat) by lia.
  assert (Hring2 : wf_sounds (cb_sounds st2)).
  { rewrite Hsounds2. apply wf_sounds_set_slot, Hring1. }
  unfold consume. fold st1. rewrite Hplay. cb_simpl.
  rewrite (retire_spec s' st2 Hring2).
  eexists. split; [reflexivity|].
  rewrite Hsounds2. cb_simpl. rewrite Hd, Hc, Hl, Hp, Hpi in *.
  set (ci := Z.to_nat (Sounds.consumer_index (cb_sounds st))) in *.
  destruct (Z.leb_spec (TimedSound.len s') (TimedSound.offset s'))
    as [Hdone|Hkept]; cb_simpl.
  - (* the sound is finished: its slot is cleared *)
    rewrite list_insert_insert_eq.
    split; [|split; [|split; [reflexivity|split; [reflexivity|split]]]].
    + split; cb_simpl; try lia.
      * split; cb_simpl; rewrite ?length_insert; try lia.
        apply Z.mod_pos_bound. lia.
      * intros i x Hx. cb_simpl. destruct (Nat.eq_dec ci i) as [<-|Hne].
        -- rewrite list_lookup_insert_eq in Hx by exact Hin. discriminate.
        -- rewrite list_lookup_insert_ne in Hx by exact Hne.
           exact (ok_sounds _ _ Hok i x Hx).
    + intros i x Hx. cb_simpl. destruct (Nat.eq_dec ci i) as [<-|Hne].
      * rewrite list_lookup_insert_eq in Hx by exact Hin. discriminate.
      * rewrite list_lookup_insert_ne in Hx by exact Hne.
        exists x. split; [exact Hx|apply progressed_refl].
    + right. pose proof (occupied_insert_none _ _ _ Hhead). lia.
    + pose proof (occupied_insert_none _ _ _ Hhead). lia.
  - (* the sound stays at the head *)
    assert (Hprog : progressed s s').
    { destruct Hcases as [(-> & _)|_]; [apply progressed_refl|].
      right. repeat split; try assumption; lia. }
    assert (Hok2 : cb_ok len st2).
    { split; try lia; [exact Hring2|].
      intros i x Hx. rewrite Hsounds2 in Hx. cb_simpl.
      destruct (Nat.eq_dec ci i) as [<-|Hne].
      - rewrite list_lookup_insert_eq in Hx by exact Hin.
        injection Hx as <-. split; [lia|rewrite Hb'; lia|lia].
      - rewrite list_lookup_insert_ne in Hx by exact Hne.
        exact (ok_sounds _ _ Hok i x Hx). }
    split; [exact Hok2|]. rewrite Hsounds2. cb_simpl.
    rewrite ?Hp, ?Hpi.
    split; [|split; [reflexivity|split; [reflexivity|split]]].
    + intros i x Hx. cb_simpl. destruct (Nat.eq_dec ci i) as [<-|Hne].
      * rewrite list_lookup_insert_eq in Hx by exact Hin.
        injection Hx as <-. exists s. split; [exact Hhead|exact Hprog].
      * rewrite list_lookup_insert_ne in Hx by exact Hne.
        exists x. split; [exact Hx|apply progressed_refl].
    + left. destruct Hcases as [(-> & Houti' & [Hfull|[Hzero Hflag]])|Hfill].
      * lia.
      * destruct (Hstart Hzero) as [Hs1|Hs1]; [congruence|lia].
      * rewrite (Hfill Hkept). lia.
    + rewrite (occupied_insert_some _ _ _ _ Hhead). lia.
Qed.
(** The [while] loop ends, with fuel for one turn per occupied slot. *)
Lemma drain_spec (fuel : nat) :
  forall st : cb,
    cb_ok len st ->
    (len <= cb_outi st \/
     (occupied (Sounds.data (cb_sounds st)) <= fuel)%nat) ->
    exists st' : cb,
      drain len buffer_start samplerate samplelen fuel st = Ok st' /\
      cb_ok len st' /\
      advanced (Sounds.data (cb_sounds st)) (Sounds.data (cb_sounds st')) /\
      Sounds.paused (cb_sounds st') = Sounds.paused (cb_sounds st) /\
      Sounds.producer_index (cb_sounds st')
        = Sounds.producer_index (cb_sounds st).
Proof.
  induction fuel as [|fuel IH]; intros st Hok Hfuel.
  - pose proof (ok_ring _ _ Hok) as [Hcap Hci _].
    destruct (in_range_lookup (Sounds.data (cb_sounds st))
                (Sounds.consumer_index (cb_sounds st))) as [slot Hslot];
      [lia|].
    cbn [drain]. rewrite (array_get_ok _ _ _ (proj1 Hci) Hslot). cb_simpl.
    destruct slot as [s|]; [|stop_here st Hok].
    pose proof (ok_outi _ _ Hok) as Houti.
    rewrite to_ulong_int by lia.
    destruct (Z.ltb_spec (cb_outi st) len); [|stop_here st Hok].
    pose proof (occupied_positive _ _ _ Hslot). lia.
  - pose proof (ok_ring _ _ Hok) as [Hcap Hci _].
    destruct (in_range_lookup (Sounds.data (cb_sounds st))
                (Sounds.consumer_index (cb_sounds st))) as [slot Hslot];
      [lia|].
    cbn [drain]. rewrite (array_get_ok _ _ _ (proj1 Hci) Hslot). cb_simpl.
    destruct slot as [s|]; [|stop_here st Hok].
    pose proof (ok_outi _ _ Hok) as Houti.
    rewrite to_ulong_int by lia.
    destruct (Z.ltb_spec (cb_outi st) len); [|stop_here st Hok].
    destruct (consume_step s st Hok Hslot)
      as (st1 & -> & Hok1 & Hadv1 & Hp1 & Hpi1 & Hprog & Hle).
    cb_simpl.
    destruct (IH st1 Hok1) as (st' & -> & Hok' & Hadv' & Hp' & Hpi').
    { destruct Hprog; [left; assumption|right; lia]. }
    exists st'. split; [reflexivity|]. split; [exact Hok'|].
    split; [exact (advanced_trans _ _ _ Hadv1 Hadv')|].
    split; congruence.
Qed.

(** The turn of one unpaused channel. *)
Lemma drain_channel_spec (sounds : Sounds.t) (error : Z) (out : list Z)
    (should_start : bool) :
  wf_sounds sounds ->
  sounds_ok len sounds ->
  Z.of_nat (length out) = 2 * len ->
  exists st' : cb,
    drain_channel len buffer_start samplerate samplelen sounds error out
      should_start = Ok st' /\
    cb_ok len st' /\
    advanced (Sounds.data sounds) (Sounds.data (cb_sounds st')) /\
    Sounds.paused (cb_sounds st') = Sounds.paused sounds /\
    Sounds.producer_index (cb_sounds st') = Sounds.producer_index sounds.
Proof.
  intros Hwf Hsok Hout. pose proof Hwf as [Hcap Hci Hpi].
  destruct (in_range_lookup (Sounds.data sounds) (Sounds.consumer_index sounds))
    as [slot Hslot]; [lia|].
  unfold drain_channel. rewrite (array_get_ok _ _ _ (proj1 Hci) Hslot).
  cb_simpl.
  set (sounds1 := match slot with Some _ => sounds | None => _ end).
  assert (Hsame : same_ring sounds1 sounds)
    by (subst sounds1; destruct slot; repeat split).
  destruct Hsame as (Hd & Hl & Hp & Hc & Hpr).
  destruct (drain_spec (length (Sounds.data sounds1))
              (mkCb sounds1 error out 0 should_start 0))
    as (st' & Hrun & Hok' & Hadv & Hp' & Hpi').
  - split; cb_simpl; try lia.
    + split; congruence.
    + intros i x Hx. rewrite Hd in Hx. exact (Hsok i x Hx).
  - right. apply occupied_le_length.
  - exists st'. cb_simpl. rewrite Hd in Hadv.
    split; [exact Hrun|]. split; [exact Hok'|]. split; [exact Hadv|].
    split; congruence.
Qed.
End CallbackInvariant.

Lemma slot_of_Some (chs : Channels.t) (c i : nat) (x : option TimedSound.t) :
  slot_of chs c i = Some x <->
  exists sounds,
    Channels.data chs !! c = Some sounds /\ Sounds.data sounds !! i = Some x.
Proof. unfold slot_of. apply bind_Some. Qed.

Lemma channels_advanced_refl (a : Channels.t) : channels_advanced a a.
Proof. intros c i s H. exists s. split; [exact H|apply progressed_refl]. Qed.

Lemma channels_advanced_trans (a b c : Channels.t) :
  channels_advanced a b -> channels_advanced b c -> channels_advanced a c.
Proof.
  intros Hab Hbc k i s'' H.
  destruct (Hbc k i s'' H) as (s' & H' & P').
  destruct (Hab k i s' H') as (s & H0 & P).
  exists s. split; [exact H0|exact (progressed_trans _ _ _ P P')].
Qed.

(** The turn of one channel in the loop over the channels. *)
Lemma mix_channel_spec (len : Z) (buffer_start : Q) (c : Z) (m : mixer) :
  0 <= len <= INT_MAX ->
  mixer_ok len m ->
  0 <= c < Channels.len (mx_channels m) ->
  exists m' : mixer,
    mix_channel len buffer_start c m = Ok m' /\
    mixer_ok len m' /\
    channels_advanced (mx_channels m) (mx_channels m') /\
    Channels.len (mx_channels m') = Channels.len (mx_channels m).
Proof.
  intros Hlen [Hwf Hsok Hout Hrates] Hc.
  pose proof Hwf as [Hcount Hall].
  destruct (in_range_lookup (Channels.data (mx_channels m)) c) as [sounds Hs];
    [lia|].
  unfold mix_channel. rewrite (array_get_ok _ _ _ (proj1 Hc) Hs). cbn [bind].
  destruct (negb (Sounds.paused sounds =? 0)).
  { exists m. split; [reflexivity|]. split; [now split|].
    split; [apply channels_advanced_refl|reflexivity]. }
  destruct (drain_channel_spec len buffer_start _ _ Hlen Hrates sounds
              (Channels.playback_error (mx_channels m)) (mx_out m)
              (mx_should_start m))
    as (st & -> & Hok & Hadv & _).
  { exact (wf_channel_lookup _ _ _ Hwf Hs). }
  { exact (Hsok _ _ Hs). }
  { exact Hout. }
  cbn [bind]. rewrite (put_channel_ok _ _ sounds) by (lia || exact Hs).
  cbn [bind]. eexists. split; [reflexivity|].
  assert (Hin : (Z.to_nat c < length (Channels.data (mx_channels m)))%nat)
    by (eapply lookup_lt_Some; exact Hs).
  split; [split|split]; cbn.
  - split; cbn; [now rewrite length_insert|].
    apply Forall_lookup. intros j x Hx.
    destruct (Nat.eq_dec (Z.to_nat c) j) as [<-|Hne].
    + rewrite list_lookup_insert_eq in Hx by exact Hin. injection Hx as <-.
      exact (ok_ring _ _ Hok).
    + rewrite list_lookup_insert_ne in Hx by exact Hne.
      exact (wf_channel_lookup _ _ _ Hwf Hx).
  - intros j x Hx. cbn in Hx.
    destruct (Nat.eq_dec (Z.to_nat c) j) as [<-|Hne].
    + rewrite list_lookup_insert_eq in Hx by exact Hin. injection Hx as <-.
      exact (ok_sounds _ _ Hok).
    + rewrite list_lookup_insert_ne in Hx by exact Hne. exact (Hsok _ _ Hx).
  - exact (ok_out _ _ Hok).
  - exact Hrates.
  - intros j i s' H. apply slot_of_Some in H as (x & Hx & Hi). cbn in Hx.
    destruct (Nat.eq_dec (Z.to_nat c) j) as [<-|Hne].
    + rewrite list_lookup_insert_eq in Hx by exact Hin. injection Hx as <-.
      destruct (Hadv i s' Hi) as (s & H0 & P). exists s. split; [|exact P].
      apply slot_of_Some. eauto.
    + rewrite list_lookup_insert_ne in Hx by exact Hne.
      exists s'. split; [|apply progressed_refl].
      apply slot_of_Some. eauto.
  - reflexivity.
Qed.

Lemma mix_from_app (len : Z) (buffer_start : Q) (n1 n2 : nat) :
  forall (c0 : Z) (m : mixer),
    mix_from (n1 + n2) len buffer_start c0 m
    = (m1 <- mix_from n1 len buffer_start c0 m ;;
       mix_from n2 len buffer_start (c0 + Z.of_nat n1) m1).
Proof.
  induction n1 as [|n1 IH]; intros c0 m.
  - cbn. now rewrite Z.add_0_r.
  - cbn [Nat.add mix_from].
    destruct (mix_channel len buffer_start c0 m) as [m1|]; [|reflexivity].
    cbn [bind]. rewrite IH. f_equal.
    replace (c0 + 1 + Z.of_nat n1) with (c0 + Z.of_nat (S n1)) by lia.
    reflexivity.
Qed.

(** The loop over the channels. *)
Lemma mix_from_spec (len : Z) (buffer_start : Q) (n : nat) :
  0 <= len <= INT_MAX ->
  forall (c : Z) (m : mixer),
    mixer_ok len m ->
    0 <= c ->
    c + Z.of_nat n <= Channels.len (mx_channels m) ->
    exists m' : mixer,
      mix_from n len buffer_start c m = Ok m' /\
      mixer_ok len m' /\
      channels_advanced (mx_channels m) (mx_channels m') /\
      Channels.len (mx_channels m') = Channels.len (mx_channels m).
Proof.
  intros Hlen. induction n as [|n IH]; intros c m Hok Hc Hn; cbn [mix_from].
  - exists m. split; [reflexivity|]. split; [exact Hok|].
    split; [apply channels_advanced_refl|reflexivity].
  - destruct (mix_channel_spec len buffer_start c m Hlen Hok)
      as (m1 & -> & Hok1 & Hadv1 & Hsame); [lia|].
    cbn [bind].
    destruct (IH (c + 1) m1 Hok1) as (m' & -> & Hok' & Hadv' & Hsame');
      [lia|lia|].
    exists m'. split; [reflexivity|]. split; [exact Hok'|].
    split; [exact (channels_advanced_trans _ _ _ Hadv1 Hadv')|congruence].
Qed.

(** The first loop of the callback leaves a buffer of zeros. *)
Lemma zero_fill_spec (n : nat) :
  forall (outi : Z) (out : list Z),
    0 <= outi ->
    2 * (outi + Z.of_nat n) <= Z.of_nat (length out) ->
    exists out' : list Z,
      zero_fill n outi out = Ok out' /\
      length out' = length out /\
      forall j : nat,
        out' !! j
        = if decide (2 * outi <= Z.of_nat j < 2 * (outi + Z.of_nat n))
          then Some 0 else out !! j.
Proof.
  induction n as [|n IH]; intros outi out Houti Hlen; cbn [zero_fill].
  - exists out. split; [reflexivity|]. split; [reflexivity|].
    intros j. destruct (decide _); [lia|reflexivity].
  - rewrite !shiftl_1. rewrite array_set_ok by lia. cbn [bind].
    rewrite array_set_ok by (rewrite length_insert; lia). cbn [bind].
    destruct (IH (outi + 1)
                (<[Z.to_nat (2 * outi + 1) := 0]>
                   (<[Z.to_nat (2 * outi) := 0]> out)))
      as (out' & -> & Hlen' & Hget); [lia|rewrite !length_insert; lia|].
    exists out'. split; [reflexivity|].
    split; [now rewrite Hlen', !length_insert|].
    intros j. rewrite Hget.
    destruct (decide (2 * (outi + 1) <= Z.of_nat j
                      < 2 * (outi + 1 + Z.of_nat n))).
    + destruct (decide _); [reflexivity|lia].
    + destruct (Nat.eq_dec (Z.to_nat (2 * outi + 1)) j) as [<-|Hne1].
      * rewrite list_lookup_insert_eq by (rewrite length_insert; lia).
        destruct (decide _); [reflexivity|lia].
      * rewrite list_lookup_insert_ne by exact Hne1.
        destruct (Nat.eq_dec (Z.to_nat (2 * outi)) j) as [<-|Hne0].
        -- rewrite list_lookup_insert_eq by lia.
           destruct (decide _); [reflexivity|lia].
        -- rewrite list_lookup_insert_ne by exact Hne0.
           destruct (decide _); [lia|reflexivity].
Qed.

Lemma zero_fill_all (len : Z) (out : list Z) :
  0 <= len ->
  Z.of_nat (length out) = 2 * len ->
  zero_fill (Z.to_nat len) 0 out = Ok (replicate (Z.to_nat (2 * len)) 0).
Proof.
  intros Hlen Hout.
  destruct (zero_fill_spec (Z.to_nat len) 0 out) as (out' & -> & Hlen' & Hget);
    [lia|lia|].
  f_equal. apply list_eq. intros j. rewrite Hget.
  destruct (decide _) as [Hj|Hj].
  - symmetry. apply lookup_replicate_2. lia.
  - rewrite lookup_ge_None_2 by lia.
    symmetry. apply lookup_replicate_None. lia.
Qed.


Lemma channels_ok_Forall (len : Z) (chs : Channels.t) :
  Forall (fun sounds =>
            Forall (fun slot =>
                      match slot with
                      | Some s => sound_ok len s
                      | None => True
                      end) (Sounds.data sounds))
         (Channels.data chs) ->
  channels_ok len chs.
Proof.
  intros H c sounds Hc i s Hi.
  rewrite Forall_lookup in H. specialize (H c sounds Hc).
  rewrite Forall_lookup in H. exact (H i (Some s) Hi).
Qed.

(** The invariant of a concrete channel set, by evaluation. *)
Ltac channels_ok_by_compute :=
  apply channels_ok_Forall; vm_compute;
  repeat first
    [ exact I
    | apply Forall_nil_2
    | apply Forall_cons_2
    | split; cbn; unfold INT_MAX; lia ].

Lemma exact_rates_4 : exact_rates (inject_Z 4) (1 / inject_Z 4).
Proof. split; reflexivity. Qed.

(** A sound that is already consumed to its end when its channel is
    visited (as [ws_play_next] leaves the sound it interrupts) is retired by
    the first turn of the loop. *)
Lemma consume_finished (len : Z) (buffer_start samplerate samplelen : Q)
    (s : TimedSound.t) (st st' : cb) :
  0 <= len <= INT_MAX ->
  exact_rates samplerate samplelen ->
  cb_ok len st ->
  Sounds.data (cb_sounds st) !! Z.to_nat (Sounds.consumer_index (cb_sounds st))
    = Some (Some s) ->
  TimedSound.len s <= TimedSound.offset s ->
  consume len buffer_start samplerate samplelen s st = Ok st' ->
  Sounds.data (cb_sounds st') !! Z.to_nat (Sounds.consumer_index (cb_sounds st))
    = Some None.
Proof.
  intros Hlen Hrates Hok Hhead Hdone Hrun.
  pose proof (schedule_spec len buffer_start samplerate samplelen Hlen Hrates
                s st Hok) as Hspec. cbv zeta in Hspec.
  pose proof (cb_ok_schedule len buffer_start samplerate samplelen Hlen Hrates
                s st Hok) as [Hring1 _ _ _ _].
  destruct Hspec as ((Hd & Hl & Hp & Hc & Hpi) & _).
  unfold consume, play in Hrun.
  replace (TimedSound.offset s <? TimedSound.len s) with false in Hrun
    by (symmetry; apply Z.ltb_ge; exact Hdone).
  rewrite andb_false_r in Hrun. cbn [bind fst snd] in Hrun.
  rewrite (retire_spec s _ Hring1) in Hrun.
  destruct (Z.leb_spec (TimedSound.len s) (TimedSound.offset s)); [|lia].
  injection Hrun as <-. cb_simpl. rewrite Hd, Hc.
  apply list_lookup_insert_eq. eapply lookup_lt_Some. exact Hhead.
Qed.

Lemma drain_channel_finished_head (len : Z)
    (buffer_start samplerate samplelen : Q) (sounds : Sounds.t) (error : Z)
    (out : list Z) (flag : bool) (s : TimedSound.t) :
  0 < len <= INT_MAX ->
  exact_rates samplerate samplelen ->
  wf_sounds sounds ->
  sounds_ok len sounds ->
  Z.of_nat (length out) = 2 * len ->
  Sounds.data sounds !! Z.to_nat (Sounds.consumer_index sounds) = Some (Some s) ->
  TimedSound.len s <= TimedSound.offset s ->
  exists st' : cb,
    drain_channel len buffer_start samplerate samplelen sounds error out flag
      = Ok st' /\
    forall x : TimedSound.t,
      Sounds.data (cb_sounds st') !! Z.to_nat (Sounds.consumer_index sounds)
        <> Some (Some x).
Proof.
  intros Hlen Hrates Hwf Hsok Hout Hhead Hdone.
  assert (Hlen' : 0 <= len <= INT_MAX) by lia.
  pose proof Hwf as [Hcap Hci Hpi].
  unfold drain_channel. rewrite (array_get_ok _ _ _ (proj1 Hci) Hhead).
  cbn [bind].
  destruct (length (Sounds.data sounds)) as [|fuel] eqn:Hfuel; [lia|].
  cbn [drain]. cb_simpl. rewrite (array_get_ok _ _ _ (proj1 Hci) Hhead).
  cbn [bind]. rewrite to_ulong_int by lia.
  destruct (Z.ltb_spec 0 len); [|lia].
  assert (Hok0 : cb_ok len (mkCb sounds error out 0 flag 0))
    by (split; cb_simpl; (assumption || lia)).
  destruct (consume_step len buffer_start samplerate samplelen Hlen' Hrates
              s _ Hok0 Hhead)
    as (st1 & Hrun & Hok1 & _ & _ & _ & Hprog & _).
  pose proof (consume_finished len buffer_start samplerate samplelen s _ st1
                Hlen' Hrates Hok0 Hhead Hdone Hrun) as Hcleared.
  rewrite Hrun. cbn [bind]. cb_simpl.
  destruct (drain_spec len buffer_start samplerate samplelen Hlen' Hrates
              fuel st1 Hok1)
    as (st' & -> & _ & Hadv & _).
  { destruct Hprog as [Hfull|Hless]; [left; exact Hfull|right].
    pose proof (occupied_le_length (Sounds.data sounds)). cb_simpl. lia. }
  exists st'. split; [reflexivity|].
  intros x Hx. destruct (Hadv _ _ Hx) as (y & Hy & _). congruence.
Qed.

(** X23.  A callback on a set one of whose unpaused channels has, at its
    consumer slot, a sound consumed to its end: after it that slot holds no
    sound. *)
Lemma ws_callback_clears_finished_head
    (out : list Z) (len : Z) (outputBufferDacTime currentTime : Q)
    (chs : Channels.t) (c : nat) (sounds : Sounds.t) (s : TimedSound.t) :
  wf_channels chs ->
  exact_rates (Channels.samplerate chs) (Channels.samplelen chs) ->
  0 < len <= INT_MAX ->
  Z.of_nat (length out) = 2 * len ->
  channels_ok len chs ->
  Channels.data chs !! c = Some sounds ->
  Sounds.paused sounds = 0 ->
  Sounds.data sounds !! Z.to_nat (Sounds.consumer_index sounds) = Some (Some s) ->
  TimedSound.len s <= TimedSound.offset s ->
  exists (chs' : Channels.t) (out' : list Z),
    ws_callback out len outputBufferDacTime currentTime chs = Ok (chs', out') /\
    forall x : TimedSound.t,
      slot_of chs' c (Z.to_nat (Sounds.consumer_index sounds))
        <> Some (Some x).
Proof.
  intros Hwf Hrates Hlen Hout Hsok Hs Hp Hhead Hdone.
  assert (Hlen' : 0 <= len <= INT_MAX) by lia.
  pose proof Hwf as [Hcount _].
  assert (Hc : (c < length (Channels.data chs))%nat)
    by (eapply lookup_lt_Some; exact Hs).
  unfold ws_callback. rewrite (zero_fill_all len out) by lia. cbn [bind].
  set (m0 := mkMixer _ _ false).
  assert (Hok0 : mixer_ok len m0).
  { split; cbn; [destruct Hwf; now split|exact Hsok| |exact Hrates].
    rewrite length_replicate. lia. }
  replace (Z.to_nat (Channels.len (Channels.set_last chs len
                                     (outputBufferDacTime - currentTime)%Q)))
    with (c + S (length (Channels.data chs) - c - 1))%nat by (cbn; lia).
  rewrite mix_from_app.
  destruct (mix_from_spec len outputBufferDacTime c Hlen' 0 m0 Hok0)
    as (m1 & Hrun1 & Hok1 & _ & Hsame1); [lia|cbn; lia|].
  pose proof (mix_from_other_channel len outputBufferDacTime c 0 m0 m1
                (Z.of_nat c) ltac:(lia) Hrun1) as Hsame.
  rewrite Nat2Z.id in Hsame. cbn in Hsame. rewrite Hs in Hsame.
  rewrite Hrun1. cbn [bind mix_from]. rewrite Z.add_0_l.
  assert (Hlen1 : Channels.len (mx_channels m1) = Channels.len chs)
    by (rewrite Hsame1; reflexivity).
  destruct (drain_channel_finished_head len outputBufferDacTime
              (Channels.samplerate (mx_channels m1))
              (Channels.samplelen (mx_channels m1)) sounds
              (Channels.playback_error (mx_channels m1)) (mx_out m1)
              (mx_should_start m1) s Hlen (mo_rates _ _ Hok1))
    as (st' & Hdrain & Hcleared); try assumption.
  { exact (wf_channel_lookup _ _ _ (mo_wf _ _ Hok1) Hsame). }
  { exact (mo_sounds _ _ Hok1 _ _ Hsame). }
  { exact (mo_out _ _ Hok1). }
  destruct (mix_channel_spec len outputBufferDacTime (Z.of_nat c) m1 Hlen' Hok1)
    as (m2 & Hrun2 & Hok2 & _ & Hlen2); [lia|].
  rewrite Hrun2. cbn [bind].
  assert (Hslot : forall x : TimedSound.t,
            slot_of (mx_channels m2) c
              (Z.to_nat (Sounds.consumer_index sounds)) <> Some (Some x)).
  { unfold mix_channel in Hrun2.
    rewrite (array_get_ok _ _ sounds) in Hrun2
      by (rewrite ?Nat2Z.id; lia || exact Hsame).
    cbn [bind] in Hrun2. rewrite Hp in Hrun2. cbn [Z.eqb negb] in Hrun2.
    rewrite Hdrain in Hrun2. cbn [bind] in Hrun2.
    rewrite (put_channel_ok _ _ sounds) in Hrun2
      by (rewrite ?Nat2Z.id; lia || exact Hsame).
    cbn [bind] in Hrun2. injection Hrun2 as <-.
    intros x Hx. apply slot_of_Some in Hx as (y & Hy & Hi).
    cbn in Hy. rewrite Nat2Z.id in Hy.
    rewrite list_lookup_insert_eq in Hy
      by (cbn; eapply lookup_lt_Some; exact Hsame).
    injection Hy as <-. exact (Hcleared x Hi). }
  destruct (mix_from_spec len outputBufferDacTime
              (length (Channels.data chs) - c - 1) Hlen'
              (Z.of_nat c + 1) m2 Hok2)
    as (m3 & -> & _ & Hadv3 & _); [lia|lia|].
  cbn [bind]. exists (mx_channels m3), (mx_out m3). split; [reflexivity|].
  intros x Hx. destruct (Hadv3 _ _ _ Hx) as (y & Hy & _).
  exact (Hslot y Hy).
Qed.

(** Within the loop turn that ends a sound the stored offset passes the
    length, just before the slot is cleared: the hundred-frame sound, 64
    frames in, is given the offset 128 by the mixing block of the next
    buffer. *)
Example offset_passes_len_within_the_last_turn :
  let chs :=
    channels_after
      (ws_callback buffer_64 64 9 9
         (channels_after
            (ws_callback buffer_64 64 8 8 (channels_of hundred_queued)))) in
  let sounds := default (newSounds 0) (Channels.data chs !! 0%nat) in
  let s := default (newTimedSound hundred_frames 0) (head (omap id (Sounds.data sounds))) in
  TimedSound.offset s = 64 /\
  TimedSound.len s = 100 /\
  (TimedSound.offset ∘ fst)
    <$> (match play 64 s (mkCb sounds 0 (replicate 128 0) 0 false 0) with
         | Ok r => Some r
         | Fault _ => None
         end) = Some 128.
Proof. cbv zeta. repeat split; vm_compute; reflexivity. Qed.

(** ** The invariants are kept by every operation *)

Lemma wf_sounds_newSounds (queue_size : Z) :
  0 < queue_size -> wf_sounds (newSounds queue_size).
Proof.
  intros H. split; cbn; rewrite ?length_replicate; lia.
Qed.

Lemma wf_channels_newChannels (samplerate num_channels queue_size : Z) :
  0 <= num_channels -> 0 < queue_size ->
  wf_channels (newChannels samplerate num_channels queue_size).
Proof.
  intros Hn Hq. split; cbn.
  - rewrite length_app, !length_replicate. lia.
  - apply Forall_app. split; apply Forall_replicate, wf_sounds_newSounds; lia.
Qed.


Lemma exact_rates_newChannels (samplerate num_channels queue_size : Z) :
  0 < samplerate ->
  exact_rates
    (Channels.samplerate (newChannels samplerate num_channels queue_size))
    (Channels.samplelen (newChannels samplerate num_channels queue_size)).
Proof.
  intros H. unfold newChannels. cbn [Channels.samplerate Channels.samplelen].
  split.
  - unfold Qlt. cbn. lia.
  - field. intros E. unfold Qeq in E. cbn in E. lia.
Qed.

Lemma wf_sounds_pushed (sounds : Sounds.t) (sound : TimedSound.t) :
  wf_sounds sounds -> wf_sounds (pushed sounds sound).
Proof.
  intros [Hcap Hci Hpi]. split; cbn; rewrite ?length_insert; try lia.
  apply Z.mod_pos_bound. lia.
Qed.


Lemma wf_channels_with_channel (chs : Channels.t) (c : Z) (sounds : Sounds.t) :
  wf_channels chs -> wf_sounds sounds ->
  wf_channels (with_channel chs c sounds).
Proof.
  intros [Hcount Hall] Hs. split; cbn; [now rewrite length_insert|].
  apply Forall_insert; assumption.
Qed.


(** A sound handed to the producers: its length is not negative and its
    sample buffer has both halves. *)
Lemma sound_ok_new (len : Z) (toplay : Sound.t) (start : Q) :
  0 <= Sound.len toplay ->
  2 * Sound.len toplay <= Z.of_nat (length (Sound.buffer toplay)) ->
  Sound.len toplay + len <= INT_MAX ->
  sound_ok len (newTimedSound toplay start).
Proof. intros. split; cbn; lia. Qed.



(** ** The callback: a sound alone in the channel set *)

Lemma same_ring_refl (a : Sounds.t) : same_ring a a.
Proof. repeat split. Qed.

Lemma same_ring_trans (a b c : Sounds.t) :
  same_ring a b -> same_ring b c -> same_ring a c.
Proof. intros (?&?&?&?&?) (?&?&?&?&?). repeat split; congruence. Qed.

Lemma same_ring_wf (a b : Sounds.t) :
  same_ring a b -> wf_sounds a -> wf_sounds b.
Proof.
  intros (Hd & Hl & Hp & Hc & Hpi) [Hcap Hci Hpr].
  split; rewrite <- ?Hd, <- ?Hl, <- ?Hc, <- ?Hpi; assumption.
Qed.

Lemma same_slots_refl (a : Channels.t) : same_slots a a.
Proof.
  split; [reflexivity|]. split; [|repeat split].
  intros c x Hx. exists x. split; [exact Hx|apply same_ring_refl].
Qed.

Lemma same_slots_trans (a b c : Channels.t) :
  same_slots a b -> same_slots b c -> same_slots a c.
Proof.
  intros (Hl & Hab & ?&?&?&?) (Hl' & Hbc & ?&?&?&?).
  split; [congruence|]. split; [|repeat split; congruence].
  intros k x Hx. destruct (Hab k x Hx) as (y & Hy & Rxy).
  destruct (Hbc k y Hy) as (z & Hz & Ryz).
  exists z. split; [exact Hz|exact (same_ring_trans _ _ _ Rxy Ryz)].
Qed.

Lemma same_slots_slot_of (a b : Channels.t) (c i : nat) :
  same_slots a b -> slot_of b c i = slot_of a c i.
Proof.
  intros (Hl & Hab & _). unfold slot_of.
  destruct (Channels.data a !! c) as [x|] eqn:Hx.
  - destruct (Hab c x Hx) as (y & -> & (Hd & _)). cbn. now rewrite Hd.
  - apply lookup_ge_None in Hx. rewrite Hl in Hx.
    apply lookup_ge_None in Hx. now rewrite Hx.
Qed.

Lemma same_slots_wf (a b : Channels.t) :
  same_slots a b -> wf_channels a -> wf_channels b.
Proof.
  intros (Hl & Hab & Hlen & _) [Hcount Hall]. split; [lia|].
  apply Forall_lookup. intros c y Hy.
  destruct (lookup_lt_is_Some_2 (Channels.data a) c) as [x Hx].
  { apply lookup_lt_Some in Hy. lia. }
  destruct (Hab c x Hx) as (y' & Hy' & R).
  rewrite Hy in Hy'. injection Hy' as <-.
  apply (same_ring_wf x y R). rewrite Forall_lookup in Hall. exact (Hall c x Hx).
Qed.

Lemma same_slots_silent (a b : Channels.t) :
  same_slots a b -> silent a -> silent b.
Proof.
  intros R H c i x Hx. rewrite (same_slots_slot_of a b c i R) in Hx.
  exact (H c i x Hx).
Qed.

Lemma same_slots_solo (a b : Channels.t) (c : nat) (s : TimedSound.t) :
  same_slots a b -> solo a c s -> solo b c s.
Proof.
  intros R (x & Hx & Hp & Hhead & Honly).
  pose proof R as (_ & Hab & _).
  destruct (Hab c x Hx) as (y & Hy & (Hd & _ & Hpa & Hc & _)).
  exists y. split; [exact Hy|]. split; [congruence|].
  split; [rewrite <- Hd, <- Hc; exact Hhead|].
  intros c' i z Hz. rewrite (same_slots_slot_of a b c' i R) in Hz.
  rewrite <- Hc. exact (Honly c' i z Hz).
Qed.

Lemma same_slots_idle (a b : Channels.t) (c : Z) :
  same_slots a b -> idle a c -> idle b c.
Proof.
  intros (_ & Hab & _) (x & Hx & Hhead).
  destruct (Hab _ x Hx) as (y & Hy & (Hd & _ & _ & Hc & _)).
  exists y. split; [exact Hy|]. rewrite <- Hd, <- Hc. exact Hhead.
Qed.

Section Idle.
Variable len : Z.
Variable buffer_start : Q.

Lemma drain_head_empty (samplerate samplelen : Q) (fuel : nat) (st : cb) :
  0 <= Sounds.consumer_index (cb_sounds st) ->
  Sounds.data (cb_sounds st) !! Z.to_nat (Sounds.consumer_index (cb_sounds st))
    = Some None ->
  drain len buffer_start samplerate samplelen fuel st = Ok st.
Proof.
  intros Hci Hhead. destruct fuel; cbn [drain];
    rewrite (array_get_ok _ _ _ Hci Hhead); reflexivity.
Qed.

Lemma drain_buffer_full (samplerate samplelen : Q) (fuel : nat) (st : cb)
    (s : TimedSound.t) :
  0 <= Sounds.consumer_index (cb_sounds st) ->
  Sounds.data (cb_sounds st) !! Z.to_nat (Sounds.consumer_index (cb_sounds st))
    = Some (Some s) ->
  len <= cb_outi st <= INT_MAX ->
  0 <= len ->
  drain len buffer_start samplerate samplelen fuel st = Ok st.
Proof.
  intros Hci Hhead Houti Hlen.
  assert (E : (to_ulong (cb_outi st) <? len) = false)
    by (rewrite to_ulong_int by lia; apply Z.ltb_ge; lia).
  destruct fuel; cbn [drain];
    rewrite (array_get_ok _ _ _ Hci Hhead); cbn [bind]; rewrite E; reflexivity.
Qed.

(** The turn of a channel with an empty consumer slot changes neither the
    output nor [should_start] nor any ring. *)
Lemma mix_channel_idle (c : Z) (m : mixer) :
  wf_channels (mx_channels m) ->
  0 <= c ->
  idle (mx_channels m) c ->
  exists m' : mixer,
    mix_channel len buffer_start c m = Ok m' /\
    mx_out m' = mx_out m /\
    mx_should_start m' = mx_should_start m /\
    same_slots (mx_channels m) (mx_channels m').
Proof.
  intros Hwf Hc (sounds & Hs & Hhead).
  pose proof (wf_channel_lookup _ _ _ Hwf Hs) as [Hcap Hci Hpi].
  unfold mix_channel. rewrite (array_get_ok _ _ _ Hc Hs). cbn [bind].
  destruct (negb (Sounds.paused sounds =? 0)).
  { exists m. repeat split; auto using same_slots_refl.
    apply same_slots_refl. }
  unfold drain_channel. rewrite (array_get_ok _ _ _ (proj1 Hci) Hhead).
  cbn [bind]. rewrite drain_head_empty by (cb_simpl; first [lia | assumption]).
  cbn [bind]. cb_simpl. rewrite set_playback_error_same.
  rewrite (put_channel_ok _ _ _ _ Hc Hs). cbn [bind].
  eexists. split; [reflexivity|]. cbn. split; [reflexivity|].
  split; [reflexivity|]. unfold same_slots, with_channel. cbn.
  split; [now rewrite length_insert|]. split; [|repeat split].
  intros k x Hx. destruct (Nat.eq_dec (Z.to_nat c) k) as [<-|Hne].
  - rewrite list_lookup_insert_eq by (eapply lookup_lt_Some; eassumption).
    eexists. split; [reflexivity|]. rewrite Hs in Hx. injection Hx as <-.
    repeat split.
  - rewrite list_lookup_insert_ne by exact Hne.
    exists x. split; [exact Hx|apply same_ring_refl].
Qed.

(** The same over a run of such channels. *)
Lemma mix_from_idle (n : nat) :
  forall (c0 : Z) (m : mixer),
    wf_channels (mx_channels m) ->
    0 <= c0 ->
    (forall c, c0 <= c < c0 + Z.of_nat n -> idle (mx_channels m) c) ->
    exists m' : mixer,
      mix_from n len buffer_start c0 m = Ok m' /\
      mx_out m' = mx_out m /\
      mx_should_start m' = mx_should_start m /\
      same_slots (mx_channels m) (mx_channels m').
Proof.
  induction n as [|n IH]; intros c0 m Hwf Hc0 Hidle; cbn [mix_from].
  - exists m. repeat split. apply same_slots_refl.
  - destruct (mix_channel_idle c0 m Hwf Hc0) as (m1 & -> & Ho1 & Hf1 & R1);
      [apply Hidle; lia|].
    cbn [bind].
    destruct (IH (c0 + 1) m1) as (m' & -> & Ho' & Hf' & R').
    + exact (same_slots_wf _ _ R1 Hwf).
    + lia.
    + intros c Hc. apply (same_slots_idle _ _ c R1). apply Hidle. lia.
    + exists m'. split; [reflexivity|]. split; [congruence|].
      split; [congruence|]. exact (same_slots_trans _ _ _ R1 R').
Qed.


End Idle.

Lemma out_at_zeros (n : nat) (j : Z) : out_at (replicate n 0) j = 0.
Proof.
  unfold out_at. destruct (replicate n 0 !! Z.to_nat j) as [x|] eqn:E;
    [|reflexivity].
  apply lookup_replicate in E as [-> _]. reflexivity.
Qed.

Lemma lookup_out_at (out : list Z) (j : nat) :
  (j < length out)%nat -> out !! j = Some (out_at out (Z.of_nat j)).
Proof.
  intros H. unfold out_at. rewrite Nat2Z.id.
  destruct (lookup_lt_is_Some_2 out j H) as [x ->]. reflexivity.
Qed.

Section Playing.
Variable len : Z.
Variable buffer_start : Q.
Variable samplerate samplelen : Q.
Hypothesis Hlen : 0 < len <= INT_MAX.
Hypothesis Hrates : exact_rates samplerate samplelen.

Lemma buffer_lasts : (0 < samplelen * inject_Z len)%Q.
Proof.
  destruct Hrates as [Hpos Hone].
  assert (Hsl : (0 < samplelen)%Q).
  { destruct (Qlt_le_dec 0 samplelen) as [H|H]; [exact H|].
    exfalso. assert (samplelen * samplerate <= 0)%Q by nra. lra. }
  assert (0 < inject_Z len)%Q.
  { replace 0%Q with (inject_Z 0) by reflexivity. rewrite <- Zlt_Qlt. lia. }
  nra.
Qed.

(** A sound that starts at the instant of the buffer, or that is already
    under way, is scheduled at the first frame. *)
Lemma schedule_at_first_frame (sounds : Sounds.t) (s : TimedSound.t)
    (error : Z) (out : list Z) (flag : bool) :
  0 < TimedSound.offset s \/
  (TimedSound.offset s = 0 /\ (0 < TimedSound.start s)%Q /\
   (TimedSound.start s == buffer_start)%Q) ->
  exists (d : Q) (flag' : bool),
    schedule len buffer_start samplerate samplelen s
      (mkCb sounds error out 0 flag 0)
    = mkCb (Sounds.set_done_at sounds d) error out 0 flag' 0 /\
    (0 <? TimedSound.offset s) || flag' = true.
Proof.
  intros [Hon|(Hzero & Hpos & Hnow)]; unfold schedule; cb_simpl.
  - destruct (Z.eqb_spec (TimedSound.offset s) 0); [lia|].
    exists (Sounds.done_at sounds), flag. split; [now destruct sounds|].
    destruct (Z.ltb_spec 0 (TimedSound.offset s)); [reflexivity|lia].
  - rewrite Hzero. cbn [Z.eqb]. rewrite (Qltb_lt _ _ Hpos).
    pose proof buffer_lasts.
    rewrite Qltb_lt by lra.
    assert (E : Qfloor ((TimedSound.start s - buffer_start) * samplerate) = 0).
    { assert (Hq : ((TimedSound.start s - buffer_start) * samplerate == 0)%Q)
        by (rewrite Hnow; ring).
      rewrite Hq. reflexivity. }
    rewrite E. cbn [Z.ltb Z.compare]. eexists _, true. split; reflexivity.
Qed.

(** The turn of a channel whose only sound is played from the first frame of
    an output buffer of zeros. *)
Lemma drain_channel_playing (sounds : Sounds.t) (s : TimedSound.t)
    (error : Z) (flag : bool) :
  wf_sounds sounds ->
  Sounds.data sounds !! Z.to_nat (Sounds.consumer_index sounds) = Some (Some s) ->
  (forall (i : nat) (x : TimedSound.t),
     Sounds.data sounds !! i = Some (Some x) ->
     i = Z.to_nat (Sounds.consumer_index sounds)) ->
  sound_ok len s ->
  int16_samples s ->
  TimedSound.offset s < TimedSound.len s ->
  0 < TimedSound.offset s \/
  (TimedSound.offset s = 0 /\ (0 < TimedSound.start s)%Q /\
   (TimedSound.start s == buffer_start)%Q) ->
  let o := TimedSound.offset s in
  let done := TimedSound.len s <=? len + o in
  exists st' : cb,
    drain_channel len buffer_start samplerate samplelen sounds error
      (replicate (Z.to_nat (2 * len)) 0) flag = Ok st' /\
    cb_error st' = error /\
    cb_out st' = burst s o len /\
    Sounds.data (cb_sounds st')
      = <[Z.to_nat (Sounds.consumer_index sounds) :=
            if done then None else Some (TimedSound.set_offset s (len + o))]>
          (Sounds.data sounds) /\
    Sounds.consumer_index (cb_sounds st')
      = (if done then (Sounds.consumer_index sounds + 1) mod Sounds.len sounds
         else Sounds.consumer_index sounds) /\
    Sounds.len (cb_sounds st') = Sounds.len sounds /\
    Sounds.paused (cb_sounds st') = Sounds.paused sounds /\
    Sounds.producer_index (cb_sounds st') = Sounds.producer_index sounds.
Proof.
  intros Hwf Hhead Honly [Hoff Hbuf Hrange] Hint Hlt Hcase o done.
  assert (Hlen' : 0 <= len <= INT_MAX) by lia.
  pose proof Hwf as [Hcap Hci Hpi].
  unfold drain_channel. rewrite (array_get_ok _ _ _ (proj1 Hci) Hhead).
  cbn [bind].
  destruct (length (Sounds.data sounds)) as [|fuel] eqn:Hfuel; [lia|].
  cbn [drain]. cb_simpl. rewrite (array_get_ok _ _ _ (proj1 Hci) Hhead).
  cbn [bind]. rewrite to_ulong_int by lia.
  destruct (Z.ltb_spec 0 len); [|lia].
  unfold consume.
  destruct (schedule_at_first_frame sounds s error
              (replicate (Z.to_nat (2 * len)) 0) flag Hcase)
    as (d & flag' & -> & Hgo).
  unfold play. cb_simpl. rewrite Hgo.
  destruct (Z.ltb_spec (TimedSound.offset s) (TimedSound.len s)); [|lia].
  cbn [andb].
  destruct (mix_content len Hlen' s (TimedSound.offset s) 0 (proj1 Hoff) Hbuf
              (Z.le_refl 0) (Z.to_nat len) 0
              (replicate (Z.to_nat (2 * len)) 0))
    as (out' & -> & Hlen_out & Hget);
    [lia|lia|rewrite length_replicate; lia|].
  cb_simpl. rewrite array_set_ok by lia. cb_simpl.
  rewrite to_ulong_int by lia. rewrite to_int_small by (unfold INT_MIN; lia).
  rewrite retire_spec by (cb_simpl; split; cb_simpl; rewrite ?length_insert; lia).
  cb_simpl. replace (len - 0 + TimedSound.offset s) with (len + o) by (subst o; lia).
  fold done.
  assert (Hstop : Z.min len (Z.max 0 (0 + (TimedSound.len s - TimedSound.offset s)))
                  = Z.min len (TimedSound.len s - o)) by (subst o; lia).
  rewrite Hstop in *.
  assert (Hout : out' = burst s o len).
  { apply list_eq. intros j. unfold burst.
    rewrite list_lookup_fmap.
    destruct (decide (j < Z.to_nat (2 * len))%nat) as [Hj|Hj].
    2:{ rewrite lookup_ge_None_2 by (rewrite Hlen_out, length_replicate; lia).
        rewrite lookup_ge_None_2 by (rewrite length_seq; lia). reflexivity. }
    rewrite lookup_seq_lt by exact Hj. cbn [fmap option_fmap option_map Nat.add].
    rewrite lookup_out_at by (rewrite Hlen_out, length_replicate; lia).
    f_equal. unfold burst_sample.
    pose proof (Z.div_mod (Z.of_nat j) 2 ltac:(lia)) as Hdm.
    pose proof (Z.mod_pos_bound (Z.of_nat j) 2 ltac:(lia)) as Hmod.
    rewrite Hdm at 1.
    rewrite (Hget (Z.of_nat j / 2) (Z.of_nat j mod 2)) by lia.
    rewrite out_at_zeros.
    destruct (Z.leb_spec 0 (Z.of_nat j / 2)); [|lia]. cbn [andb].
    assert (Hq : Z.of_nat j / 2 < len) by lia.
    destruct (Z.ltb_spec (Z.of_nat j / 2) (Z.min len (TimedSound.len s - o)));
      destruct (Z.ltb_spec (Z.of_nat j / 2) (TimedSound.len s - o));
      try lia.
    rewrite Z.add_0_l, to_int16_small by apply Hint.
    f_equal. subst o. lia. }
  assert (Hin : (Z.to_nat (Sounds.consumer_index sounds)
                 < length (Sounds.data sounds))%nat) by lia.
  subst done. destruct (Z.leb_spec (TimedSound.len s) (len + o)) as [Hdone|Hkept];
    cb_simpl.
  - (* finished: the next slot is empty *)
    rewrite list_insert_insert_eq.
    rewrite drain_head_empty.
    + eexists. split; [reflexivity|]. cb_simpl. repeat split. exact Hout.
    + cb_simpl. apply Z.mod_pos_bound. lia.
    + cb_simpl.
      set (next := Z.to_nat ((Sounds.consumer_index sounds + 1)
                             mod Sounds.len sounds)).
      assert (Hnext : (next < length (Sounds.data sounds))%nat).
      { subst next.
        pose proof (Z.mod_pos_bound (Sounds.consumer_index sounds + 1)
                      (Sounds.len sounds) ltac:(lia)). lia. }
      destruct (Nat.eq_dec (Z.to_nat (Sounds.consumer_index sounds)) next)
        as [E|E].
      * rewrite <- E. now apply list_lookup_insert_eq.
      * rewrite list_lookup_insert_ne by exact E.
        destruct (lookup_lt_is_Some_2 _ _ Hnext) as [[x|] Hx]; [|exact Hx].
        exfalso. apply E. symmetry. exact (Honly _ _ Hx).
  - (* still playing: the buffer is full *)
    rewrite (drain_buffer_full len buffer_start samplerate samplelen fuel _
               (TimedSound.set_offset s (len + o))).
    + eexists. split; [reflexivity|]. cb_simpl. repeat split. exact Hout.
    + cb_simpl. lia.
    + cb_simpl. now apply list_lookup_insert_eq.
    + cb_simpl. lia.
    + lia.
Qed.
End Playing.

Lemma same_slots_set_last (chs : Channels.t) (size : Z) (latency : Q) :
  same_slots chs (Channels.set_last chs size latency).
Proof.
  split; [reflexivity|]. split; [|repeat split].
  intros c x Hx. exists x. split; [exact Hx|apply same_ring_refl].
Qed.

Lemma same_slots_with_channel (a b : Channels.t) (c : nat) (x y : Sounds.t) :
  same_slots a b ->
  Channels.data a !! c = Some x ->
  same_ring x y ->
  same_slots a (with_channel b (Z.of_nat c) y).
Proof.
  intros (Hl & Hab & Hrest) Hx R. unfold same_slots, with_channel. cbn.
  rewrite Nat2Z.id. split; [now rewrite length_insert|]. split; [|exact Hrest].
  intros k z Hz. destruct (Nat.eq_dec c k) as [<-|Hne].
  - rewrite list_lookup_insert_eq by (apply lookup_lt_Some in Hx; lia).
    exists y. split; [reflexivity|]. congruence.
  - rewrite list_lookup_insert_ne by exact Hne. exact (Hab k z Hz).
Qed.

Lemma idle_with_channel (chs : Channels.t) (c : nat) (x : Sounds.t) (c' : Z) :
  Z.to_nat c' <> c -> idle chs c' -> idle (with_channel chs (Z.of_nat c) x) c'.
Proof.
  intros Hne (y & Hy & Hhead). exists y. split; [|exact Hhead].
  unfold with_channel. cbn. rewrite Nat2Z.id.
  rewrite list_lookup_insert_ne by congruence. exact Hy.
Qed.

(** The loop over the channels when every channel but [c] has an empty
    consumer slot: what the turn of channel [c] does is all that happens
    to the output and to the rings. *)
Lemma mix_from_one_busy (len : Z) (buffer_start : Q) (c : nat)
    (chs0 : Channels.t) (out0 : list Z) (Q : Sounds.t -> list Z -> Prop) :
  wf_channels chs0 ->
  (c < length (Channels.data chs0))%nat ->
  (forall c', 0 <= c' < Channels.len chs0 -> Z.to_nat c' <> c -> idle chs0 c') ->
  (forall m1 : mixer,
     mx_out m1 = out0 ->
     mx_should_start m1 = false ->
     same_slots chs0 (mx_channels m1) ->
     exists (x : Sounds.t) (out2 : list Z) (flag2 : bool),
       mix_channel len buffer_start (Z.of_nat c) m1
         = Ok (mkMixer (with_channel (mx_channels m1) (Z.of_nat c) x) out2 flag2) /\
       wf_sounds x /\ Q x out2) ->
  exists (chs1 chs3 : Channels.t) (x : Sounds.t) (out2 : list Z),
    (m <- mix_from (length (Channels.data chs0)) len buffer_start 0
            (mkMixer chs0 out0 false) ;;
     Ok (mx_channels m, mx_out m)) = Ok (chs3, out2) /\
    same_slots chs0 chs1 /\
    same_slots (with_channel chs1 (Z.of_nat c) x) chs3 /\
    Q x out2.
Proof.
  intros Hwf Hc Hidle Hstep. pose proof Hwf as [Hcount _].
  replace (length (Channels.data chs0))
    with (c + S (length (Channels.data chs0) - c - 1))%nat by lia.
  rewrite mix_from_app.
  destruct (mix_from_idle len buffer_start c 0 (mkMixer chs0 out0 false))
    as (m1 & -> & Ho1 & Hf1 & R1); [exact Hwf|lia| |].
  { intros c' Hc'. apply Hidle; cbn; lia. }
  cbn [bind mix_from]. cbn in Ho1, Hf1, R1. rewrite Z.add_0_l.
  destruct (Hstep m1 Ho1 Hf1 R1) as (x & out2 & flag2 & -> & Hwx & HQ).
  cbn [bind].
  destruct (mix_from_idle len buffer_start
              (length (Channels.data chs0) - c - 1) (Z.of_nat c + 1)
              (mkMixer (with_channel (mx_channels m1) (Z.of_nat c) x) out2 flag2))
    as (m3 & -> & Ho3 & Hf3 & R3).
  - cbn. apply wf_channels_with_channel; [|exact Hwx].
    exact (same_slots_wf _ _ R1 Hwf).
  - lia.
  - intros c' Hc'. cbn. apply idle_with_channel; [lia|].
    apply (same_slots_idle _ _ c' R1). apply Hidle; lia.
  - cbn [bind]. cbn in Ho3, R3. exists (mx_channels m1), (mx_channels m3), x, out2.
    split; [now rewrite Ho3|]. split; [exact R1|]. split; [exact R3|exact HQ].
Qed.

Lemma ws_callback_one_busy (out : list Z) (len : Z)
    (outputBufferDacTime currentTime : Q) (c : nat) (chs : Channels.t)
    (Q : Sounds.t -> list Z -> Prop) :
  0 <= len ->
  Z.of_nat (length out) = 2 * len ->
  wf_channels chs ->
  (c < length (Channels.data chs))%nat ->
  (forall c', 0 <= c' < Channels.len chs -> Z.to_nat c' <> c -> idle chs c') ->
  (forall m1 : mixer,
     mx_out m1 = replicate (Z.to_nat (2 * len)) 0 ->
     mx_should_start m1 = false ->
     same_slots chs (mx_channels m1) ->
     exists (x : Sounds.t) (out2 : list Z) (flag2 : bool),
       mix_channel len outputBufferDacTime (Z.of_nat c) m1
         = Ok (mkMixer (with_channel (mx_channels m1) (Z.of_nat c) x) out2 flag2) /\
       wf_sounds x /\ Q x out2) ->
  exists (chs1 chs3 : Channels.t) (x : Sounds.t) (out2 : list Z),
    ws_callback out len outputBufferDacTime currentTime chs = Ok (chs3, out2) /\
    same_slots chs chs1 /\
    same_slots (with_channel chs1 (Z.of_nat c) x) chs3 /\
    Q x out2.
Proof.
  intros Hlen Hout Hwf Hc Hidle Hstep. unfold ws_callback.
  rewrite (zero_fill_all len out Hlen Hout). cbn [bind].
  set (chs0 := Channels.set_last chs len (outputBufferDacTime - currentTime)%Q).
  pose proof (same_slots_set_last chs len (outputBufferDacTime - currentTime)%Q)
    as R0. fold chs0 in R0.
  replace (Z.to_nat (Channels.len chs0)) with (length (Channels.data chs0))
    by (destruct Hwf as [Hcount _]; cbn; lia).
  destruct (mix_from_one_busy len outputBufferDacTime c chs0
              (replicate (Z.to_nat (2 * len)) 0) Q)
    as (chs1 & chs3 & x & out2 & Hrun & R1 & R3 & HQ).
  - exact (same_slots_wf _ _ R0 Hwf).
  - exact Hc.
  - intros c' Hc' Hne. apply (same_slots_idle _ _ c' R0). now apply Hidle.
  - intros m1 Ho Hf R. apply Hstep; [exact Ho|exact Hf|].
    exact (same_slots_trans _ _ _ R0 R).
  - exists chs1, chs3, x, out2. split; [exact Hrun|].
    split; [exact (same_slots_trans _ _ _ R0 R1)|]. split; [exact R3|exact HQ].
Qed.

Lemma wf_head_slot (chs : Channels.t) (c' : Z) :
  wf_channels chs ->
  0 <= c' < Channels.len chs ->
  exists (sounds : Sounds.t) (slot : option TimedSound.t),
    Channels.data chs !! Z.to_nat c' = Some sounds /\
    Sounds.data sounds !! Z.to_nat (Sounds.consumer_index sounds) = Some slot.
Proof.
  intros Hwf Hc. pose proof Hwf as [Hcount _].
  destruct (in_range_lookup (Channels.data chs) c') as [sounds Hs]; [lia|].
  pose proof (wf_channel_lookup _ _ _ Hwf Hs) as [Hcap Hci _].
  destruct (in_range_lookup (Sounds.data sounds) (Sounds.consumer_index sounds))
    as [slot Hslot]; [lia|].
  eauto.
Qed.

Lemma silent_idle (chs : Channels.t) (c' : Z) :
  wf_channels chs -> silent chs -> 0 <= c' < Channels.len chs -> idle chs c'.
Proof.
  intros Hwf Hsilent Hc.
  destruct (wf_head_slot chs c' Hwf Hc) as (sounds & slot & Hs & Hslot).
  exists sounds. split; [exact Hs|]. rewrite Hslot. f_equal.
  apply (Hsilent (Z.to_nat c') (Z.to_nat (Sounds.consumer_index sounds))).
  apply slot_of_Some. eauto.
Qed.

Lemma solo_idle (chs : Channels.t) (c : nat) (s : TimedSound.t) (c' : Z) :
  wf_channels chs -> solo chs c s ->
  0 <= c' < Channels.len chs -> Z.to_nat c' <> c -> idle chs c'.
Proof.
  intros Hwf (x & Hx & _ & _ & Honly) Hc Hne.
  destruct (wf_head_slot chs c' Hwf Hc) as (sounds & slot & Hs & Hslot).
  exists sounds. split; [exact Hs|]. rewrite Hslot. f_equal.
  destruct slot as [y|]; [|reflexivity]. exfalso. apply Hne.
  apply (Honly (Z.to_nat c') (Z.to_nat (Sounds.consumer_index sounds)) y).
  apply slot_of_Some. eauto.
Qed.

(** A callback on a channel set without sounds leaves a buffer of zeros. *)
Lemma ws_callback_silent (out : list Z) (len : Z)
    (outputBufferDacTime currentTime : Q) (chs : Channels.t) :
  0 <= len ->
  Z.of_nat (length out) = 2 * len ->
  wf_channels chs ->
  silent chs ->
  exists chs' : Channels.t,
    ws_callback out len outputBufferDacTime currentTime chs
      = Ok (chs', replicate (Z.to_nat (2 * len)) 0) /\
    same_slots chs chs'.
Proof.
  intros Hlen Hout Hwf Hsilent. unfold ws_callback.
  rewrite (zero_fill_all len out Hlen Hout). cbn [bind].
  set (chs0 := Channels.set_last chs len (outputBufferDacTime - currentTime)%Q).
  pose proof (same_slots_set_last chs len (outputBufferDacTime - currentTime)%Q)
    as R0. fold chs0 in R0.
  destruct (mix_from_idle len outputBufferDacTime
              (Z.to_nat (Channels.len chs0)) 0
              (mkMixer chs0 (replicate (Z.to_nat (2 * len)) 0) false))
    as (m & -> & Ho & _ & R).
  - exact (same_slots_wf _ _ R0 Hwf).
  - lia.
  - intros c' Hc'. cbn. apply (same_slots_idle _ _ c' R0).
    apply silent_idle; [exact Hwf|exact Hsilent|].
    destruct Hwf as [Hcount _]. cbn in Hc'. lia.
  - cbn [bind]. cbn in Ho, R. exists (mx_channels m).
    split; [now rewrite Ho|]. exact (same_slots_trans _ _ _ R0 R).
Qed.

(** A callback before the start of the only sound of the set leaves a
    buffer of zeros and every ring as it was. *)
Lemma ws_callback_waiting (out : list Z) (len : Z)
    (outputBufferDacTime currentTime : Q) (chs : Channels.t) (c : nat)
    (s : TimedSound.t) :
  0 <= len <= INT_MAX ->
  Z.of_nat (length out) = 2 * len ->
  wf_channels chs ->
  solo chs c s ->
  TimedSound.offset s = 0 ->
  0 < TimedSound.len s ->
  (0 < TimedSound.start s)%Q ->
  (outputBufferDacTime + Channels.samplelen chs * inject_Z len
   <= TimedSound.start s)%Q ->
  exists chs' : Channels.t,
    ws_callback out len outputBufferDacTime currentTime chs
      = Ok (chs', replicate (Z.to_nat (2 * len)) 0) /\
    same_slots chs chs'.
Proof.
  intros Hlen Hout Hwf Hsolo Hoff Hslen Hpos Hdue.
  pose proof Hsolo as (sounds0 & Hs0 & Hp0 & Hhead0 & Honly).
  destruct (ws_callback_one_busy out len outputBufferDacTime currentTime c chs
              (fun x out2 =>
                 same_ring sounds0 x /\ out2 = replicate (Z.to_nat (2 * len)) 0))
    as (chs1 & chs3 & x & out2 & Hrun & R1 & R3 & Rx & ->).
  - lia.
  - exact Hout.
  - exact Hwf.
  - eapply lookup_lt_Some. exact Hs0.
  - intros c' Hc' Hne. exact (solo_idle chs c s c' Hwf Hsolo Hc' Hne).
  - intros m1 Ho Hf R. pose proof R as (_ & Hab & _ & _ & _ & Hsl).
    destruct (Hab c sounds0 Hs0) as (sounds1 & Hs1 & R01).
    pose proof R01 as (Hd & _ & Hp & Hc & _).
    pose proof (wf_channel_lookup _ _ _ Hwf Hs0) as [_ Hci _].
    exists sounds1, (mx_out m1), (mx_should_start m1).
    split; [|split; [|split; [exact R01|exact Ho]]].
    + rewrite (mix_channel_not_due len outputBufferDacTime (Z.of_nat c) m1
                 sounds1 s); rewrite ?Nat2Z.id;
        try assumption; try lia; try congruence.
      f_equal. rewrite with_channel_same by (rewrite Nat2Z.id; exact Hs1).
      now destruct m1.
    + exact (same_ring_wf _ _ R01 (wf_channel_lookup _ _ _ Hwf Hs0)).
  - exists chs3. split; [exact Hrun|].
    apply same_slots_trans with (with_channel chs1 (Z.of_nat c) x);
      [|exact R3].
    exact (same_slots_with_channel _ _ _ _ _ R1 Hs0 Rx).
Qed.

(** A callback in which the only sound of the set is played from the first
    frame: the output is the next frames of the sound followed by zeros, and
    afterwards the set has no sound left, or the same sound further on. *)
Lemma ws_callback_playing (out : list Z) (len : Z)
    (outputBufferDacTime currentTime : Q) (chs : Channels.t) (c : nat)
    (s : TimedSound.t) :
  0 < len <= INT_MAX ->
  Z.of_nat (length out) = 2 * len ->
  wf_channels chs ->
  exact_rates (Channels.samplerate chs) (Channels.samplelen chs) ->
  solo chs c s ->
  sound_ok len s ->
  int16_samples s ->
  TimedSound.offset s < TimedSound.len s ->
  0 < TimedSound.offset s \/
  (TimedSound.offset s = 0 /\ (0 < TimedSound.start s)%Q /\
   (TimedSound.start s == outputBufferDacTime)%Q) ->
  exists chs' : Channels.t,
    ws_callback out len outputBufferDacTime currentTime chs
      = Ok (chs', burst s (TimedSound.offset s) len) /\
    wf_channels chs' /\
    Channels.samplerate chs' = Channels.samplerate chs /\
    Channels.samplelen chs' = Channels.samplelen chs /\
    (if TimedSound.len s <=? len + TimedSound.offset s then silent chs'
     else solo chs' c (TimedSound.set_offset s (len + TimedSound.offset s))).
Proof.
  intros Hlen Hout Hwf Hrates Hsolo Hok Hint Hlt Hcase.
  pose proof Hsolo as (sounds0 & Hs0 & Hp0 & Hhead0 & Honly).
  pose proof (wf_channel_lookup _ _ _ Hwf Hs0) as Hw0.
  pose proof Hw0 as [Hcap0 Hci0 Hpi0].
  set (o := TimedSound.offset s) in *.
  set (done := TimedSound.len s <=? len + o).
  set (ci0 := Z.to_nat (Sounds.consumer_index sounds0)) in *.
  destruct (ws_callback_one_busy out len outputBufferDacTime currentTime c chs
              (fun x out2 =>
                 out2 = burst s o len /\
                 Sounds.data x
                   = <[ci0 := if done then None
                              else Some (TimedSound.set_offset s (len + o))]>
                       (Sounds.data sounds0) /\
                 Sounds.consumer_index x
                   = (if done then
                        (Sounds.consumer_index sounds0 + 1) mod Sounds.len sounds0
                      else Sounds.consumer_index sounds0) /\
                 Sounds.paused x = 0 /\
                 wf_sounds x))
    as (chs1 & chs3 & x & out2 & Hrun & R1 & R3 & -> & Hdx & Hcx & Hpx & Hwx).
  - lia.
  - exact Hout.
  - exact Hwf.
  - eapply lookup_lt_Some. exact Hs0.
  - intros c' Hc' Hne. exact (solo_idle chs c s c' Hwf Hsolo Hc' Hne).
  - intros m1 Ho Hf R. pose proof R as (_ & Hab & _ & Herr & Hsr & Hsl).
    destruct (Hab c sounds0 Hs0) as (sounds1 & Hs1 & R01).
    pose proof R01 as (Hd & Hl & Hp & Hc & Hpi).
    pose proof (same_ring_wf _ _ R01 Hw0) as Hw1.
    destruct (drain_channel_playing len outputBufferDacTime
                (Channels.samplerate (mx_channels m1))
                (Channels.samplelen (mx_channels m1)) Hlen
                ltac:(rewrite <- Hsr, <- Hsl; exact Hrates)
                sounds1 s (Channels.playback_error (mx_channels m1))
                (mx_should_start m1) Hw1)
      as (st' & Hdrain & He & Hout' & Hd' & Hc' & Hl' & Hp' & Hpi');
      try assumption.
    { rewrite <- Hd, <- Hc. exact Hhead0. }
    { intros i y Hy. rewrite <- Hd in Hy. rewrite <- Hc.
      refine (proj2 (Honly c i y _)). apply slot_of_Some. eauto. }
    unfold mix_channel.
    rewrite (array_get_ok _ _ sounds1) by (rewrite ?Nat2Z.id; lia || exact Hs1).
    cbn [bind]. rewrite <- Hp, Hp0. cbn [Z.eqb negb].
    rewrite Ho, Hdrain. cbn [bind]. rewrite He, set_playback_error_same.
    rewrite (put_channel_ok _ _ sounds1)
      by (rewrite ?Nat2Z.id; lia || exact Hs1).
    cbn [bind]. eexists _, _, _. split; [reflexivity|].
    fold o in Hout', Hd', Hc'. fold done in Hd', Hc'.
    rewrite <- Hd, <- Hc, <- Hl in *. fold ci0 in Hd'.
    assert (Hwst : wf_sounds (cb_sounds st')).
    { split; rewrite ?Hl', ?Hd', ?Hc', ?Hpi', ?length_insert; try lia.
      destruct done; [apply Z.mod_pos_bound|]; lia. }
    split; [exact Hwst|].
    split; [exact Hout'|split; [exact Hd'|split; [exact Hc'|]]].
    split; [rewrite Hp'; congruence|exact Hwst].
  - assert (Hin : (ci0 < length (Sounds.data sounds0))%nat) by (subst ci0; lia).
    assert (Hc : (c < length (Channels.data chs1))%nat).
    { destruct R1 as (Hl1 & _). apply lookup_lt_Some in Hs0. lia. }
    assert (Hx : Channels.data (with_channel chs1 (Z.of_nat c) x) !! c = Some x).
    { unfold with_channel. cbn. rewrite Nat2Z.id.
      now apply list_lookup_insert_eq. }
    assert (Hother : forall (c' i : nat) (y : TimedSound.t),
              slot_of (with_channel chs1 (Z.of_nat c) x) c' i = Some (Some y) ->
              c' = c /\ Sounds.data x !! i = Some (Some y)).
    { intros c' i y Hy. apply slot_of_Some in Hy as (z & Hz & Hi).
      unfold with_channel in Hz. cbn in Hz. rewrite Nat2Z.id in Hz.
      apply list_lookup_insert_Some in Hz as [(<- & <- & _)|(Hne & Hz)];
        [now split|].
      exfalso. apply Hne. symmetry.
      refine (proj1 (Honly c' i y _)).
      rewrite <- (same_slots_slot_of chs chs1 c' i R1).
      apply slot_of_Some. eauto. }
    exists chs3. split; [exact Hrun|].
    pose proof R1 as (_ & _ & _ & _ & Hsr1 & Hsl1).
    pose proof R3 as (_ & _ & _ & _ & Hsr3 & Hsl3). cbn in Hsr3, Hsl3.
    split.
    { apply (same_slots_wf _ _ R3). apply wf_channels_with_channel; [|exact Hwx].
      exact (same_slots_wf _ _ R1 Hwf). }
    split; [congruence|]. split; [congruence|].
    fold done. destruct done.
    + apply (same_slots_silent _ _ R3).
      intros c' i [y|] Hy; [|reflexivity]. exfalso.
      destruct (Hother c' i y Hy) as [-> Hi]. rewrite Hdx in Hi.
      apply list_lookup_insert_Some in Hi as [(_ & [=] & _)|(Hne & Hi)].
      apply Hne. symmetry. refine (proj2 (Honly c i y _)).
      apply slot_of_Some. eauto.
    + apply (same_slots_solo _ _ c _ R3).
      exists x. split; [exact Hx|]. split; [exact Hpx|].
      rewrite Hcx. fold ci0. rewrite Hdx.
      split; [now apply list_lookup_insert_eq|].
      intros c' i y Hy. destruct (Hother c' i y Hy) as [-> Hi].
      split; [reflexivity|]. rewrite Hdx in Hi.
      apply list_lookup_insert_Some in Hi as [(<- & _)|(Hne & Hi)];
        [reflexivity|].
      refine (proj2 (Honly c i y _)). apply slot_of_Some. eauto.
Qed.

Lemma int16_samples_Forall (s : TimedSound.t) :
  Forall (fun v => - 2 ^ 15 <= v < 2 ^ 15) (TimedSound.buffer s) ->
  int16_samples s.
Proof.
  intros H i. unfold sample_at.
  destruct (TimedSound.buffer s !! Z.to_nat i) as [v|] eqn:E; cbn; [|lia].
  rewrite Forall_lookup in H. exact (H _ _ E).
Qed.

(** The output of a callback that plays the sound from frame
    [(k - b) * len] is the part of the stream of buffer [k]. *)
Lemma burst_is_stream (s : TimedSound.t) (len b k : Z) :
  0 < len -> 0 <= b <= k ->
  burst s ((k - b) * len) len
  = stream_sample s (b * len)
      <$> seq (Z.to_nat (2 * k * len)) (Z.to_nat (2 * len)).
Proof.
  intros Hlen Hk. unfold burst.
  rewrite <- (Nat.add_0_r (Z.to_nat (2 * k * len))) at 1.
  rewrite <- fmap_add_seq, <- list_fmap_compose.
  apply list_fmap_ext. intros i j Hj. apply lookup_seq in Hj as [-> Hi].
  cbn [Nat.add compose]. unfold burst_sample, stream_sample.
  assert (0 <= k * len) by nia.
  replace (Z.of_nat (Z.to_nat (2 * k * len) + i))
    with (Z.of_nat i + (k * len) * 2) by lia.
  rewrite Z.div_add, Z_mod_plus_full by lia.
  pose proof (Z.div_pos (Z.of_nat i) 2 ltac:(lia) ltac:(lia)).
  assert (0 <= (k - b) * len) by nia.
  destruct (Z.leb_spec 0 (Z.of_nat i / 2 + k * len - b * len)); [|nia].
  cbn [andb].
  destruct (Z.ltb_spec (Z.of_nat i / 2) (TimedSound.len s - (k - b) * len));
    destruct (Z.ltb_spec (Z.of_nat i / 2 + k * len - b * len) (TimedSound.len s));
    try nia; try reflexivity.
  f_equal. nia.
Qed.

(** Before the sound starts and after it has ended the stream is zero. *)
Lemma zeros_is_stream (s : TimedSound.t) (len b k : Z) :
  0 < len -> 0 <= k -> 0 <= b -> 0 <= TimedSound.len s ->
  k < b \/ TimedSound.len s <= (k - b) * len ->
  replicate (Z.to_nat (2 * len)) 0
  = stream_sample s (b * len)
      <$> seq (Z.to_nat (2 * k * len)) (Z.to_nat (2 * len)).
Proof.
  intros Hlen Hk Hb Hs Hout. apply list_eq. intros i.
  rewrite list_lookup_fmap.
  destruct (decide (i < Z.to_nat (2 * len))%nat) as [Hi|Hi].
  2:{ rewrite lookup_ge_None_2 by (rewrite length_replicate; lia).
      rewrite lookup_ge_None_2 by (rewrite length_seq; lia). reflexivity. }
  rewrite lookup_replicate_2, lookup_seq_lt by exact Hi.
  cbn [fmap option_fmap option_map]. f_equal. unfold stream_sample.
  assert (0 <= k * len) by nia.
  replace (Z.of_nat (Z.to_nat (2 * k * len) + i))
    with (Z.of_nat i + (k * len) * 2) by lia.
  rewrite Z.div_add by lia.
  pose proof (Z.div_pos (Z.of_nat i) 2 ltac:(lia) ltac:(lia)).
  assert (Z.of_nat i / 2 < len)
    by (apply Z.div_lt_upper_bound; lia).
  destruct (Z.leb_spec 0 (Z.of_nat i / 2 + k * len - b * len));
    [|reflexivity].
  destruct (Z.ltb_spec (Z.of_nat i / 2 + k * len - b * len) (TimedSound.len s));
    [|reflexivity].
  exfalso. destruct Hout; nia.
Qed.

Lemma set_offset_twice (s : TimedSound.t) (o o' : Z) :
  TimedSound.set_offset (TimedSound.set_offset s o) o' = TimedSound.set_offset s o'.
Proof. reflexivity. Qed.

Section SoloStream.
Variable out : list Z.
Variable len : Z.
Variable t0 latency : Q.
Variable samplerate samplelen : Q.
Variable b : Z.
Variable c : nat.
Variable s : TimedSound.t.
Hypothesis Hlen : 0 < len <= INT_MAX.
Hypothesis Hout : Z.of_nat (length out) = 2 * len.
Hypothesis Hrates : exact_rates samplerate samplelen.
Hypothesis Hb : 0 <= b.
Hypothesis Hok : sound_ok len s.
Hypothesis Hint : int16_samples s.
Hypothesis Hoff : TimedSound.offset s = 0.
Hypothesis Hframes : 0 < TimedSound.len s.
Hypothesis Hpos : (0 < TimedSound.start s)%Q.
Hypothesis Hstart :
  (TimedSound.start s == buffer_instant t0 samplelen len b)%Q.

(** One invocation, for buffer [k], in any phase of the sound. *)
Lemma callback_in_phase (k : Z) (chs : Channels.t) :
  0 <= k ->
  wf_channels chs ->
  Channels.samplerate chs = samplerate ->
  Channels.samplelen chs = samplelen ->
  phase len b c s k chs ->
  exists chs' : Channels.t,
    ws_callback out len (buffer_instant t0 samplelen len k)
      (buffer_instant t0 samplelen len k - latency)%Q chs
    = Ok (chs',
          stream_sample s (b * len)
            <$> seq (Z.to_nat (2 * k * len)) (Z.to_nat (2 * len))) /\
    wf_channels chs' /\
    Channels.samplerate chs' = samplerate /\
    Channels.samplelen chs' = samplelen /\
    phase len b c s (k + 1) chs'.
Proof.
  intros Hk Hwf Hsr Hsl Hphase.
  assert (Hlen' : 0 <= len <= INT_MAX) by lia.
  pose proof (buffer_lasts len samplerate samplelen Hlen Hrates) as Hlast.
  destruct Hphase as [[Hkb Hsolo]|[(Hkb & Hin & Hsolo)|(Hkb & Hpast & Hsilent)]].
  - destruct (Z_lt_dec k b) as [Hbefore|Hnow].
    + (* the sound is not due yet *)
      destruct (ws_callback_waiting out len (buffer_instant t0 samplelen len k)
                  (buffer_instant t0 samplelen len k - latency)%Q chs c s)
        as (chs' & -> & R); try assumption.
      { rewrite Hsl, Hstart. unfold buffer_instant.
        assert (inject_Z k + 1 <= inject_Z b)%Q.
        { change 1%Q with (inject_Z 1). rewrite <- inject_Z_plus, <- Zle_Qle.
          lia. }
        nra. }
      exists chs'. rewrite <- zeros_is_stream by lia.
      split; [reflexivity|]. split; [exact (same_slots_wf _ _ R Hwf)|].
      pose proof R as (_ & _ & _ & _ & Hr1 & Hr2).
      split; [congruence|]. split; [congruence|].
      left. split; [lia|exact (same_slots_solo _ _ _ _ R Hsolo)].
    + (* the sound starts with this buffer *)
      assert (k = b) by lia. subst k.
      assert (Hlt0 : TimedSound.offset s < TimedSound.len s) by lia.
      assert (Hr : exact_rates (Channels.samplerate chs) (Channels.samplelen chs))
        by (rewrite Hsr, Hsl; exact Hrates).
      destruct (ws_callback_playing out len (buffer_instant t0 samplelen len b)
                  (buffer_instant t0 samplelen len b - latency)%Q chs c s
                  Hlen Hout Hwf Hr Hsolo Hok Hint Hlt0
                  (or_intror (conj Hoff (conj Hpos Hstart))))
        as (chs' & -> & Hwf' & Hsr' & Hsl' & Hclass).
      exists chs'. rewrite Hoff.
      replace 0 with ((b - b) * len) at 1 by lia.
      rewrite burst_is_stream by lia.
      split; [reflexivity|]. split; [exact Hwf'|].
      split; [congruence|]. split; [congruence|].
      rewrite Hoff in Hclass. right.
      destruct (Z.leb_spec (TimedSound.len s) (len + 0)).
      * right. split; [lia|]. split; [lia|exact Hclass].
      * left. split; [lia|]. split; [lia|].
        replace ((b + 1 - b) * len) with (len + 0) by lia. exact Hclass.
  - (* the sound is under way *)
    assert (Hgt : 0 < (k - b) * len) by nia.
    destruct Hok as [Ho Hbuf Hrange].
    assert (Hr : exact_rates (Channels.samplerate chs) (Channels.samplelen chs))
      by (rewrite Hsr, Hsl; exact Hrates).
    assert (Hok' : sound_ok len (TimedSound.set_offset s ((k - b) * len)))
      by (split; cbn; lia).
    assert (Hint' : int16_samples (TimedSound.set_offset s ((k - b) * len)))
      by exact Hint.
    assert (Hlt' : TimedSound.offset (TimedSound.set_offset s ((k - b) * len))
                   < TimedSound.len (TimedSound.set_offset s ((k - b) * len)))
      by (cbn; lia).
    destruct (ws_callback_playing out len (buffer_instant t0 samplelen len k)
                (buffer_instant t0 samplelen len k - latency)%Q chs c
                (TimedSound.set_offset s ((k - b) * len))
                Hlen Hout Hwf Hr Hsolo Hok' Hint' Hlt' (or_introl Hgt))
      as (chs' & -> & Hwf' & Hsr' & Hsl' & Hclass).
    exists chs'. cbn [TimedSound.offset TimedSound.set_offset] in *.
    change (burst (TimedSound.set_offset s ((k - b) * len)) ((k - b) * len) len)
      with (burst s ((k - b) * len) len).
    rewrite burst_is_stream by lia.
    split; [reflexivity|]. split; [exact Hwf'|].
    split; [congruence|]. split; [congruence|].
    change (TimedSound.len (TimedSound.set_offset s ((k - b) * len)))
      with (TimedSound.len s) in Hclass.
    rewrite set_offset_twice in Hclass. right.
    destruct (Z.leb_spec (TimedSound.len s) (len + (k - b) * len)).
    + right. split; [lia|]. split; [lia|exact Hclass].
    + left. split; [lia|]. split; [lia|].
      replace ((k + 1 - b) * len) with (len + (k - b) * len) by lia.
      exact Hclass.
  - (* the sound has ended *)
    destruct (ws_callback_silent out len (buffer_instant t0 samplelen len k)
                (buffer_instant t0 samplelen len k - latency)%Q chs)
      as (chs' & -> & R); try assumption; [lia|].
    exists chs'. rewrite <- zeros_is_stream by (lia || (right; lia)).
    split; [reflexivity|]. split; [exact (same_slots_wf _ _ R Hwf)|].
    pose proof R as (_ & _ & _ & _ & Hr1 & Hr2).
    split; [congruence|]. split; [congruence|].
    right. right. split; [lia|]. split; [nia|].
    exact (same_slots_silent _ _ R Hsilent).
Qed.

(** [n] invocations from buffer [k]. *)
Lemma play_buffers_in_phase (n : nat) :
  forall (k : Z) (chs : Channels.t),
    0 <= k ->
    wf_channels chs ->
    Channels.samplerate chs = samplerate ->
    Channels.samplelen chs = samplelen ->
    phase len b c s k chs ->
    exists chs' : Channels.t,
      play_buffers n out len t0 latency k chs
      = Ok (chs',
            stream_sample s (b * len)
              <$> seq (Z.to_nat (2 * k * len)) (n * Z.to_nat (2 * len))) /\
      phase len b c s (k + Z.of_nat n) chs'.
Proof.
  induction n as [|n IH]; intros k chs Hk Hwf Hsr Hsl Hphase.
  - exists chs. split; [reflexivity|]. now rewrite Z.add_0_r.
  - cbn [play_buffers]. rewrite Hsl.
    destruct (callback_in_phase k chs Hk Hwf Hsr Hsl Hphase)
      as (chs1 & -> & Hwf1 & Hsr1 & Hsl1 & Hphase1).
    cbn [bind fst snd].
    destruct (IH (k + 1) chs1) as (chs' & -> & Hphase');
      try assumption; [lia|].
    cbn [bind fst snd]. exists chs'. split.
    + f_equal. f_equal. cbn [Nat.mul]. rewrite seq_app, fmap_app.
      do 3 f_equal. nia.
    + replace (k + Z.of_nat (S n)) with (k + 1 + Z.of_nat n) by lia.
      exact Hphase'.
Qed.
End SoloStream.

(** A sound that is alone in the channel set and scheduled at the start of
    buffer [b] is played once and in place.  Over any number [n] of
    invocations the outputs put end to end are the stream in which the
    frames of the sound occupy the frames [b * len], [b * len + 1], ... and
    every other frame is zero; once the buffers cover the sound, no slot of
    the set holds a sound. *)
Theorem solo_sound_is_played_once_in_place
    (out : list Z) (len : Z) (t0 latency : Q) (b : Z) (c : nat)
    (s : TimedSound.t) (chs : Channels.t) (n : nat) :
  0 < len <= INT_MAX ->
  Z.of_nat (length out) = 2 * len ->
  wf_channels chs ->
  exact_rates (Channels.samplerate chs) (Channels.samplelen chs) ->
  solo chs c s ->
  sound_ok len s ->
  int16_samples s ->
  TimedSound.offset s = 0 ->
  0 < TimedSound.len s ->
  (0 < TimedSound.start s)%Q ->
  0 <= b ->
  (TimedSound.start s == buffer_instant t0 (Channels.samplelen chs) len b)%Q ->
  exists chs' : Channels.t,
    play_buffers n out len t0 latency 0 chs
    = Ok (chs',
          stream_sample s (b * len) <$> seq 0 (n * Z.to_nat (2 * len))) /\
    (b * len + TimedSound.len s <= Z.of_nat n * len -> silent chs').
Proof.
  intros Hlen Hout Hwf Hrates Hsolo Hok Hint Hoff Hframes Hpos Hb Hstart.
  destruct (play_buffers_in_phase out len t0 latency
              (Channels.samplerate chs) (Channels.samplelen chs) b c s
              Hlen Hout Hrates Hb Hok Hint Hoff Hframes Hpos Hstart n 0 chs
              (Z.le_refl 0) Hwf eq_refl eq_refl (or_introl (conj Hb Hsolo)))
    as (chs' & Hrun & Hphase).
  exists chs'. split.
  - rewrite Hrun. reflexivity.
  - intros Hcovered.
    destruct Hphase as [[Hk _]|[(_ & Hk & _)|(_ & _ & Hsilent)]];
      [nia|nia|exact Hsilent].
Qed.

(** No sound but the one at the head of channel [c], by enumeration of the
    slots of a concrete channel set. *)
Ltac enum_slots H i :=
  first
    [ solve [vm_compute in H; discriminate H]
    | destruct i as [|i];
      [ vm_compute in H; first [discriminate H | split; reflexivity]
      | enum_slots H i ] ].
Ltac enum_channels H c i :=
  first
    [ solve [vm_compute in H; discriminate H]
    | destruct c as [|c]; [ enum_slots H i | enum_channels H c i ] ].
Ltac solo_by_compute :=
  eexists; split; [reflexivity|]; split; [reflexivity|];
  split; [reflexivity|];
  let c := fresh "c" in
  let i := fresh "i" in
  let x := fresh "x" in
  let H := fresh "H" in
  intros c i x H; enum_channels H c i.

(** The hundred-frame sound with buffers of 64 frames: over four buffers
    from instant 8 the output is silent for the first buffer, carries the
    hundred frames from frame 64 on, and the channel set is empty at the
    end. *)
Example hundred_frames_in_buffers_of_64 :
  exists chs' : Channels.t,
    play_buffers 4 buffer_64 64 8 (1 # 2) 0 (channels_of hundred_queued)
    = Ok (chs',
          stream_sample (newTimedSound hundred_frames ((8 - 8) + 9)) 64
            <$> seq 0 512) /\
    silent chs'.
Proof.
  destruct (solo_sound_is_played_once_in_place buffer_64 64 8 (1 # 2) 1 0
              (newTimedSound hundred_frames ((8 - 8) + 9))
              (channels_of hundred_queued) 4)
    as (chs' & Hrun & Hsilent).
  - unfold INT_MAX. lia.
  - reflexivity.
  - wf_channels_by_compute.
  - split; reflexivity.
  - solo_by_compute.
  - split; cbn; unfold INT_MAX; lia.
  - apply int16_samples_Forall.
    change (Forall (fun v => - 2 ^ 15 <= v < 2 ^ 15) (Z.of_nat <$> seq 1 200)).
    apply Forall_fmap, Forall_forall. intros j Hj.
    apply elem_of_seq in Hj. unfold compose. lia.
  - reflexivity.
  - cbn. lia.
  - reflexivity.
  - lia.
  - reflexivity.
  - exists chs'. split; [exact Hrun|]. apply Hsilent. cbn. lia.
Qed.

(** The same run, buffer by buffer: nothing in the buffer at 8, frames 0 to
    63 in the buffer at 9, frames 64 to 99 and then silence in the buffer at
    10, where the slot is cleared. *)
Example hundred_frames_buffer_by_buffer :
  let first := ws_callback buffer_64 64 8 8 (channels_of hundred_queued) in
  let second := ws_callback buffer_64 64 9 9 (channels_after first) in
  let third := ws_callback buffer_64 64 10 10 (channels_after second) in
  output_of first = replicate 128 0 /\
  output_of second = flat_map (fun i => [i; i + 100]) (Z.of_nat <$> seq 1 64) /\
  TimedSound.offset <$> (slot_of (channels_after second) 0 0 ≫= id) = Some 64 /\
  output_of third
    = flat_map (fun i => [i; i + 100]) (Z.of_nat <$> seq 65 36)
      ++ replicate 56 0 /\
  slot_of (channels_after third) 0 0 = Some None.
Proof. cbv zeta. repeat split; vm_compute; reflexivity. Qed.
(** ** Setting up *)

(** X1.  The three failure paths of [ws_setup].  When [Pa_Initialize]
    fails the state returned has no channel set and no stream, its error
    code is the code of the call and its own error is 0; on that state
    [ws_warn_str] gives the empty text and [ws_error_str] the backend's
    text, while [ws_play], [ws_play_next], [ws_pause] and [ws_cur_latency]
    dereference the null channel set.  When [Pa_OpenDefaultStream] or
    [Pa_StartStream] fails, the loop that releases the channel set frees
    the one array [channels->data] once for each of the
    [2 * num_channels] channels: with a channel or more that is a double
    free and no state is returned; without any, the state returned has no
    channel set, no stream and the code of the call that failed. *)
Theorem ws_setup_failure_paths
    (init_code open_code start_code samplerate num_channels queue_size : Z)
    (text : Z -> string) (format : Q -> string)
    (pa_now now playat : Q) (channel isstream pause : Z) (toplay : Sound.t) :
  INT_MIN <= 2 * num_channels <= INT_MAX ->
  (init_code <> paNoError ->
   exists state : WsState,
     ws_setup init_code open_code start_code samplerate num_channels queue_size
       = Ok state /\
     channels state = None /\
     stream state = false /\
     weber_error state = 0 /\
     errcode state = init_code /\
     ws_error_str text state = Ok (text init_code) /\
     ws_warn_str format state = (EmptyString, state) /\
     ws_play pa_now now playat channel toplay state = Fault NullDeref /\
     ws_play_next pa_now now channel toplay state = Fault NullDeref /\
     ws_pause state channel isstream pause = Fault NullDeref /\
     ws_cur_latency state = Fault NullDeref) /\
  (init_code = paNoError ->
   open_code <> paNoError \/ start_code <> paNoError ->
   (1 <= num_channels ->
    ws_setup init_code open_code start_code samplerate num_channels queue_size
      = Fault DoubleFree) /\
   (num_channels <= 0 ->
    ws_setup init_code open_code start_code samplerate num_channels queue_size
      = Ok (mkWsState
              (if open_code =? paNoError then start_code else open_code)
              0 None false))).
Proof.
  intros Hrange. split.
  - intros Hinit. unfold ws_setup.
    destruct (Z.eqb_spec init_code paNoError) as [E|_]; [contradiction|].
    cbn [negb]. eexists. split; [reflexivity|].
    unfold ws_error_str. cbn.
    destruct (Z.eqb_spec init_code paNoError) as [E|_]; [contradiction|].
    repeat split; reflexivity.
  - intros -> Hfail. unfold ws_setup, release_data. cbn [Z.eqb negb].
    split; intros Hn.
    + destruct (Z.ltb_spec 1 (2 * num_channels)); [|lia].
      destruct (Z.eqb_spec open_code paNoError); cbn [negb bind];
        [|reflexivity].
      destruct (Z.eqb_spec start_code paNoError); cbn [negb bind];
        [tauto|reflexivity].
    + destruct (Z.ltb_spec 1 (2 * num_channels)); [lia|].
      destruct (Z.eqb_spec open_code paNoError); cbn [negb bind];
        [|reflexivity].
      destruct (Z.eqb_spec start_code paNoError); cbn [negb bind];
        [tauto|reflexivity].
Qed.

Lemma ws_setup_failure_paths_witness :
  (exists state : WsState,
     ws_setup (-10000) paNoError paNoError 44100 2 3 = Ok state /\
     channels state = None /\
     errcode state = -10000 /\
     ws_error_str (fun _ => "PortAudio not initialized"%string) state
       = Ok "PortAudio not initialized"%string /\
     ws_play 0 0 1 (-1) four_frames state = Fault NullDeref) /\
  ws_setup paNoError (-9985) paNoError 44100 2 3 = Fault DoubleFree /\
  ws_setup paNoError paNoError (-9985) 44100 0 3
    = Ok (mkWsState (-9985) 0 None false).
Proof.
  destruct (ws_setup_failure_paths (-10000) paNoError paNoError 44100 2 3
              (fun _ => "PortAudio not initialized"%string) format_fixed2
              0 0 1 (-1) 0 TRUE four_frames)
    as [Hinit _]; [unfold INT_MIN, INT_MAX; lia|].
  destruct (ws_setup_failure_paths paNoError (-9985) paNoError 44100 2 3
              (fun _ => EmptyString) format_fixed2
              0 0 1 (-1) 0 TRUE four_frames)
    as [_ Hopen]; [unfold INT_MIN, INT_MAX; lia|].
  destruct (ws_setup_failure_paths paNoError paNoError (-9985) 44100 0 3
              (fun _ => EmptyString) format_fixed2
              0 0 1 (-1) 0 TRUE four_frames)
    as [_ Hstart]; [unfold INT_MIN, INT_MAX; lia|].
  destruct Hinit as (state & Hrun & Hnone & _ & _ & Hcode & Htext & _ & Hplay & _);
    [discriminate|].
  split; [exists state; repeat split; assumption|].
  split.
  - apply Hopen; [reflexivity|left; discriminate|lia].
  - apply Hstart; [reflexivity|right; discriminate|lia].
Defined.

Lemma silent_newChannels (samplerate num_channels queue_size : Z) :
  silent (newChannels samplerate num_channels queue_size).
Proof.
  intros c i x H. apply slot_of_Some in H as (sounds & Hc & Hi). cbn in Hc.
  apply lookup_app_Some in Hc as [Hc|[_ Hc]];
    apply lookup_replicate in Hc as [-> _]; cbn in Hi;
    apply lookup_replicate in Hi as [Hi _]; congruence.
Qed.

Lemma newChannels_lookup (samplerate num_channels queue_size : Z) (c : nat)
    (sounds : Sounds.t) :
  Channels.data (newChannels samplerate num_channels queue_size) !! c
    = Some sounds ->
  Sounds.paused sounds = 0 /\
  Sounds.consumer_index sounds = 0 /\
  Sounds.producer_index sounds = 0 /\
  Sounds.len sounds = if Z.of_nat c <? num_channels then queue_size else 2.
Proof.
  intros Hc. cbn in Hc.
  apply lookup_app_Some in Hc as [Hc|[Hge Hc]].
  - apply lookup_replicate in Hc as [-> Hlt].
    replace (Z.of_nat c <? num_channels) with true
      by (symmetry; apply Z.ltb_lt; lia).
    repeat split.
  - rewrite length_replicate in Hge.
    apply lookup_replicate in Hc as [-> _].
    replace (Z.of_nat c <? num_channels) with false
      by (symmetry; apply Z.ltb_ge; lia).
    repeat split.
Qed.

(** X2.  A successful [ws_setup], called with a positive sample rate, a
    positive ring size and a number of channels whose double is an [int],
    gives a well-formed channel set of [2 * num_channels] channels in which
    no slot holds a sound: every channel is unpaused with both indices at
    0, the first [num_channels] rings have [queue_size] slots and the
    others two; the sample rate is the one asked for, no lateness is
    recorded and the latency read back is zero. *)
Theorem ws_setup_gives_empty_rings (samplerate num_channels queue_size : Z) :
  0 < samplerate <= INT_MAX ->
  0 <= num_channels ->
  2 * num_channels <= INT_MAX ->
  0 < queue_size <= INT_MAX ->
  exists (state : WsState) (chs : Channels.t),
    ws_setup paNoError paNoError paNoError samplerate num_channels queue_size
      = Ok state /\
    channels state = Some chs /\
    errcode state = paNoError /\
    weber_error state = 0 /\
    wf_channels chs /\
    silent chs /\
    Channels.len chs = 2 * num_channels /\
    Channels.playback_error chs = 0 /\
    Channels.samplerate chs = inject_Z samplerate /\
    (forall (c : nat) (sounds : Sounds.t),
       Channels.data chs !! c = Some sounds ->
       Sounds.paused sounds = 0 /\
       Sounds.consumer_index sounds = 0 /\
       Sounds.producer_index sounds = 0 /\
       Sounds.len sounds
         = if Z.of_nat c <? num_channels then queue_size else 2) /\
    exists latency : Q,
      ws_cur_latency state = Ok latency /\ (latency == 0)%Q.
Proof.
  intros Hrate Hn Hn2 Hq.
  eexists. exists (newChannels samplerate num_channels queue_size).
  split; [reflexivity|].
  split; [reflexivity|]. split; [reflexivity|]. split; [reflexivity|].
  split; [apply wf_channels_newChannels; lia|].
  split; [apply silent_newChannels|].
  split; [reflexivity|]. split; [reflexivity|]. split; [reflexivity|]. split.
  - intros c sounds Hc.
    exact (newChannels_lookup samplerate num_channels queue_size c sounds Hc).
  - eexists. split; [reflexivity|]. cbn.
    unfold Qdiv. rewrite Qmult_0_l. reflexivity.
Qed.

Lemma ws_setup_gives_empty_rings_witness :
  exists (state : WsState) (chs : Channels.t),
    ws_setup paNoError paNoError paNoError 4 2 3 = Ok state /\
    channels state = Some chs /\
    errcode state = paNoError /\
    weber_error state = 0 /\
    wf_channels chs /\
    silent chs /\
    Channels.len chs = 2 * 2 /\
    Channels.playback_error chs = 0 /\
    Channels.samplerate chs = inject_Z 4 /\
    (forall (c : nat) (sounds : Sounds.t),
       Channels.data chs !! c = Some sounds ->
       Sounds.paused sounds = 0 /\
       Sounds.consumer_index sounds = 0 /\
       Sounds.producer_index sounds = 0 /\
       Sounds.len sounds = if Z.of_nat c <? 2 then 3 else 2) /\
    exists latency : Q,
      ws_cur_latency state = Ok latency /\ (latency == 0)%Q.
Proof.
  apply (ws_setup_gives_empty_rings 4 2 3); unfold INT_MAX; lia.
Defined.

(** ** Channel indices *)

Lemma array_get_beyond {A : Type} (a : list A) (i : Z) :
  Z.of_nat (length a) <= i \/ i < 0 -> array_get a i = Fault OutOfBounds.
Proof.
  intros H. unfold array_get. destruct (0 <=? i) eqn:E; [|reflexivity].
  apply Z.leb_le in E. rewrite lookup_ge_None_2; [reflexivity|lia].
Qed.

(** X3.  No entry point checks the channel index against the channel set.
    [ws_play] with an index at or beyond the number of channels, and
    [ws_play_next] and [ws_pause] with an index whose target falls outside
    the channel array, access the array out of bounds. *)
Theorem channel_index_is_not_checked
    (pa_now now playat : Q) (channel isstream pause : Z) (toplay : Sound.t)
    (state : WsState) (chs : Channels.t) :
  channels state = Some chs ->
  wf_channels chs ->
  (Channels.len chs <= channel ->
   ws_play pa_now now playat channel toplay state = Fault OutOfBounds) /\
  (Channels.len chs <= Channels.len chs ÷ 2 + channel
   \/ Channels.len chs ÷ 2 + channel < 0 ->
   ws_play_next pa_now now channel toplay state = Fault OutOfBounds) /\
  (0 <= channel ->
   Channels.len chs
     <= (if isstream =? 0 then channel else Channels.len chs ÷ 2 + channel) ->
   ws_pause state channel isstream pause = Fault OutOfBounds).
Proof.
  intros Hchs [Hcount _]. split; [|split].
  - intros H. unfold ws_play. rewrite Hchs. cbn [deref bind].
    assert (E : (channel <? 0) = false) by (apply Z.ltb_ge; lia).
    rewrite E. cbn [bind]. rewrite E.
    rewrite array_get_beyond by lia. reflexivity.
  - intros H. unfold ws_play_next. rewrite Hchs. cbn [deref bind].
    rewrite array_get_beyond by lia. reflexivity.
  - intros H0 H. unfold ws_pause. rewrite Hchs. cbn [deref bind].
    replace (channel <? 0) with false by (symmetry; apply Z.ltb_ge; lia).
    cbn [bind]. unfold pause_channel.
    destruct (isstream =? 0); cbn [negb];
      rewrite array_get_beyond by lia; reflexivity.
Qed.

Lemma channel_index_is_not_checked_witness :
  ws_play 8 8 9 4 four_frames session = Fault OutOfBounds /\
  ws_play_next 8 8 2 four_frames session = Fault OutOfBounds /\
  ws_pause session 2 1 TRUE = Fault OutOfBounds.
Proof.
  destruct (channel_index_is_not_checked 8 8 9 4 1 TRUE four_frames session
              (channels_of session) eq_refl) as (H1 & _ & _).
  { wf_channels_by_compute. }
  destruct (channel_index_is_not_checked 8 8 9 2 1 TRUE four_frames session
              (channels_of session) eq_refl) as (_ & H2 & H3).
  { wf_channels_by_compute. }
  split; [apply H1; vm_compute; discriminate|].
  split; [apply H2; left; vm_compute; discriminate|].
  apply H3; vm_compute; discriminate.
Defined.

(** ** Error text *)

Lemma string_length_app (a b : string) :
  String.length (a ++ b) = (String.length a + String.length b)%nat.
Proof. induction a as [|x a IH]; cbn; [reflexivity|now rewrite IH]. Qed.

Lemma length_zeros (k : nat) : String.length (zeros k) = k.
Proof. induction k as [|k IH]; cbn; [reflexivity|now rewrite IH]. Qed.

Lemma decimal_length_le (fuel : nat) :
  forall (n : Z) (k : nat),
    0 <= n < 10 ^ Z.of_nat k -> (1 <= k)%nat ->
    (String.length (decimal fuel n) <= k)%nat.
Proof.
  induction fuel as [|fuel IH]; intros n k Hn Hk; cbn [decimal].
  - cbn. lia.
  - rewrite string_length_app. cbn [String.length].
    destruct (n <? 10) eqn:E; [cbn; lia|]. apply Z.ltb_ge in E.
    destruct k as [|[|k]]; [lia|cbn in Hn; lia|].
    assert (String.length (decimal fuel (n / 10)) <= S k)%nat; [|lia].
    apply IH; [|lia]. split; [apply Z.div_pos; lia|].
    apply Z.div_lt_upper_bound; [lia|].
    replace (Z.of_nat (S (S k))) with (Z.succ (Z.of_nat (S k))) in Hn by lia.
    rewrite Z.pow_succ_r in Hn by lia. lia.
Qed.

Lemma decimal_length_ge (k : nat) :
  forall (fuel : nat) (n : Z),
    10 ^ Z.of_nat k <= n -> (k < fuel)%nat ->
    (k + 1 <= String.length (decimal fuel n))%nat.
Proof.
  induction k as [|k IH]; intros fuel n Hn Hk;
    (destruct fuel as [|fuel]; [lia|]); cbn [decimal];
    rewrite string_length_app; cbn [String.length]; [lia|].
  replace (Z.of_nat (S k)) with (Z.succ (Z.of_nat k)) in Hn by lia.
  rewrite Z.pow_succ_r in Hn by lia.
  assert (0 < 10 ^ Z.of_nat k) by (apply Z.pow_pos_nonneg; lia).
  replace (n <? 10) with false by (symmetry; apply Z.ltb_ge; lia).
  assert (k + 1 <= String.length (decimal fuel (n / 10)))%nat; [|lia].
  apply IH; [|lia]. apply Z.div_le_lower_bound; lia.
Qed.

(** The text of ["%03d"] has more than four characters exactly for the
    values below -999 or above 9999. *)
Lemma format_03d_length (v : Z) :
  (String.length (format_03d v) <= 4)%nat <-> -999 <= v <= 9999.
Proof.
  unfold format_03d. rewrite !string_length_app, length_zeros.
  set (d := String.length (decimal 10 (Z.abs v))).
  destruct (v <? 0) eqn:E; cbn [String.length].
  - apply Z.ltb_lt in E. split.
    + intros H. destruct (Z_le_gt_dec (-999) v) as [|Hlow]; [lia|].
      assert (G : (3 + 1 <= d)%nat); [|lia].
      apply (decimal_length_ge 3); [|lia].
      change (10 ^ Z.of_nat 3) with 1000. lia.
    + intros H. assert (L : (d <= 3)%nat); [|lia].
      apply (decimal_length_le 10); [|lia].
      change (10 ^ Z.of_nat 3) with 1000. lia.
  - apply Z.ltb_ge in E. split.
    + intros H. destruct (Z_le_gt_dec v 9999) as [|Hhigh]; [lia|].
      assert (G : (4 + 1 <= d)%nat); [|lia].
      apply (decimal_length_ge 4); [|lia].
      change (10 ^ Z.of_nat 4) with 10000. lia.
    + intros H. assert (L : (d <= 4)%nat); [|lia].
      apply (decimal_length_le 10); [|lia].
      change (10 ^ Z.of_nat 4) with 10000. lia.
Qed.

(** X4.  [ws_error_str] on a state whose backend code is [paNoError] and
    whose own code is neither 0 nor [NO_CHANNELS]: the text
    ["Unknown Error Code: "] followed by the code under ["%03d"] is returned
    when the code lies between -999 and 9999; for any other code the text
    and its terminator exceed the 25 characters of the static array and
    [sprintf] writes past its end. *)
Theorem ws_error_str_unknown_code (text : Z -> string) (state : WsState) :
  errcode state = paNoError ->
  weber_error state <> 0 ->
  weber_error state <> NO_CHANNELS ->
  INT_MIN <= weber_error state <= INT_MAX ->
  ws_error_str text state
    = if (-999 <=? weber_error state) && (weber_error state <=? 9999) then
        Ok (unknown_prefix ++ format_03d (weber_error state))%string
      else Fault OutOfBounds.
Proof.
  intros He H0 Hn _. unfold ws_error_str. rewrite He. cbn [Z.eqb negb paNoError].
  replace (weber_error state =? 0) with false
    by (symmetry; apply Z.eqb_neq; exact H0).
  replace (weber_error state =? NO_CHANNELS) with false
    by (symmetry; apply Z.eqb_neq; exact Hn).
  cbn [negb]. unfold sprintf. rewrite string_length_app.
  pose proof (format_03d_length (weber_error state)) as L.
  change (String.length unknown_prefix) with 20%nat.
  destruct ((-999 <=? weber_error state) && (weber_error state <=? 9999)) eqn:E.
  - apply andb_true_iff in E as [E1 E2].
    apply Z.leb_le in E1, E2.
    replace (20 + String.length (format_03d (weber_error state)) <? 25)%nat
      with true; [reflexivity|].
    symmetry. apply Nat.ltb_lt. lia.
  - replace (20 + String.length (format_03d (weber_error state)) <? 25)%nat
      with false; [reflexivity|].
    symmetry. apply Nat.ltb_ge.
    apply andb_false_iff in E as [E|E]; apply Z.leb_gt in E; lia.
Qed.

Lemma ws_error_str_unknown_code_witness :
  ws_error_str (fun _ => EmptyString) (set_weber_error session 7)
    = Ok "Unknown Error Code: 007"%string /\
  ws_error_str (fun _ => EmptyString) (set_weber_error session (-3))
    = Ok "Unknown Error Code: -03"%string /\
  ws_error_str (fun _ => EmptyString) (set_weber_error session 10000)
    = Fault OutOfBounds.
Proof.
  split; [|split].
  - apply (ws_error_str_unknown_code (fun _ => EmptyString)
             (set_weber_error session 7));
      cbn; unfold INT_MIN, INT_MAX; first [reflexivity | discriminate | lia].
  - apply (ws_error_str_unknown_code (fun _ => EmptyString)
             (set_weber_error session (-3)));
      cbn; unfold INT_MIN, INT_MAX; first [reflexivity | discriminate | lia].
  - apply (ws_error_str_unknown_code (fun _ => EmptyString)
             (set_weber_error session 10000));
      cbn; unfold INT_MIN, INT_MAX; first [reflexivity | discriminate | lia].
Defined.

(** ** Timing warning and latency *)

Lemma length_substring_le (s : string) :
  forall n m : nat, (String.length (substring n m s) <= m)%nat.
Proof.
  induction s as [|x s IH]; intros [|n] [|m]; cbn; try lia.
  - specialize (IH 0%nat m). lia.
  - apply IH.
  - apply IH.
Qed.

(** X5.  The text [ws_warn_str] returns never has more than 99 characters,
    whatever the conversion of the latency produces: with its terminator it
    fits the static array of 100 characters. *)
Theorem ws_warn_str_fits_its_buffer (format : Q -> string) (state : WsState) :
  (String.length (fst (ws_warn_str format state)) <= 99)%nat.
Proof.
  unfold ws_warn_str. destruct (channels state) as [chs|]; [|cbn; lia].
  destruct (Channels.playback_error chs <? 0); [|cbn; lia].
  cbn [fst]. unfold snprintf. apply (length_substring_le _ 0 99).
Qed.

Lemma mix_channel_keeps_settings (len : Z) (buffer_start : Q) (c : Z)
    (m m' : mixer) :
  mix_channel len buffer_start c m = Ok m' ->
  same_settings (mx_channels m) (mx_channels m').
Proof.
  intros H. apply mix_channel_inv in H as [->|(sounds' & e & _ & ->)];
    repeat split.
Qed.

Lemma mix_from_keeps_settings (len : Z) (buffer_start : Q) (n : nat) :
  forall (c : Z) (m m' : mixer),
    mix_from n len buffer_start c m = Ok m' ->
    same_settings (mx_channels m) (mx_channels m').
Proof.
  induction n as [|n IH]; intros c m m' H; cbn [mix_from] in H.
  - injection H as <-. repeat split.
  - destruct (mix_channel len buffer_start c m) as [m1|] eqn:E;
      [|discriminate]. cbn [bind] in H.
    apply mix_channel_keeps_settings in E. apply IH in H.
    unfold same_settings in *. intuition congruence.
Qed.

Lemma ws_callback_inv (out : list Z) (len : Z)
    (outputBufferDacTime currentTime : Q) (chs chs' : Channels.t)
    (out' : list Z) :
  ws_callback out len outputBufferDacTime currentTime chs = Ok (chs', out') ->
  exists (out0 : list Z) (m : mixer),
    zero_fill (Z.to_nat len) 0 out = Ok out0 /\
    mix_from (Z.to_nat (Channels.len chs)) len outputBufferDacTime 0
      (mkMixer
         (Channels.set_last chs len (outputBufferDacTime - currentTime)%Q)
         out0 false) = Ok m /\
    chs' = mx_channels m /\ out' = mx_out m.
Proof.
  unfold ws_callback. intros H.
  destruct (zero_fill (Z.to_nat len) 0 out) as [out0|] eqn:E0; [|discriminate].
  cbn [bind] in H. cbn [Channels.set_last Channels.len] in H.
  destruct (mix_from (Z.to_nat (Channels.len chs)) len outputBufferDacTime 0 _)
    as [m|] eqn:E1; [|discriminate].
  cbn [bind] in H. injection H as <- <-. exists out0, m. auto.
Qed.

(** X6.  After an invocation of the callback on a buffer of [len] frames,
    [ws_cur_latency] is the duration of that buffer plus the lead of the
    buffer's output instant over the current time, both as passed to the
    callback. *)
Theorem ws_cur_latency_after_callback
    (out : list Z) (len : Z) (outputBufferDacTime currentTime : Q)
    (state : WsState) (chs chs' : Channels.t) (out' : list Z) :
  ~ (Channels.samplerate chs == 0)%Q ->
  ws_callback out len outputBufferDacTime currentTime chs = Ok (chs', out') ->
  ws_cur_latency (set_channels state (Some chs'))
    = Ok (inject_Z len / Channels.samplerate chs
          + (outputBufferDacTime - currentTime))%Q.
Proof.
  intros _ H. apply ws_callback_inv in H as (out0 & m & _ & Hmix & -> & _).
  apply mix_from_keeps_settings in Hmix as (_ & Hsize & Hlat & Hrate & _).
  cbn in Hsize, Hlat, Hrate. unfold ws_cur_latency. cbn.
  rewrite <- Hsize, <- Hlat, <- Hrate. reflexivity.
Qed.

Lemma ws_cur_latency_after_callback_witness :
  match ws_callback stale_buffer 4 (17 # 2) 8 (channels_of session) with
  | Ok (chs', _) =>
    ws_cur_latency (set_channels session (Some chs'))
    = Ok (inject_Z 4 / inject_Z 4 + ((17 # 2) - 8))%Q
  | Fault _ => False
  end.
Proof.
  destruct (ws_callback stale_buffer 4 (17 # 2) 8 (channels_of session))
    as [[chs' out']|f] eqn:E.
  - apply (ws_cur_latency_after_callback stale_buffer 4 (17 # 2) 8 session
             (channels_of session) chs' out'); [|exact E].
    intros H. vm_compute in H. discriminate H.
  - vm_compute in E. discriminate E.
Defined.

(** ** Channels the callback passes over *)

Lemma mix_channel_paused (len : Z) (buffer_start : Q) (c : Z) (m : mixer)
    (sounds : Sounds.t) :
  0 <= c ->
  Channels.data (mx_channels m) !! Z.to_nat c = Some sounds ->
  Sounds.paused sounds <> 0 ->
  mix_channel len buffer_start c m = Ok m.
Proof.
  intros Hc Hs Hp. unfold mix_channel.
  rewrite (array_get_ok _ _ _ Hc Hs). cbn [bind].
  replace (Sounds.paused sounds =? 0) with false
    by (symmetry; apply Z.eqb_neq; exact Hp).
  reflexivity.
Qed.

Lemma mix_from_keeps_paused (len : Z) (buffer_start : Q) (n : nat) :
  forall (c0 : Z) (m m' : mixer) (c : nat) (sounds : Sounds.t),
    0 <= c0 ->
    mix_from n len buffer_start c0 m = Ok m' ->
    Channels.data (mx_channels m) !! c = Some sounds ->
    Sounds.paused sounds <> 0 ->
    Channels.data (mx_channels m') !! c = Some sounds.
Proof.
  induction n as [|n IH]; intros c0 m m' c sounds Hc0 H Hs Hp;
    cbn [mix_from] in H.
  - injection H as <-. exact Hs.
  - destruct (mix_channel len buffer_start c0 m) as [m1|] eqn:E;
      [|discriminate]. cbn [bind] in H.
    apply (IH (c0 + 1) m1 m' c sounds); [lia|exact H| |exact Hp].
    destruct (Z.eq_dec c0 (Z.of_nat c)) as [->|Hne].
    + rewrite (mix_channel_paused len buffer_start (Z.of_nat c) m sounds)
        in E; [injection E as <-; exact Hs|lia| |exact Hp].
      rewrite Nat2Z.id. exact Hs.
    + apply mix_channel_inv in E as [->|(sounds' & e & _ & ->)];
        [exact Hs|].
      unfold with_channel. cbn. rewrite list_lookup_insert_ne by lia.
      exact Hs.
Qed.

(** X7.  The callback passes over a paused channel: whatever the channel
    holds, its ring, its two indices, the offsets of its sounds and its
    [done_at] are after the invocation what they were before. *)
Theorem ws_callback_skips_paused
    (out : list Z) (len : Z) (outputBufferDacTime currentTime : Q)
    (chs chs' : Channels.t) (out' : list Z) (c : nat) (sounds : Sounds.t) :
  ws_callback out len outputBufferDacTime currentTime chs = Ok (chs', out') ->
  Channels.data chs !! c = Some sounds ->
  Sounds.paused sounds <> 0 ->
  Channels.data chs' !! c = Some sounds.
Proof.
  intros H Hs Hp. apply ws_callback_inv in H as (out0 & m & _ & Hmix & -> & _).
  exact (mix_from_keeps_paused _ _ _ _ _ _ c sounds (Z.le_refl 0) Hmix Hs Hp).
Qed.

Lemma ws_callback_skips_paused_witness :
  match ws_callback stale_buffer 4 8 8 (channels_of paused_streaming) with
  | Ok (chs', _) =>
    Channels.data chs' !! 2%nat = Some (channel_at paused_streaming 2)
  | Fault _ => False
  end.
Proof.
  destruct (ws_callback stale_buffer 4 8 8 (channels_of paused_streaming))
    as [[chs' out']|f] eqn:E.
  - apply (ws_callback_skips_paused stale_buffer 4 8 8
             (channels_of paused_streaming) chs' out' 2
             (channel_at paused_streaming 2) E).
    + reflexivity.
    + vm_compute. discriminate.
  - vm_compute in E. discriminate E.
Defined.

Lemma same_slots_quiet (a b : Channels.t) (c : Z) :
  same_slots a b -> quiet a c -> quiet b c.
Proof.
  intros (_ & Hrings & _) (x & Hx & Hq).
  destruct (Hrings _ _ Hx) as (y & Hy & Hd & _ & Hp & Hci & _).
  exists y. split; [exact Hy|]. rewrite <- Hp, <- Hd, <- Hci. exact Hq.
Qed.

Lemma mix_channel_quiet (len : Z) (buffer_start : Q) (c : Z) (m : mixer) :
  wf_channels (mx_channels m) ->
  0 <= c ->
  quiet (mx_channels m) c ->
  exists m' : mixer,
    mix_channel len buffer_start c m = Ok m' /\
    mx_out m' = mx_out m /\
    mx_should_start m' = mx_should_start m /\
    same_slots (mx_channels m) (mx_channels m').
Proof.
  intros Hwf Hc (sounds & Hs & [Hp|Hhead]).
  - exists m. rewrite (mix_channel_paused _ _ _ _ _ Hc Hs Hp).
    repeat split. apply same_slots_refl.
  - apply mix_channel_idle; [exact Hwf|exact Hc|].
    exists sounds. split; assumption.
Qed.

Lemma mix_from_quiet (len : Z) (buffer_start : Q) (n : nat) :
  forall (c0 : Z) (m : mixer),
    wf_channels (mx_channels m) ->
    0 <= c0 ->
    (forall c, c0 <= c < c0 + Z.of_nat n -> quiet (mx_channels m) c) ->
    exists m' : mixer,
      mix_from n len buffer_start c0 m = Ok m' /\
      mx_out m' = mx_out m /\
      mx_should_start m' = mx_should_start m /\
      same_slots (mx_channels m) (mx_channels m').
Proof.
  induction n as [|n IH]; intros c0 m Hwf Hc0 Hquiet; cbn [mix_from].
  - exists m. repeat split. apply same_slots_refl.
  - destruct (mix_channel_quiet len buffer_start c0 m Hwf Hc0)
      as (m1 & -> & Ho1 & Hf1 & R1); [apply Hquiet; lia|].
    cbn [bind].
    destruct (IH (c0 + 1) m1) as (m' & -> & Ho' & Hf' & R').
    + exact (same_slots_wf _ _ R1 Hwf).
    + lia.
    + intros c Hc. apply (same_slots_quiet _ _ c R1). apply Hquiet. lia.
    + exists m'. split; [reflexivity|]. split; [congruence|].
      split; [congruence|]. exact (same_slots_trans _ _ _ R1 R').
Qed.

(** X8.  When every channel is paused or has an empty slot at its consumer
    index, the callback fills the buffer with zeros, whatever the buffer
    held and whatever sounds the paused channels hold, and it changes no
    slot, index or flag of any channel. *)
Theorem ws_callback_writes_silence
    (out : list Z) (len : Z) (outputBufferDacTime currentTime : Q)
    (chs : Channels.t) :
  0 <= len ->
  Z.of_nat (length out) = 2 * len ->
  wf_channels chs ->
  (forall c, 0 <= c < Channels.len chs -> quiet chs c) ->
  exists chs' : Channels.t,
    ws_callback out len outputBufferDacTime currentTime chs
      = Ok (chs', replicate (Z.to_nat (2 * len)) 0) /\
    same_slots chs chs'.
Proof.
  intros Hlen Hout Hwf Hquiet. unfold ws_callback.
  rewrite (zero_fill_all len out Hlen Hout). cbn [bind].
  set (chs0 := Channels.set_last chs len (outputBufferDacTime - currentTime)%Q).
  pose proof (same_slots_set_last chs len (outputBufferDacTime - currentTime)%Q)
    as R0. fold chs0 in R0.
  destruct (mix_from_quiet len outputBufferDacTime
              (Z.to_nat (Channels.len chs0)) 0
              (mkMixer chs0 (replicate (Z.to_nat (2 * len)) 0) false))
    as (m & -> & Ho & _ & R).
  - exact (same_slots_wf _ _ R0 Hwf).
  - lia.
  - intros c' Hc'. cbn. apply (same_slots_quiet _ _ c' R0).
    apply Hquiet. destruct Hwf as [Hcount _]. cbn in Hc'. lia.
  - cbn [bind]. cbn in Ho, R. exists (mx_channels m).
    split; [now rewrite Ho|]. exact (same_slots_trans _ _ _ R0 R).
Qed.

Lemma ws_callback_writes_silence_witness :
  exists chs' : Channels.t,
    ws_callback stale_buffer 4 8 8 (channels_of paused_streaming)
      = Ok (chs', replicate (Z.to_nat (2 * 4)) 0) /\
    same_slots (channels_of paused_streaming) chs'.
Proof.
  apply (ws_callback_writes_silence stale_buffer 4 8 8
           (channels_of paused_streaming)).
  - lia.
  - reflexivity.
  - wf_channels_by_compute.
  - intros c Hc.
    assert (Hcases : c = 0 \/ c = 1 \/ c = 2 \/ c = 3)
      by (change (Channels.len (channels_of paused_streaming)) with 4 in Hc;
          lia).
    destruct Hcases as [-> | [-> | [-> | ->]]];
      eexists; (split; [reflexivity|]);
      first [ right; reflexivity | left; vm_compute; discriminate ].
Defined.

(** X9.  For an unpaused channel with nothing at its consumer slot, the
    callback records the instant at which the buffer ends as the channel's
    [done_at], and changes nothing else of the channel. *)
Theorem ws_callback_sets_idle_done_at
    (out : list Z) (len : Z) (outputBufferDacTime currentTime : Q)
    (chs chs' : Channels.t) (out' : list Z) (c : nat) (sounds : Sounds.t) :
  wf_channels chs ->
  ws_callback out len outputBufferDacTime currentTime chs = Ok (chs', out') ->
  Channels.data chs !! c = Some sounds ->
  Sounds.paused sounds = 0 ->
  Sounds.data sounds !! Z.to_nat (Sounds.consumer_index sounds) = Some None ->
  Channels.data chs' !! c
    = Some (Sounds.set_done_at sounds
              (outputBufferDacTime + Channels.samplelen chs * inject_Z len)%Q).
Proof.
  intros Hwf H Hs Hp Hhead.
  apply ws_callback_inv in H as (out0 & m & _ & Hmix & -> & _).
  pose proof (wf_channel_lookup _ _ _ Hwf Hs) as [_ Hci _].
  destruct Hwf as [Hcount _].
  pose proof (lookup_lt_Some _ _ _ Hs) as Hlt.
  replace (Z.to_nat (Channels.len chs))
    with (c + S (Z.to_nat (Channels.len chs) - c - 1))%nat in Hmix by lia.
  rewrite mix_from_app in Hmix.
  destruct (mix_from c len outputBufferDacTime 0 _) as [m1|] eqn:E1;
    [|discriminate]. cbn [bind mix_from] in Hmix.
  pose proof (mix_from_other_channel len outputBufferDacTime c 0 _ m1
                (Z.of_nat c) ltac:(lia) E1) as Hs1.
  rewrite Nat2Z.id in Hs1. cbn in Hs1. rewrite Hs in Hs1.
  apply mix_from_keeps_settings in E1 as (_ & _ & _ & _ & Hsl). cbn in Hsl.
  destruct (mix_channel len outputBufferDacTime (0 + Z.of_nat c) m1)
    as [m2|] eqn:E2; [|discriminate]. cbn [bind] in Hmix.
  pose proof (mix_from_other_channel len outputBufferDacTime
                (Z.to_nat (Channels.len chs) - c - 1) (0 + Z.of_nat c + 1)
                m2 m (Z.of_nat c) ltac:(lia) Hmix) as Hs2.
  rewrite Nat2Z.id in Hs2. rewrite Hs2. clear Hmix Hs2.
  unfold mix_channel in E2.
  rewrite (array_get_ok _ _ sounds) in E2
    by (rewrite ?Z.add_0_l, ?Nat2Z.id; first [lia | exact Hs1]).
  cbn [bind] in E2. rewrite Hp in E2. cbn [Z.eqb negb] in E2.
  unfold drain_channel in E2.
  rewrite (array_get_ok _ _ _ (proj1 Hci) Hhead) in E2. cbn [bind] in E2.
  rewrite drain_head_empty in E2 by (cb_simpl; first [lia | assumption]).
  cbn [bind] in E2. cb_simpl.
  unfold put_channel in E2.
  rewrite array_set_ok in E2
    by (cbn; apply lookup_lt_Some in Hs1; lia).
  cbn [bind] in E2. injection E2 as <-. cbn.
  rewrite Z.add_0_l, Nat2Z.id.
  rewrite list_lookup_insert_eq by (eapply lookup_lt_Some; exact Hs1).
  rewrite <- Hsl. reflexivity.
Qed.

Lemma ws_callback_sets_idle_done_at_witness :
  match ws_callback stale_buffer 4 8 8 (channels_of session) with
  | Ok (chs', _) =>
    Channels.data chs' !! 1%nat
    = Some (Sounds.set_done_at (channel_at session 1)
              (8 + Channels.samplelen (channels_of session) * inject_Z 4)%Q)
  | Fault _ => False
  end.
Proof.
  destruct (ws_callback stale_buffer 4 8 8 (channels_of session))
    as [[chs' out']|f] eqn:E.
  - apply (ws_callback_sets_idle_done_at stale_buffer 4 8 8
             (channels_of session) chs' out' 1 (channel_at session 1)).
    + wf_channels_by_compute.
    + exact E.
    + reflexivity.
    + reflexivity.
    + reflexivity.
  - vm_compute in E. discriminate E.
Defined.

(** A zero-frame sound asked for at instant 10 is at the head of one-shot
    channel 0: the callback for the buffer at instant 8 removes it. *)
Lemma ws_callback_clears_finished_head_witness :
  exists (chs' : Channels.t) (out' : list Z),
    ws_callback stale_buffer 4 8 8 (channels_of empty_queued) = Ok (chs', out') /\
    forall x : TimedSound.t, slot_of chs' 0 0 <> Some (Some x).
Proof.
  apply (ws_callback_clears_finished_head stale_buffer 4 8 8
           (channels_of empty_queued) 0 (channel_at empty_queued 0)
           (TimedSound.mk [] ((8 - 8) + 10) 0 0)).
  - wf_channels_by_compute.
  - exact exact_rates_4.
  - unfold INT_MAX. lia.
  - reflexivity.
  - channels_ok_by_compute.
  - reflexivity.
  - reflexivity.
  - reflexivity.
  - cbn. lia.
Defined.

(** ** Pausing *)

(** X10.  With a channel index that is not negative, [ws_pause] sets the
    [paused] flag of one channel, the one-shot channel of that index or,
    when [isstream] is set, the streaming channel of that index, and the
    state is otherwise the one given. *)
Theorem ws_pause_sets_one_flag
    (state : WsState) (channel isstream pause : Z)
    (chs : Channels.t) (sounds : Sounds.t) :
  channels state = Some chs ->
  0 <= channel ->
  0 <= Channels.len chs ->
  let target :=
    if isstream =? 0 then channel else Channels.len chs ÷ 2 + channel in
  Channels.data chs !! Z.to_nat target = Some sounds ->
  ws_pause state channel isstream pause
    = Ok (set_channels state
            (Some (with_channel chs target (Sounds.set_paused sounds pause)))).
Proof. exact (ws_pause_single state channel isstream pause chs sounds). Qed.

Lemma ws_pause_sets_one_flag_witness :
  ws_pause streaming 0 1 TRUE
    = Ok (set_channels streaming
            (Some (with_channel (channels_of streaming) 2
                     (Sounds.set_paused (channel_at streaming 2) TRUE)))).
Proof.
  apply (ws_pause_sets_one_flag streaming 0 1 TRUE (channels_of streaming)
           (channel_at streaming 2) eq_refl);
    [lia|vm_compute; discriminate|reflexivity].
Defined.

Lemma set_paused_twice (sounds : Sounds.t) (p q : Z) :
  Sounds.set_paused (Sounds.set_paused sounds p) q = Sounds.set_paused sounds q.
Proof. reflexivity. Qed.

Lemma set_paused_same (sounds : Sounds.t) :
  Sounds.set_paused sounds (Sounds.paused sounds) = sounds.
Proof. destruct sounds; reflexivity. Qed.

Lemma with_channel_twice (chs : Channels.t) (c : Z) (x y : Sounds.t) :
  with_channel (with_channel chs c x) c y = with_channel chs c y.
Proof.
  unfold with_channel. cbn. now rewrite list_insert_insert_eq.
Qed.

(** X11.  Pausing a channel that is not paused and then resuming it gives
    back the state before the two calls: the queued sounds, their offsets
    and the indices are those the channel had. *)
Theorem pause_then_resume
    (state : WsState) (channel isstream pause : Z)
    (chs : Channels.t) (sounds : Sounds.t) :
  channels state = Some chs ->
  0 <= channel ->
  0 <= Channels.len chs ->
  let target :=
    if isstream =? 0 then channel else Channels.len chs ÷ 2 + channel in
  Channels.data chs !! Z.to_nat target = Some sounds ->
  Sounds.paused sounds = 0 ->
  exists held : WsState,
    ws_pause state channel isstream pause = Ok held /\
    ws_pause held channel isstream FALSE = Ok state.
Proof.
  intros Hchs Hc Hlen target Hs Hp.
  assert (Ht : 0 <= target).
  { subst target. destruct (isstream =? 0); [exact Hc|].
    assert (0 <= Channels.len chs ÷ 2) by (apply Z.quot_pos; lia). lia. }
  set (held := set_channels state
                 (Some (with_channel chs target
                          (Sounds.set_paused sounds pause)))).
  exists held. split.
  - exact (ws_pause_single state channel isstream pause chs sounds
             Hchs Hc Hlen Hs).
  - rewrite (ws_pause_single held channel isstream FALSE
               (with_channel chs target (Sounds.set_paused sounds pause))
               (Sounds.set_paused sounds pause) eq_refl Hc Hlen).
    + cbn [Channels.len with_channel Channels.set_data]. fold target.
      change (Channels.set_data chs
                (<[Z.to_nat target := Sounds.set_paused sounds pause]>
                   (Channels.data chs)))
        with (with_channel chs target (Sounds.set_paused sounds pause)).
      rewrite with_channel_twice, set_paused_twice.
      unfold FALSE. rewrite <- Hp, set_paused_same.
      rewrite (with_channel_same _ _ _ Hs).
      subst held. destruct state; cbn in *. now rewrite Hchs.
    + cbn [Channels.len with_channel Channels.set_data Channels.data].
      fold target.
      apply list_lookup_insert_eq. eapply lookup_lt_Some; exact Hs.
Qed.

Lemma pause_then_resume_witness :
  exists held : WsState,
    ws_pause streaming 0 1 TRUE = Ok held /\
    ws_pause held 0 1 FALSE = Ok streaming.
Proof.
  apply (pause_then_resume streaming 0 1 TRUE (channels_of streaming)
           (channel_at streaming 2) eq_refl);
    [lia|vm_compute; discriminate|reflexivity|reflexivity].
Defined.

Lemma pause_from_spec (pause : Z) (n : nat) :
  forall (i : Z) (chs : Channels.t),
    0 <= i ->
    i + Z.of_nat n <= Z.of_nat (length (Channels.data chs)) ->
    exists d : list Sounds.t,
      pause_from n i chs pause = Ok (Channels.set_data chs d) /\
      length d = length (Channels.data chs) /\
      forall k : nat,
        d !! k
        = if decide (i <= Z.of_nat k < i + Z.of_nat n)
          then (fun sounds => Sounds.set_paused sounds pause)
                 <$> Channels.data chs !! k
          else Channels.data chs !! k.
Proof.
  induction n as [|n IH]; intros i chs Hi Hn; cbn [pause_from].
  - exists (Channels.data chs). split; [now destruct chs|].
    split; [reflexivity|]. intros k. destruct (decide _); [lia|reflexivity].
  - destruct (in_range_lookup (Channels.data chs) i) as (sounds & Hs); [lia|].
    rewrite (pause_channel_ok _ _ _ _ Hi Hs). cbn [bind].
    destruct (IH (i + 1)
                (with_channel chs i (Sounds.set_paused sounds pause)))
      as (d & -> & Hlen & Hd).
    + lia.
    + cbn. rewrite length_insert. lia.
    + exists d. split; [reflexivity|]. cbn in Hlen, Hd.
      rewrite length_insert in Hlen. split; [exact Hlen|].
      intros k. rewrite Hd.
      destruct (Nat.eq_dec (Z.to_nat i) k) as [<-|Hne].
      * rewrite list_lookup_insert_eq by (eapply lookup_lt_Some; exact Hs).
        rewrite Hs. repeat destruct (decide _); try lia; reflexivity.
      * rewrite list_lookup_insert_ne by exact Hne.
        repeat destruct (decide _); try lia; reflexivity.
Qed.

(** X12.  With a negative channel index and [isstream] set, [ws_pause]
    sets the [paused] flag of every channel, one-shot and streaming, and
    changes nothing else, provided the index added to the number of
    streaming channels is not negative (as for the index -1 in a set that
    has channels). *)
Theorem ws_pause_every_channel
    (state : WsState) (channel isstream pause : Z) (chs : Channels.t) :
  channels state = Some chs ->
  wf_channels chs ->
  channel < 0 ->
  isstream <> 0 ->
  0 <= Channels.len chs ÷ 2 + channel ->
  ws_pause state channel isstream pause
    = Ok (set_channels state (Some (with_all_paused chs pause))).
Proof.
  intros Hchs [Hcount _] Hneg Hstream Htarget. unfold ws_pause.
  rewrite Hchs. cbn [deref bind].
  replace (channel <? 0) with true by (symmetry; apply Z.ltb_lt; exact Hneg).
  destruct (pause_from_spec pause (Z.to_nat (Channels.len chs)) 0 chs)
    as (d & -> & Hlen & Hd); [lia|lia|].
  cbn [bind].
  replace (isstream =? 0) with false
    by (symmetry; apply Z.eqb_neq; exact Hstream).
  cbn [negb Channels.len Channels.set_data].
  assert (Hall : d = (fun sounds => Sounds.set_paused sounds pause)
                       <$> Channels.data chs).
  { apply list_eq. intros k. rewrite Hd, list_lookup_fmap.
    destruct (decide _) as [|Hout]; [reflexivity|].
    rewrite lookup_ge_None_2 by lia. reflexivity. }
  assert (Hhalf : Channels.len chs ÷ 2 <= Channels.len chs).
  { apply Z.quot_le_upper_bound; lia. }
  destruct (in_range_lookup d (Channels.len chs ÷ 2 + channel))
    as (x & Hx); [lia|].
  rewrite (pause_channel_ok _ _ x) by (first [exact Htarget | exact Hx]).
  cbn [bind]. do 3 f_equal.
  assert (Hpaused : Sounds.set_paused x pause = x).
  { rewrite Hall, list_lookup_fmap in Hx.
    destruct (Channels.data chs !! _) as [y|]; [|discriminate].
    injection Hx as <-. reflexivity. }
  rewrite Hpaused. unfold with_channel, with_all_paused. cbn.
  rewrite list_insert_id by exact Hx. now rewrite Hall.
Qed.

Lemma ws_pause_every_channel_witness :
  ws_pause streaming (-1) 1 TRUE
    = Ok (set_channels streaming
            (Some (with_all_paused (channels_of streaming) TRUE))).
Proof.
  apply (ws_pause_every_channel streaming (-1) 1 TRUE (channels_of streaming)
           eq_refl).
  - wf_channels_by_compute.
  - lia.
  - discriminate.
  - vm_compute. discriminate.
Defined.

(** ** Streaming *)

Lemma ws_play_next_enqueues
    (pa_now now : Q) (channel : Z) (toplay : Sound.t) (state : WsState)
    (chs : Channels.t) (sounds : Sounds.t) :
  channels state = Some chs ->
  wf_channels chs ->
  0 <= channel ->
  Channels.data chs !! Z.to_nat (Channels.len chs ÷ 2 + channel) = Some sounds ->
  Sounds.paused sounds = 0 ->
  Sounds.data sounds !! Z.to_nat (Sounds.producer_index sounds) = Some None ->
  ws_play_next pa_now now channel toplay state
    = Ok ((Sounds.done_at sounds
           + inject_Z (Sound.len toplay) * Channels.samplelen chs
           - pa_now + now)%Q,
          set_channels state
            (Some (with_channel chs (Channels.len chs ÷ 2 + channel)
                     (pushed sounds (newTimedSound toplay (-1)%Q))))).
Proof.
  intros Hchs Hwf Hchan Hsounds Hp Hslot.
  pose proof (wf_half_nonneg chs Hwf) as Hhalf.
  assert (Hc : 0 <= Channels.len chs ÷ 2 + channel) by lia.
  pose proof (wf_channel_lookup _ _ _ Hwf Hsounds) as Hws.
  unfold ws_play_next. rewrite Hchs. cbn [deref bind].
  rewrite (array_get_ok _ _ _ Hc Hsounds). cbn [bind].
  rewrite (interrupt_paused_unpaused _ Hp). cbn [bind].
  rewrite (array_get_ok _ _ _ (proj1 (wf_producer _ Hws)) Hslot).
  cbn [bind].
  rewrite (push_sound_ok _ _ Hws). cbn [bind].
  rewrite (put_channel_ok _ _ _ _ Hc Hsounds). cbn [bind].
  reflexivity.
Qed.

Lemma ws_play_next_refuses
    (pa_now now : Q) (channel : Z) (toplay : Sound.t) (state : WsState)
    (chs : Channels.t) (sounds : Sounds.t) (old : TimedSound.t) :
  channels state = Some chs ->
  wf_channels chs ->
  0 <= channel ->
  Channels.data chs !! Z.to_nat (Channels.len chs ÷ 2 + channel) = Some sounds ->
  Sounds.paused sounds = 0 ->
  Sounds.data sounds !! Z.to_nat (Sounds.producer_index sounds)
    = Some (Some old) ->
  ws_play_next pa_now now channel toplay state = Ok ((-1)%Q, state).
Proof.
  intros Hchs Hwf Hchan Hsounds Hp Hslot.
  pose proof (wf_half_nonneg chs Hwf) as Hhalf.
  assert (Hc : 0 <= Channels.len chs ÷ 2 + channel) by lia.
  pose proof (wf_channel_lookup _ _ _ Hwf Hsounds) as Hws.
  unfold ws_play_next. rewrite Hchs. cbn [deref bind].
  rewrite (array_get_ok _ _ _ Hc Hsounds). cbn [bind].
  rewrite (interrupt_paused_unpaused _ Hp). cbn [bind].
  rewrite (array_get_ok _ _ _ (proj1 (wf_producer _ Hws)) Hslot).
  cbn [bind].
  rewrite (put_channel_ok _ _ _ _ Hc Hsounds). cbn [bind].
  rewrite (with_channel_same _ _ _ Hsounds).
  rewrite (set_channels_same _ _ Hchs). reflexivity.
Qed.

Lemma with_channel_lookup (chs : Channels.t) (c : Z) (old sounds : Sounds.t) :
  Channels.data chs !! Z.to_nat c = Some old ->
  Channels.data (with_channel chs c sounds) !! Z.to_nat c = Some sounds.
Proof.
  intros H. unfold with_channel. cbn.
  apply list_lookup_insert_eq. eapply lookup_lt_Some; exact H.
Qed.

(** X13.  A streaming channel takes two sounds and no more.  On an
    unpaused streaming channel whose ring of two slots is empty, two calls
    of [ws_play_next] store their sounds, the first at the producer index
    and the second in the other slot, and a third call made before the
    callback has cleared a slot returns -1 and leaves the state as it
    is. *)
Theorem streaming_channel_holds_two
    (t1 n1 t2 n2 t3 n3 : Q) (channel : Z) (a b c : Sound.t)
    (state : WsState) (chs : Channels.t) (sounds : Sounds.t) :
  channels state = Some chs ->
  wf_channels chs ->
  0 <= channel ->
  Channels.data chs !! Z.to_nat (Channels.len chs ÷ 2 + channel) = Some sounds ->
  Sounds.paused sounds = 0 ->
  Sounds.len sounds = 2 ->
  (forall (i : nat) (x : TimedSound.t),
     Sounds.data sounds !! i <> Some (Some x)) ->
  let p := Sounds.producer_index sounds in
  exists (r1 r2 : Q) (s1 s2 : WsState) (chs2 : Channels.t) (ring : Sounds.t),
    ws_play_next t1 n1 channel a state = Ok (r1, s1) /\
    ws_play_next t2 n2 channel b s1 = Ok (r2, s2) /\
    ws_play_next t3 n3 channel c s2 = Ok ((-1)%Q, s2) /\
    channels s2 = Some chs2 /\
    Channels.data chs2 !! Z.to_nat (Channels.len chs ÷ 2 + channel) = Some ring /\
    Sounds.data ring !! Z.to_nat p = Some (Some (newTimedSound a (-1)%Q)) /\
    Sounds.data ring !! Z.to_nat (1 - p) = Some (Some (newTimedSound b (-1)%Q)) /\
    Sounds.producer_index ring = p /\
    Sounds.consumer_index ring = Sounds.consumer_index sounds.
Proof.
  intros Hchs Hwf Hchan Hsounds Hp Hlen Hempty p.
  pose proof (wf_channel_lookup _ _ _ Hwf Hsounds) as Hws.
  pose proof Hws as [Hcap Hci Hpi]. fold p in Hpi.
  rewrite Hlen in Hcap, Hci, Hpi.
  assert (Hslots : forall i : Z, 0 <= i < 2 ->
                     Sounds.data sounds !! Z.to_nat i = Some None).
  { intros i Hi. destruct (in_range_lookup (Sounds.data sounds) i) as ([x|] & Hx);
      [lia|exfalso; exact (Hempty _ _ Hx)|exact Hx]. }
  set (target := Channels.len chs ÷ 2 + channel) in *.
  set (ring1 := pushed sounds (newTimedSound a (-1)%Q)).
  set (chs1 := with_channel chs target ring1).
  set (ring2 := pushed ring1 (newTimedSound b (-1)%Q)).
  set (chs2 := with_channel chs1 target ring2).
  assert (Hwf1 : wf_channels chs1)
    by (apply wf_channels_with_channel, wf_sounds_pushed; assumption).
  assert (Hring1 : Channels.data chs1 !! Z.to_nat target = Some ring1)
    by exact (with_channel_lookup _ _ _ _ Hsounds).
  assert (Hwf2 : wf_channels chs2).
  { apply wf_channels_with_channel; [exact Hwf1|].
    apply wf_sounds_pushed, wf_sounds_pushed. exact Hws. }
  assert (Hring2 : Channels.data chs2 !! Z.to_nat target = Some ring2)
    by exact (with_channel_lookup _ _ _ _ Hring1).
  assert (Hp1 : Sounds.producer_index ring1 = 1 - p).
  { cbn. fold p. rewrite Hlen.
    assert (p = 0 \/ p = 1) as [-> | ->] by lia; reflexivity. }
  assert (Hp2 : Sounds.producer_index ring2 = p).
  { cbn. fold p. rewrite Hlen.
    assert (p = 0 \/ p = 1) as [-> | ->] by lia; reflexivity. }
  assert (Hne : Z.to_nat p <> Z.to_nat (1 - p)) by lia.
  assert (Hlt : forall i : Z, 0 <= i < 2 ->
                  (Z.to_nat i < length (Sounds.data sounds))%nat) by lia.
  assert (Hd1 : Sounds.data ring1
                = <[Z.to_nat p := Some (newTimedSound a (-1)%Q)]>
                    (Sounds.data sounds)) by reflexivity.
  assert (Hd2 : Sounds.data ring2
                = <[Z.to_nat (1 - p) := Some (newTimedSound b (-1)%Q)]>
                    (<[Z.to_nat p := Some (newTimedSound a (-1)%Q)]>
                       (Sounds.data sounds))).
  { rewrite <- Hd1, <- Hp1. reflexivity. }
  assert (Ha : Sounds.data ring2 !! Z.to_nat p
               = Some (Some (newTimedSound a (-1)%Q))).
  { rewrite Hd2.
    rewrite list_lookup_insert_ne by (intros E; apply Hne; symmetry; exact E).
    apply list_lookup_insert_eq. apply Hlt. exact Hpi. }
  do 2 eexists. exists (set_channels state (Some chs1)).
  exists (set_channels (set_channels state (Some chs1)) (Some chs2)).
  exists chs2, ring2.
  split; [|split; [|split; [|split; [|split; [|split; [|split; [|split]]]]]]].
  - apply (ws_play_next_enqueues t1 n1 channel a state chs sounds);
      try assumption. apply Hslots. exact Hpi.
  - apply (ws_play_next_enqueues t2 n2 channel b _ chs1 ring1);
      try assumption; try reflexivity.
    rewrite Hp1, Hd1.
    rewrite list_lookup_insert_ne by exact Hne. apply Hslots. lia.
  - apply (ws_play_next_refuses t3 n3 channel c _ chs2 ring2
             (newTimedSound a (-1)%Q));
      try assumption; try reflexivity.
    rewrite Hp2. exact Ha.
  - reflexivity.
  - exact Hring2.
  - exact Ha.
  - rewrite Hd2.
    apply list_lookup_insert_eq. rewrite length_insert. apply Hlt. lia.
  - exact Hp2.
  - reflexivity.
Qed.

Lemma streaming_channel_holds_two_witness :
  exists (r1 r2 : Q) (s1 s2 : WsState) (chs2 : Channels.t) (ring : Sounds.t),
    ws_play_next 8 8 1 four_frames session = Ok (r1, s1) /\
    ws_play_next 9 9 1 two_frames s1 = Ok (r2, s2) /\
    ws_play_next 10 10 1 no_frames s2 = Ok ((-1)%Q, s2) /\
    channels s2 = Some chs2 /\
    Channels.data chs2 !! 3%nat = Some ring /\
    Sounds.data ring !! 0%nat = Some (Some (newTimedSound four_frames (-1)%Q)) /\
    Sounds.data ring !! 1%nat = Some (Some (newTimedSound two_frames (-1)%Q)) /\
    Sounds.producer_index ring = 0 /\
    Sounds.consumer_index ring = 0.
Proof.
  apply (streaming_channel_holds_two 8 8 9 9 10 10 1 four_frames two_frames
           no_frames session (channels_of session) (channel_at session 3)
           eq_refl).
  - wf_channels_by_compute.
  - lia.
  - reflexivity.
  - reflexivity.
  - reflexivity.
  - intros [|[|i]] x H; vm_compute in H; discriminate H.
Defined.

(** ** The single sound of a set, at any instant *)

Lemma Qfloor_unique (x : Q) (n : Z) :
  (inject_Z n <= x)%Q -> (x < inject_Z (n + 1))%Q -> Qfloor x = n.
Proof.
  intros Hle Hlt.
  pose proof (Qfloor_le x) as H1. pose proof (Qlt_floor x) as H2.
  assert (inject_Z n < inject_Z (Qfloor x + 1))%Q by lra.
  assert (inject_Z (Qfloor x) < inject_Z (n + 1))%Q by lra.
  rewrite <- Zlt_Qlt in *. lia.
Qed.

Lemma Qfloor_minus_Z (x : Q) (n : Z) :
  Qfloor (x - inject_Z n) = Qfloor x - n.
Proof.
  apply Qfloor_unique.
  - pose proof (Qfloor_le x). unfold Z.sub. rewrite inject_Z_plus, inject_Z_opp.
    lra.
  - pose proof (Qlt_floor x).
    replace (Qfloor x - n + 1) with (Qfloor x + 1 + - n) by lia.
    rewrite inject_Z_plus, inject_Z_opp. lra.
Qed.

Lemma Qfloor_lt_Z (x : Q) (n : Z) : (x < inject_Z n)%Q <-> Qfloor x < n.
Proof.
  pose proof (Qfloor_le x) as H1. pose proof (Qlt_floor x) as H2. split.
  - intros H. assert (inject_Z (Qfloor x) < inject_Z n)%Q by lra.
    now rewrite <- Zlt_Qlt in *.
  - intros H. assert (inject_Z (Qfloor x + 1) <= inject_Z n)%Q
      by (rewrite <- Zle_Qle; lia). lra.
Qed.

Section Starting.
Variable len : Z.
Variable buffer_start : Q.
Variable samplerate samplelen : Q.
Hypothesis Hlen : 0 < len <= INT_MAX.
Hypothesis Hrates : exact_rates samplerate samplelen.

Lemma padding_of_range (s : TimedSound.t) :
  starts_now len buffer_start samplelen s -> 0 <= padding_of buffer_start samplerate s < len.
Proof.
  unfold padding_of, start_frame.
  intros [Hon|(Hzero & Hcase)].
  - destruct (Z.eqb_spec (TimedSound.offset s) 0); lia.
  - rewrite Hzero. cbn [Z.eqb].
    destruct (Qltb 0 (TimedSound.start s)) eqn:E; [|lia].
    apply Qltb_true in E. destruct Hcase as [Hasap|Hdue]; [lra|].
    pose proof (due_padding_below_len len buffer_start samplerate samplelen
                  Hrates (TimedSound.start s) Hdue). lia.
Qed.

Lemma schedule_starting (sounds : Sounds.t) (s : TimedSound.t)
    (error : Z) (out : list Z) (flag : bool) :
  starts_now len buffer_start samplelen s ->
  exists (d : Q) (flag' : bool),
    schedule len buffer_start samplerate samplelen s
      (mkCb sounds error out 0 flag 0)
    = mkCb (Sounds.set_done_at sounds d) (error_after buffer_start samplerate s error) out 0 flag'
        (padding_of buffer_start samplerate s) /\
    (0 <? TimedSound.offset s) || flag' = true.
Proof.
  intros Hcase. unfold schedule, padding_of, error_after, start_frame,
    lateness_of. cb_simpl.
  destruct Hcase as [Hon|(Hzero & Hcase)].
  - destruct (Z.eqb_spec (TimedSound.offset s) 0); [lia|].
    exists (Sounds.done_at sounds), flag. split; [now destruct sounds|].
    destruct (Z.ltb_spec 0 (TimedSound.offset s)); [reflexivity|lia].
  - rewrite Hzero. cbn [Z.eqb Z.ltb Z.compare orb].
    destruct (Qltb 0 (TimedSound.start s)) eqn:E; cbn [andb].
    + apply Qltb_true in E. destruct Hcase as [Hasap|Hdue]; [lra|].
      rewrite (Qltb_lt _ _ Hdue).
      set (frame := Qfloor ((TimedSound.start s - buffer_start) * samplerate)).
      destruct (Z.ltb_spec frame 0).
      * rewrite Z.max_l by lia. rewrite Z.sub_0_r.
        eexists _, true. split; reflexivity.
      * rewrite Z.max_r by lia. eexists _, true. split; reflexivity.
    + eexists _, true. split; reflexivity.
Qed.

(** The turn of a channel whose only sound goes on or starts in this
    buffer, on an output buffer of zeros. *)
Lemma drain_channel_starting (sounds : Sounds.t) (s : TimedSound.t)
    (error : Z) (flag : bool) :
  wf_sounds sounds ->
  Sounds.data sounds !! Z.to_nat (Sounds.consumer_index sounds) = Some (Some s) ->
  (forall (i : nat) (x : TimedSound.t),
     Sounds.data sounds !! i = Some (Some x) ->
     i = Z.to_nat (Sounds.consumer_index sounds)) ->
  sound_ok len s ->
  int16_samples s ->
  TimedSound.offset s < TimedSound.len s ->
  starts_now len buffer_start samplelen s ->
  let o := TimedSound.offset s in
  let zp := padding_of buffer_start samplerate s in
  let done := TimedSound.len s <=? len - zp + o in
  exists st' : cb,
    drain_channel len buffer_start samplerate samplelen sounds error
      (replicate (Z.to_nat (2 * len)) 0) flag = Ok st' /\
    cb_error st' = error_after buffer_start samplerate s error /\
    cb_out st' = burst_at s o zp len /\
    Sounds.data (cb_sounds st')
      = <[Z.to_nat (Sounds.consumer_index sounds) :=
            if done then None
            else Some (TimedSound.set_offset s (len - zp + o))]>
          (Sounds.data sounds) /\
    Sounds.consumer_index (cb_sounds st')
      = (if done then (Sounds.consumer_index sounds + 1) mod Sounds.len sounds
         else Sounds.consumer_index sounds) /\
    Sounds.len (cb_sounds st') = Sounds.len sounds /\
    Sounds.paused (cb_sounds st') = Sounds.paused sounds /\
    Sounds.producer_index (cb_sounds st') = Sounds.producer_index sounds.
Proof.
  intros Hwf Hhead Honly [Hoff Hbuf Hrange] Hint Hlt Hcase o zp done.
  assert (Hlen' : 0 <= len <= INT_MAX) by lia.
  pose proof (padding_of_range s Hcase) as Hzp. fold zp in Hzp.
  pose proof Hwf as [Hcap Hci Hpi].
  unfold drain_channel. rewrite (array_get_ok _ _ _ (proj1 Hci) Hhead).
  cbn [bind].
  destruct (length (Sounds.data sounds)) as [|fuel] eqn:Hfuel; [lia|].
  cbn [drain]. cb_simpl. rewrite (array_get_ok _ _ _ (proj1 Hci) Hhead).
  cbn [bind]. rewrite to_ulong_int by lia.
  destruct (Z.ltb_spec 0 len); [|lia].
  unfold consume.
  destruct (schedule_starting sounds s error
              (replicate (Z.to_nat (2 * len)) 0) flag Hcase)
    as (d & flag' & -> & Hgo).
  fold zp. unfold play. cb_simpl. rewrite Hgo.
  destruct (Z.ltb_spec (TimedSound.offset s) (TimedSound.len s)); [|lia].
  cbn [andb].
  destruct (mix_content len Hlen' s (TimedSound.offset s) zp (proj1 Hoff) Hbuf
              (proj1 Hzp) (Z.to_nat len) zp
              (replicate (Z.to_nat (2 * len)) 0))
    as (out' & -> & Hlen_out & Hget);
    [lia|lia|rewrite length_replicate; lia|].
  cb_simpl. rewrite array_set_ok by lia. cb_simpl.
  fold o. rewrite to_ulong_int by lia.
  rewrite to_int_small by (unfold INT_MIN; lia).
  rewrite retire_spec by (cb_simpl; split; cb_simpl; rewrite ?length_insert; lia).
  cb_simpl. fold done.
  assert (Hstop : Z.min len (Z.max zp (zp + (TimedSound.len s - TimedSound.offset s)))
                  = Z.min len (zp + (TimedSound.len s - o))) by (subst o; lia).
  rewrite Hstop in *.
  assert (Hout : out' = burst_at s o zp len).
  { apply list_eq. intros j. unfold burst_at.
    rewrite list_lookup_fmap.
    destruct (decide (j < Z.to_nat (2 * len))%nat) as [Hj|Hj].
    2:{ rewrite lookup_ge_None_2 by (rewrite Hlen_out, length_replicate; lia).
        rewrite lookup_ge_None_2 by (rewrite length_seq; lia). reflexivity. }
    rewrite lookup_seq_lt by exact Hj. cbn [fmap option_fmap option_map Nat.add].
    rewrite lookup_out_at by (rewrite Hlen_out, length_replicate; lia).
    f_equal. unfold burst_at_sample.
    pose proof (Z.div_mod (Z.of_nat j) 2 ltac:(lia)) as Hdm.
    pose proof (Z.mod_pos_bound (Z.of_nat j) 2 ltac:(lia)) as Hmod.
    rewrite Hdm at 1.
    rewrite (Hget (Z.of_nat j / 2) (Z.of_nat j mod 2)) by lia.
    rewrite out_at_zeros.
    assert (Hq : Z.of_nat j / 2 < len) by lia.
    destruct (Z.leb_spec zp (Z.of_nat j / 2));
      destruct (Z.leb_spec 0 (Z.of_nat j / 2 - zp)); try lia;
      cbn [andb]; [|reflexivity].
    destruct (Z.ltb_spec (Z.of_nat j / 2)
                (Z.min len (zp + (TimedSound.len s - o))));
      destruct (Z.ltb_spec (Z.of_nat j / 2 - zp) (TimedSound.len s - o));
      try lia.
    rewrite Z.add_0_l, to_int16_small by apply Hint.
    reflexivity. }
  assert (Hin : (Z.to_nat (Sounds.consumer_index sounds)
                 < length (Sounds.data sounds))%nat) by lia.
  subst done.
  destruct (Z.leb_spec (TimedSound.len s) (len - zp + o)) as [Hdone|Hkept];
    cb_simpl.
  - rewrite list_insert_insert_eq.
    rewrite drain_head_empty.
    + eexists. split; [reflexivity|]. cb_simpl. repeat split. exact Hout.
    + cb_simpl. apply Z.mod_pos_bound. lia.
    + cb_simpl.
      set (next := Z.to_nat ((Sounds.consumer_index sounds + 1)
                             mod Sounds.len sounds)).
      assert (Hnext : (next < length (Sounds.data sounds))%nat).
      { subst next.
        pose proof (Z.mod_pos_bound (Sounds.consumer_index sounds + 1)
                      (Sounds.len sounds) ltac:(lia)). lia. }
      destruct (Nat.eq_dec (Z.to_nat (Sounds.consumer_index sounds)) next)
        as [E|E].
      * rewrite <- E. now apply list_lookup_insert_eq.
      * rewrite list_lookup_insert_ne by exact E.
        destruct (lookup_lt_is_Some_2 _ _ Hnext) as [[x|] Hx]; [|exact Hx].
        exfalso. apply E. symmetry. exact (Honly _ _ Hx).
  - rewrite (drain_buffer_full len buffer_start samplerate samplelen fuel _
               (TimedSound.set_offset s (len - zp + o))).
    + eexists. split; [reflexivity|]. cb_simpl. repeat split. exact Hout.
    + cb_simpl. lia.
    + cb_simpl. now apply list_lookup_insert_eq.
    + cb_simpl. lia.
    + lia.
Qed.
End Starting.

Lemma wf_channels_set_playback_error (chs : Channels.t) (e : Z) :
  wf_channels chs -> wf_channels (Channels.set_playback_error chs e).
Proof. intros [Hcount Heach]. split; assumption. Qed.

(** The loop over the channels when every channel but [c] has an empty
    consumer slot, the turn of channel [c] possibly recording a
    lateness. *)
Lemma mix_from_one_busy_gen (len : Z) (buffer_start : Q) (c : nat)
    (chs0 : Channels.t) (out0 : list Z)
    (Q : Z -> Sounds.t -> list Z -> Prop) :
  wf_channels chs0 ->
  (c < length (Channels.data chs0))%nat ->
  (forall c', 0 <= c' < Channels.len chs0 -> Z.to_nat c' <> c -> idle chs0 c') ->
  (forall m1 : mixer,
     mx_out m1 = out0 ->
     mx_should_start m1 = false ->
     same_slots chs0 (mx_channels m1) ->
     exists (e : Z) (x : Sounds.t) (out2 : list Z) (flag2 : bool),
       mix_channel len buffer_start (Z.of_nat c) m1
         = Ok (mkMixer
                 (with_channel (Channels.set_playback_error (mx_channels m1) e)
                    (Z.of_nat c) x) out2 flag2) /\
       wf_sounds x /\ Q e x out2) ->
  exists (chs1 chs3 : Channels.t) (e : Z) (x : Sounds.t) (out2 : list Z),
    (m <- mix_from (length (Channels.data chs0)) len buffer_start 0
            (mkMixer chs0 out0 false) ;;
     Ok (mx_channels m, mx_out m)) = Ok (chs3, out2) /\
    same_slots chs0 chs1 /\
    same_slots (with_channel (Channels.set_playback_error chs1 e) (Z.of_nat c) x)
      chs3 /\
    Q e x out2.
Proof.
  intros Hwf Hc Hidle Hstep. pose proof Hwf as [Hcount _].
  replace (length (Channels.data chs0))
    with (c + S (length (Channels.data chs0) - c - 1))%nat by lia.
  rewrite mix_from_app.
  destruct (mix_from_idle len buffer_start c 0 (mkMixer chs0 out0 false))
    as (m1 & -> & Ho1 & Hf1 & R1); [exact Hwf|lia| |].
  { intros c' Hc'. apply Hidle; cbn; lia. }
  cbn [bind mix_from]. cbn in Ho1, Hf1, R1. rewrite Z.add_0_l.
  destruct (Hstep m1 Ho1 Hf1 R1) as (e & x & out2 & flag2 & -> & Hwx & HQ).
  cbn [bind].
  destruct (mix_from_idle len buffer_start
              (length (Channels.data chs0) - c - 1) (Z.of_nat c + 1)
              (mkMixer
                 (with_channel (Channels.set_playback_error (mx_channels m1) e)
                    (Z.of_nat c) x) out2 flag2))
    as (m3 & -> & Ho3 & Hf3 & R3).
  - cbn. apply wf_channels_with_channel; [|exact Hwx].
    apply wf_channels_set_playback_error.
    exact (same_slots_wf _ _ R1 Hwf).
  - lia.
  - intros c' Hc'. cbn. apply idle_with_channel; [lia|].
    apply (same_slots_idle _ _ c' R1). apply Hidle; lia.
  - cbn [bind]. cbn in Ho3, R3.
    exists (mx_channels m1), (mx_channels m3), e, x, out2.
    split; [now rewrite Ho3|]. split; [exact R1|]. split; [exact R3|exact HQ].
Qed.

Lemma ws_callback_one_busy_gen (out : list Z) (len : Z)
    (outputBufferDacTime currentTime : Q) (c : nat) (chs : Channels.t)
    (Q : Z -> Sounds.t -> list Z -> Prop) :
  0 <= len ->
  Z.of_nat (length out) = 2 * len ->
  wf_channels chs ->
  (c < length (Channels.data chs))%nat ->
  (forall c', 0 <= c' < Channels.len chs -> Z.to_nat c' <> c -> idle chs c') ->
  (forall m1 : mixer,
     mx_out m1 = replicate (Z.to_nat (2 * len)) 0 ->
     mx_should_start m1 = false ->
     same_slots chs (mx_channels m1) ->
     exists (e : Z) (x : Sounds.t) (out2 : list Z) (flag2 : bool),
       mix_channel len outputBufferDacTime (Z.of_nat c) m1
         = Ok (mkMixer
                 (with_channel (Channels.set_playback_error (mx_channels m1) e)
                    (Z.of_nat c) x) out2 flag2) /\
       wf_sounds x /\ Q e x out2) ->
  exists (chs1 chs3 : Channels.t) (e : Z) (x : Sounds.t) (out2 : list Z),
    ws_callback out len outputBufferDacTime currentTime chs = Ok (chs3, out2) /\
    same_slots chs chs1 /\
    same_slots (with_channel (Channels.set_playback_error chs1 e) (Z.of_nat c) x)
      chs3 /\
    Q e x out2.
Proof.
  intros Hlen Hout Hwf Hc Hidle Hstep. unfold ws_callback.
  rewrite (zero_fill_all len out Hlen Hout). cbn [bind].
  set (chs0 := Channels.set_last chs len (outputBufferDacTime - currentTime)%Q).
  pose proof (same_slots_set_last chs len (outputBufferDacTime - currentTime)%Q)
    as R0. fold chs0 in R0.
  replace (Z.to_nat (Channels.len chs0)) with (length (Channels.data chs0))
    by (destruct Hwf as [Hcount _]; cbn; lia).
  destruct (mix_from_one_busy_gen len outputBufferDacTime c chs0
              (replicate (Z.to_nat (2 * len)) 0) Q)
    as (chs1 & chs3 & e & x & out2 & Hrun & R1 & R3 & HQ).
  - exact (same_slots_wf _ _ R0 Hwf).
  - exact Hc.
  - intros c' Hc' Hne. apply (same_slots_idle _ _ c' R0). now apply Hidle.
  - intros m1 Ho Hf R. apply Hstep; [exact Ho|exact Hf|].
    exact (same_slots_trans _ _ _ R0 R).
  - exists chs1, chs3, e, x, out2. split; [exact Hrun|].
    split; [exact (same_slots_trans _ _ _ R0 R1)|]. split; [exact R3|exact HQ].
Qed.

(** A callback in which the only sound of the set goes on or starts: the
    output is zero up to the frame at which it does, then the next frames
    of the sound, then zero; afterwards the set has no sound left, or the
    same sound further on; a late start is recorded. *)
Lemma ws_callback_starting (out : list Z) (len : Z)
    (outputBufferDacTime currentTime : Q) (chs : Channels.t) (c : nat)
    (s : TimedSound.t) :
  0 < len <= INT_MAX ->
  Z.of_nat (length out) = 2 * len ->
  wf_channels chs ->
  exact_rates (Channels.samplerate chs) (Channels.samplelen chs) ->
  solo chs c s ->
  sound_ok len s ->
  int16_samples s ->
  TimedSound.offset s < TimedSound.len s ->
  starts_now len outputBufferDacTime (Channels.samplelen chs) s ->
  let o := TimedSound.offset s in
  let zp := padding_of outputBufferDacTime (Channels.samplerate chs) s in
  exists chs' : Channels.t,
    ws_callback out len outputBufferDacTime currentTime chs
      = Ok (chs', burst_at s o zp len) /\
    wf_channels chs' /\
    Channels.samplerate chs' = Channels.samplerate chs /\
    Channels.samplelen chs' = Channels.samplelen chs /\
    Channels.playback_error chs'
      = error_after outputBufferDacTime (Channels.samplerate chs) s
          (Channels.playback_error chs) /\
    (if TimedSound.len s <=? len - zp + o then silent chs'
     else solo chs' c (TimedSound.set_offset s (len - zp + o))).
Proof.
  intros Hlen Hout Hwf Hrates Hsolo Hok Hint Hlt Hcase o zp.
  pose proof Hsolo as (sounds0 & Hs0 & Hp0 & Hhead0 & Honly).
  pose proof (wf_channel_lookup _ _ _ Hwf Hs0) as Hw0.
  pose proof Hw0 as [Hcap0 Hci0 Hpi0].
  set (done := TimedSound.len s <=? len - zp + o).
  set (ci0 := Z.to_nat (Sounds.consumer_index sounds0)) in *.
  set (e' := error_after outputBufferDacTime (Channels.samplerate chs) s
               (Channels.playback_error chs)).
  destruct (ws_callback_one_busy_gen out len outputBufferDacTime currentTime
              c chs
              (fun e x out2 =>
                 e = e' /\
                 out2 = burst_at s o zp len /\
                 Sounds.data x
                   = <[ci0 := if done then None
                              else Some (TimedSound.set_offset s (len - zp + o))]>
                       (Sounds.data sounds0) /\
                 Sounds.consumer_index x
                   = (if done then
                        (Sounds.consumer_index sounds0 + 1) mod Sounds.len sounds0
                      else Sounds.consumer_index sounds0) /\
                 Sounds.paused x = 0 /\
                 wf_sounds x))
    as (chs1 & chs3 & e & x & out2 & Hrun & R1 & R3
        & -> & -> & Hdx & Hcx & Hpx & Hwx).
  - lia.
  - exact Hout.
  - exact Hwf.
  - eapply lookup_lt_Some. exact Hs0.
  - intros c' Hc' Hne. exact (solo_idle chs c s c' Hwf Hsolo Hc' Hne).
  - intros m1 Ho Hf R. pose proof R as (_ & Hab & _ & Herr & Hsr & Hsl).
    destruct (Hab c sounds0 Hs0) as (sounds1 & Hs1 & R01).
    pose proof R01 as (Hd & Hl & Hp & Hc & Hpi).
    pose proof (same_ring_wf _ _ R01 Hw0) as Hw1.
    destruct (drain_channel_starting len outputBufferDacTime
                (Channels.samplerate (mx_channels m1))
                (Channels.samplelen (mx_channels m1)) Hlen
                ltac:(rewrite <- Hsr, <- Hsl; exact Hrates)
                sounds1 s (Channels.playback_error (mx_channels m1))
                (mx_should_start m1) Hw1)
      as (st' & Hdrain & He & Hout' & Hd' & Hc' & Hl' & Hp' & Hpi');
      try assumption.
    { rewrite <- Hd, <- Hc. exact Hhead0. }
    { intros i y Hy. rewrite <- Hd in Hy. rewrite <- Hc.
      refine (proj2 (Honly c i y _)). apply slot_of_Some. eauto. }
    { rewrite <- Hsl. exact Hcase. }
    unfold mix_channel.
    rewrite (array_get_ok _ _ sounds1) by (rewrite ?Nat2Z.id; lia || exact Hs1).
    cbn [bind]. rewrite <- Hp, Hp0. cbn [Z.eqb negb].
    rewrite Ho, Hdrain. cbn [bind]. rewrite He.
    rewrite (put_channel_ok _ _ sounds1)
      by (rewrite ?Nat2Z.id; lia || exact Hs1).
    cbn [bind]. rewrite <- Hsr, <- Herr. fold e'.
    eexists _, _, _, _. split; [reflexivity|].
    rewrite <- Hsr in Hout', Hd', Hc'.
    fold o zp in Hout', Hd', Hc'. fold done in Hd', Hc'.
    rewrite <- Hd, <- Hc, <- Hl in *. fold ci0 in Hd'.
    assert (Hwst : wf_sounds (cb_sounds st')).
    { split; rewrite ?Hl', ?Hd', ?Hc', ?Hpi', ?length_insert; try lia.
      destruct done; [apply Z.mod_pos_bound|]; lia. }
    split; [exact Hwst|]. split; [reflexivity|].
    split; [exact Hout'|split; [exact Hd'|split; [exact Hc'|]]].
    split; [rewrite Hp'; congruence|exact Hwst].
  - assert (Hin : (ci0 < length (Sounds.data sounds0))%nat) by (subst ci0; lia).
    assert (Hc : (c < length (Channels.data chs1))%nat).
    { destruct R1 as (Hl1 & _). apply lookup_lt_Some in Hs0. lia. }
    set (chs2 := with_channel (Channels.set_playback_error chs1 e')
                   (Z.of_nat c) x) in *.
    assert (Hx : Channels.data chs2 !! c = Some x).
    { unfold chs2, with_channel. cbn. rewrite Nat2Z.id.
      now apply list_lookup_insert_eq. }
    assert (Hother : forall (c' i : nat) (y : TimedSound.t),
              slot_of chs2 c' i = Some (Some y) ->
              c' = c /\ Sounds.data x !! i = Some (Some y)).
    { intros c' i y Hy. apply slot_of_Some in Hy as (z & Hz & Hi).
      unfold chs2, with_channel in Hz. cbn in Hz. rewrite Nat2Z.id in Hz.
      apply list_lookup_insert_Some in Hz as [(<- & <- & _)|(Hne & Hz)];
        [now split|].
      exfalso. apply Hne. symmetry.
      refine (proj1 (Honly c' i y _)).
      rewrite <- (same_slots_slot_of chs chs1 c' i R1).
      apply slot_of_Some. eauto. }
    exists chs3. split; [exact Hrun|].
    pose proof R1 as (_ & _ & _ & _ & Hsr1 & Hsl1).
    pose proof R3 as (_ & _ & _ & He3 & Hsr3 & Hsl3). cbn in He3, Hsr3, Hsl3.
    split.
    { apply (same_slots_wf _ _ R3). apply wf_channels_with_channel; [|exact Hwx].
      apply wf_channels_set_playback_error.
      exact (same_slots_wf _ _ R1 Hwf). }
    split; [congruence|]. split; [congruence|]. split; [congruence|].
    fold done. destruct done.
    + apply (same_slots_silent _ _ R3).
      intros c' i [y|] Hy; [|reflexivity]. exfalso.
      destruct (Hother c' i y Hy) as [-> Hi]. rewrite Hdx in Hi.
      apply list_lookup_insert_Some in Hi as [(_ & [=] & _)|(Hne & Hi)].
      apply Hne. symmetry. refine (proj2 (Honly c i y _)).
      apply slot_of_Some. eauto.
    + apply (same_slots_solo _ _ c _ R3).
      exists x. split; [exact Hx|]. split; [exact Hpx|].
      rewrite Hcx. fold ci0. rewrite Hdx.
      split; [now apply list_lookup_insert_eq|].
      intros c' i y Hy. destruct (Hother c' i y Hy) as [-> Hi].
      split; [reflexivity|]. rewrite Hdx in Hi.
      apply list_lookup_insert_Some in Hi as [(<- & _)|(Hne & Hi)];
        [reflexivity|].
      refine (proj2 (Honly c i y _)). apply slot_of_Some. eauto.
Qed.

Lemma burst_at_is_stream (s : TimedSound.t) (len o zp first frames : Z) :
  0 < len -> 0 <= frames -> 0 <= o -> 0 <= zp ->
  zp = 0 \/ o = 0 ->
  o - zp = frames - first ->
  burst_at s o zp len
  = stream_sample s first
      <$> seq (Z.to_nat (2 * frames)) (Z.to_nat (2 * len)).
Proof.
  intros Hlen Hframes Ho Hzp Hone Heq. unfold burst_at.
  rewrite <- (Nat.add_0_r (Z.to_nat (2 * frames))) at 1.
  rewrite <- fmap_add_seq, <- list_fmap_compose.
  apply list_fmap_ext. intros i j Hj. apply lookup_seq in Hj as [-> Hi].
  cbn [Nat.add compose]. unfold burst_at_sample, stream_sample.
  replace (Z.of_nat (Z.to_nat (2 * frames) + i))
    with (Z.of_nat i + frames * 2) by lia.
  rewrite Z.div_add, Z_mod_plus_full by lia.
  pose proof (Z.div_pos (Z.of_nat i) 2 ltac:(lia) ltac:(lia)).
  destruct (Z.leb_spec 0 (Z.of_nat i / 2 - zp));
    destruct (Z.leb_spec 0 (Z.of_nat i / 2 + frames - first));
    try lia; cbn [andb]; [|reflexivity].
  destruct (Z.ltb_spec (Z.of_nat i / 2 - zp) (TimedSound.len s - o));
    destruct (Z.ltb_spec (Z.of_nat i / 2 + frames - first) (TimedSound.len s));
    try lia.
  f_equal. lia.
Qed.

Lemma zeros_are_stream (s : TimedSound.t) (len first frames : Z) :
  0 < len -> 0 <= frames ->
  frames + len <= first \/ first + TimedSound.len s <= frames ->
  replicate (Z.to_nat (2 * len)) 0
  = stream_sample s first
      <$> seq (Z.to_nat (2 * frames)) (Z.to_nat (2 * len)).
Proof.
  intros Hlen Hframes Hout. apply list_eq. intros i.
  rewrite list_lookup_fmap.
  destruct (decide (i < Z.to_nat (2 * len))%nat) as [Hi|Hi].
  2:{ rewrite lookup_ge_None_2 by (rewrite length_replicate; lia).
      rewrite lookup_ge_None_2 by (rewrite length_seq; lia). reflexivity. }
  rewrite lookup_replicate_2, lookup_seq_lt by exact Hi.
  cbn [fmap option_fmap option_map]. f_equal. unfold stream_sample.
  replace (Z.of_nat (Z.to_nat (2 * frames) + i))
    with (Z.of_nat i + frames * 2) by lia.
  rewrite Z.div_add by lia.
  pose proof (Z.div_pos (Z.of_nat i) 2 ltac:(lia) ltac:(lia)).
  assert (Z.of_nat i / 2 < len)
    by (apply Z.div_lt_upper_bound; lia).
  destruct (Z.leb_spec 0 (Z.of_nat i / 2 + frames - first));
    [|reflexivity].
  destruct (Z.ltb_spec (Z.of_nat i / 2 + frames - first) (TimedSound.len s));
    [|reflexivity].
  exfalso. lia.
Qed.

Section SoloFrames.
Variable out : list Z.
Variable len : Z.
Variable t0 latency : Q.
Variable samplerate samplelen : Q.
Variable c : nat.
Variable s : TimedSound.t.
Hypothesis Hlen : 0 < len <= INT_MAX.
Hypothesis Hout : Z.of_nat (length out) = 2 * len.
Hypothesis Hrates : exact_rates samplerate samplelen.
Hypothesis Hok : sound_ok len s.
Hypothesis Hint : int16_samples s.
Hypothesis Hoff : TimedSound.offset s = 0.
Hypothesis Hframes : 0 < TimedSound.len s.

(** The frame of the start instant, seen from buffer [k]. *)
Lemma floor_at_buffer (k : Z) :
  Qfloor ((TimedSound.start s - buffer_instant t0 samplelen len k) * samplerate)
  = Qfloor ((TimedSound.start s - t0) * samplerate) - k * len.
Proof.
  rewrite <- Qfloor_minus_Z. apply Qfloor_comp.
  unfold buffer_instant. destruct Hrates as [_ Hone].
  rewrite inject_Z_mult.
  transitivity ((TimedSound.start s - t0) * samplerate
                - inject_Z k * inject_Z len * (samplelen * samplerate))%Q;
    [ring|]. rewrite Hone. ring.
Qed.

Lemma due_at_buffer (k : Z) :
  (TimedSound.start s
   < buffer_instant t0 samplelen len k + samplelen * inject_Z len)%Q
  <-> Qfloor ((TimedSound.start s - t0) * samplerate) - k * len < len.
Proof.
  rewrite <- floor_at_buffer, <- Qfloor_lt_Z.
  destruct Hrates as [Hpos Hone].
  set (bs := buffer_instant t0 samplelen len k).
  assert (E : (inject_Z len == samplelen * inject_Z len * samplerate)%Q).
  { rewrite <- Qmult_assoc, (Qmult_comm (inject_Z len)), Qmult_assoc, Hone.
    ring. }
  split; intros H.
  - assert (H1 : ((TimedSound.start s - bs) * samplerate
                  < samplelen * inject_Z len * samplerate)%Q)
      by (apply Qmult_lt_compat_r; [exact Hpos|lra]).
    rewrite <- E in H1. exact H1.
  - rewrite E in H. apply Qmult_lt_r in H; [lra|exact Hpos].
Qed.

(** One invocation, for buffer [k], wherever the sound is. *)
Lemma callback_heard (k : Z) (chs : Channels.t) :
  0 <= k ->
  wf_channels chs ->
  Channels.samplerate chs = samplerate ->
  Channels.samplelen chs = samplelen ->
  let first := start_frame t0 samplerate s in
  heard first (k * len) c s chs ->
  exists chs' : Channels.t,
    ws_callback out len (buffer_instant t0 samplelen len k)
      (buffer_instant t0 samplelen len k - latency)%Q chs
    = Ok (chs',
          stream_sample s first
            <$> seq (Z.to_nat (2 * (k * len))) (Z.to_nat (2 * len))) /\
    wf_channels chs' /\
    Channels.samplerate chs' = samplerate /\
    Channels.samplelen chs' = samplelen /\
    Channels.playback_error chs'
      = (if k =? 0 then lateness_of t0 samplerate s (Channels.playback_error chs)
         else Channels.playback_error chs) /\
    heard first ((k + 1) * len) c s chs'.
Proof.
  intros Hk Hwf Hsr Hsl first Hheard.
  assert (Hlen' : 0 <= len <= INT_MAX) by lia.
  assert (HK : 0 <= k * len) by nia.
  assert (Hr : exact_rates (Channels.samplerate chs) (Channels.samplelen chs))
    by (rewrite Hsr, Hsl; exact Hrates).
  set (bs := buffer_instant t0 samplelen len k).
  set (f0 := Qfloor ((TimedSound.start s - t0) * samplerate)).
  assert (Hfirst : first
                   = if Qltb 0 (TimedSound.start s) then Z.max 0 f0 else 0)
    by reflexivity.
  assert (Hfirst0 : 0 <= first)
    by (rewrite Hfirst; destruct (Qltb 0 (TimedSound.start s)); lia).
  pose proof (floor_at_buffer k) as Hfloor. fold bs f0 in Hfloor.
  pose proof (due_at_buffer k) as Hdue. fold bs f0 in Hdue.
  assert (Hlate : forall e : Z,
            k <> 0 -> k * len <= first -> lateness_of bs samplerate s e = e).
  { intros e Hk0 Hle. unfold lateness_of. rewrite Hfloor.
    destruct (Qltb 0 (TimedSound.start s)); [|reflexivity].
    destruct (Z.ltb_spec (f0 - k * len) 0); [|reflexivity].
    exfalso. nia. }
  assert (Hlate0 : forall e : Z,
            k = 0 -> lateness_of bs samplerate s e = lateness_of t0 samplerate s e).
  { intros e ->. unfold lateness_of. rewrite Hfloor. fold f0.
    now rewrite Z.sub_0_r. }
  destruct Hheard as [[Hkb Hsolo]|[(Hkb & Hin & Hsolo)|(Hkb & Hpast & Hsilent)]].
  - destruct (Z_lt_dec (first - k * len) len) as [Hnow|Hlater].
    + (* the sound starts in this buffer *)
      assert (Hcase : starts_now len bs (Channels.samplelen chs) s).
      { right. split; [exact Hoff|]. rewrite Hsl.
        destruct (Qltb 0 (TimedSound.start s)) eqn:E.
        - right. apply Hdue. lia.
        - left. apply Qltb_false in E. exact E. }
      assert (Hzp : padding_of bs (Channels.samplerate chs) s = first - k * len).
      { unfold padding_of, start_frame. rewrite Hoff, Hsr, Hfloor.
        cbn [Z.eqb]. destruct (Qltb 0 (TimedSound.start s)); nia. }
      assert (Hlt0 : TimedSound.offset s < TimedSound.len s) by lia.
      destruct (ws_callback_starting out len bs (bs - latency)%Q chs c s
                  Hlen Hout Hwf Hr Hsolo Hok Hint Hlt0 Hcase)
        as (chs' & -> & Hwf' & Hsr' & Hsl' & He' & Hclass).
      exists chs'. rewrite Hzp in *. rewrite Hoff in *.
      rewrite (burst_at_is_stream s len 0 (first - k * len) first (k * len))
        by lia.
      split; [reflexivity|]. split; [exact Hwf'|].
      split; [congruence|]. split; [congruence|]. split.
      { rewrite He'. unfold error_after. rewrite Hoff, Hsr. cbn [Z.eqb].
        destruct (Z.eqb_spec k 0) as [Hk0|Hk0];
          [apply Hlate0; exact Hk0|apply Hlate; [exact Hk0|lia]]. }
      right.
      replace (len - (first - k * len) + 0) with ((k + 1) * len - first)
        in Hclass by lia.
      destruct (Z.leb_spec (TimedSound.len s) ((k + 1) * len - first)).
      * right. split; [lia|]. split; [lia|exact Hclass].
      * left. split; [lia|]. split; [lia|exact Hclass].
    + (* the sound is not due yet *)
      assert (Hpos : (0 < TimedSound.start s)%Q).
      { destruct (Qltb 0 (TimedSound.start s)) eqn:E;
          [exact (Qltb_true _ _ E)|]. exfalso. lia. }
      rewrite (Qltb_lt _ _ Hpos) in Hfirst.
      destruct (ws_callback_waiting out len bs (bs - latency)%Q chs c s)
        as (chs' & -> & R); try assumption.
      { rewrite Hsl. apply Qnot_lt_le. intros Hd. apply Hdue in Hd. lia. }
      exists chs'. rewrite <- zeros_are_stream by lia.
      split; [reflexivity|]. split; [exact (same_slots_wf _ _ R Hwf)|].
      pose proof R as (_ & _ & _ & He & Hr1 & Hr2).
      split; [congruence|]. split; [congruence|]. split.
      { rewrite <- He. destruct (Z.eqb_spec k 0) as [->|]; [|reflexivity].
        unfold lateness_of. fold f0. rewrite (Qltb_lt _ _ Hpos). cbn [andb].
        destruct (Z.ltb_spec f0 0); [lia|reflexivity]. }
      left. split; [lia|exact (same_slots_solo _ _ _ _ R Hsolo)].
  - (* the sound is under way *)
    destruct Hok as [Ho Hbuf Hrange].
    set (o := k * len - first) in *.
    assert (Hok' : sound_ok len (TimedSound.set_offset s o))
      by (split; cbn; lia).
    assert (Hint' : int16_samples (TimedSound.set_offset s o)) by exact Hint.
    assert (Hlt' : TimedSound.offset (TimedSound.set_offset s o)
                   < TimedSound.len (TimedSound.set_offset s o))
      by (cbn; lia).
    assert (Hcase : starts_now len bs (Channels.samplelen chs)
                      (TimedSound.set_offset s o)) by (left; cbn; lia).
    destruct (ws_callback_starting out len bs (bs - latency)%Q chs c
                (TimedSound.set_offset s o)
                Hlen Hout Hwf Hr Hsolo Hok' Hint' Hlt' Hcase)
      as (chs' & -> & Hwf' & Hsr' & Hsl' & He' & Hclass).
    assert (Hzp : padding_of bs (Channels.samplerate chs)
                    (TimedSound.set_offset s o) = 0).
    { unfold padding_of. cbn [TimedSound.offset TimedSound.set_offset].
      destruct (Z.eqb_spec o 0); [lia|reflexivity]. }
    assert (Herr : error_after bs (Channels.samplerate chs)
                     (TimedSound.set_offset s o) (Channels.playback_error chs)
                   = Channels.playback_error chs).
    { unfold error_after. cbn [TimedSound.offset TimedSound.set_offset].
      destruct (Z.eqb_spec o 0); [lia|reflexivity]. }
    rewrite Hzp, Herr in *.
    exists chs'. cbn [TimedSound.offset TimedSound.set_offset] in *.
    change (burst_at (TimedSound.set_offset s o) o 0 len)
      with (burst_at s o 0 len).
    rewrite (burst_at_is_stream s len o 0 first (k * len)) by lia.
    split; [reflexivity|]. split; [exact Hwf'|].
    split; [congruence|]. split; [congruence|]. split.
    { rewrite He'. destruct (Z.eqb_spec k 0) as [->|]; [lia|reflexivity]. }
    change (TimedSound.len (TimedSound.set_offset s o))
      with (TimedSound.len s) in Hclass.
    rewrite set_offset_twice in Hclass. right.
    replace (len - 0 + o) with ((k + 1) * len - first) in Hclass by lia.
    destruct (Z.leb_spec (TimedSound.len s) ((k + 1) * len - first)).
    + right. split; [lia|]. split; [lia|exact Hclass].
    + left. split; [lia|]. split; [lia|exact Hclass].
  - (* the sound has ended *)
    destruct (ws_callback_silent out len bs (bs - latency)%Q chs)
      as (chs' & -> & R); try assumption; [lia|].
    exists chs'. rewrite <- zeros_are_stream by lia.
    split; [reflexivity|]. split; [exact (same_slots_wf _ _ R Hwf)|].
    pose proof R as (_ & _ & _ & He & Hr1 & Hr2).
    split; [congruence|]. split; [congruence|]. split.
    { rewrite <- He. destruct (Z.eqb_spec k 0) as [->|]; [lia|reflexivity]. }
    right. right. split; [lia|]. split; [lia|].
    exact (same_slots_silent _ _ R Hsilent).
Qed.

(** [n] invocations from buffer [k]. *)
Lemma play_buffers_heard (n : nat) :
  forall (k : Z) (chs : Channels.t),
    0 <= k ->
    wf_channels chs ->
    Channels.samplerate chs = samplerate ->
    Channels.samplelen chs = samplelen ->
    let first := start_frame t0 samplerate s in
    heard first (k * len) c s chs ->
    exists chs' : Channels.t,
      play_buffers n out len t0 latency k chs
      = Ok (chs',
            stream_sample s first
              <$> seq (Z.to_nat (2 * (k * len))) (n * Z.to_nat (2 * len))) /\
      Channels.playback_error chs'
        = (if (k =? 0) && negb (Nat.eqb n 0) then
             lateness_of t0 samplerate s (Channels.playback_error chs)
           else Channels.playback_error chs) /\
      heard first ((k + Z.of_nat n) * len) c s chs'.
Proof.
  induction n as [|n IH]; intros k chs Hk Hwf Hsr Hsl first Hheard.
  - exists chs. split; [reflexivity|]. rewrite andb_false_r.
    split; [reflexivity|]. now rewrite Z.add_0_r.
  - cbn [play_buffers]. rewrite Hsl.
    destruct (callback_heard k chs Hk Hwf Hsr Hsl Hheard)
      as (chs1 & -> & Hwf1 & Hsr1 & Hsl1 & He1 & Hheard1).
    cbn [bind fst snd].
    destruct (IH (k + 1) chs1) as (chs' & -> & He' & Hheard');
      try assumption; [lia|].
    cbn [bind fst snd]. exists chs'. split; [|split].
    + f_equal. f_equal. cbn [Nat.mul]. rewrite seq_app, fmap_app.
      do 3 f_equal. nia.
    + rewrite He'. destruct (Z.eqb_spec (k + 1) 0); [lia|].
      cbn [andb Nat.eqb negb]. rewrite andb_true_r. exact He1.
    + replace (k + Z.of_nat (S n)) with (k + 1 + Z.of_nat n) by lia.
      exact Hheard'.
Qed.
End SoloFrames.

(** A concrete number is a [double]: its mantissa at the exponent -20. *)
Ltac binary64_by_compute :=
  lazymatch goal with
  | |- binary64 ?x =>
    let m := eval vm_compute in (Qfloor (x * 1048576)%Q) in
    exists m, (-20);
    split; [vm_compute; reflexivity|split; [lia|vm_compute; reflexivity]]
  end.

(** The exactness conditions of concrete instants, by evaluation. *)
Ltac exact_by_compute :=
  unfold exact_timing, exact_start, exact_warning;
  repeat match goal with
         | |- _ /\ _ => split
         | |- binary64 _ => binary64_by_compute
         | |- (_ < _)%Q -> _ => intros _
         | |- _ <= _ => vm_compute; discriminate
         | |- _ < _ => vm_compute; reflexivity
         end.

(** X14.  A sound that is alone in the channel set is heard once, at the
    frame of its start instant, when the sample rate and the instants are
    such that the arithmetic of the callback on [double]s is exact.  Over
    any number [n] of invocations of the callback on consecutive buffers of
    [len] frames from instant [t0], the outputs put end to end are the
    stream in which the frames of the sound occupy the frames from [first]
    on and every other sample is zero, where [first] is the whole number of
    frames between [t0] and the start instant, or 0 for a sound to be
    played as soon as possible or whose instant has passed; once the
    buffers cover the sound no slot holds a sound, and a lateness is
    recorded only for an instant that has passed. *)
Theorem solo_sound_is_heard_at_its_frame
    (out : list Z) (len : Z) (t0 latency : Q) (c : nat)
    (s : TimedSound.t) (chs : Channels.t) (n : nat) :
  0 < len <= INT_MAX ->
  Z.of_nat (length out) = 2 * len ->
  wf_channels chs ->
  exact_rates (Channels.samplerate chs) (Channels.samplelen chs) ->
  solo chs c s ->
  sound_ok len s ->
  int16_samples s ->
  TimedSound.offset s = 0 ->
  0 < TimedSound.len s ->
  (forall k : Z,
     0 <= k < Z.of_nat n ->
     exact_timing len 0 (buffer_instant t0 (Channels.samplelen chs) len k)
       (Channels.samplerate chs) (Channels.samplelen chs)
       (TimedSound.start s)) ->
  let first := start_frame t0 (Channels.samplerate chs) s in
  exists chs' : Channels.t,
    play_buffers n out len t0 latency 0 chs
    = Ok (chs', stream_sample s first <$> seq 0 (n * Z.to_nat (2 * len))) /\
    (first + TimedSound.len s <= Z.of_nat n * len -> silent chs') /\
    Channels.playback_error chs'
      = (if Nat.eqb n 0 then Channels.playback_error chs
         else lateness_of t0 (Channels.samplerate chs) s
                (Channels.playback_error chs)).
Proof.
  intros Hlen Hout Hwf Hrates Hsolo Hok Hint Hoff Hframes _ first.
  assert (Hfirst : 0 <= first).
  { subst first. unfold start_frame.
    destruct (Qltb 0 (TimedSound.start s)); lia. }
  destruct (play_buffers_heard out len t0 latency
              (Channels.samplerate chs) (Channels.samplelen chs) c s
              Hlen Hout Hrates Hok Hint Hoff Hframes n 0 chs
              (Z.le_refl 0) Hwf eq_refl eq_refl)
    as (chs' & Hrun & He & Hheard).
  { left. split; [lia|exact Hsolo]. }
  exists chs'. split; [|split].
  - rewrite Hrun. reflexivity.
  - intros Hcovered. fold first in Hheard.
    destruct Hheard as [[Hk _]|[(_ & Hk & _)|(_ & _ & Hsilent)]];
      [lia|lia|exact Hsilent].
  - rewrite He. cbn [Z.eqb andb]. destruct (Nat.eqb n 0); reflexivity.
Qed.

Lemma solo_sound_is_heard_at_its_frame_witness :
  exists chs' : Channels.t,
    play_buffers 2 stale_buffer 4 8 0 0 (channels_of offbeat_queued)
    = Ok (chs',
          stream_sample (newTimedSound two_frames ((8 - 8) + (35 # 4))) 3
            <$> seq 0 16) /\
    silent chs' /\
    Channels.playback_error chs' = 0.
Proof.
  destruct (solo_sound_is_heard_at_its_frame stale_buffer 4 8 0 1
              (newTimedSound two_frames ((8 - 8) + (35 # 4)))
              (channels_of offbeat_queued) 2)
    as (chs' & Hrun & Hsilent & He).
  - unfold INT_MAX. lia.
  - reflexivity.
  - wf_channels_by_compute.
  - exact exact_rates_4.
  - solo_by_compute.
  - split; cbn; unfold INT_MAX; lia.
  - apply int16_samples_Forall. cbn. repeat constructor; lia.
  - reflexivity.
  - cbn. lia.
  - intros k Hk. assert (Hcases : k = 0 \/ k = 1) by lia.
    destruct Hcases as [->| ->]; exact_by_compute.
  - exists chs'. split; [exact Hrun|]. split; [|exact He].
    apply Hsilent. vm_compute. discriminate.
Defined.

(** X15.  A sound found untouched at the head of its channel after its
    start instant has passed is not dropped: when the sample rate and the
    instants are such that the arithmetic on [double]s is exact and the
    lateness is above [INT_MIN], the callback plays the sound from the
    first frame of the buffer and records the lateness, the negative whole
    number of frames between the instant and the buffer, which
    [ws_warn_str] then reports in milliseconds. *)
Theorem late_sound_is_played_and_reported
    (format : Q -> string) (state : WsState)
    (out : list Z) (len : Z) (outputBufferDacTime currentTime : Q)
    (chs : Channels.t) (c : nat) (s : TimedSound.t) :
  0 < len <= INT_MAX ->
  Z.of_nat (length out) = 2 * len ->
  wf_channels chs ->
  exact_rates (Channels.samplerate chs) (Channels.samplelen chs) ->
  solo chs c s ->
  sound_ok len s ->
  int16_samples s ->
  TimedSound.offset s = 0 ->
  0 < TimedSound.len s ->
  (0 < TimedSound.start s)%Q ->
  (TimedSound.start s < outputBufferDacTime)%Q ->
  exact_timing len 0 outputBufferDacTime (Channels.samplerate chs)
    (Channels.samplelen chs) (TimedSound.start s) ->
  exact_warning
    (Qfloor ((TimedSound.start s - outputBufferDacTime)
             * Channels.samplerate chs)%Q)
    (Channels.samplelen chs) ->
  let late :=
    Qfloor ((TimedSound.start s - outputBufferDacTime)
            * Channels.samplerate chs)%Q in
  late < 0 /\
  exists chs' : Channels.t,
    ws_callback out len outputBufferDacTime currentTime chs
      = Ok (chs', burst_at s 0 0 len) /\
    Channels.playback_error chs' = late /\
    ws_warn_str format (set_channels state (Some chs'))
      = (snprintf 100
           (warn_prefix
            ++ format (inject_Z (- late) * Channels.samplelen chs * 1000)%Q
            ++ warn_suffix),
         set_channels state (Some (Channels.set_playback_error chs' 0))).
Proof.
  intros Hlen Hout Hwf Hrates Hsolo Hok Hint Hoff Hframes Hpos Hpast _
    [Hmin _] late.
  fold late in Hmin.
  assert (Hlate : late < 0).
  { subst late. apply Qfloor_lt_Z. destruct Hrates as [Hr _].
    change (inject_Z 0) with 0%Q.
    assert (TimedSound.start s - outputBufferDacTime < 0)%Q by lra. nra. }
  split; [exact Hlate|].
  pose proof (buffer_lasts len (Channels.samplerate chs)
                (Channels.samplelen chs) Hlen Hrates) as Hlast.
  assert (Hcase : starts_now len outputBufferDacTime (Channels.samplelen chs) s).
  { right. split; [exact Hoff|]. right. lra. }
  assert (Hlt0 : TimedSound.offset s < TimedSound.len s) by lia.
  destruct (ws_callback_starting out len outputBufferDacTime currentTime chs
              c s Hlen Hout Hwf Hrates Hsolo Hok Hint Hlt0 Hcase)
    as (chs' & Hrun & _ & _ & Hsl & He & _).
  assert (Hzp : padding_of outputBufferDacTime (Channels.samplerate chs) s = 0).
  { unfold padding_of, start_frame. rewrite Hoff. cbn [Z.eqb].
    rewrite (Qltb_lt _ _ Hpos). fold late. lia. }
  assert (Herr : error_after outputBufferDacTime (Channels.samplerate chs) s
                   (Channels.playback_error chs) = late).
  { unfold error_after, lateness_of. rewrite Hoff. cbn [Z.eqb].
    rewrite (Qltb_lt _ _ Hpos). fold late.
    destruct (Z.ltb_spec late 0); [reflexivity|lia]. }
  rewrite Hzp, Hoff in Hrun. rewrite Herr in He.
  exists chs'. split; [exact Hrun|]. split; [exact He|].
  unfold ws_warn_str. cbn [channels set_channels]. rewrite He.
  destruct (Z.ltb_spec late 0); [|lia]. rewrite Hsl.
  rewrite (to_int_small (- late)) by (unfold INT_MIN, INT_MAX in *; lia).
  reflexivity.
Qed.

Lemma late_sound_is_played_and_reported_witness :
  exists chs' : Channels.t,
    ws_callback stale_buffer 4 8 8 (channels_of late_queued)
      = Ok (chs', burst_at (newTimedSound four_frames ((8 - 8) + (27 # 4))) 0 0 4) /\
    Channels.playback_error chs' = -5 /\
    ws_warn_str format_fixed2 (set_channels late_queued (Some chs'))
      = ("A previously played sound occured 1250.00ms after it should have."%string,
         set_channels late_queued (Some (Channels.set_playback_error chs' 0))).
Proof.
  destruct (late_sound_is_played_and_reported format_fixed2 late_queued
              stale_buffer 4 8 8 (channels_of late_queued) 0
              (newTimedSound four_frames ((8 - 8) + (27 # 4))))
    as (_ & chs' & Hrun & He & Hwarn).
  - unfold INT_MAX. lia.
  - reflexivity.
  - wf_channels_by_compute.
  - exact exact_rates_4.
  - solo_by_compute.
  - split; cbn; unfold INT_MAX; lia.
  - apply int16_samples_Forall. cbn. repeat constructor; lia.
  - reflexivity.
  - cbn. lia.
  - reflexivity.
  - reflexivity.
  - exact_by_compute.
  - exact_by_compute.
  - exists chs'. split; [exact Hrun|]. split; [exact He|]. exact Hwarn.
Defined.

Lemma solo_after_push (chs : Channels.t) (c : Z) (sounds : Sounds.t)
    (sound : TimedSound.t) :
  wf_channels chs ->
  silent chs ->
  0 <= c ->
  Channels.data chs !! Z.to_nat c = Some sounds ->
  Sounds.paused sounds = 0 ->
  Sounds.producer_index sounds = Sounds.consumer_index sounds ->
  solo (with_channel chs c (pushed sounds sound)) (Z.to_nat c) sound.
Proof.
  intros Hwf Hsilent Hc Hs Hp Halign.
  pose proof (wf_channel_lookup _ _ _ Hwf Hs) as [Hcap Hci Hpi].
  exists (pushed sounds sound).
  split; [exact (with_channel_lookup _ _ _ _ Hs)|].
  split; [exact Hp|]. cbn [pushed Sounds.data Sounds.consumer_index].
  rewrite Halign. split; [apply list_lookup_insert_eq; lia|].
  intros c' i x Hx. apply slot_of_Some in Hx as (y & Hy & Hi).
  unfold with_channel in Hy. cbn in Hy.
  apply list_lookup_insert_Some in Hy as [(<- & <- & _)|(Hne & Hy)].
  - split; [reflexivity|]. cbn in Hi. rewrite Halign in Hi.
    apply list_lookup_insert_Some in Hi as [(<- & _)|(_ & Hi)];
      [reflexivity|].
    exfalso. assert (Some x = None); [|discriminate].
    apply (Hsilent (Z.to_nat c) i). apply slot_of_Some. eauto.
  - exfalso. assert (Some x = None); [|discriminate].
    apply (Hsilent c' i). apply slot_of_Some. eauto.
Qed.

(** X16.  A sound given to [ws_play_next] for an unpaused streaming channel
    of a set that holds no sound, the two indices of the channel being
    equal, is heard from the first frame of the next buffer: the callback
    outputs its first [len] frames, and afterwards the sound is gone if it
    had no more than [len] frames, or is at the head of the channel with
    offset [len]; no lateness is recorded. *)
Theorem streamed_sound_starts_with_the_next_buffer
    (pa_now now : Q) (channel : Z) (toplay : Sound.t) (state : WsState)
    (chs : Channels.t) (sounds : Sounds.t)
    (out : list Z) (len : Z) (outputBufferDacTime currentTime : Q) :
  channels state = Some chs ->
  wf_channels chs ->
  exact_rates (Channels.samplerate chs) (Channels.samplelen chs) ->
  silent chs ->
  0 <= channel ->
  let target := Channels.len chs ÷ 2 + channel in
  Channels.data chs !! Z.to_nat target = Some sounds ->
  Sounds.paused sounds = 0 ->
  Sounds.producer_index sounds = Sounds.consumer_index sounds ->
  0 < Sound.len toplay ->
  2 * Sound.len toplay <= Z.of_nat (length (Sound.buffer toplay)) ->
  Sound.len toplay + len <= INT_MAX ->
  Forall (fun v => - 2 ^ 15 <= v < 2 ^ 15) (Sound.buffer toplay) ->
  0 < len <= INT_MAX ->
  Z.of_nat (length out) = 2 * len ->
  let s := newTimedSound toplay (-1)%Q in
  exists (r : Q) (state' : WsState) (chs1 chs2 : Channels.t),
    ws_play_next pa_now now channel toplay state = Ok (r, state') /\
    channels state' = Some chs1 /\
    ws_callback out len outputBufferDacTime currentTime chs1
      = Ok (chs2, burst_at s 0 0 len) /\
    Channels.playback_error chs2 = Channels.playback_error chs /\
    (if Sound.len toplay <=? len then silent chs2
     else solo chs2 (Z.to_nat target) (TimedSound.set_offset s len)).
Proof.
  intros Hchs Hwf Hrates Hsilent Hchan target Hs Hp Halign Hframes Hbuf
    Hrange Hsamples Hlen Hout s.
  pose proof (wf_half_nonneg chs Hwf) as Hhalf.
  assert (Htarget : 0 <= target) by (subst target; lia).
  pose proof (wf_channel_lookup _ _ _ Hwf Hs) as Hws.
  assert (Hempty : Sounds.data sounds !! Z.to_nat (Sounds.producer_index sounds)
                   = Some None).
  { destruct Hws as [Hcap _ Hpi].
    destruct (in_range_lookup (Sounds.data sounds)
                (Sounds.producer_index sounds)) as ([x|] & Hx);
      [lia| |exact Hx].
    exfalso. assert (Some x = None); [|discriminate].
    apply (Hsilent (Z.to_nat target)
             (Z.to_nat (Sounds.producer_index sounds))).
    apply slot_of_Some. eauto. }
  set (chs1 := with_channel chs target (pushed sounds s)).
  assert (Hwf1 : wf_channels chs1)
    by (apply wf_channels_with_channel, wf_sounds_pushed; assumption).
  assert (Hsolo : solo chs1 (Z.to_nat target) s)
    by (apply solo_after_push; assumption).
  assert (Hok : sound_ok len s) by (apply sound_ok_new; lia).
  assert (Hint : int16_samples s)
    by (apply int16_samples_Forall; exact Hsamples).
  assert (Hcase : starts_now len outputBufferDacTime (Channels.samplelen chs1) s).
  { right. split; [reflexivity|]. left. cbn. lra. }
  destruct (ws_callback_starting out len outputBufferDacTime currentTime chs1
              (Z.to_nat target) s Hlen Hout Hwf1 Hrates Hsolo Hok Hint
              ltac:(cbn; lia) Hcase)
    as (chs2 & Hrun & _ & _ & _ & He & Hclass).
  eexists _, _, chs1, chs2. split.
  { exact (ws_play_next_enqueues pa_now now channel toplay state chs sounds
             Hchs Hwf Hchan Hs Hp Hempty). }
  split; [reflexivity|]. split; [exact Hrun|]. split; [exact He|].
  cbn in Hclass. rewrite Z.sub_0_r, Z.add_0_r in Hclass. exact Hclass.
Qed.

Lemma streamed_sound_starts_with_the_next_buffer_witness :
  exists (r : Q) (state' : WsState) (chs1 chs2 : Channels.t),
    ws_play_next 8 8 0 four_frames session = Ok (r, state') /\
    channels state' = Some chs1 /\
    ws_callback stale_buffer 4 8 8 chs1
      = Ok (chs2, burst_at (newTimedSound four_frames (-1)%Q) 0 0 4) /\
    Channels.playback_error chs2 = Channels.playback_error (channels_of session) /\
    silent chs2.
Proof.
  apply (streamed_sound_starts_with_the_next_buffer 8 8 0 four_frames session
           (channels_of session) (channel_at session 2) stale_buffer 4 8 8
           eq_refl).
  - wf_channels_by_compute.
  - exact exact_rates_4.
  - apply silent_newChannels.
  - lia.
  - reflexivity.
  - reflexivity.
  - reflexivity.
  - cbn. lia.
  - cbn. lia.
  - cbn. unfold INT_MAX. lia.
  - cbn. repeat constructor; lia.
  - unfold INT_MAX. lia.
  - reflexivity.
Defined.

Lemma ws_play_stores
    (pa_now now playat : Q) (channel : Z) (toplay : Sound.t)
    (state state' : WsState) (chs : Channels.t) (r : Z) :
  channels state = Some chs ->
  wf_channels chs ->
  ws_play pa_now now playat channel toplay state = Ok (r, state') ->
  0 <= r ->
  exists sounds : Sounds.t,
    Channels.data chs !! Z.to_nat r = Some sounds /\
    state'
    = set_channels state
        (Some (with_channel chs r
                 (pushed sounds
                    (newTimedSound toplay ((pa_now - now) + playat)%Q)))).
Proof.
  intros Hchs Hwf H Hr. unfold ws_play in H. rewrite Hchs in H.
  cbn [deref bind] in H.
  destruct (if channel <? 0 then _ else _) as [ch|] eqn:E; [|discriminate].
  cbn [bind] in H. destruct (ch <? 0) eqn:E2.
  { injection H as <- _. lia. }
  destruct (array_get (Channels.data chs) ch) as [sounds|] eqn:E3;
    [|discriminate].
  apply array_get_inv in E3 as [Hch Hs]. cbn [bind] in H.
  rewrite (push_sound_ok _ _ (wf_channel_lookup _ _ _ Hwf Hs)) in H.
  cbn [bind] in H. rewrite (put_channel_ok _ _ _ _ Hch Hs) in H.
  cbn [bind] in H. injection H as <- <-. exists sounds. split; [exact Hs|].
  reflexivity.
Qed.

(** X17.  What is played is heard, once and at its frame, when the sample
    rate and the instants are such that the arithmetic of [ws_play] and of
    the callback on [double]s is exact.  A sound with frames given to
    [ws_play] on a session just set up, on a channel of the caller's choice
    or on the one [ws_play] chooses, comes out of the callback as follows:
    over any number of consecutive buffers of [len] frames from instant
    [t0] the output is zero except for the frames of the sound, which
    occupy the frames from [first] on, [first] being the whole number of
    frames between [t0] and the instant [(pa_now - now) + playat] (0 if
    that instant has passed); once the buffers cover the sound, no slot of
    the session holds a sound. *)
Theorem played_sound_is_heard_at_its_frame
    (samplerate num_channels queue_size : Z) (pa_now now playat : Q)
    (channel : Z) (toplay : Sound.t) (r : Z) (state state' : WsState)
    (out : list Z) (len : Z) (t0 latency : Q) (n : nat) :
  0 < samplerate <= INT_MAX ->
  0 <= num_channels ->
  2 * num_channels <= INT_MAX ->
  0 < queue_size <= INT_MAX ->
  ws_setup paNoError paNoError paNoError samplerate num_channels queue_size
    = Ok state ->
  ws_play pa_now now playat channel toplay state = Ok (r, state') ->
  0 <= r ->
  0 < Sound.len toplay ->
  2 * Sound.len toplay <= Z.of_nat (length (Sound.buffer toplay)) ->
  Sound.len toplay + len <= INT_MAX ->
  Forall (fun v => - 2 ^ 15 <= v < 2 ^ 15) (Sound.buffer toplay) ->
  0 < len <= INT_MAX ->
  Z.of_nat (length out) = 2 * len ->
  exact_start pa_now now playat ->
  (forall k : Z,
     0 <= k < Z.of_nat n ->
     exact_timing len 0 (buffer_instant t0 (1 / inject_Z samplerate) len k)
       (inject_Z samplerate) (1 / inject_Z samplerate)
       ((pa_now - now) + playat)) ->
  let s := newTimedSound toplay ((pa_now - now) + playat)%Q in
  let first := start_frame t0 (inject_Z samplerate) s in
  exists chs' chs'' : Channels.t,
    channels state' = Some chs' /\
    play_buffers n out len t0 latency 0 chs'
    = Ok (chs'', stream_sample s first <$> seq 0 (n * Z.to_nat (2 * len))) /\
    (first + Sound.len toplay <= Z.of_nat n * len -> silent chs'').
Proof.
  intros Hrate Hnum _ Hqueue Hsetup Hplay Hr Hframes Hbuf Hrange Hsamples
    Hlen Hout _ _ s first.
  injection Hsetup as <-.
  set (chs := newChannels samplerate num_channels queue_size).
  assert (Hwf : wf_channels chs)
    by (apply wf_channels_newChannels; lia).
  destruct (ws_play_stores pa_now now playat channel toplay
              (mkWsState paNoError 0 (Some chs) true)
              state' chs r eq_refl Hwf Hplay Hr)
    as (sounds & Hs & ->).
  destruct (newChannels_lookup _ _ _ _ _ Hs) as (Hp & Hci & Hpi & _).
  set (chs1 := with_channel chs r (pushed sounds s)).
  assert (Hwf1 : wf_channels chs1).
  { apply wf_channels_with_channel, wf_sounds_pushed; [exact Hwf|].
    exact (wf_channel_lookup _ _ _ Hwf Hs). }
  assert (Hsolo : solo chs1 (Z.to_nat r) s).
  { apply solo_after_push; try assumption; [|congruence].
    apply silent_newChannels. }
  assert (Hrates : exact_rates (Channels.samplerate chs1)
                     (Channels.samplelen chs1))
    by (apply exact_rates_newChannels; lia).
  assert (Hfirst : 0 <= first).
  { subst first. unfold start_frame.
    destruct (Qltb 0 (TimedSound.start s)); lia. }
  destruct (play_buffers_heard out len t0 latency
              (Channels.samplerate chs1) (Channels.samplelen chs1)
              (Z.to_nat r) s Hlen Hout Hrates
              ltac:(apply sound_ok_new; lia)
              ltac:(apply int16_samples_Forall; exact Hsamples)
              eq_refl Hframes n 0 chs1 (Z.le_refl 0) Hwf1 eq_refl eq_refl)
    as (chs2 & Hrun & _ & Hheard).
  { left. split; [exact Hfirst|exact Hsolo]. }
  exists chs1, chs2. split; [reflexivity|]. split.
  - rewrite Hrun. reflexivity.
  - intros Hcovered. unfold heard in Hheard.
    change (TimedSound.len s) with (Sound.len toplay) in Hheard.
    change (start_frame t0 (Channels.samplerate chs1) s) with first in Hheard.
    clearbody first.
    destruct Hheard as [[Hk _]|[(_ & Hk & _)|(_ & _ & Hsilent)]];
      [clear - Hk Hcovered Hframes; lia|clear - Hk Hcovered; lia
      |exact Hsilent].
Qed.

Lemma played_sound_is_heard_at_its_frame_witness :
  exists chs' chs'' : Channels.t,
    channels offbeat_queued = Some chs' /\
    play_buffers 2 stale_buffer 4 8 0 0 chs'
    = Ok (chs'',
          stream_sample (newTimedSound two_frames ((8 - 8) + (35 # 4))) 3
            <$> seq 0 16) /\
    silent chs''.
Proof.
  destruct (played_sound_is_heard_at_its_frame 4 2 3 8 8 (35 # 4) 1 two_frames
              1 session offbeat_queued stale_buffer 4 8 0 2)
    as (chs' & chs'' & Hchs & Hrun & Hsilent).
  - unfold INT_MAX. lia.
  - lia.
  - unfold INT_MAX. lia.
  - unfold INT_MAX. lia.
  - reflexivity.
  - reflexivity.
  - lia.
  - cbn. lia.
  - cbn. lia.
  - cbn. unfold INT_MAX. lia.
  - cbn. repeat constructor; lia.
  - unfold INT_MAX. lia.
  - reflexivity.
  - exact_by_compute.
  - intros k Hk. assert (Hcases : k = 0 \/ k = 1) by lia.
    destruct Hcases as [->| ->]; exact_by_compute.
  - exists chs', chs''. split; [exact Hchs|]. split; [exact Hrun|].
    apply Hsilent. vm_compute. discriminate.
Defined.

(** ** The ring discipline *)

Lemma wrap_eq (a n : Z) :
  0 <= a < 2 * n -> a mod n = if a <? n then a else a - n.
Proof.
  intros H. destruct (Z.ltb_spec a n).
  - apply Z.mod_small. lia.
  - replace a with (a - n + 1 * n) at 1 by lia.
    rewrite Z_mod_plus_full. apply Z.mod_small. lia.
Qed.

(** Indices that wrap round a ring at most once. *)
Ltac unwrap_step :=
  match goal with
  | |- context [?a mod ?n] =>
    lazymatch a with
    | context [_ mod _] => fail
    | _ => rewrite (wrap_eq a n) by lia
    end
  end.
Ltac unwrap :=
  repeat (unwrap_step;
          repeat match goal with
                 | |- context [?a <? ?b] => destruct (Z.ltb_spec a b)
                 end);
  try lia.

Lemma wrap_range (a n : Z) : 0 <= a < 2 * n -> 0 < n -> 0 <= a mod n < n.
Proof. intros. apply Z.mod_pos_bound. lia. Qed.

(** The discipline is a matter of the slots and the two indices. *)
Lemma fifo_ext (a b : Sounds.t) :
  Sounds.data a = Sounds.data b ->
  Sounds.len a = Sounds.len b ->
  Sounds.consumer_index a = Sounds.consumer_index b ->
  Sounds.producer_index a = Sounds.producer_index b ->
  fifo a -> fifo b.
Proof.
  intros Hd Hl Hc Hp (k & Hk & Hpi & Hq).
  exists k. unfold taken in *. rewrite <- Hd, <- Hl, <- Hc, <- Hp. auto.
Qed.

Lemma fifo_same_ring (a b : Sounds.t) : same_ring a b -> fifo a -> fifo b.
Proof.
  intros (Hd & Hl & _ & Hc & Hp). now apply fifo_ext.
Qed.

Lemma fifo_newSounds (queue_size : Z) :
  0 <= queue_size -> fifo (newSounds queue_size).
Proof.
  intros Hq. exists 0. cbn. split; [|split].
  - lia.
  - rewrite Zmod_0_l. reflexivity.
  - intros j Hj. split; [|lia]. intros (x & Hx).
    apply lookup_replicate in Hx as [Hx _]. discriminate.
Qed.

(** Replacing a queued sound by another one keeps the discipline. *)
Lemma fifo_replace (sounds : Sounds.t) (i : nat) (x y : TimedSound.t) :
  Sounds.data sounds !! i = Some (Some x) ->
  fifo sounds ->
  fifo (Sounds.set_data sounds (<[i := Some y]> (Sounds.data sounds))).
Proof.
  intros Hx (k & Hk & Hpi & Hq). exists k. cbn.
  split; [exact Hk|]. split; [exact Hpi|].
  intros j Hj. rewrite <- (Hq j Hj). unfold taken. cbn.
  set (slot := Z.to_nat _).
  destruct (Nat.eq_dec i slot) as [->|Hne].
  - rewrite list_lookup_insert_eq by (eapply lookup_lt_Some; exact Hx).
    rewrite Hx. split; intros _; eauto.
  - rewrite list_lookup_insert_ne by exact Hne. reflexivity.
Qed.

(** Storing a sound in an empty producer slot keeps the discipline. *)
Lemma fifo_pushed (sounds : Sounds.t) (sound : TimedSound.t) :
  wf_sounds sounds ->
  Sounds.data sounds !! Z.to_nat (Sounds.producer_index sounds) = Some None ->
  fifo sounds ->
  fifo (pushed sounds sound).
Proof.
  intros [Hcap Hci Hpi] Hfree (k & Hk & Hp & Hq).
  set (n := Sounds.len sounds) in *.
  set (ci := Sounds.consumer_index sounds) in *.
  set (p := Sounds.producer_index sounds) in *.
  assert (Hkn : k < n).
  { destruct (Z.eq_dec k n) as [->|]; [|lia]. exfalso.
    assert (Hhead : taken sounds ((ci + 0) mod n)) by (apply Hq; lia).
    rewrite Hp in Hfree.
    replace ((ci + n) mod n) with ((ci + 0) mod n) in Hfree by unwrap.
    destruct Hhead as (x & Hx). rewrite Hfree in Hx. discriminate Hx. }
  exists (k + 1). cbn. fold n ci p. split; [lia|]. split.
  - rewrite Hp. unwrap.
  - intros j Hj. unfold taken. cbn. fold n ci p.
    assert (Hslot : forall a b : Z, 0 <= a < n -> 0 <= b < n ->
              Z.to_nat ((ci + a) mod n) = Z.to_nat ((ci + b) mod n) -> a = b).
    { intros a b Ha Hb. unwrap. }
    destruct (Z.eq_dec j k) as [->|Hne].
    + rewrite <- Hp.
      rewrite list_lookup_insert_eq by lia. split; [lia|eauto].
    + rewrite list_lookup_insert_ne.
      * fold (taken sounds ((ci + j) mod n)). rewrite (Hq j Hj). lia.
      * rewrite Hp. intros E. apply Hslot in E; lia.
Qed.

(** Clearing the consumer slot and moving the consumer index on keeps the
    discipline. *)
Lemma fifo_retired (sounds : Sounds.t) (s : TimedSound.t) :
  wf_sounds sounds ->
  Sounds.data sounds !! Z.to_nat (Sounds.consumer_index sounds) = Some (Some s) ->
  fifo sounds ->
  fifo (Sounds.mk
          (<[Z.to_nat (Sounds.consumer_index sounds) := None]>
             (Sounds.data sounds))
          (Sounds.len sounds) (Sounds.paused sounds)
          ((Sounds.consumer_index sounds + 1) mod Sounds.len sounds)
          (Sounds.producer_index sounds) (Sounds.done_at sounds)).
Proof.
  intros [Hcap Hci Hpi] Hhead (k & Hk & Hp & Hq).
  set (n := Sounds.len sounds) in *.
  set (ci := Sounds.consumer_index sounds) in *.
  set (p := Sounds.producer_index sounds) in *.
  assert (Hk1 : 1 <= k).
  { assert (0 < k); [|lia]. apply (Hq 0); [lia|].
    exists s. rewrite Z.add_0_r, Z.mod_small by lia. exact Hhead. }
  exists (k - 1). cbn. fold n ci p. split; [lia|]. split.
  - rewrite Hp. unwrap.
  - intros j Hj. unfold taken. cbn. fold n ci p.
    assert (Hshift : ((ci + 1) mod n + j) mod n
                     = (ci + (if j + 1 <? n then j + 1 else 0)) mod n).
    { unwrap. }
    rewrite Hshift. destruct (Z.ltb_spec (j + 1) n).
    + rewrite list_lookup_insert_ne.
      * fold (taken sounds ((ci + (j + 1)) mod n)).
        rewrite (Hq (j + 1)) by lia. lia.
      * unwrap.
    + rewrite Z.add_0_r, Z.mod_small by lia.
      rewrite list_lookup_insert_eq by lia. split; [|lia].
      intros (x & Hx). discriminate.
Qed.

(** Under the discipline a channel with nothing at its consumer slot holds
    no sound at all. *)
Lemma fifo_empty_head (sounds : Sounds.t) :
  wf_sounds sounds ->
  fifo sounds ->
  Sounds.data sounds !! Z.to_nat (Sounds.consumer_index sounds) = Some None ->
  Sounds.producer_index sounds = Sounds.consumer_index sounds /\
  forall (i : nat) (x : TimedSound.t),
    Sounds.data sounds !! i <> Some (Some x).
Proof.
  intros [Hcap Hci Hpi] (k & Hk & Hp & Hq) Hhead.
  set (n := Sounds.len sounds) in *.
  set (ci := Sounds.consumer_index sounds) in *.
  assert (Hk0 : k = 0).
  { destruct (Z.eq_dec k 0) as [|Hne]; [assumption|]. exfalso.
    assert (Ht : taken sounds ((ci + 0) mod n)) by (apply Hq; lia).
    rewrite Z.add_0_r, Z.mod_small in Ht by lia.
    destruct Ht as (x & Hx). fold ci in Hhead. rewrite Hhead in Hx.
    discriminate Hx. }
  subst k. split.
  - rewrite Hp, Z.add_0_r. apply Z.mod_small. lia.
  - intros i x Hx. pose proof (lookup_lt_Some _ _ _ Hx) as Hi.
    set (j := if Z.of_nat i <? ci then Z.of_nat i - ci + n else Z.of_nat i - ci).
    assert (Hj : 0 <= j < n) by (subst j; destruct (Z.ltb_spec (Z.of_nat i) ci); lia).
    assert (Ht : taken sounds ((ci + j) mod n)).
    { exists x. replace (Z.to_nat ((ci + j) mod n)) with i; [exact Hx|].
      subst j. destruct (Z.ltb_spec (Z.of_nat i) ci); unwrap. }
    apply Hq in Ht; lia.
Qed.

Section RingsOfTheCallback.
Variable len : Z.
Variable buffer_start : Q.
Variable samplerate samplelen : Q.

Lemma schedule_same_ring (s : TimedSound.t) (st : cb) :
  same_ring (cb_sounds st)
    (cb_sounds (schedule len buffer_start samplerate samplelen s st)).
Proof.
  unfold schedule.
  repeat match goal with
         | |- context [if ?b then _ else _] => destruct b
         end; cb_simpl; repeat split.
Qed.

Lemma play_keeps_ring (s s' : TimedSound.t) (st st' : cb) :
  play len s st = Ok (s', st') ->
  wf_sounds (cb_sounds st) ->
  fifo (cb_sounds st) ->
  Sounds.data (cb_sounds st) !! Z.to_nat (Sounds.consumer_index (cb_sounds st))
    = Some (Some s) ->
  wf_sounds (cb_sounds st') /\ fifo (cb_sounds st') /\
  Sounds.consumer_index (cb_sounds st') = Sounds.consumer_index (cb_sounds st) /\
  Sounds.data (cb_sounds st') !! Z.to_nat (Sounds.consumer_index (cb_sounds st))
    = Some (Some s').
Proof.
  unfold play. intros H Hwf Hfifo Hhead.
  destruct (_ && _).
  - destruct (mix _ _ _ _ _ _ _) as [r|]; [|discriminate].
    cbn [bind] in H.
    destruct (array_set _ _ _) as [d|] eqn:E; [|discriminate].
    apply array_set_inv in E as [Hrange ->].
    cbn [bind] in H. injection H as <- <-. cb_simpl.
    split; [apply wf_sounds_set_slot; exact Hwf|].
    split; [exact (fifo_replace _ _ _ _ Hhead Hfifo)|].
    split; [reflexivity|].
    apply list_lookup_insert_eq. lia.
  - injection H as <- <-. auto.
Qed.

Lemma retire_keeps_ring (s s0 : TimedSound.t) (st st' : cb) :
  retire s st = Ok st' ->
  wf_sounds (cb_sounds st) ->
  fifo (cb_sounds st) ->
  Sounds.data (cb_sounds st) !! Z.to_nat (Sounds.consumer_index (cb_sounds st))
    = Some (Some s0) ->
  wf_sounds (cb_sounds st') /\ fifo (cb_sounds st').
Proof.
  intros H Hwf Hfifo Hhead. rewrite (retire_spec s st Hwf) in H.
  injection H as <-. destruct (_ <=? _); [|auto]. cb_simpl.
  split; [|exact (fifo_retired _ _ Hwf Hhead Hfifo)].
  destruct Hwf as [Hcap Hci Hpi].
  split; cbn; rewrite ?length_insert; try assumption.
  apply Z.mod_pos_bound. lia.
Qed.

Lemma consume_keeps_ring (s : TimedSound.t) (st st' : cb) :
  consume len buffer_start samplerate samplelen s st = Ok st' ->
  wf_sounds (cb_sounds st) ->
  fifo (cb_sounds st) ->
  Sounds.data (cb_sounds st) !! Z.to_nat (Sounds.consumer_index (cb_sounds st))
    = Some (Some s) ->
  wf_sounds (cb_sounds st') /\ fifo (cb_sounds st').
Proof.
  unfold consume. intros H Hwf Hfifo Hhead.
  pose proof (schedule_same_ring s st) as R.
  set (st0 := schedule len buffer_start samplerate samplelen s st) in *.
  destruct (play len s st0) as [[s1 st1]|] eqn:E; [|discriminate].
  cbn [bind fst snd] in H.
  pose proof R as (Hd & _ & _ & Hc & _).
  destruct (play_keeps_ring s s1 st0 st1 E) as (Hwf1 & Hfifo1 & Hc1 & Hhead1).
  - exact (same_ring_wf _ _ R Hwf).
  - exact (fifo_same_ring _ _ R Hfifo).
  - rewrite <- Hd, <- Hc. exact Hhead.
  - rewrite <- Hc1 in Hhead1.
    exact (retire_keeps_ring s1 s1 st1 st' H Hwf1 Hfifo1 Hhead1).
Qed.

Lemma drain_keeps_ring (fuel : nat) :
  forall st st' : cb,
    drain len buffer_start samplerate samplelen fuel st = Ok st' ->
    wf_sounds (cb_sounds st) ->
    fifo (cb_sounds st) ->
    wf_sounds (cb_sounds st') /\ fifo (cb_sounds st').
Proof.
  induction fuel as [|fuel IH]; intros st st' H Hwf Hfifo; cbn [drain] in H;
    (destruct (array_get _ _) as [[s|]|] eqn:E; cbn [bind] in H;
     [|injection H as <-; auto|discriminate]);
    (destruct (_ <? _); [|injection H as <-; auto]).
  - discriminate.
  - destruct (consume _ _ _ _ s st) as [st1|] eqn:E1; [|discriminate].
    cbn [bind] in H. apply array_get_inv in E as [_ Hhead].
    destruct (consume_keeps_ring s st st1 E1 Hwf Hfifo Hhead) as [Hwf1 Hfifo1].
    exact (IH st1 st' H Hwf1 Hfifo1).
Qed.

Lemma drain_channel_keeps_ring (sounds : Sounds.t) (error : Z) (out : list Z)
    (flag : bool) (st' : cb) :
  drain_channel len buffer_start samplerate samplelen sounds error out flag
    = Ok st' ->
  wf_sounds sounds ->
  fifo sounds ->
  wf_sounds (cb_sounds st') /\ fifo (cb_sounds st').
Proof.
  unfold drain_channel. intros H Hwf Hfifo.
  destruct (array_get _ _) as [slot|]; [|discriminate]. cbn [bind] in H.
  eapply drain_keeps_ring; [exact H| |]; cb_simpl; destruct slot;
    try assumption.
  destruct Hwf. split; assumption.
Qed.
End RingsOfTheCallback.

Lemma rings_ok_with_channel (chs : Channels.t) (c : Z) (sounds : Sounds.t) :
  rings_ok chs -> wf_sounds sounds -> fifo sounds ->
  rings_ok (with_channel chs c sounds).
Proof.
  intros [Hwf Hfifo] Hws Hfs. split.
  - apply wf_channels_with_channel; assumption.
  - intros k x Hx. unfold with_channel in Hx. cbn in Hx.
    apply list_lookup_insert_Some in Hx as [(_ & <- & _)|(_ & Hx)];
      [exact Hfs|exact (Hfifo k x Hx)].
Qed.

Lemma mix_channel_keeps_rings (len : Z) (buffer_start : Q) (c : Z)
    (m m' : mixer) :
  mix_channel len buffer_start c m = Ok m' ->
  rings_ok (mx_channels m) ->
  rings_ok (mx_channels m').
Proof.
  unfold mix_channel. intros H Hok.
  destruct (array_get _ _) as [sounds|] eqn:E; [|discriminate].
  apply array_get_inv in E as [Hc Hs]. cbn [bind] in H.
  destruct (negb _); [injection H as <-; exact Hok|].
  destruct (drain_channel _ _ _ _ _ _ _ _) as [st|] eqn:E1; [|discriminate].
  cbn [bind] in H.
  rewrite (put_channel_ok _ _ sounds) in H by (first [exact Hc | exact Hs]).
  cbn [bind] in H. injection H as <-. cbn [mx_channels].
  destruct Hok as [Hwf Hfifo].
  destruct (drain_channel_keeps_ring _ _ _ _ _ _ _ _ _ E1) as [Hw1 Hf1].
  - exact (wf_channel_lookup _ _ _ Hwf Hs).
  - exact (Hfifo _ _ Hs).
  - apply rings_ok_with_channel; [|exact Hw1|exact Hf1].
    split; [apply wf_channels_set_playback_error; exact Hwf|exact Hfifo].
Qed.

Lemma mix_from_keeps_rings (len : Z) (buffer_start : Q) (n : nat) :
  forall (c : Z) (m m' : mixer),
    mix_from n len buffer_start c m = Ok m' ->
    rings_ok (mx_channels m) ->
    rings_ok (mx_channels m').
Proof.
  induction n as [|n IH]; intros c m m' H Hok; cbn [mix_from] in H.
  - injection H as <-. exact Hok.
  - destruct (mix_channel len buffer_start c m) as [m1|] eqn:E;
      [|discriminate]. cbn [bind] in H.
    exact (IH _ _ _ H (mix_channel_keeps_rings _ _ _ _ _ E Hok)).
Qed.

Lemma ws_callback_keeps_rings (out : list Z) (len : Z)
    (outputBufferDacTime currentTime : Q) (chs chs' : Channels.t)
    (out' : list Z) :
  ws_callback out len outputBufferDacTime currentTime chs = Ok (chs', out') ->
  rings_ok chs ->
  rings_ok chs'.
Proof.
  intros H Hok. apply ws_callback_inv in H as (out0 & m & _ & Hmix & -> & _).
  apply (mix_from_keeps_rings _ _ _ _ _ _ Hmix).
  destruct Hok as [[Hcount Heach] Hfifo]. split; [split|]; assumption.
Qed.

(** ** Sessions *)

Lemma ws_play_cases
    (pa_now now playat : Q) (channel : Z) (toplay : Sound.t)
    (state state' : WsState) (chs : Channels.t) (r : Z) :
  channels state = Some chs ->
  wf_channels chs ->
  ws_play pa_now now playat channel toplay state = Ok (r, state') ->
  (channel < 0 /\ r = -1 /\ state' = set_weber_error state NO_CHANNELS)
  \/
  (0 <= r /\
   (channel < 0 -> room_on chs r) /\
   (0 <= channel -> r = channel) /\
   exists sounds : Sounds.t,
     Channels.data chs !! Z.to_nat r = Some sounds /\
     state'
     = set_channels state
         (Some (with_channel chs r
                  (pushed sounds
                     (newTimedSound toplay ((pa_now - now) + playat)%Q))))).
Proof.
  intros Hchs Hwf H.
  destruct (Z.ltb_spec channel 0) as [Hneg|Hpos].
  - destruct (pick_channel_spec chs channel Hwf
                (Z.to_nat (Channels.len chs ÷ 2)) 0 channel INFINITY)
      as (c & m' & Hpick & Hinv).
    + lia.
    + pose proof (wf_half_nonneg chs Hwf). lia.
    + left. split; [reflexivity|]. split; [reflexivity|].
      intros j Hj [Hrange _]. lia.
    + unfold ws_play in H. rewrite Hchs in H. cbn [deref bind] in H.
      destruct (Z.ltb_spec channel 0); [|lia]. rewrite Hpick in H.
      cbn [bind] in H.
      destruct Hinv as [(_ & -> & _)|(_ & Hel & _)].
      * destruct (Z.ltb_spec channel 0); [|lia]. injection H as <- <-.
        left. auto.
      * pose proof Hel as ([Hc0 Hc1] & sounds & Hsounds & _ & Hfree).
        destruct (Z.ltb_spec c 0); [lia|].
        rewrite (array_get_ok _ _ _ Hc0 Hsounds) in H. cbn [bind] in H.
        rewrite (push_sound_ok _ _ (wf_channel_lookup _ _ _ Hwf Hsounds)) in H.
        cbn [bind] in H. rewrite (put_channel_ok _ _ _ _ Hc0 Hsounds) in H.
        cbn [bind] in H. injection H as <- <-. right.
        split; [exact Hc0|]. split; [intros _; exists sounds; auto|].
        split; [lia|]. exists sounds. auto.
  - destruct (ws_play_stores pa_now now playat channel toplay state state'
                chs r Hchs Hwf H) as (sounds & Hs & ->).
    + unfold ws_play in H. rewrite Hchs in H. cbn [deref bind] in H.
      destruct (Z.ltb_spec channel 0); [lia|]. cbn [bind] in H.
      destruct (Z.ltb_spec channel 0); [lia|].
      destruct (array_get _ _); [|discriminate]. cbn [bind] in H.
      destruct (push_sound _ _); [|discriminate]. cbn [bind] in H.
      destruct (put_channel _ _ _); [|discriminate]. cbn [bind] in H.
      injection H as <- _. exact Hpos.
    + right. assert (Hr : r = channel).
      { unfold ws_play in H. rewrite Hchs in H. cbn [deref bind] in H.
        destruct (Z.ltb_spec channel 0); [lia|]. cbn [bind] in H.
        destruct (Z.ltb_spec channel 0); [lia|].
        destruct (array_get _ _); [|discriminate]. cbn [bind] in H.
        destruct (push_sound _ _); [|discriminate]. cbn [bind] in H.
        destruct (put_channel _ _ _); [|discriminate]. cbn [bind] in H.
        injection H as <- _. reflexivity. }
      split; [lia|]. split; [lia|]. split; [intros _; exact Hr|].
      exists sounds. auto.
Qed.

Lemma ws_play_keeps_rings
    (pa_now now playat : Q) (channel : Z) (toplay : Sound.t)
    (state state' : WsState) (chs : Channels.t) (r : Z) :
  channels state = Some chs ->
  rings_ok chs ->
  (0 <= channel -> room_on chs channel) ->
  ws_play pa_now now playat channel toplay state = Ok (r, state') ->
  errcode state' = errcode state /\
  (weber_error state' = weber_error state \/ weber_error state' = NO_CHANNELS) /\
  exists chs', channels state' = Some chs' /\ rings_ok chs'.
Proof.
  intros Hchs Hok Hroom H. pose proof Hok as [Hwf Hfifo].
  destruct (ws_play_cases _ _ _ _ _ _ _ chs r Hchs Hwf H)
    as [(_ & _ & ->)|(Hr & Hauto & Hexp & sounds & Hs & ->)].
  - split; [reflexivity|]. split; [right; reflexivity|].
    exists chs. split; [exact Hchs|exact Hok].
  - split; [reflexivity|]. split; [left; reflexivity|].
    eexists. split; [reflexivity|].
    assert (Hfree : room_on chs r).
    { destruct (Z.ltb_spec channel 0) as [Hneg|Hpos]; [exact (Hauto Hneg)|].
      rewrite (Hexp Hpos). exact (Hroom Hpos). }
    destruct Hfree as (x & Hx & Hfree). rewrite Hs in Hx. injection Hx as <-.
    pose proof (wf_channel_lookup _ _ _ Hwf Hs) as Hws.
    apply rings_ok_with_channel; [exact Hok|now apply wf_sounds_pushed|].
    apply fifo_pushed; [exact Hws|exact Hfree|exact (Hfifo _ _ Hs)].
Qed.

Lemma interrupt_paused_keeps_ring (sounds sounds' : Sounds.t) :
  interrupt_paused sounds = Ok sounds' ->
  wf_sounds sounds -> fifo sounds ->
  wf_sounds sounds' /\ fifo sounds'.
Proof.
  unfold interrupt_paused. intros H Hwf Hfifo.
  destruct (negb _); [|injection H as <-; auto].
  destruct (array_get _ _) as [[s|]|] eqn:E; try discriminate.
  apply array_get_inv in E as [_ Hhead]. cbn [bind deref] in H.
  destruct (array_set _ _ _) as [d|] eqn:E1; [|discriminate].
  apply array_set_inv in E1 as [_ ->]. cbn [bind] in H. injection H as <-.
  split.
  - apply wf_sounds_set_paused, wf_sounds_set_slot. exact Hwf.
  - refine (fifo_ext _ _ _ _ _ _ (fifo_replace _ _ _ _ Hhead Hfifo));
      reflexivity.
Qed.

Lemma ws_play_next_keeps_rings
    (pa_now now : Q) (channel : Z) (toplay : Sound.t)
    (state state' : WsState) (chs : Channels.t) (r : Q) :
  channels state = Some chs ->
  rings_ok chs ->
  ws_play_next pa_now now channel toplay state = Ok (r, state') ->
  errcode state' = errcode state /\
  weber_error state' = weber_error state /\
  exists chs', channels state' = Some chs' /\ rings_ok chs'.
Proof.
  intros Hchs Hok H. pose proof Hok as [Hwf Hfifo].
  unfold ws_play_next in H. rewrite Hchs in H. cbn [deref bind] in H.
  destruct (array_get (Channels.data chs) _) as [sounds|] eqn:E;
    [|discriminate].
  apply array_get_inv in E as [Ht Hs]. cbn [bind] in H.
  destruct (interrupt_paused sounds) as [sounds1|] eqn:Ei; [|discriminate].
  cbn [bind] in H.
  destruct (interrupt_paused_keeps_ring _ _ Ei
              (wf_channel_lookup _ _ _ Hwf Hs) (Hfifo _ _ Hs)) as [Hw1 Hf1].
  destruct (array_get (Sounds.data sounds1) _) as [[old|]|] eqn:Ep;
    [| |discriminate]; cbn [bind] in H.
  - rewrite (put_channel_ok _ _ _ _ Ht Hs) in H. cbn [bind] in H.
    injection H as _ <-. repeat split.
    eexists. split; [reflexivity|].
    apply rings_ok_with_channel; assumption.
  - apply array_get_inv in Ep as [_ Hfree].
    rewrite (push_sound_ok _ _ Hw1) in H. cbn [bind] in H.
    rewrite (put_channel_ok _ _ _ _ Ht Hs) in H. cbn [bind] in H.
    injection H as _ <-. repeat split.
    eexists. split; [reflexivity|].
    apply rings_ok_with_channel;
      [exact Hok|now apply wf_sounds_pushed|now apply fifo_pushed].
Qed.

Lemma paused_only_rings_ok (a b : Channels.t) :
  paused_only a b -> rings_ok a -> rings_ok b.
Proof.
  intros (Hall & Hlen & _) [[Hcount Heach] Hfifo].
  pose proof (Forall2_length _ _ _ Hall) as Hsame.
  split; [split|].
  - rewrite <- Hlen, <- Hsame. exact Hcount.
  - apply Forall_lookup. intros i y Hy.
    destruct (Forall2_lookup_r _ _ _ _ _ Hall Hy) as (x & Hx & Hd & Hl & Hc & Hp & _).
    rewrite Forall_lookup in Heach. destruct (Heach i x Hx) as [H1 H2 H3].
    split; rewrite <- ?Hd, <- ?Hl, <- ?Hc, <- ?Hp; assumption.
  - intros i y Hy.
    destruct (Forall2_lookup_r _ _ _ _ _ Hall Hy) as (x & Hx & Hd & Hl & Hc & Hp & _).
    exact (fifo_ext x y Hd Hl Hc Hp (Hfifo i x Hx)).
Qed.

Lemma rings_ok_set_playback_error (chs : Channels.t) (e : Z) :
  rings_ok chs -> rings_ok (Channels.set_playback_error chs e).
Proof.
  intros [Hwf Hfifo]. split; [|exact Hfifo].
  apply wf_channels_set_playback_error. exact Hwf.
Qed.

Lemma step_keeps_session_ok (state state' : WsState) :
  step state state' -> session_ok state -> session_ok state'.
Proof.
  intros Hstep (He & Hw & chs & Hchs & Hok).
  destruct Hstep as [pa_now now playat channel toplay state state' r Hroom H
                    |pa_now now channel toplay state state' r H
                    |channel isstream pause state state' H
                    |format state
                    |out len dac cur state chs0 chs' out' Hchs0 H].
  - assert (Hroom' : 0 <= channel -> room_on chs channel).
    { intros Hpos. destruct (Hroom Hpos) as (x & Hx & Hr). congruence. }
    destruct (ws_play_keeps_rings pa_now now playat channel toplay state
                state' chs r Hchs Hok Hroom' H)
      as (He' & Hw' & chs' & Hchs' & Hok').
    split; [congruence|]. split; [|eauto].
    destruct Hw', Hw; [left|right|right|right]; congruence.
  - destruct (ws_play_next_keeps_rings pa_now now channel toplay state
                state' chs r Hchs Hok H)
      as (He' & Hw' & chs' & Hchs' & Hok').
    split; [congruence|]. split; [|eauto]. rewrite Hw'. exact Hw.
  - apply ws_pause_frame in H as (He' & Hw' & _ & a & b & Ha & Hb & Hab).
    split; [congruence|]. split; [rewrite Hw'; exact Hw|].
    exists b. split; [exact Hb|]. apply (paused_only_rings_ok a b Hab).
    congruence.
  - unfold ws_warn_str. rewrite Hchs.
    destruct (Channels.playback_error chs <? 0); cbn [snd].
    + split; [exact He|]. split; [exact Hw|]. eexists. split; [reflexivity|].
      apply rings_ok_set_playback_error. exact Hok.
    + split; [exact He|]. split; [exact Hw|]. eauto.
  - split; [exact He|]. split; [exact Hw|]. exists chs'.
    split; [reflexivity|]. apply (ws_callback_keeps_rings _ _ _ _ _ _ _ H).
    congruence.
Qed.

Lemma setup_session_ok (samplerate num_channels queue_size : Z)
    (state : WsState) :
  0 <= num_channels -> 0 < queue_size ->
  ws_setup paNoError paNoError paNoError samplerate num_channels queue_size
    = Ok state ->
  session_ok state.
Proof.
  intros Hn Hq [= <-]. split; [reflexivity|]. split; [left; reflexivity|].
  eexists. split; [reflexivity|]. split.
  - apply wf_channels_newChannels; assumption.
  - intros c sounds Hc. cbn in Hc.
    apply lookup_app_Some in Hc as [Hc|[_ Hc]];
      apply lookup_replicate in Hc as [-> _]; apply fifo_newSounds; lia.
Qed.

Lemma reachable_session_ok (samplerate num_channels queue_size : Z)
    (state : WsState) :
  0 <= num_channels -> 0 < queue_size ->
  reachable samplerate num_channels queue_size state ->
  session_ok state.
Proof.
  intros Hn Hq Hreach.
  induction Hreach as [state Hsetup|state state' _ IH Hstep].
  - exact (setup_session_ok _ _ _ state Hn Hq Hsetup).
  - exact (step_keeps_session_ok _ _ Hstep IH).
Qed.

(** X18.  The ring discipline is an invariant of a session.  In every
    state reached from a successful [ws_setup] by calls of [ws_play],
    [ws_play_next], [ws_pause] and [ws_warn_str] that return and by
    invocations of the callback that return, the caller naming a channel to
    [ws_play] only when its producer slot is empty, each channel is well
    formed and its sounds sit in consecutive slots from the consumer index
    up to the producer index; in particular a channel with nothing at its
    consumer slot holds no sound, and its two indices are equal. *)
Theorem session_keeps_the_ring_discipline
    (samplerate num_channels queue_size : Z) (state : WsState) :
  0 <= num_channels -> 0 < queue_size ->
  reachable samplerate num_channels queue_size state ->
  exists chs : Channels.t,
    channels state = Some chs /\
    wf_channels chs /\
    forall (c : nat) (sounds : Sounds.t),
      Channels.data chs !! c = Some sounds ->
      fifo sounds /\
      (Sounds.data sounds !! Z.to_nat (Sounds.consumer_index sounds) = Some None ->
       Sounds.producer_index sounds = Sounds.consumer_index sounds /\
       forall (i : nat) (x : TimedSound.t),
         Sounds.data sounds !! i <> Some (Some x)).
Proof.
  intros Hn Hq Hreach.
  destruct (reachable_session_ok _ _ _ _ Hn Hq Hreach)
    as (_ & _ & chs & Hchs & Hwf & Hfifo).
  exists chs. split; [exact Hchs|]. split; [exact Hwf|].
  intros c sounds Hs. split; [exact (Hfifo c sounds Hs)|].
  apply fifo_empty_head; [exact (wf_channel_lookup _ _ _ Hwf Hs)|].
  exact (Hfifo c sounds Hs).
Qed.

Lemma streaming_is_reachable : reachable 4 2 3 streaming.
Proof.
  apply (reach_step 4 2 3 session streaming); [apply reach_setup; reflexivity|].
  apply (step_play_next 8 8 0 four_frames session streaming
           (0 + inject_Z 4 * (1 / inject_Z 4) - 8 + 8)%Q).
  reflexivity.
Defined.

Lemma session_keeps_the_ring_discipline_witness :
  exists chs : Channels.t,
    channels streaming = Some chs /\
    wf_channels chs /\
    forall (c : nat) (sounds : Sounds.t),
      Channels.data chs !! c = Some sounds ->
      fifo sounds /\
      (Sounds.data sounds !! Z.to_nat (Sounds.consumer_index sounds) = Some None ->
       Sounds.producer_index sounds = Sounds.consumer_index sounds /\
       forall (i : nat) (x : TimedSound.t),
         Sounds.data sounds !! i <> Some (Some x)).
Proof.
  apply (session_keeps_the_ring_discipline 4 2 3 streaming);
    [lia|lia|exact streaming_is_reachable].
Defined.

(** X19.  In every state of a session [ws_error_str] returns, without
    touching its static array, the empty text or the text for
    [NO_CHANNELS]: no entry point stores another code in [weber_error]. *)
Theorem session_error_text
    (text : Z -> string) (samplerate num_channels queue_size : Z)
    (state : WsState) :
  0 <= num_channels -> 0 < queue_size ->
  reachable samplerate num_channels queue_size state ->
  ws_error_str text state
    = Ok (if weber_error state =? 0 then EmptyString else no_channels_text).
Proof.
  intros Hn Hq Hreach.
  destruct (reachable_session_ok _ _ _ _ Hn Hq Hreach) as (He & Hw & _).
  unfold ws_error_str. rewrite He. cbn [Z.eqb negb paNoError].
  destruct Hw as [-> | ->]; reflexivity.
Qed.

Lemma refused_is_reachable : reachable 4 2 3 refused.
Proof.
  apply (reach_step 4 2 3 all_paused refused).
  - apply (reach_step 4 2 3 session all_paused); [apply reach_setup; reflexivity|].
    apply (step_pause (-1) 1 TRUE session all_paused). reflexivity.
  - apply (step_play 8 8 9 (-1) four_frames all_paused refused (-1));
      [intros H; exfalso; revert H; apply Z.lt_nge; reflexivity|reflexivity].
Defined.

Lemma session_error_text_witness :
  ws_error_str (fun _ => EmptyString) refused = Ok no_channels_text.
Proof.
  apply (session_error_text (fun _ => EmptyString) 4 2 3 refused);
    [lia|lia|exact refused_is_reachable].
Defined.

Lemma ws_play_errors
    (pa_now now playat : Q) (channel : Z) (toplay : Sound.t)
    (state state' : WsState) (r : Z) :
  ws_play pa_now now playat channel toplay state = Ok (r, state') ->
  errcode state' = errcode state /\
  (weber_error state' = weber_error state \/ weber_error state' = NO_CHANNELS).
Proof.
  unfold ws_play. intros H.
  destruct (channels state) as [chs|]; [|discriminate].
  cbn [deref bind] in H.
  destruct (if channel <? 0 then _ else _) as [ch|]; [|discriminate].
  cbn [bind] in H. destruct (ch <? 0).
  - injection H as _ <-. split; [reflexivity|right; reflexivity].
  - destruct (array_get _ _); [|discriminate]. cbn [bind] in H.
    destruct (push_sound _ _); [|discriminate]. cbn [bind] in H.
    destruct (put_channel _ _ _); [|discriminate]. cbn [bind] in H.
    injection H as _ <-. split; [reflexivity|left; reflexivity].
Qed.

Lemma ws_play_next_errors
    (pa_now now : Q) (channel : Z) (toplay : Sound.t)
    (state state' : WsState) (r : Q) :
  ws_play_next pa_now now channel toplay state = Ok (r, state') ->
  errcode state' = errcode state /\ weber_error state' = weber_error state.
Proof.
  unfold ws_play_next. intros H.
  destruct (channels state) as [chs|]; [|discriminate].
  cbn [deref bind] in H.
  destruct (array_get (Channels.data chs) _); [|discriminate].
  cbn [bind] in H.
  destruct (interrupt_paused _) as [sounds1|]; [|discriminate].
  cbn [bind] in H.
  destruct (array_get (Sounds.data sounds1) _) as [[old|]|];
    [| |discriminate]; cbn [bind] in H.
  - destruct (put_channel _ _ _); [|discriminate]. cbn [bind] in H.
    injection H as _ <-. split; reflexivity.
  - destruct (push_sound _ _); [|discriminate]. cbn [bind] in H.
    destruct (put_channel _ _ _); [|discriminate]. cbn [bind] in H.
    injection H as _ <-. split; reflexivity.
Qed.

(** X20.  The error [NO_CHANNELS] is never cleared.  Once a call of
    [ws_play] has stored it, it is still there after any later call that
    returns, a successful [ws_play] included, and after any invocation of
    the callback; with no backend error [ws_error_str] goes on returning
    the text for [NO_CHANNELS]. *)
Theorem no_channels_error_is_never_cleared
    (text : Z -> string) (state state' : WsState) :
  step state state' ->
  weber_error state = NO_CHANNELS ->
  weber_error state' = NO_CHANNELS /\
  errcode state' = errcode state /\
  (errcode state = paNoError -> ws_error_str text state' = Ok no_channels_text).
Proof.
  intros Hstep Hw.
  assert (H : weber_error state' = NO_CHANNELS /\ errcode state' = errcode state).
  { destruct Hstep as [pa_now now playat channel toplay state state' r _ H
                      |pa_now now channel toplay state state' r H
                      |channel isstream pause state state' H
                      |format state
                      |out len dac cur state chs0 chs' out' _ _].
    - apply ws_play_errors in H as (He & [Hw'|Hw']);
        split; congruence.
    - apply ws_play_next_errors in H as (He & Hw'). split; congruence.
    - apply ws_pause_frame in H as (He & Hw' & _). split; congruence.
    - unfold ws_warn_str. destruct (channels state) as [chs|]; [|auto].
      destruct (_ <? 0); auto.
    - auto. }
  destruct H as [Hw' He']. split; [exact Hw'|]. split; [exact He'|].
  intros He. unfold ws_error_str. rewrite He', He, Hw'. reflexivity.
Qed.

Lemma no_channels_error_is_never_cleared_witness :
  weber_error (state_of (ws_pause refused 0 0 FALSE)) = NO_CHANNELS /\
  errcode (state_of (ws_pause refused 0 0 FALSE)) = errcode refused /\
  (errcode refused = paNoError ->
   ws_error_str (fun _ => EmptyString) (state_of (ws_pause refused 0 0 FALSE))
     = Ok no_channels_text).
Proof.
  apply (no_channels_error_is_never_cleared (fun _ => EmptyString) refused
           (state_of (ws_pause refused 0 0 FALSE))).
  - apply (step_pause 0 0 FALSE). reflexivity.
  - reflexivity.
Defined.

(** ** Release *)

Lemma next_index_wraps (ci n : Z) :
  0 <= ci < n -> (if ci + 1 =? n then 0 else ci + 1) = (ci + 1) mod n.
Proof.
  intros H. destruct (Z.eqb_spec (ci + 1) n); unwrap.
Qed.

Lemma free_queued_spec (fuel : nat) :
  forall (sounds : Sounds.t) (freed : list Z),
    wf_sounds sounds ->
    (occupied (Sounds.data sounds) <= fuel)%nat ->
    exists (run : list Z) (sounds' : Sounds.t),
      free_queued fuel sounds freed = Ok (freed ++ run, sounds') /\
      wf_sounds sounds' /\
      Sounds.data sounds' !! Z.to_nat (Sounds.consumer_index sounds')
        = Some None /\
      NoDup run /\
      (forall i : Z, i ∈ run -> 0 <= i /\ taken sounds i) /\
      (forall i : nat,
         Sounds.data sounds' !! i
         = if decide (Z.of_nat i ∈ run) then Some None
           else Sounds.data sounds !! i) /\
      (fifo sounds -> fifo sounds').
Proof.
  induction fuel as [|fuel IH]; intros sounds freed Hwf Hocc;
    pose proof Hwf as [Hcap Hci Hpi];
    (destruct (in_range_lookup (Sounds.data sounds)
                 (Sounds.consumer_index sounds)) as (slot & Hslot); [lia|]);
    cbn [free_queued]; rewrite (array_get_ok _ _ _ (proj1 Hci) Hslot);
    cbn [bind]; destruct slot as [s|].
  - pose proof (occupied_positive _ _ _ Hslot). lia.
  - exists [], sounds. rewrite app_nil_r. split; [reflexivity|].
    split; [exact Hwf|]. split; [exact Hslot|]. split; [constructor|].
    split; [intros i Hi; inversion Hi|]. split; [|auto].
    intros i. destruct (decide _) as [Hi|]; [inversion Hi|reflexivity].
  - rewrite array_set_ok by lia. cbn [bind].
    rewrite next_index_wraps by lia.
    set (ci := Sounds.consumer_index sounds) in *.
    set (sounds1 := Sounds.set_consumer_index _ _).
    destruct (IH sounds1 (freed ++ [ci]))
      as (run & sounds' & -> & Hwf' & Hhead' & Hnd & Hrun & Hdata & Hfifo).
    + split; cbn; rewrite ?length_insert; try assumption.
      apply Z.mod_pos_bound. lia.
    + subst sounds1. cbn.
      pose proof (occupied_insert_none _ _ _ Hslot). unfold occupied in *.
      lia.
    + assert (Hout : forall i : Z,
                i ∈ run -> 0 <= i /\ taken sounds i /\ i <> ci).
      { intros i Hi. destruct (Hrun i Hi) as (Hi0 & x & Hx). cbn in Hx.
        split; [exact Hi0|].
        destruct (Z.eq_dec i ci) as [->|Hne].
        - rewrite list_lookup_insert_eq in Hx by lia. discriminate.
        - rewrite list_lookup_insert_ne in Hx by lia.
          split; [exists x; exact Hx|exact Hne]. }
      exists (ci :: run), sounds'. rewrite <- app_assoc.
      split; [reflexivity|]. split; [exact Hwf'|]. split; [exact Hhead'|].
      split; [|split; [|split]].
      * constructor; [|exact Hnd]. intros Hin.
        destruct (Hout ci Hin) as (_ & _ & Hne). now apply Hne.
      * intros i Hi. apply elem_of_cons in Hi as [->|Hi].
        -- split; [lia|]. exists s. exact Hslot.
        -- destruct (Hout i Hi) as (H0 & Ht & _). auto.
      * intros i. rewrite Hdata. cbn.
        destruct (decide (Z.of_nat i ∈ run)) as [Hi|Hi];
          destruct (decide (Z.of_nat i ∈ ci :: run)) as [Hj|Hj];
          try reflexivity.
        -- exfalso. apply Hj. apply elem_of_cons. right. exact Hi.
        -- apply elem_of_cons in Hj as [Hj|Hj]; [|contradiction].
           rewrite <- Hj, Nat2Z.id.
           apply list_lookup_insert_eq. lia.
        -- rewrite list_lookup_insert_ne; [reflexivity|].
           intros E. apply Hj. rewrite <- E, Z2Nat.id by lia.
           apply elem_of_cons. left. reflexivity.
      * intros Hf. apply Hfifo.
        exact (fifo_retired sounds s Hwf Hslot Hf).
  - exists [], sounds. rewrite app_nil_r. split; [reflexivity|].
    split; [exact Hwf|]. split; [exact Hslot|]. split; [constructor|].
    split; [intros i Hi; inversion Hi|]. split; [|auto].
    intros i. destruct (decide _) as [Hi|]; [inversion Hi|reflexivity].
Qed.

(** The result of [freeSounds] on a well-formed ring. *)
Lemma freeSounds_spec (sounds : Sounds.t) :
  wf_sounds sounds ->
  exists (freed : list Z) (sounds' : Sounds.t),
    freeSounds sounds = Ok (freed, sounds') /\
    NoDup freed /\
    (forall i : Z, i ∈ freed -> 0 <= i /\ taken sounds i) /\
    (forall i : nat,
       Sounds.data sounds' !! i
       = if decide (Z.of_nat i ∈ freed) then Some None
         else Sounds.data sounds !! i) /\
    Sounds.data sounds' !! Z.to_nat (Sounds.consumer_index sounds')
      = Some None /\
    (fifo sounds ->
     forall (i : nat) (x : TimedSound.t),
       Sounds.data sounds' !! i <> Some (Some x)).
Proof.
  intros Hwf. unfold freeSounds.
  destruct (free_queued_spec (length (Sounds.data sounds)) sounds [] Hwf)
    as (run & sounds' & Hrun & Hwf' & Hhead & Hnd & Htaken & Hdata & Hfifo).
  { apply occupied_le_length. }
  exists run, sounds'. split; [exact Hrun|]. split; [exact Hnd|].
  split; [exact Htaken|]. split; [exact Hdata|]. split; [exact Hhead|].
  intros Hf. exact (proj2 (fifo_empty_head sounds' Hwf' (Hfifo Hf) Hhead)).
Qed.

(** X21.  [freeSounds] on a well-formed ring returns after at most as many
    turns as the ring has slots.  It passes to [free] the sounds of the
    slots from the consumer index up to the first empty slot, each once,
    clears those slots and leaves the others as they are; when the ring
    keeps the discipline this releases every sound of the ring. *)
Theorem freeSounds_releases_the_queue (sounds : Sounds.t) :
  wf_sounds sounds ->
  exists (freed : list Z) (sounds' : Sounds.t),
    freeSounds sounds = Ok (freed, sounds') /\
    NoDup freed /\
    (forall i : Z, i ∈ freed -> 0 <= i /\ taken sounds i) /\
    (forall i : nat,
       Sounds.data sounds' !! i
       = if decide (Z.of_nat i ∈ freed) then Some None
         else Sounds.data sounds !! i) /\
    Sounds.data sounds' !! Z.to_nat (Sounds.consumer_index sounds')
      = Some None /\
    (fifo sounds ->
     forall (i : nat) (x : TimedSound.t),
       Sounds.data sounds' !! i <> Some (Some x)).
Proof. exact (freeSounds_spec sounds). Qed.

Lemma freeSounds_releases_the_queue_witness :
  exists (freed : list Z) (sounds' : Sounds.t),
    freeSounds (channel_at streaming 2) = Ok (freed, sounds') /\
    NoDup freed /\
    (forall i : Z, i ∈ freed -> 0 <= i /\ taken (channel_at streaming 2) i) /\
    (forall i : nat,
       Sounds.data sounds' !! i
       = if decide (Z.of_nat i ∈ freed) then Some None
         else Sounds.data (channel_at streaming 2) !! i) /\
    Sounds.data sounds' !! Z.to_nat (Sounds.consumer_index sounds')
      = Some None /\
    (fifo (channel_at streaming 2) ->
     forall (i : nat) (x : TimedSound.t),
       Sounds.data sounds' !! i <> Some (Some x)).
Proof.
  apply (freeSounds_releases_the_queue (channel_at streaming 2)).
  split; vm_compute;
    first [reflexivity | split; [discriminate|reflexivity]].
Defined.

Lemma free_from_spec (n : nat) :
  forall (i : Z) (chs : Channels.t),
    wf_channels chs ->
    0 <= i ->
    i + Z.of_nat n <= Z.of_nat (length (Channels.data chs)) ->
    exists released : list (Z * list Z),
      free_from n i chs = Ok released /\
      forall (c : nat) (sounds : Sounds.t),
        (Z.to_nat i <= c < Z.to_nat i + n)%nat ->
        Channels.data chs !! c = Some sounds ->
        exists (freed : list Z) (sounds' : Sounds.t),
          freeSounds sounds = Ok (freed, sounds') /\
          released !! (c - Z.to_nat i)%nat = Some (Z.of_nat c, freed).
Proof.
  induction n as [|n IH]; intros i chs Hwf Hi Hn; cbn [free_from].
  - exists []. split; [reflexivity|]. intros c sounds Hc. lia.
  - destruct (in_range_lookup (Channels.data chs) i) as (x & Hx); [lia|].
    rewrite (array_get_ok _ _ _ Hi Hx). cbn [bind].
    destruct (freeSounds_spec x (wf_channel_lookup _ _ _ Hwf Hx))
      as (freed & x' & Hfree & _).
    rewrite Hfree. cbn [bind fst].
    destruct (IH (i + 1) chs Hwf) as (rest & -> & Hrest); [lia|lia|].
    cbn [bind]. eexists. split; [reflexivity|].
    intros c sounds Hc Hs.
    destruct (Nat.eq_dec c (Z.to_nat i)) as [->|Hne].
    + rewrite Hx in Hs. injection Hs as <-. exists freed, x'.
      split; [exact Hfree|]. rewrite Nat.sub_diag. cbn. do 2 f_equal. lia.
    + destruct (Hrest c sounds) as (f & s' & Hf & Hl); [lia|exact Hs|].
      exists f, s'. split; [exact Hf|].
      replace (c - Z.to_nat i)%nat with (S (c - Z.to_nat (i + 1)))%nat by lia.
      exact Hl.
Qed.

(** X22.  [ws_close] on a session whose channels keep the ring discipline.
    When stopping or closing the stream fails, the code of the failure is
    stored and nothing is released.  Otherwise every sound still queued on
    any channel is passed to [free], once, the state is left without
    channel set and with the code of [Pa_Terminate], and a second call
    releases nothing more. *)
Theorem ws_close_releases_every_sound
    (stop_code close_code terminate_code again : Z)
    (state : WsState) (chs : Channels.t) :
  channels state = Some chs ->
  rings_ok chs ->
  (stop_code <> paNoError ->
   ws_close stop_code close_code terminate_code state
     = Ok (set_errcode state stop_code, [])) /\
  (stop_code = paNoError -> close_code <> paNoError ->
   ws_close stop_code close_code terminate_code state
     = Ok (set_errcode state close_code, [])) /\
  (stop_code = paNoError -> close_code = paNoError ->
   exists released : list (Z * list Z),
     let closed :=
       mkWsState terminate_code (weber_error state) None (stream state) in
     ws_close stop_code close_code terminate_code state = Ok (closed, released) /\
     (forall (c i : nat) (x : TimedSound.t),
        slot_of chs c i = Some (Some x) ->
        exists freed : list Z,
          released !! c = Some (Z.of_nat c, freed) /\
          NoDup freed /\ Z.of_nat i ∈ freed) /\
     ws_close paNoError paNoError again closed
       = Ok (set_errcode closed again, [])).
Proof.
  intros Hchs [Hwf Hfifo]. split; [|split].
  - intros Hstop. unfold ws_close.
    replace (stop_code =? paNoError) with false
      by (symmetry; apply Z.eqb_neq; exact Hstop).
    reflexivity.
  - intros -> Hclose. unfold ws_close.
    replace (close_code =? paNoError) with false
      by (symmetry; apply Z.eqb_neq; exact Hclose).
    reflexivity.
  - intros -> ->. unfold ws_close.
    change (paNoError =? paNoError) with true. cbn [negb].
    cbn [channels set_errcode]. rewrite Hchs. unfold freeChannels.
    destruct (free_from_spec (Z.to_nat (Channels.len chs)) 0 chs Hwf)
      as (released & -> & Hreleased); [lia|destruct Hwf; lia|].
    cbn [bind]. exists released. split; [reflexivity|]. split; [|reflexivity].
    intros c i x Hx. apply slot_of_Some in Hx as (sounds & Hs & Hi).
    pose proof (lookup_lt_Some _ _ _ Hs) as Hc.
    destruct (Hreleased c sounds) as (freed & sounds' & Hfree & Hl);
      [destruct Hwf; lia|exact Hs|].
    rewrite Nat.sub_0_r in Hl. exists freed. split; [exact Hl|].
    destruct (freeSounds_spec sounds (wf_channel_lookup _ _ _ Hwf Hs))
      as (freed' & sounds'' & Hfree' & Hnd & _ & Hdata & _ & Hnone).
    rewrite Hfree in Hfree'. injection Hfree' as <- <-.
    split; [exact Hnd|].
    specialize (Hnone (Hfifo _ _ Hs) i x). rewrite Hdata in Hnone.
    destruct (decide (Z.of_nat i ∈ freed)) as [Hin|Hout]; [exact Hin|].
    contradiction.
Qed.

Lemma streaming_rings_ok : rings_ok (channels_of streaming).
Proof.
  destruct (reachable_session_ok 4 2 3 streaming ltac:(lia) ltac:(lia)
              streaming_is_reachable) as (_ & _ & chs & Hchs & Hok).
  injection Hchs as <-. exact Hok.
Qed.

Lemma ws_close_releases_every_sound_witness :
  exists released : list (Z * list Z),
    let closed := mkWsState 0 (weber_error streaming) None (stream streaming) in
    ws_close paNoError paNoError 0 streaming = Ok (closed, released) /\
    (forall (c i : nat) (x : TimedSound.t),
       slot_of (channels_of streaming) c i = Some (Some x) ->
       exists freed : list Z,
         released !! c = Some (Z.of_nat c, freed) /\
         NoDup freed /\ Z.of_nat i ∈ freed) /\
    ws_close paNoError paNoError 0 closed = Ok (set_errcode closed 0, []).
Proof.
  destruct (ws_close_releases_every_sound paNoError paNoError 0 0 streaming
              (channels_of streaming) eq_refl streaming_rings_ok)
    as (_ & _ & H).
  exact (H eq_refl eq_refl).
Defined.


(** ** Two sounds in a row on one channel *)

Lemma on_air_starts_now (len : Z) (buffer_start samplerate samplelen : Q)
    (s : TimedSound.t) (error : Z) :
  on_air s ->
  starts_now len buffer_start samplelen s /\
  padding_of buffer_start samplerate s = 0 /\
  error_after buffer_start samplerate s error = error.
Proof.
  unfold on_air, starts_now, padding_of, error_after, start_frame, lateness_of.
  intros [Hon|(Hzero & Hasap)].
  - split; [now left|].
    destruct (Z.eqb_spec (TimedSound.offset s) 0); [lia|]. now split.
  - split; [right; split; [exact Hzero|now left]|].
    rewrite Hzero. cbn [Z.eqb].
    assert (E : Qltb 0 (TimedSound.start s) = false)
      by (apply Qltb_ge; exact Hasap).
    rewrite E. now split.
Qed.

Lemma burst_at_lookup (s : TimedSound.t) (o zp len : Z) (j : nat) :
  (j < Z.to_nat (2 * len))%nat ->
  out_at (burst_at s o zp len) (Z.of_nat j) = burst_at_sample s o zp j.
Proof.
  intros Hj. unfold out_at, burst_at.
  rewrite Nat2Z.id, list_lookup_fmap, lookup_seq_lt by exact Hj. reflexivity.
Qed.

(** While the first sound fills the buffer, the second adds nothing. *)
Lemma relay_burst_alone (s1 s2 : TimedSound.t) (o len : Z) :
  len <= TimedSound.len s1 - o ->
  burst_at s1 o 0 len = relay_burst s1 s2 o len.
Proof.
  intros Hfull. apply list_fmap_ext. intros i j Hj.
  apply lookup_seq in Hj as [-> Hi]. cbn [Nat.add].
  unfold relay_sample.
  assert (E : burst_at_sample s2 0 (TimedSound.len s1 - o) i = 0).
  { unfold burst_at_sample.
    assert (Z.of_nat i / 2 < len) by (apply Z.div_lt_upper_bound; lia).
    destruct (Z.leb_spec 0 (Z.of_nat i / 2 - (TimedSound.len s1 - o)));
      [lia|reflexivity]. }
  rewrite E. lia.
Qed.

(** The buffer in which the second sound has been added to the burst of
    the first, from the frame after the last frame of the first. *)
Lemma relay_burst_both (s1 s2 : TimedSound.t) (o len : Z) (out' : list Z) :
  0 < len ->
  0 <= TimedSound.len s1 - o < len ->
  int16_samples s2 ->
  length out' = Z.to_nat (2 * len) ->
  (forall f side : Z,
     0 <= f < len -> 0 <= side < 2 ->
     out_at out' (2 * f + side)
     = if (TimedSound.len s1 - o <=? f)
          && (f <? TimedSound.len s1 - o + TimedSound.len s2) then
         to_int16 (out_at (burst_at s1 o 0 len) (2 * f + side)
                   + sample_at s2 (f - (TimedSound.len s1 - o)
                                   + side * TimedSound.len s2))
       else out_at (burst_at s1 o 0 len) (2 * f + side)) ->
  out' = relay_burst s1 s2 o len.
Proof.
  intros Hlen He Hint Hlen_out Hget. apply list_eq. intros j.
  unfold relay_burst. rewrite list_lookup_fmap.
  destruct (decide (j < Z.to_nat (2 * len))%nat) as [Hj|Hj].
  2:{ rewrite lookup_ge_None_2 by lia.
      rewrite lookup_ge_None_2 by (rewrite length_seq; lia). reflexivity. }
  rewrite lookup_seq_lt by exact Hj. cbn [fmap option_fmap option_map Nat.add].
  rewrite lookup_out_at by lia. f_equal.
  pose proof (Z.div_mod (Z.of_nat j) 2 ltac:(lia)) as Hdm.
  pose proof (Z.mod_pos_bound (Z.of_nat j) 2 ltac:(lia)) as Hmod.
  assert (Hq : 0 <= Z.of_nat j / 2 < len)
    by (split; [apply Z.div_pos; lia|apply Z.div_lt_upper_bound; lia]).
  rewrite Hdm at 1.
  rewrite (Hget (Z.of_nat j / 2) (Z.of_nat j mod 2)) by lia.
  rewrite <- Hdm. rewrite burst_at_lookup by exact Hj.
  unfold relay_sample.
  set (e := TimedSound.len s1 - o) in *.
  set (f := Z.of_nat j / 2) in *.
  assert (E2 : burst_at_sample s2 0 e j
               = if (e <=? f) && (f <? e + TimedSound.len s2) then
                   sample_at s2 (f - e + Z.of_nat j mod 2 * TimedSound.len s2)
                 else 0).
  { unfold burst_at_sample. fold f.
    destruct (Z.leb_spec e f); destruct (Z.leb_spec 0 (f - e)); try lia;
      cbn [andb]; [|reflexivity].
    destruct (Z.ltb_spec f (e + TimedSound.len s2));
      destruct (Z.ltb_spec (f - e) (TimedSound.len s2 - 0)); try lia.
    f_equal. lia. }
  rewrite E2.
  destruct ((e <=? f) && (f <? e + TimedSound.len s2)) eqn:Hin; [|lia].
  apply andb_true_iff in Hin as [H1 H2]. apply Z.leb_le in H1.
  assert (E : burst_at_sample s1 o 0 j = 0).
  { unfold burst_at_sample. fold f.
    destruct (Z.leb_spec 0 (f - 0)); [|reflexivity].
    destruct (Z.ltb_spec (f - 0) (TimedSound.len s1 - o));
      [lia|reflexivity]. }
  rewrite E, Z.add_0_l, to_int16_small by apply Hint.
  reflexivity.
Qed.

Section Relay.
Variable len : Z.
Variable buffer_start : Q.
Variable samplerate samplelen : Q.
Hypothesis Hlen : 0 < len <= INT_MAX.
Hypothesis Hrates : exact_rates samplerate samplelen.

(** The first turn of the loop of a channel, on an output buffer of zeros,
    when the sound at the head goes on or starts at the first frame. *)
Lemma consume_on_air (sounds : Sounds.t) (s : TimedSound.t)
    (error : Z) (flag : bool) :
  wf_sounds sounds ->
  Sounds.data sounds !! Z.to_nat (Sounds.consumer_index sounds) = Some (Some s) ->
  sound_ok len s ->
  int16_samples s ->
  TimedSound.offset s < TimedSound.len s ->
  on_air s ->
  let o := TimedSound.offset s in
  let done := TimedSound.len s <=? len + o in
  exists (d : Q) (flag' : bool),
    consume len buffer_start samplerate samplelen s
      (mkCb sounds error (replicate (Z.to_nat (2 * len)) 0) 0 flag 0)
    = Ok (mkCb
            (Sounds.mk
               (<[Z.to_nat (Sounds.consumer_index sounds) :=
                    if done then None
                    else Some (TimedSound.set_offset s (len + o))]>
                  (Sounds.data sounds))
               (Sounds.len sounds) (Sounds.paused sounds)
               (if done then
                  (Sounds.consumer_index sounds + 1) mod Sounds.len sounds
                else Sounds.consumer_index sounds)
               (Sounds.producer_index sounds) d)
            error (burst_at s o 0 len) (Z.min len (TimedSound.len s - o))
            flag' 0).
Proof.
  intros Hwf Hhead [Hoff Hbuf Hrange] Hint Hlt Hair o done.
  assert (Hlen' : 0 <= len <= INT_MAX) by lia.
  destruct (on_air_starts_now len buffer_start samplerate samplelen s error
              Hair) as (Hcase & Hzp & Herr).
  pose proof Hwf as [Hcap Hci Hpi].
  unfold consume.
  destruct (schedule_starting len buffer_start samplerate samplelen sounds s
              error (replicate (Z.to_nat (2 * len)) 0) flag Hcase)
    as (d & flag' & -> & Hgo).
  rewrite Hzp, Herr. unfold play. cb_simpl. rewrite Hgo.
  destruct (Z.ltb_spec (TimedSound.offset s) (TimedSound.len s)); [|lia].
  cbn [andb].
  destruct (mix_content len Hlen' s (TimedSound.offset s) 0 (proj1 Hoff) Hbuf
              ltac:(lia) (Z.to_nat len) 0
              (replicate (Z.to_nat (2 * len)) 0))
    as (out' & -> & Hlen_out & Hget);
    [lia|lia|rewrite length_replicate; lia|].
  cb_simpl. rewrite array_set_ok by lia. cb_simpl.
  fold o. rewrite Z.sub_0_r. rewrite to_ulong_int by lia.
  rewrite to_int_small by (unfold INT_MIN; lia).
  rewrite retire_spec by (cb_simpl; split; cb_simpl; rewrite ?length_insert; lia).
  cb_simpl. fold done.
  assert (Hstop : Z.min len (Z.max 0 (0 + (TimedSound.len s - TimedSound.offset s)))
                  = Z.min len (TimedSound.len s - o)) by (subst o; lia).
  rewrite Hstop in *.
  assert (Hout : out' = burst_at s o 0 len).
  { apply list_eq. intros j. unfold burst_at.
    rewrite list_lookup_fmap.
    destruct (decide (j < Z.to_nat (2 * len))%nat) as [Hj|Hj].
    2:{ rewrite lookup_ge_None_2 by (rewrite Hlen_out, length_replicate; lia).
        rewrite lookup_ge_None_2 by (rewrite length_seq; lia). reflexivity. }
    rewrite lookup_seq_lt by exact Hj. cbn [fmap option_fmap option_map Nat.add].
    rewrite lookup_out_at by (rewrite Hlen_out, length_replicate; lia).
    f_equal. unfold burst_at_sample.
    pose proof (Z.div_mod (Z.of_nat j) 2 ltac:(lia)) as Hdm.
    pose proof (Z.mod_pos_bound (Z.of_nat j) 2 ltac:(lia)) as Hmod.
    rewrite Hdm at 1.
    rewrite (Hget (Z.of_nat j / 2) (Z.of_nat j mod 2)) by lia.
    rewrite out_at_zeros.
    assert (Hq : Z.of_nat j / 2 < len) by lia.
    destruct (Z.leb_spec 0 (Z.of_nat j / 2));
      destruct (Z.leb_spec 0 (Z.of_nat j / 2 - 0)); try lia;
      cbn [andb].
    destruct (Z.ltb_spec (Z.of_nat j / 2)
                (Z.min len (TimedSound.len s - o)));
      destruct (Z.ltb_spec (Z.of_nat j / 2 - 0) (TimedSound.len s - o));
      try lia.
    rewrite Z.add_0_l, to_int16_small by apply Hint.
    reflexivity. }
  rewrite Hout. exists d, flag'.
  replace (Z.min len (Z.max 0 (0 + (TimedSound.len s - o))))
    with (Z.min len (TimedSound.len s - o)) by lia.
  destruct done; cb_simpl; [rewrite list_insert_insert_eq|]; reflexivity.
Qed.
(** A sound is due in the buffer exactly when the frame of its start
    instant is one of the buffer's. *)
Lemma due_iff_frame (start : Q) :
  (start < buffer_start + samplelen * inject_Z len)%Q
  <-> Qfloor ((start - buffer_start) * samplerate) < len.
Proof.
  rewrite <- Qfloor_lt_Z. destruct Hrates as [Hpos Hone].
  assert (E : (inject_Z len == samplelen * inject_Z len * samplerate)%Q).
  { rewrite <- Qmult_assoc, (Qmult_comm (inject_Z len)), Qmult_assoc, Hone.
    ring. }
  split; intros H.
  - assert (H1 : ((start - buffer_start) * samplerate
                  < samplelen * inject_Z len * samplerate)%Q)
      by (apply Qmult_lt_compat_r; [exact Hpos|lra]).
    rewrite <- E in H1. exact H1.
  - rewrite E in H. apply Qmult_lt_r in H; [lra|exact Hpos].
Qed.

(** A later turn of the loop, at frame [outi] of the buffer, on a sound
    that is to be played as soon as possible or was due at an earlier
    frame: the sound starts at that frame, and a sound that was due earlier
    has the frames it is late by recorded. *)
Lemma consume_following (sounds : Sounds.t) (s : TimedSound.t) (error : Z)
    (out : list Z) (outi : Z) (flag : bool) (zero_padding : Z) :
  wf_sounds sounds ->
  Sounds.data sounds !! Z.to_nat (Sounds.consumer_index sounds) = Some (Some s) ->
  sound_ok len s ->
  follows buffer_start samplerate outi s ->
  0 <= outi < len ->
  Z.of_nat (length out) = 2 * len ->
  let done := TimedSound.len s <=? len - outi in
  exists (d : Q) (out' : list Z),
    consume len buffer_start samplerate samplelen s
      (mkCb sounds error out outi flag zero_padding)
    = Ok (mkCb
            (Sounds.mk
               (<[Z.to_nat (Sounds.consumer_index sounds) :=
                    if done then None
                    else Some (TimedSound.set_offset s (len - outi))]>
                  (Sounds.data sounds))
               (Sounds.len sounds) (Sounds.paused sounds)
               (if done then
                  (Sounds.consumer_index sounds + 1) mod Sounds.len sounds
                else Sounds.consumer_index sounds)
               (Sounds.producer_index sounds) d)
            (lateness_at buffer_start samplerate outi s error) out'
            (Z.min len (outi + TimedSound.len s)) true outi) /\
    length out' = length out /\
    forall f side : Z,
      0 <= f < len -> 0 <= side < 2 ->
      out_at out' (2 * f + side)
      = if (outi <=? f) && (f <? outi + TimedSound.len s) then
          to_int16 (out_at out (2 * f + side)
                    + sample_at s (f - outi + side * TimedSound.len s))
        else out_at out (2 * f + side).
Proof.
  intros Hwf Hhead [Hoff Hbuf Hrange] (Hzero & Hframes & Hwhen) Houti Hout done.
  assert (Hlen' : 0 <= len <= INT_MAX) by lia.
  pose proof Hwf as [Hcap Hci Hpi].
  assert (Hsched :
            exists d : Q,
              schedule len buffer_start samplerate samplelen s
                (mkCb sounds error out outi flag zero_padding)
              = mkCb (Sounds.set_done_at sounds d)
                  (lateness_at buffer_start samplerate outi s error) out outi
                  true outi).
  { unfold schedule, lateness_at. cb_simpl. rewrite Hzero. cbn [Z.eqb].
    destruct (Qltb 0 (TimedSound.start s)) eqn:E.
    - apply Qltb_true in E.
      destruct Hwhen as [Hasap|Hdue]; [lra|].
      assert (Hin : (TimedSound.start s
                     < buffer_start + samplelen * inject_Z len)%Q)
        by (apply due_iff_frame; lia).
      rewrite (Qltb_lt _ _ Hin).
      destruct (Z.ltb_spec
                  (Qfloor ((TimedSound.start s - buffer_start) * samplerate))
                  outi); [|lia].
      eexists. reflexivity.
    - eexists. reflexivity. }
  unfold consume. destruct Hsched as (d & ->).
  unfold play. cb_simpl. rewrite Hzero. cbn [Z.ltb Z.compare orb].
  destruct (Z.ltb_spec 0 (TimedSound.len s)); [|lia]. cbn [andb].
  destruct (mix_content len Hlen' s 0 outi ltac:(lia) Hbuf ltac:(lia)
              (Z.to_nat len) outi out)
    as (out' & -> & Hlen_out & Hget); [lia|lia|exact Hout|].
  cb_simpl. rewrite array_set_ok by lia. cb_simpl.
  rewrite Z.add_0_r. rewrite to_ulong_int by lia.
  rewrite to_int_small by (unfold INT_MIN; lia).
  rewrite retire_spec by (cb_simpl; split; cb_simpl; rewrite ?length_insert; lia).
  cb_simpl. fold done.
  replace (Z.min len (Z.max outi (outi + (TimedSound.len s - 0))))
    with (Z.min len (outi + TimedSound.len s)) in * by lia.
  eexists _, out'. split; [|split; [exact Hlen_out|]].
  - destruct done; cb_simpl; [rewrite list_insert_insert_eq|]; reflexivity.
  - intros f side Hf Hside. rewrite (Hget f side Hf Hside).
    rewrite Z.add_0_r.
    destruct (Z.leb_spec outi f); cbn [andb]; [|reflexivity].
    destruct (Z.ltb_spec f (Z.min len (outi + TimedSound.len s)));
      destruct (Z.ltb_spec f (outi + TimedSound.len s)); try lia;
      reflexivity.
Qed.

(** The turn of a channel that holds two sounds in a row, the first on
    air and the second enqueued by [ws_play_next], on an output buffer of
    zeros; [rest] is the number of frames of the buffer left when the first
    sound has ended. *)
Lemma drain_channel_relay (sounds : Sounds.t) (s1 s2 : TimedSound.t)
    (error : Z) (flag : bool) :
  wf_sounds sounds ->
  let head := Z.to_nat (Sounds.consumer_index sounds) in
  let next :=
    Z.to_nat ((Sounds.consumer_index sounds + 1) mod Sounds.len sounds) in
  head <> next ->
  Sounds.data sounds !! head = Some (Some s1) ->
  Sounds.data sounds !! next = Some (Some s2) ->
  (forall (i : nat) (x : TimedSound.t),
     Sounds.data sounds !! i = Some (Some x) -> i = head \/ i = next) ->
  sound_ok len s1 ->
  int16_samples s1 ->
  TimedSound.offset s1 < TimedSound.len s1 ->
  on_air s1 ->
  sound_ok len s2 ->
  int16_samples s2 ->
  follows buffer_start samplerate
    (TimedSound.len s1 - TimedSound.offset s1) s2 ->
  let o := TimedSound.offset s1 in
  let rest := len - (TimedSound.len s1 - o) in
  exists st' : cb,
    drain_channel len buffer_start samplerate samplelen sounds error
      (replicate (Z.to_nat (2 * len)) 0) flag = Ok st' /\
    cb_error st'
      = (if 0 <? rest then
           lateness_at buffer_start samplerate (TimedSound.len s1 - o) s2 error
         else error) /\
    cb_out st' = relay_burst s1 s2 o len /\
    Sounds.len (cb_sounds st') = Sounds.len sounds /\
    Sounds.paused (cb_sounds st') = Sounds.paused sounds /\
    Sounds.producer_index (cb_sounds st') = Sounds.producer_index sounds /\
    0 <= Sounds.consumer_index (cb_sounds st') < Sounds.len sounds /\
    if rest <? 0 then
      Sounds.data (cb_sounds st')
        = <[head := Some (TimedSound.set_offset s1 (len + o))]>
            (Sounds.data sounds) /\
      Sounds.consumer_index (cb_sounds st') = Sounds.consumer_index sounds
    else if TimedSound.len s2 <=? rest then
      Sounds.data (cb_sounds st')
        = <[next := None]> (<[head := None]> (Sounds.data sounds))
    else
      Sounds.data (cb_sounds st')
        = <[next := Some (TimedSound.set_offset s2 rest)]>
            (<[head := None]> (Sounds.data sounds)) /\
      Sounds.consumer_index (cb_sounds st')
        = (Sounds.consumer_index sounds + 1) mod Sounds.len sounds.
Proof.
  intros Hwf head next Hne Hhead Hnext Honly Hok1 Hint1 Hlt1 Hair Hok2 Hint2
    Hstr o rest.
  pose proof Hwf as [Hcap Hci Hpi].
  pose proof Hok1 as [Hoff1 Hbuf1 Hrange1].
  pose proof Hstr as (Hzero2 & Hframes2 & Hwhen2).
  assert (Hnext_range : 0 <= (Sounds.consumer_index sounds + 1)
                             mod Sounds.len sounds < Sounds.len sounds)
    by (apply Z.mod_pos_bound; lia).
  assert (Hhead_lt : (head < length (Sounds.data sounds))%nat)
    by (subst head; lia).
  assert (Hnext_lt : (next < length (Sounds.data sounds))%nat)
    by (subst next; lia).
  unfold drain_channel. rewrite (array_get_ok _ _ _ (proj1 Hci) Hhead).
  cbn [bind].
  destruct (length (Sounds.data sounds)) as [|fuel] eqn:Hfuel; [lia|].
  assert (Hfuel2 : (1 <= fuel)%nat) by lia.
  cbn [drain]. cb_simpl. rewrite (array_get_ok _ _ _ (proj1 Hci) Hhead).
  cbn [bind]. rewrite to_ulong_int by lia.
  destruct (Z.ltb_spec 0 len); [|lia].
  destruct (consume_on_air sounds s1 error flag Hwf Hhead Hok1 Hint1 Hlt1 Hair)
    as (d1 & flag1 & ->).
  cbn [bind]. fold o head.
  replace (TimedSound.len s1 <=? len + o) with (negb (rest <? 0))
    by (subst rest; destruct (Z.ltb_spec (len - (TimedSound.len s1 - o)) 0);
        destruct (Z.leb_spec (TimedSound.len s1) (len + o)); cbn; lia).
  destruct (Z.ltb_spec rest 0) as [Hmore|Hdone]; cbn [negb].
  - (* the first sound fills the buffer and goes on *)
    rewrite (drain_buffer_full len buffer_start samplerate samplelen _ _
               (TimedSound.set_offset s1 (len + o))).
    + eexists. split; [reflexivity|]. cb_simpl.
      destruct (Z.ltb_spec 0 rest); [lia|].
      split; [reflexivity|].
      split; [apply relay_burst_alone; subst rest; lia|].
      repeat split; lia.
    + cb_simpl. lia.
    + cb_simpl. apply list_lookup_insert_eq. lia.
    + cb_simpl. subst rest. lia.
    + lia.
  - (* the first sound ends in this buffer *)
    fold next.
    set (sounds1 :=
           Sounds.mk (<[head := None]> (Sounds.data sounds))
             (Sounds.len sounds) (Sounds.paused sounds)
             ((Sounds.consumer_index sounds + 1) mod Sounds.len sounds)
             (Sounds.producer_index sounds) d1).
    assert (Hw1 : wf_sounds sounds1)
      by (split; cbn; rewrite ?length_insert; lia).
    assert (Hhead1 : Sounds.data sounds1
                       !! Z.to_nat (Sounds.consumer_index sounds1)
                     = Some (Some s2)).
    { cbn. fold next. rewrite list_lookup_insert_ne by exact Hne.
      exact Hnext. }
    replace (Z.min len (TimedSound.len s1 - o)) with (len - rest)
      by (subst rest; lia).
    destruct fuel as [|fuel]; [lia|].
    cbn [drain]. cb_simpl.
    rewrite (array_get_ok _ (Sounds.consumer_index sounds1) _
               (proj1 Hnext_range) Hhead1).
    cbn [bind].
    rewrite to_ulong_int by (subst rest; lia).
    destruct (Z.ltb_spec (len - rest) len) as [Hroom|Hfull].
    + (* and the second starts after its last frame *)
      destruct (consume_following sounds1 s2 error (burst_at s1 o 0 len)
                  (len - rest) flag1 0 Hw1 Hhead1 Hok2)
        as (d2 & out' & -> & Hlen_out & Hget).
      { replace (len - rest) with (TimedSound.len s1 - o)
          by (subst rest; lia).
        exact Hstr. }
      { subst rest. lia. }
      { unfold burst_at. rewrite length_fmap, length_seq. lia. }
      subst sounds1. cbn [bind]. cb_simpl. fold next.
      replace (len - (len - rest)) with rest by lia.
      replace (len - rest) with (TimedSound.len s1 - o)
        by (subst rest; lia).
      destruct (Z.ltb_spec 0 rest); [|lia].
      assert (Hout : out' = relay_burst s1 s2 o len).
      { apply relay_burst_both; [lia|subst rest; lia|exact Hint2| |].
        - rewrite Hlen_out. unfold burst_at.
          now rewrite length_fmap, length_seq.
        - intros f side Hf Hside. rewrite (Hget f side Hf Hside).
          replace (len - rest) with (TimedSound.len s1 - o)
            by (subst rest; lia).
          reflexivity. }
      destruct (Z.leb_spec (TimedSound.len s2) rest) as [Hdone2|Hmore2].
      * rewrite drain_head_empty.
        -- eexists. split; [reflexivity|]. cb_simpl.
           split; [reflexivity|]. split; [exact Hout|].
           repeat split; try lia; apply Z.mod_pos_bound; lia.
        -- cb_simpl. apply Z.mod_pos_bound. lia.
        -- cb_simpl.
           set (third := Z.to_nat (((Sounds.consumer_index sounds + 1)
                                    mod Sounds.len sounds + 1)
                                   mod Sounds.len sounds)).
           assert (Hthird : (third < length (Sounds.data sounds))%nat).
           { subst third.
             pose proof (Z.mod_pos_bound
                           ((Sounds.consumer_index sounds + 1)
                            mod Sounds.len sounds + 1)
                           (Sounds.len sounds) ltac:(lia)). lia. }
           destruct (Nat.eq_dec next third) as [E|E].
           { rewrite <- E. apply list_lookup_insert_eq.
             rewrite length_insert. lia. }
           rewrite list_lookup_insert_ne by exact E.
           destruct (Nat.eq_dec head third) as [E'|E'].
           { rewrite <- E'. apply list_lookup_insert_eq. lia. }
           rewrite list_lookup_insert_ne by exact E'.
           destruct (lookup_lt_is_Some_2 _ _ Hthird) as [[x|] Hx];
             [|exact Hx].
           exfalso. destruct (Honly _ _ Hx); congruence.
      * rewrite (drain_buffer_full len buffer_start samplerate samplelen _ _
                   (TimedSound.set_offset s2 rest)).
        -- eexists. split; [reflexivity|]. cb_simpl.
           split; [reflexivity|]. split; [exact Hout|].
           repeat split; lia.
        -- cb_simpl. lia.
        -- cb_simpl. fold next. apply list_lookup_insert_eq.
           rewrite length_insert. lia.
        -- cb_simpl. lia.
        -- lia.
    + (* exactly at the end of the buffer: the second is left untouched *)
      assert (Hrest : rest = 0) by lia. subst sounds1.
      eexists. split; [reflexivity|]. cb_simpl.
      destruct (Z.ltb_spec 0 rest); [lia|].
      split; [reflexivity|].
      split; [apply relay_burst_alone; subst rest; lia|].
      destruct (Z.leb_spec (TimedSound.len s2) rest); [lia|].
      repeat split; try lia.
      rewrite Hrest. symmetry. apply list_insert_id.
      rewrite list_lookup_insert_ne by exact Hne. rewrite Hnext.
      do 2 f_equal. destruct s2. cbn in *. now subst.
Qed.
End Relay.

Lemma duo_idle (chs : Channels.t) (c : nat) (s1 s2 : TimedSound.t) (c' : Z) :
  wf_channels chs -> duo chs c s1 s2 ->
  0 <= c' < Channels.len chs -> Z.to_nat c' <> c -> idle chs c'.
Proof.
  intros Hwf (x & Hx & _ & _ & _ & _ & Honly) Hc Hne.
  destruct (wf_head_slot chs c' Hwf Hc) as (sounds & slot & Hs & Hslot).
  exists sounds. split; [exact Hs|]. rewrite Hslot. f_equal.
  destruct slot as [y|]; [|reflexivity]. exfalso. apply Hne.
  apply (Honly (Z.to_nat c') (Z.to_nat (Sounds.consumer_index sounds)) y).
  apply slot_of_Some. eauto.
Qed.

Lemma same_slots_duo (a b : Channels.t) (c : nat) (s1 s2 : TimedSound.t) :
  same_slots a b -> duo a c s1 s2 -> duo b c s1 s2.
Proof.
  intros R (x & Hx & Hp & Hne & Hhead & Hnext & Honly).
  pose proof R as (_ & Hab & _).
  destruct (Hab c x Hx) as (y & Hy & (Hd & Hl & Hpa & Hc & _)).
  exists y. cbv zeta. rewrite <- Hd, <- Hc, <- Hl.
  split; [exact Hy|]. split; [congruence|]. split; [exact Hne|].
  split; [exact Hhead|]. split; [exact Hnext|].
  intros c' i z Hz. rewrite (same_slots_slot_of a b c' i R) in Hz.
  exact (Honly c' i z Hz).
Qed.

(** A callback on a set whose only sounds are two in a row on one channel,
    the first on air and the second to follow it: the output is the rest
    of the first sound and, right after its last frame, the second sound
    from its first frame on; when the second was due earlier, the frames
    it is late by are recorded. *)
Lemma ws_callback_relay (out : list Z) (len : Z)
    (outputBufferDacTime currentTime : Q) (chs : Channels.t) (c : nat)
    (s1 s2 : TimedSound.t) :
  0 < len <= INT_MAX ->
  Z.of_nat (length out) = 2 * len ->
  wf_channels chs ->
  exact_rates (Channels.samplerate chs) (Channels.samplelen chs) ->
  duo chs c s1 s2 ->
  sound_ok len s1 ->
  int16_samples s1 ->
  TimedSound.offset s1 < TimedSound.len s1 ->
  on_air s1 ->
  sound_ok len s2 ->
  int16_samples s2 ->
  follows outputBufferDacTime (Channels.samplerate chs)
    (TimedSound.len s1 - TimedSound.offset s1) s2 ->
  let o := TimedSound.offset s1 in
  let rest := len - (TimedSound.len s1 - o) in
  exists chs' : Channels.t,
    ws_callback out len outputBufferDacTime currentTime chs
      = Ok (chs', relay_burst s1 s2 o len) /\
    wf_channels chs' /\
    Channels.samplerate chs' = Channels.samplerate chs /\
    Channels.samplelen chs' = Channels.samplelen chs /\
    Channels.playback_error chs'
      = (if 0 <? rest then
           lateness_at outputBufferDacTime (Channels.samplerate chs)
             (TimedSound.len s1 - o) s2 (Channels.playback_error chs)
         else Channels.playback_error chs) /\
    (if rest <? 0 then duo chs' c (TimedSound.set_offset s1 (len + o)) s2
     else if TimedSound.len s2 <=? rest then silent chs'
     else solo chs' c (TimedSound.set_offset s2 rest)).
Proof.
  intros Hlen Hout Hwf Hrates Hduo Hok1 Hint1 Hlt1 Hair Hok2 Hint2 Hstr o rest.
  pose proof Hduo as (sounds0 & Hs0 & Hp0 & Hne & Hhead0 & Hnext0 & Honly).
  pose proof (wf_channel_lookup _ _ _ Hwf Hs0) as Hw0.
  pose proof Hw0 as [Hcap0 Hci0 Hpi0].
  set (head := Z.to_nat (Sounds.consumer_index sounds0)) in *.
  set (next := Z.to_nat ((Sounds.consumer_index sounds0 + 1)
                         mod Sounds.len sounds0)) in *.
  set (e' := if 0 <? rest then
               lateness_at outputBufferDacTime (Channels.samplerate chs)
                 (TimedSound.len s1 - o) s2 (Channels.playback_error chs)
             else Channels.playback_error chs).
  destruct (ws_callback_one_busy_gen out len outputBufferDacTime currentTime
              c chs
              (fun e x out2 =>
                 e = e' /\
                 out2 = relay_burst s1 s2 o len /\
                 wf_sounds x /\
                 Sounds.paused x = 0 /\
                 Sounds.len x = Sounds.len sounds0 /\
                 if rest <? 0 then
                   Sounds.data x
                     = <[head := Some (TimedSound.set_offset s1 (len + o))]>
                         (Sounds.data sounds0) /\
                   Sounds.consumer_index x = Sounds.consumer_index sounds0
                 else if TimedSound.len s2 <=? rest then
                   Sounds.data x
                     = <[next := None]> (<[head := None]> (Sounds.data sounds0))
                 else
                   Sounds.data x
                     = <[next := Some (TimedSound.set_offset s2 rest)]>
                         (<[head := None]> (Sounds.data sounds0)) /\
                   Sounds.consumer_index x
                     = (Sounds.consumer_index sounds0 + 1)
                       mod Sounds.len sounds0))
    as (chs1 & chs3 & e & x & out2 & Hrun & R1 & R3
        & -> & -> & Hwx & Hpx & Hlx & Hclass).
  - lia.
  - exact Hout.
  - exact Hwf.
  - eapply lookup_lt_Some. exact Hs0.
  - intros c' Hc' Hne'. exact (duo_idle chs c s1 s2 c' Hwf Hduo Hc' Hne').
  - intros m1 Ho Hf R. pose proof R as (_ & Hab & _ & Herr & Hsr & Hsl).
    destruct (Hab c sounds0 Hs0) as (sounds1 & Hs1 & R01).
    pose proof R01 as (Hd & Hl & Hp & Hc & Hpi).
    pose proof (same_ring_wf _ _ R01 Hw0) as Hw1.
    destruct (drain_channel_relay len outputBufferDacTime
                (Channels.samplerate (mx_channels m1))
                (Channels.samplelen (mx_channels m1)) Hlen
                ltac:(rewrite <- Hsr, <- Hsl; exact Hrates)
                sounds1 s1 s2 (Channels.playback_error (mx_channels m1))
                (mx_should_start m1) Hw1)
      as (st' & Hdrain & He & Hout' & Hl' & Hp' & Hpi' & Hci' & Hclass');
      try assumption.
    { rewrite <- Hc, <- Hl. exact Hne. }
    { rewrite <- Hd, <- Hc. exact Hhead0. }
    { rewrite <- Hd, <- Hc, <- Hl. exact Hnext0. }
    { intros i y Hy. rewrite <- Hd in Hy. rewrite <- Hc, <- Hl.
      refine (proj2 (Honly c i y _)). apply slot_of_Some. eauto. }
    { rewrite <- Hsr. exact Hstr. }
    unfold mix_channel.
    rewrite (array_get_ok _ _ sounds1) by (rewrite ?Nat2Z.id; lia || exact Hs1).
    cbn [bind]. rewrite <- Hp, Hp0. cbn [Z.eqb negb].
    rewrite Ho, Hdrain. cbn [bind]. rewrite He.
    rewrite (put_channel_ok _ _ sounds1)
      by (rewrite ?Nat2Z.id; lia || exact Hs1).
    cbn [bind].
    eexists _, _, _, _. split; [reflexivity|].
    rewrite <- Hd, <- Hc, <- Hl in *. fold head next in Hclass'.
    fold o rest in Hout', Hclass'.
    assert (Hwst : wf_sounds (cb_sounds st'))
      by (split; [|lia|lia]; rewrite Hl';
          destruct (rest <? 0); [|destruct (TimedSound.len s2 <=? rest)];
          [destruct Hclass' as [-> _]|rewrite Hclass'
          |destruct Hclass' as [-> _]];
          rewrite ?length_insert; exact Hcap0).
    split; [exact Hwst|].
    split; [rewrite <- Hsr, <- Herr; reflexivity|].
    split; [exact Hout'|]. split; [exact Hwst|]. split; [congruence|].
    split; [exact Hl'|]. exact Hclass'.
  - assert (Hhead_lt : (head < length (Sounds.data sounds0))%nat)
      by (subst head; lia).
    assert (Hnext_lt : (next < length (Sounds.data sounds0))%nat).
    { subst next.
      pose proof (Z.mod_pos_bound (Sounds.consumer_index sounds0 + 1)
                    (Sounds.len sounds0) ltac:(lia)). lia. }
    set (chs2 := with_channel (Channels.set_playback_error chs1 e')
                   (Z.of_nat c) x) in *.
    assert (Hx : Channels.data chs2 !! c = Some x).
    { unfold chs2, with_channel. cbn. rewrite Nat2Z.id.
      apply list_lookup_insert_eq.
      destruct R1 as (Hl1 & _). apply lookup_lt_Some in Hs0. lia. }
    assert (Hother : forall (c' i : nat) (y : TimedSound.t),
              slot_of chs2 c' i = Some (Some y) ->
              c' = c /\ Sounds.data x !! i = Some (Some y)).
    { intros c' i y Hy. apply slot_of_Some in Hy as (z & Hz & Hi).
      unfold chs2, with_channel in Hz. cbn in Hz. rewrite Nat2Z.id in Hz.
      apply list_lookup_insert_Some in Hz as [(<- & <- & _)|(Hne' & Hz)];
        [now split|].
      exfalso. apply Hne'. symmetry.
      refine (proj1 (Honly c' i y _)).
      rewrite <- (same_slots_slot_of chs chs1 c' i R1).
      apply slot_of_Some. eauto. }
    exists chs3. split; [exact Hrun|].
    pose proof R1 as (_ & _ & _ & _ & Hsr1 & Hsl1).
    pose proof R3 as (_ & _ & _ & He3 & Hsr3 & Hsl3). cbn in He3, Hsr3, Hsl3.
    split.
    { apply (same_slots_wf _ _ R3). apply wf_channels_with_channel; [|exact Hwx].
      apply wf_channels_set_playback_error.
      exact (same_slots_wf _ _ R1 Hwf). }
    split; [congruence|]. split; [congruence|]. split; [congruence|].
    assert (Hold : forall (i : nat) (y : TimedSound.t),
              Sounds.data sounds0 !! i = Some (Some y) ->
              i = head \/ i = next).
    { intros i y Hy. refine (proj2 (Honly c i y _)).
      apply slot_of_Some. eauto. }
    destruct (rest <? 0); [|destruct (TimedSound.len s2 <=? rest)].
    + destruct Hclass as [Hdx Hcx].
      apply (same_slots_duo _ _ c _ _ R3).
      exists x. cbv zeta. rewrite Hcx, Hlx. fold head next.
      split; [exact Hx|]. split; [exact Hpx|]. split; [exact Hne|].
      rewrite Hdx.
      split; [now apply list_lookup_insert_eq|].
      split; [rewrite list_lookup_insert_ne by exact Hne; exact Hnext0|].
      intros c' i y Hy. destruct (Hother c' i y Hy) as [-> Hi].
      split; [reflexivity|]. rewrite Hdx in Hi.
      apply list_lookup_insert_Some in Hi as [(<- & _)|(_ & Hi)];
        [now left|exact (Hold i y Hi)].
    + apply (same_slots_silent _ _ R3).
      intros c' i [y|] Hy; [|reflexivity]. exfalso.
      destruct (Hother c' i y Hy) as [-> Hi]. rewrite Hclass in Hi.
      apply list_lookup_insert_Some in Hi as [(_ & [=] & _)|(Hn & Hi)].
      apply list_lookup_insert_Some in Hi as [(_ & [=] & _)|(Hh & Hi)].
      destruct (Hold i y Hi); congruence.
    + destruct Hclass as [Hdx Hcx].
      apply (same_slots_solo _ _ c _ R3).
      exists x. split; [exact Hx|]. split; [exact Hpx|].
      rewrite Hcx. fold next. rewrite Hdx.
      split; [apply list_lookup_insert_eq; rewrite length_insert; exact Hnext_lt|].
      intros c' i y Hy. destruct (Hother c' i y Hy) as [-> Hi].
      split; [reflexivity|]. rewrite Hdx in Hi.
      apply list_lookup_insert_Some in Hi as [(<- & _)|(Hn & Hi)];
        [reflexivity|].
      exfalso.
      apply list_lookup_insert_Some in Hi as [(_ & [=] & _)|(Hh & Hi)].
      destruct (Hold i y Hi); congruence.
Qed.

(** A sample of a burst, seen as a sample of the stream. *)
Lemma burst_at_sample_stream (s : TimedSound.t) (o zp first frames : Z)
    (i : nat) :
  0 <= frames -> 0 <= o -> 0 <= zp ->
  zp = 0 \/ o = 0 ->
  o - zp = frames - first ->
  burst_at_sample s o zp i
  = stream_sample s first (Z.to_nat (2 * frames) + i).
Proof.
  intros Hframes Ho Hzp Hone Heq. unfold burst_at_sample, stream_sample.
  replace (Z.of_nat (Z.to_nat (2 * frames) + i))
    with (Z.of_nat i + frames * 2) by lia.
  rewrite Z.div_add, Z_mod_plus_full by lia.
  pose proof (Z.div_pos (Z.of_nat i) 2 ltac:(lia) ltac:(lia)).
  destruct (Z.leb_spec 0 (Z.of_nat i / 2 - zp));
    destruct (Z.leb_spec 0 (Z.of_nat i / 2 + frames - first));
    try lia; cbn [andb]; [|reflexivity].
  destruct (Z.ltb_spec (Z.of_nat i / 2 - zp) (TimedSound.len s - o));
    destruct (Z.ltb_spec (Z.of_nat i / 2 + frames - first) (TimedSound.len s));
    try lia.
  f_equal. lia.
Qed.

(** After its last frame a sound adds nothing to the stream. *)
Lemma stream_sample_past (s : TimedSound.t) (first frames : Z) (i : nat) :
  0 <= frames ->
  first + TimedSound.len s <= frames ->
  stream_sample s first (Z.to_nat (2 * frames) + i) = 0.
Proof.
  intros Hframes Hpast. unfold stream_sample.
  replace (Z.of_nat (Z.to_nat (2 * frames) + i))
    with (Z.of_nat i + frames * 2) by lia.
  rewrite Z.div_add by lia.
  pose proof (Z.div_pos (Z.of_nat i) 2 ltac:(lia) ltac:(lia)).
  destruct (Z.leb_spec 0 (Z.of_nat i / 2 + frames - first)); [|reflexivity].
  destruct (Z.ltb_spec (Z.of_nat i / 2 + frames - first) (TimedSound.len s));
    [lia|reflexivity].
Qed.

(** A buffer given sample by sample is the window of the stream that
    starts after [frames] frames. *)
Lemma window_of_stream (f g : nat -> Z) (frames len : Z) :
  (forall i : nat, f i = g (Z.to_nat (2 * frames) + i)%nat) ->
  f <$> seq 0 (Z.to_nat (2 * len))
  = g <$> seq (Z.to_nat (2 * frames)) (Z.to_nat (2 * len)).
Proof.
  intros Hfg.
  rewrite <- (Nat.add_0_r (Z.to_nat (2 * frames))) at 1.
  rewrite <- fmap_add_seq, <- list_fmap_compose.
  apply list_fmap_ext. intros i j Hj. apply lookup_seq in Hj as [-> _].
  cbn [Nat.add compose]. apply Hfg.
Qed.

Lemma zeros_as_samples (n : nat) :
  replicate n 0 = (fun _ : nat => 0) <$> seq 0 n.
Proof.
  apply list_eq. intros i. rewrite list_lookup_fmap.
  destruct (decide (i < n)%nat) as [Hi|Hi].
  - rewrite lookup_replicate_2, lookup_seq_lt by exact Hi. reflexivity.
  - rewrite lookup_ge_None_2 by (rewrite length_replicate; lia).
    rewrite lookup_ge_None_2 by (rewrite length_seq; lia). reflexivity.
Qed.

Lemma set_offset_same (s : TimedSound.t) :
  TimedSound.set_offset s (TimedSound.offset s) = s.
Proof. now destruct s. Qed.

(** A sound enqueued by [ws_play_next] follows at whatever frame the loop
    comes to it, and no lateness is recorded for it. *)
Lemma streamed_follows (buffer_start samplerate : Q) (outi : Z)
    (s : TimedSound.t) (error : Z) :
  streamed s ->
  follows buffer_start samplerate outi s /\
  lateness_at buffer_start samplerate outi s error = error.
Proof.
  intros (Hzero & Hasap & Hframes). split.
  - split; [exact Hzero|]. split; [exact Hframes|now left].
  - unfold lateness_at. now rewrite (Qltb_ge _ _ Hasap).
Qed.

Section RelayFrames.
Variable out : list Z.
Variable len : Z.
Variable t0 latency : Q.
Variable samplerate samplelen : Q.
Variable c : nat.
Variable s1 s2 : TimedSound.t.
Hypothesis Hlen : 0 < len <= INT_MAX.
Hypothesis Hout : Z.of_nat (length out) = 2 * len.
Hypothesis Hrates : exact_rates samplerate samplelen.
Hypothesis Hok1 : sound_ok len s1.
Hypothesis Hint1 : int16_samples s1.
Hypothesis Hair1 : on_air s1.
Hypothesis Hok2 : sound_ok len s2.
Hypothesis Hint2 : int16_samples s2.
Hypothesis Hstr2 : streamed s2.

(** One invocation, for buffer [k], wherever the two sounds are. *)
Lemma callback_relayed (k : Z) (chs : Channels.t) :
  0 <= k ->
  wf_channels chs ->
  Channels.samplerate chs = samplerate ->
  Channels.samplelen chs = samplelen ->
  relayed (k * len) c s1 s2 chs ->
  exists chs' : Channels.t,
    ws_callback out len (buffer_instant t0 samplelen len k)
      (buffer_instant t0 samplelen len k - latency)%Q chs
    = Ok (chs',
          chained_sample s1 s2
            <$> seq (Z.to_nat (2 * (k * len))) (Z.to_nat (2 * len))) /\
    wf_channels chs' /\
    Channels.samplerate chs' = samplerate /\
    Channels.samplelen chs' = samplelen /\
    Channels.playback_error chs' = Channels.playback_error chs /\
    relayed ((k + 1) * len) c s1 s2 chs'.
Proof.
  intros Hk Hwf Hsr Hsl Hphase.
  assert (HK : 0 <= k * len) by nia.
  assert (Hr : exact_rates (Channels.samplerate chs) (Channels.samplelen chs))
    by (rewrite Hsr, Hsl; exact Hrates).
  set (bs := buffer_instant t0 samplelen len k).
  pose proof Hok1 as [Ho1 Hbuf1 Hrange1].
  pose proof Hok2 as [Ho2 Hbuf2 Hrange2].
  pose proof Hstr2 as (Hzero2 & Hasap2 & Hframes2).
  unfold relayed in *. cbv zeta in *.
  set (o1 := TimedSound.offset s1) in *.
  set (at1 := o1 + k * len) in *.
  replace (o1 + (k + 1) * len) with (at1 + len) by (subst at1; lia).
  destruct Hphase as [[Hin Hduo]|[[Hin Hsolo]|[Hpast Hsilent]]].
  - (* the first sound is on air, the second behind it *)
    set (s1' := TimedSound.set_offset s1 at1) in *.
    assert (Hok1' : sound_ok len s1') by (split; cbn; lia).
    assert (Hair1' : on_air s1').
    { destruct (Z_lt_dec 0 at1) as [Hpos|Hzero]; [now left|].
      right. split; [cbn; lia|].
      destruct Hair1 as [Hon|[_ Hasap]]; [fold o1 in Hon; lia|exact Hasap]. }
    destruct (streamed_follows bs (Channels.samplerate chs)
                (TimedSound.len s1' - TimedSound.offset s1') s2
                (Channels.playback_error chs) Hstr2) as [Hfol2 Hlate2].
    destruct (ws_callback_relay out len bs (bs - latency)%Q chs c s1' s2
                Hlen Hout Hwf Hr Hduo Hok1' Hint1 ltac:(cbn; lia) Hair1'
                Hok2 Hint2 Hfol2)
      as (chs' & -> & Hwf' & Hsr' & Hsl' & He' & Hclass).
    rewrite Hlate2 in He'.
    assert (He'' : Channels.playback_error chs' = Channels.playback_error chs)
      by (rewrite He'; now destruct (0 <? _)).
    clear He'. rename He'' into He'.
    cbn [s1' TimedSound.offset TimedSound.len TimedSound.set_offset]
      in Hclass.
    change (TimedSound.set_offset s1' (len + at1))
      with (TimedSound.set_offset s1 (len + at1)) in Hclass.
    exists chs'. split.
    { f_equal. f_equal. unfold relay_burst.
      apply window_of_stream. intros i. unfold relay_sample, chained_sample.
      change (TimedSound.len s1') with (TimedSound.len s1).
      change (TimedSound.offset s1') with at1.
      change (burst_at_sample s1' at1 0 i) with (burst_at_sample s1 at1 0 i).
      rewrite (burst_at_sample_stream s1 at1 0 (- TimedSound.offset s1)
                 (k * len) i) by (fold o1; lia).
      rewrite (burst_at_sample_stream s2 0 (TimedSound.len s1 - at1)
                 (TimedSound.len s1 - TimedSound.offset s1) (k * len) i)
        by (fold o1; lia).
      reflexivity. }
    split; [exact Hwf'|]. split; [congruence|]. split; [congruence|].
    split; [exact He'|].
    destruct (Z.ltb_spec (len - (TimedSound.len s1 - at1)) 0).
    + left. split; [lia|].
      replace (at1 + len) with (len + at1) by lia. exact Hclass.
    + destruct (Z.leb_spec (TimedSound.len s2)
                  (len - (TimedSound.len s1 - at1))).
      * right. right. split; [lia|exact Hclass].
      * right. left. split; [lia|].
        replace (at1 + len - TimedSound.len s1)
          with (len - (TimedSound.len s1 - at1)) by lia.
        exact Hclass.
  - (* the second sound alone *)
    set (at2 := at1 - TimedSound.len s1) in *.
    set (s2' := TimedSound.set_offset s2 at2) in *.
    assert (Hok2' : sound_ok len s2') by (split; cbn; lia).
    assert (Hair2' : on_air s2').
    { destruct (Z_lt_dec 0 at2) as [Hpos|Hzero]; [now left|].
      right. split; [cbn; lia|exact Hasap2]. }
    destruct (on_air_starts_now len bs (Channels.samplerate chs)
                (Channels.samplelen chs) s2' (Channels.playback_error chs)
                Hair2') as (Hcase & Hzp & Herr).
    destruct (ws_callback_starting out len bs (bs - latency)%Q chs c s2'
                Hlen Hout Hwf Hr Hsolo Hok2' Hint2 ltac:(cbn; lia) Hcase)
      as (chs' & -> & Hwf' & Hsr' & Hsl' & He' & Hclass).
    rewrite Hzp, Herr in *.
    cbn [s2' TimedSound.offset TimedSound.len TimedSound.set_offset]
      in Hclass.
    change (TimedSound.set_offset s2' (len - 0 + at2))
      with (TimedSound.set_offset s2 (len - 0 + at2)) in Hclass.
    exists chs'. split.
    { f_equal. f_equal. unfold burst_at.
      apply window_of_stream. intros i. unfold chained_sample.
      change (TimedSound.offset s2') with at2.
      change (burst_at_sample s2' at2 0 i) with (burst_at_sample s2 at2 0 i).
      rewrite (burst_at_sample_stream s2 at2 0
                 (TimedSound.len s1 - TimedSound.offset s1) (k * len) i)
        by (fold o1; lia).
      rewrite (stream_sample_past s1) by (fold o1; lia).
      reflexivity. }
    split; [exact Hwf'|]. split; [congruence|]. split; [congruence|].
    split; [exact He'|].
    replace (at1 + len - TimedSound.len s1) with (len - 0 + at2) by lia.
    right.
    destruct (Z.leb_spec (TimedSound.len s2) (len - 0 + at2)).
    + right. split; [lia|exact Hclass].
    + left. split; [lia|exact Hclass].
  - (* both sounds have ended *)
    destruct (ws_callback_silent out len bs (bs - latency)%Q chs)
      as (chs' & -> & R); try assumption; [lia|].
    exists chs'. split.
    { f_equal. f_equal. rewrite zeros_as_samples.
      apply window_of_stream. intros i. unfold chained_sample.
      rewrite !stream_sample_past by (fold o1; lia). reflexivity. }
    split; [exact (same_slots_wf _ _ R Hwf)|].
    pose proof R as (_ & _ & _ & He & Hr1 & Hr2).
    split; [congruence|]. split; [congruence|]. split; [congruence|].
    right. right. split; [lia|].
    exact (same_slots_silent _ _ R Hsilent).
Qed.

(** [n] invocations from buffer [k]. *)
Lemma play_buffers_relayed (n : nat) :
  forall (k : Z) (chs : Channels.t),
    0 <= k ->
    wf_channels chs ->
    Channels.samplerate chs = samplerate ->
    Channels.samplelen chs = samplelen ->
    relayed (k * len) c s1 s2 chs ->
    exists chs' : Channels.t,
      play_buffers n out len t0 latency k chs
      = Ok (chs',
            chained_sample s1 s2
              <$> seq (Z.to_nat (2 * (k * len))) (n * Z.to_nat (2 * len))) /\
      Channels.playback_error chs' = Channels.playback_error chs /\
      relayed ((k + Z.of_nat n) * len) c s1 s2 chs'.
Proof.
  induction n as [|n IH]; intros k chs Hk Hwf Hsr Hsl Hphase.
  - exists chs. split; [reflexivity|]. split; [reflexivity|].
    now rewrite Z.add_0_r.
  - cbn [play_buffers]. rewrite Hsl.
    destruct (callback_relayed k chs Hk Hwf Hsr Hsl Hphase)
      as (chs1 & -> & Hwf1 & Hsr1 & Hsl1 & He1 & Hphase1).
    cbn [bind fst snd].
    destruct (IH (k + 1) chs1) as (chs' & -> & He' & Hphase');
      try assumption; [lia|].
    cbn [bind fst snd]. exists chs'. split; [|split].
    + f_equal. f_equal. cbn [Nat.mul]. rewrite seq_app, fmap_app.
      do 3 f_equal. nia.
    + congruence.
    + replace (k + Z.of_nat (S n)) with (k + 1 + Z.of_nat n) by lia.
      exact Hphase'.
Qed.
End RelayFrames.

(** X24.  A sound enqueued by [ws_play_next] follows the sound before it
    without a gap.  When the only sounds of the set are two in a row on one
    unpaused channel, the first under way or to be played as soon as
    possible and the second as [ws_play_next] enqueues it, the outputs of
    any number [n] of invocations of the callback on consecutive buffers of
    [len] frames, put end to end, are the rest of the first sound from the
    frame it has reached, then at once the second sound from its first
    frame, then zeros; nothing is recorded in [playback_error]; and the set
    is left with the first sound further on and the second behind it, or
    with the second alone at the frame it has reached, or, once the buffers
    cover both, with no sound. *)
Theorem streamed_sound_follows_without_gap
    (out : list Z) (len : Z) (t0 latency : Q) (c : nat)
    (s1 s2 : TimedSound.t) (chs : Channels.t) (n : nat) :
  0 < len <= INT_MAX ->
  Z.of_nat (length out) = 2 * len ->
  wf_channels chs ->
  exact_rates (Channels.samplerate chs) (Channels.samplelen chs) ->
  duo chs c s1 s2 ->
  sound_ok len s1 ->
  int16_samples s1 ->
  TimedSound.offset s1 < TimedSound.len s1 ->
  on_air s1 ->
  sound_ok len s2 ->
  int16_samples s2 ->
  streamed s2 ->
  exists chs' : Channels.t,
    play_buffers n out len t0 latency 0 chs
    = Ok (chs', chained_sample s1 s2 <$> seq 0 (n * Z.to_nat (2 * len))) /\
    Channels.playback_error chs' = Channels.playback_error chs /\
    relayed (Z.of_nat n * len) c s1 s2 chs' /\
    (TimedSound.len s1 - TimedSound.offset s1 + TimedSound.len s2
     <= Z.of_nat n * len -> silent chs').
Proof.
  intros Hlen Hout Hwf Hrates Hduo Hok1 Hint1 Hlt1 Hair1 Hok2 Hint2 Hstr2.
  destruct (play_buffers_relayed out len t0 latency
              (Channels.samplerate chs) (Channels.samplelen chs) c s1 s2
              Hlen Hout Hrates Hok1 Hint1 Hair1 Hok2 Hint2 Hstr2 n 0 chs
              (Z.le_refl 0) Hwf eq_refl eq_refl)
    as (chs' & Hrun & He & Hphase).
  { left. rewrite Z.mul_0_l, Z.add_0_r, set_offset_same.
    split; [exact Hlt1|exact Hduo]. }
  exists chs'. split; [exact Hrun|]. split; [exact He|].
  split; [exact Hphase|].
  intros Hcovered. destruct Hok1 as [Ho1 _ _].
  destruct Hstr2 as (_ & _ & Hframes2).
  unfold relayed in Hphase. cbv zeta in Hphase.
  destruct Hphase as [[Hin _]|[[Hin _]|[_ Hsilent]]];
    [lia|lia|exact Hsilent].
Qed.

(** Two sounds in a row on channel [c] and no other, by enumeration of the
    slots of a concrete channel set. *)
Ltac duo_slots H i :=
  first
    [ solve [vm_compute in H; discriminate H]
    | destruct i as [|i];
      [ vm_compute in H;
        first [ discriminate H
              | split; [reflexivity|first [left; reflexivity|right; reflexivity]] ]
      | duo_slots H i ] ].
Ltac duo_channels H c i :=
  first
    [ solve [vm_compute in H; discriminate H]
    | destruct c as [|c]; [ duo_slots H i | duo_channels H c i ] ].
Ltac duo_by_compute :=
  eexists; cbv zeta; split; [reflexivity|]; split; [reflexivity|];
  split; [vm_compute; discriminate|]; split; [reflexivity|];
  split; [reflexivity|];
  let c := fresh "c" in
  let i := fresh "i" in
  let x := fresh "x" in
  let H := fresh "H" in
  intros c i x H; duo_channels H c i.

Lemma streamed_sound_follows_without_gap_witness :
  exists chs' : Channels.t,
    play_buffers 3 [9; 9; 9; 9; 9; 9] 3 8 (1 # 2) 0 (channels_of two_streamed)
    = Ok (chs',
          chained_sample (newTimedSound four_frames (-1)%Q)
            (newTimedSound two_frames (-1)%Q)
            <$> seq 0 (3 * Z.to_nat (2 * 3))) /\
    Channels.playback_error chs'
      = Channels.playback_error (channels_of two_streamed) /\
    relayed (Z.of_nat 3 * 3) 2 (newTimedSound four_frames (-1)%Q)
      (newTimedSound two_frames (-1)%Q) chs' /\
    (4 - 0 + 2 <= Z.of_nat 3 * 3 -> silent chs').
Proof.
  apply (streamed_sound_follows_without_gap [9; 9; 9; 9; 9; 9] 3 8 (1 # 2) 2
           (newTimedSound four_frames (-1)%Q) (newTimedSound two_frames (-1)%Q)
           (channels_of two_streamed) 3).
  - unfold INT_MAX. lia.
  - reflexivity.
  - wf_channels_by_compute.
  - exact exact_rates_4.
  - duo_by_compute.
  - split; cbn; unfold INT_MAX; lia.
  - apply int16_samples_Forall. cbn. repeat constructor; lia.
  - cbn. lia.
  - right. split; [reflexivity|]. cbn. lra.
  - split; cbn; unfold INT_MAX; lia.
  - apply int16_samples_Forall. cbn. repeat constructor; lia.
  - split; [reflexivity|]. split; [cbn; lra|cbn; lia].
Defined.

(** A session state with one sound, at the head of channel [c] whose ring
    has at least two slots: the producer slot is the one after it and is
    empty, and a sound stored there makes two in a row. *)
Lemma duo_after_push (chs : Channels.t) (c : Z) (sounds : Sounds.t)
    (s1 s2 : TimedSound.t) :
  rings_ok chs ->
  0 <= c ->
  Channels.data chs !! Z.to_nat c = Some sounds ->
  2 <= Sounds.len sounds ->
  solo chs (Z.to_nat c) s1 ->
  Sounds.data sounds !! Z.to_nat (Sounds.producer_index sounds) = Some None /\
  duo (with_channel chs c (pushed sounds s2)) (Z.to_nat c) s1 s2.
Proof.
  intros [Hwf Hfifo] Hc Hs Hcap2 (x & Hx & Hp & Hhead & Honly).
  rewrite Hs in Hx. injection Hx as <-.
  pose proof (wf_channel_lookup _ _ _ Hwf Hs) as [Hcap Hci Hpi].
  destruct (Hfifo _ _ Hs) as (q & Hq & Hprod & Htaken).
  set (ci := Sounds.consumer_index sounds) in *.
  set (n := Sounds.len sounds) in *.
  assert (Hnext : (ci + 1) mod n <> ci) by (unwrap; lia).
  assert (Hnext_range : 0 <= (ci + 1) mod n < n)
    by (apply Z.mod_pos_bound; lia).
  assert (Hfree : forall i : Z,
            0 <= i < n -> i <> ci ->
            Sounds.data sounds !! Z.to_nat i = Some None).
  { intros i Hi Hne.
    destruct (in_range_lookup (Sounds.data sounds) i) as ([y|] & Hy);
      [lia| |exact Hy].
    exfalso. apply Hne.
    assert (E : Z.to_nat i = Z.to_nat ci).
    { refine (proj2 (Honly (Z.to_nat c) (Z.to_nat i) y _)).
      apply slot_of_Some. eauto. }
    lia. }
  assert (Hq1 : q = 1).
  { assert (0 < q).
    { apply (Htaken 0); [lia|]. rewrite Z.add_0_r, Z.mod_small by lia.
      exists s1. exact Hhead. }
    destruct (Z_lt_dec 1 q) as [Hmore|]; [|lia]. exfalso.
    destruct (proj2 (Htaken 1 ltac:(lia)) Hmore) as (y & Hy).
    rewrite (Hfree ((ci + 1) mod n) Hnext_range Hnext) in Hy.
    discriminate Hy. }
  subst q. rewrite Hprod.
  split; [exact (Hfree _ Hnext_range Hnext)|].
  exists (pushed sounds s2). cbv zeta.
  cbn [pushed Sounds.data Sounds.consumer_index Sounds.len Sounds.paused].
  fold ci n. rewrite Hprod.
  split; [exact (with_channel_lookup _ _ _ _ Hs)|].
  split; [exact Hp|]. split; [lia|].
  split; [rewrite list_lookup_insert_ne by lia; exact Hhead|].
  split; [apply list_lookup_insert_eq; lia|].
  intros c' i y Hy. apply slot_of_Some in Hy as (z & Hz & Hi).
  unfold with_channel in Hz. cbn in Hz.
  apply list_lookup_insert_Some in Hz as [(<- & <- & _)|(Hne & Hz)].
  - split; [reflexivity|]. cbn in Hi. fold ci n in Hi. rewrite Hprod in Hi.
    apply list_lookup_insert_Some in Hi as [(<- & _)|(_ & Hi)];
      [now right|left].
    refine (proj2 (Honly (Z.to_nat c) i y _)). apply slot_of_Some. eauto.
  - exfalso. apply Hne. symmetry.
    refine (proj1 (Honly c' i y _)). apply slot_of_Some. eauto.
Qed.

(** X25.  Streaming end to end: in a session state whose only sound is
    under way, or about to start, at the head of an unpaused streaming
    channel, a sound given to [ws_play_next] for that channel is enqueued
    and is heard right after the last frame of the sound before it.  Over
    any number [n] of callback invocations on consecutive buffers of [len]
    frames the outputs put end to end are the rest of the first sound,
    then at once the frames of the new one, then zeros; once the buffers
    cover both, no slot of the session holds a sound. *)
Theorem ws_play_next_continues_the_stream
    (pa_now now : Q) (channel : Z) (toplay : Sound.t) (state : WsState)
    (chs : Channels.t) (sounds : Sounds.t) (s1 : TimedSound.t)
    (out : list Z) (len : Z) (t0 latency : Q) (n : nat) :
  channels state = Some chs ->
  rings_ok chs ->
  exact_rates (Channels.samplerate chs) (Channels.samplelen chs) ->
  0 <= channel ->
  let target := Channels.len chs ÷ 2 + channel in
  Channels.data chs !! Z.to_nat target = Some sounds ->
  2 <= Sounds.len sounds ->
  solo chs (Z.to_nat target) s1 ->
  sound_ok len s1 ->
  int16_samples s1 ->
  TimedSound.offset s1 < TimedSound.len s1 ->
  on_air s1 ->
  0 < Sound.len toplay ->
  2 * Sound.len toplay <= Z.of_nat (length (Sound.buffer toplay)) ->
  Sound.len toplay + len <= INT_MAX ->
  Forall (fun v => - 2 ^ 15 <= v < 2 ^ 15) (Sound.buffer toplay) ->
  0 < len <= INT_MAX ->
  Z.of_nat (length out) = 2 * len ->
  let s2 := newTimedSound toplay (-1)%Q in
  exists (r : Q) (state' : WsState) (chs1 chs' : Channels.t),
    ws_play_next pa_now now channel toplay state = Ok (r, state') /\
    channels state' = Some chs1 /\
    play_buffers n out len t0 latency 0 chs1
    = Ok (chs', chained_sample s1 s2 <$> seq 0 (n * Z.to_nat (2 * len))) /\
    Channels.playback_error chs' = Channels.playback_error chs /\
    (TimedSound.len s1 - TimedSound.offset s1 + Sound.len toplay
     <= Z.of_nat n * len -> silent chs').
Proof.
  intros Hchs Hrings Hrates Hchan target Hs Hcap2 Hsolo Hok1 Hint1 Hlt1 Hair1
    Hframes Hbuf Hrange Hsamples Hlen Hout s2.
  pose proof Hrings as [Hwf _].
  pose proof (wf_half_nonneg chs Hwf) as Hhalf.
  assert (Htarget : 0 <= target) by (subst target; lia).
  pose proof (wf_channel_lookup _ _ _ Hwf Hs) as Hws.
  destruct (duo_after_push chs target sounds s1 s2 Hrings Htarget Hs Hcap2
              Hsolo) as [Hempty Hduo].
  assert (Hp : Sounds.paused sounds = 0).
  { destruct Hsolo as (x & Hx & Hp & _). rewrite Hs in Hx.
    injection Hx as <-. exact Hp. }
  set (chs1 := with_channel chs target (pushed sounds s2)) in *.
  assert (Hwf1 : wf_channels chs1)
    by (apply wf_channels_with_channel, wf_sounds_pushed; assumption).
  assert (Hok2 : sound_ok len s2) by (apply sound_ok_new; lia).
  assert (Hint2 : int16_samples s2)
    by (apply int16_samples_Forall; exact Hsamples).
  assert (Hstr2 : streamed s2).
  { split; [reflexivity|]. split; [cbn; lra|exact Hframes]. }
  destruct (play_buffers_relayed out len t0 latency
              (Channels.samplerate chs1) (Channels.samplelen chs1)
              (Z.to_nat target) s1 s2
              Hlen Hout Hrates Hok1 Hint1 Hair1 Hok2 Hint2 Hstr2 n 0 chs1
              (Z.le_refl 0) Hwf1 eq_refl eq_refl)
    as (chs' & Hrun & He & Hphase).
  { left. rewrite Z.mul_0_l, Z.add_0_r, set_offset_same.
    split; [exact Hlt1|exact Hduo]. }
  eexists _, _, chs1, chs'. split.
  { exact (ws_play_next_enqueues pa_now now channel toplay state chs sounds
             Hchs Hwf Hchan Hs Hp Hempty). }
  split; [reflexivity|]. split; [exact Hrun|]. split; [exact He|].
  intros Hcovered. destruct Hok1 as [Ho1 _ _].
  unfold relayed in Hphase. cbv zeta in Hphase.
  change (TimedSound.len s2) with (Sound.len toplay) in Hphase.
  destruct Hphase as [[Hin _]|[[Hin _]|[_ Hsilent]]];
    [lia|lia|exact Hsilent].
Qed.

Lemma ws_play_next_continues_the_stream_witness :
  exists (r : Q) (state' : WsState) (chs1 chs' : Channels.t),
    ws_play_next 8 8 0 two_frames streaming = Ok (r, state') /\
    channels state' = Some chs1 /\
    play_buffers 2 [9; 9; 9; 9; 9; 9] 3 8 (1 # 2) 0 chs1
    = Ok (chs',
          chained_sample (newTimedSound four_frames (-1)%Q)
            (newTimedSound two_frames (-1)%Q)
            <$> seq 0 (2 * Z.to_nat (2 * 3))) /\
    Channels.playback_error chs'
      = Channels.playback_error (channels_of streaming) /\
    (4 - 0 + 2 <= Z.of_nat 2 * 3 -> silent chs').
Proof.
  apply (ws_play_next_continues_the_stream 8 8 0 two_frames streaming
           (channels_of streaming) (channel_at streaming 2)
           (newTimedSound four_frames (-1)%Q) [9; 9; 9; 9; 9; 9] 3 8 (1 # 2) 2
           eq_refl streaming_rings_ok exact_rates_4).
  - lia.
  - reflexivity.
  - vm_compute. discriminate.
  - solo_by_compute.
  - split; cbn; unfold INT_MAX; lia.
  - apply int16_samples_Forall. cbn. repeat constructor; lia.
  - cbn. lia.
  - right. split; [reflexivity|]. cbn. lra.
  - cbn. lia.
  - cbn. lia.
  - cbn. unfold INT_MAX. lia.
  - cbn. repeat constructor; lia.
  - unfold INT_MAX. lia.
  - reflexivity.
Defined.

(** ** Several channels at once *)

(** Adding to a sample that was reduced to [Int16] and reducing again is
    reducing the sum. *)
Lemma to_int16_add (a b : Z) : to_int16 (to_int16 a + b) = to_int16 (a + b).
Proof.
  unfold to_int16.
  replace ((a + 2 ^ 15) mod 2 ^ 16 - 2 ^ 15 + b + 2 ^ 15)
    with ((a + 2 ^ 15) mod 2 ^ 16 + b) by lia.
  rewrite Zplus_mod_idemp_l. do 2 f_equal. lia.
Qed.

Lemma foldr_add_init (l : list Z) (b : Z) :
  foldr Z.add b l = foldr Z.add 0 l + b.
Proof. induction l as [|x l IH]; cbn; [reflexivity|]. rewrite IH. lia. Qed.

Lemma chorus_snoc (channels : list Sounds.t) (sounds : Sounds.t) (j : nat) :
  chorus (channels ++ [sounds]) j = chorus channels j + voice sounds j.
Proof.
  unfold chorus. rewrite fmap_app, foldr_app. cbn [fmap list_fmap foldr].
  rewrite foldr_add_init. lia.
Qed.

Section Voices.
Variable len : Z.
Variable buffer_start : Q.
Variable samplerate samplelen : Q.
Hypothesis Hlen : 0 < len <= INT_MAX.

(** The first turn of the loop of a channel whose head is on air, on any
    output buffer. *)
Lemma consume_on_air_over (sounds : Sounds.t) (s : TimedSound.t)
    (error : Z) (out : list Z) (flag : bool) :
  wf_sounds sounds ->
  Sounds.data sounds !! Z.to_nat (Sounds.consumer_index sounds) = Some (Some s) ->
  sound_ok len s ->
  TimedSound.offset s < TimedSound.len s ->
  on_air s ->
  Z.of_nat (length out) = 2 * len ->
  let o := TimedSound.offset s in
  let done := TimedSound.len s <=? len + o in
  exists (d : Q) (flag' : bool) (out' : list Z),
    consume len buffer_start samplerate samplelen s
      (mkCb sounds error out 0 flag 0)
    = Ok (mkCb
            (Sounds.mk
               (<[Z.to_nat (Sounds.consumer_index sounds) :=
                    if done then None
                    else Some (TimedSound.set_offset s (len + o))]>
                  (Sounds.data sounds))
               (Sounds.len sounds) (Sounds.paused sounds)
               (if done then
                  (Sounds.consumer_index sounds + 1) mod Sounds.len sounds
                else Sounds.consumer_index sounds)
               (Sounds.producer_index sounds) d)
            error out' (Z.min len (TimedSound.len s - o)) flag' 0) /\
    length out' = length out /\
    forall f side : Z,
      0 <= f < len -> 0 <= side < 2 ->
      out_at out' (2 * f + side)
      = if f <? TimedSound.len s - o then
          to_int16 (out_at out (2 * f + side)
                    + sample_at s (f + o + side * TimedSound.len s))
        else out_at out (2 * f + side).
Proof.
  intros Hwf Hhead [Hoff Hbuf Hrange] Hlt Hair Hout o done.
  assert (Hlen' : 0 <= len <= INT_MAX) by lia.
  destruct (on_air_starts_now len buffer_start samplerate samplelen s error
              Hair) as (Hcase & Hzp & Herr).
  pose proof Hwf as [Hcap Hci Hpi].
  unfold consume.
  destruct (schedule_starting len buffer_start samplerate samplelen sounds s
              error out flag Hcase)
    as (d & flag' & -> & Hgo).
  rewrite Hzp, Herr. unfold play. cb_simpl. rewrite Hgo.
  destruct (Z.ltb_spec (TimedSound.offset s) (TimedSound.len s)); [|lia].
  cbn [andb].
  destruct (mix_content len Hlen' s (TimedSound.offset s) 0 (proj1 Hoff) Hbuf
              ltac:(lia) (Z.to_nat len) 0 out)
    as (out' & -> & Hlen_out & Hget); [lia|lia|exact Hout|].
  cb_simpl. rewrite array_set_ok by lia. cb_simpl.
  fold o. rewrite Z.sub_0_r. rewrite to_ulong_int by lia.
  rewrite to_int_small by (unfold INT_MIN; lia).
  rewrite retire_spec by (cb_simpl; split; cb_simpl; rewrite ?length_insert; lia).
  cb_simpl. fold done.
  replace (Z.min len (Z.max 0 (0 + (TimedSound.len s - o))))
    with (Z.min len (TimedSound.len s - o)) by lia.
  exists d, flag', out'. split; [|split; [exact Hlen_out|]].
  - destruct done; cb_simpl; [rewrite list_insert_insert_eq|]; reflexivity.
  - intros f side Hf Hside. rewrite (Hget f side Hf Hside).
    destruct (Z.leb_spec 0 f); [|lia]. cbn [andb].
    fold o.
    destruct (Z.ltb_spec f
                (Z.min len (Z.max 0 (0 + (TimedSound.len s - o)))));
      destruct (Z.ltb_spec f (TimedSound.len s - o)); try lia.
    do 3 f_equal. lia.
Qed.

(** The turn of a channel that is not paused and has at most one sound, on
    air at its head: every sample of the output receives what the channel
    adds, reduced to [Int16]. *)
Lemma drain_channel_voice (sounds : Sounds.t) (error : Z) (out : list Z)
    (flag : bool) :
  wf_sounds sounds ->
  Sounds.paused sounds = 0 ->
  (forall (i : nat) (s : TimedSound.t),
     Sounds.data sounds !! i = Some (Some s) ->
     i = Z.to_nat (Sounds.consumer_index sounds) /\
     on_air s /\ sound_ok len s /\ TimedSound.offset s < TimedSound.len s) ->
  Z.of_nat (length out) = 2 * len ->
  exists st' : cb,
    drain_channel len buffer_start samplerate samplelen sounds error out flag
    = Ok st' /\
    cb_error st' = error /\
    wf_sounds (cb_sounds st') /\
    length (cb_out st') = length out /\
    forall (j : nat) (total : Z),
      (j < Z.to_nat (2 * len))%nat ->
      out_at out (Z.of_nat j) = to_int16 total ->
      out_at (cb_out st') (Z.of_nat j) = to_int16 (total + voice sounds j).
Proof.
  intros Hwf Hp Hone Hout.
  pose proof Hwf as [Hcap Hci Hpi].
  assert (Hin : (Z.to_nat (Sounds.consumer_index sounds)
                 < length (Sounds.data sounds))%nat) by lia.
  destruct (lookup_lt_is_Some_2 _ _ Hin) as [[s|] Hhead].
  - (* a sound at the head *)
    destruct (Hone _ _ Hhead) as (_ & Hair & Hok & Hlt).
    pose proof Hok as [Hoff Hbuf Hrange].
    unfold drain_channel. rewrite (array_get_ok _ _ _ (proj1 Hci) Hhead).
    cbn [bind].
    destruct (length (Sounds.data sounds)) as [|fuel] eqn:Hfuel; [lia|].
    cbn [drain]. cb_simpl. rewrite (array_get_ok _ _ _ (proj1 Hci) Hhead).
    cbn [bind]. rewrite to_ulong_int by lia.
    destruct (Z.ltb_spec 0 len); [|lia].
    destruct (consume_on_air_over sounds s error out flag Hwf Hhead Hok Hlt
                Hair Hout)
      as (d & flag' & out' & -> & Hlen_out & Hget).
    cbn [bind].
    set (o := TimedSound.offset s) in *.
    assert (Hvoice : forall (j : nat) (total : Z),
              (j < Z.to_nat (2 * len))%nat ->
              out_at out (Z.of_nat j) = to_int16 total ->
              out_at out' (Z.of_nat j) = to_int16 (total + voice sounds j)).
    { intros j total Hj Htotal.
      pose proof (Z.div_mod (Z.of_nat j) 2 ltac:(lia)) as Hdm.
      pose proof (Z.mod_pos_bound (Z.of_nat j) 2 ltac:(lia)) as Hmod.
      assert (Hq : 0 <= Z.of_nat j / 2 < len)
        by (split; [apply Z.div_pos; lia|apply Z.div_lt_upper_bound; lia]).
      unfold voice. rewrite Hp, Hhead. cbn [Z.eqb negb].
      unfold burst_at_sample. fold o.
      rewrite Hdm at 1.
      rewrite (Hget (Z.of_nat j / 2) (Z.of_nat j mod 2)) by lia.
      rewrite <- Hdm, Htotal, Z.sub_0_r.
      destruct (Z.leb_spec 0 (Z.of_nat j / 2)); [|lia]. cbn [andb].
      destruct (Z.ltb_spec (Z.of_nat j / 2) (TimedSound.len s - o)).
      - apply to_int16_add.
      - now rewrite Z.add_0_r. }
    destruct (Z.leb_spec (TimedSound.len s) (len + o)) as [Hdone|Hkept].
    + rewrite drain_head_empty.
      * eexists. split; [reflexivity|]. cb_simpl.
        split; [reflexivity|]. split.
        { split; cbn; rewrite ?length_insert; try lia.
          apply Z.mod_pos_bound. lia. }
        split; [exact Hlen_out|exact Hvoice].
      * cb_simpl. apply Z.mod_pos_bound. lia.
      * cb_simpl.
        set (next := Z.to_nat ((Sounds.consumer_index sounds + 1)
                               mod Sounds.len sounds)).
        assert (Hnext : (next < length (Sounds.data sounds))%nat).
        { subst next.
          pose proof (Z.mod_pos_bound (Sounds.consumer_index sounds + 1)
                        (Sounds.len sounds) ltac:(lia)). lia. }
        destruct (Nat.eq_dec (Z.to_nat (Sounds.consumer_index sounds)) next)
          as [E|E].
        -- rewrite <- E. apply list_lookup_insert_eq. lia.
        -- rewrite list_lookup_insert_ne by exact E.
           destruct (lookup_lt_is_Some_2 _ _ Hnext) as [[x|] Hx]; [|exact Hx].
           exfalso. apply E. symmetry. exact (proj1 (Hone _ _ Hx)).
    + rewrite (drain_buffer_full len buffer_start samplerate samplelen fuel _
                 (TimedSound.set_offset s (len + o))).
      * eexists. split; [reflexivity|]. cb_simpl.
        split; [reflexivity|]. split.
        { split; cbn; rewrite ?length_insert; lia. }
        split; [exact Hlen_out|exact Hvoice].
      * cb_simpl. lia.
      * cb_simpl. apply list_lookup_insert_eq. lia.
      * cb_simpl. lia.
      * lia.
  - (* nothing at the head *)
    unfold drain_channel. rewrite (array_get_ok _ _ _ (proj1 Hci) Hhead).
    cbn [bind].
    rewrite drain_head_empty by (cb_simpl; first [lia | assumption]).
    eexists. split; [reflexivity|]. cb_simpl.
    split; [reflexivity|]. split; [split; cbn; lia|].
    split; [reflexivity|].
    intros j total Hj Htotal. unfold voice. rewrite Hp, Hhead.
    cbn [Z.eqb negb]. now rewrite Z.add_0_r.
Qed.
End Voices.

(** The turn of channel [c] in the loop over the channels. *)
Lemma mix_channel_voice (len : Z) (buffer_start : Q) (c : nat) (m : mixer)
    (sounds : Sounds.t) :
  0 < len <= INT_MAX ->
  Channels.data (mx_channels m) !! c = Some sounds ->
  wf_sounds sounds ->
  one_voice len sounds ->
  Z.of_nat (length (mx_out m)) = 2 * len ->
  exists (m' : mixer) (x : Sounds.t),
    mix_channel len buffer_start (Z.of_nat c) m = Ok m' /\
    Channels.data (mx_channels m') = <[c := x]> (Channels.data (mx_channels m)) /\
    Channels.playback_error (mx_channels m')
      = Channels.playback_error (mx_channels m) /\
    length (mx_out m') = length (mx_out m) /\
    forall (j : nat) (total : Z),
      (j < Z.to_nat (2 * len))%nat ->
      out_at (mx_out m) (Z.of_nat j) = to_int16 total ->
      out_at (mx_out m') (Z.of_nat j) = to_int16 (total + voice sounds j).
Proof.
  intros Hlen Hs Hwf Hone Hout. unfold mix_channel.
  rewrite (array_get_ok _ _ sounds) by (rewrite ?Nat2Z.id; lia || exact Hs).
  cbn [bind].
  destruct (Z.eqb_spec (Sounds.paused sounds) 0) as [Hp|Hp]; cbn [negb].
  - destruct Hone as [Hpaused|Hone]; [contradiction|].
    destruct (drain_channel_voice len buffer_start
                (Channels.samplerate (mx_channels m))
                (Channels.samplelen (mx_channels m)) Hlen sounds
                (Channels.playback_error (mx_channels m)) (mx_out m)
                (mx_should_start m) Hwf Hp Hone Hout)
      as (st' & -> & He & Hwst & Hlen_out & Hvoice).
    cbn [bind]. rewrite He, set_playback_error_same.
    rewrite (put_channel_ok _ _ sounds)
      by (rewrite ?Nat2Z.id; lia || exact Hs).
    cbn [bind]. eexists _, (cb_sounds st'). split; [reflexivity|].
    cbn [mx_channels mx_out]. unfold with_channel. cbn. rewrite Nat2Z.id.
    repeat split; assumption.
  - exists m, sounds. split; [reflexivity|].
    split; [symmetry; apply list_insert_id; exact Hs|].
    split; [reflexivity|]. split; [reflexivity|].
    intros j total Hj Htotal. unfold voice.
    destruct (Z.eqb_spec (Sounds.paused sounds) 0); [contradiction|].
    cbn [negb]. now rewrite Z.add_0_r.
Qed.

(** The loop over the channels from channel [c], the output holding the
    sum of the channels before [c]. *)
Lemma mix_from_voices (len : Z) (buffer_start : Q) (l : list Sounds.t) :
  0 < len <= INT_MAX ->
  (forall (c : nat) (s : Sounds.t),
     l !! c = Some s -> wf_sounds s /\ one_voice len s) ->
  forall (n c : nat) (m : mixer),
    (c + n)%nat = length l ->
    length (Channels.data (mx_channels m)) = length l ->
    (forall c' : nat,
       (c <= c')%nat -> Channels.data (mx_channels m) !! c' = l !! c') ->
    Z.of_nat (length (mx_out m)) = 2 * len ->
    (forall j : nat,
       (j < Z.to_nat (2 * len))%nat ->
       out_at (mx_out m) (Z.of_nat j) = to_int16 (chorus (take c l) j)) ->
    exists m' : mixer,
      mix_from n len buffer_start (Z.of_nat c) m = Ok m' /\
      Channels.playback_error (mx_channels m')
        = Channels.playback_error (mx_channels m) /\
      Z.of_nat (length (mx_out m')) = 2 * len /\
      forall j : nat,
        (j < Z.to_nat (2 * len))%nat ->
        out_at (mx_out m') (Z.of_nat j) = to_int16 (chorus l j).
Proof.
  intros Hlen Heach. induction n as [|n IH]; intros c m Hc Hdata Hrest Hout Hsum.
  - exists m. split; [reflexivity|]. split; [reflexivity|].
    split; [exact Hout|]. intros j Hj. rewrite (Hsum j Hj).
    now rewrite take_ge by lia.
  - cbn [mix_from].
    assert (Hin : (c < length l)%nat) by lia.
    destruct (lookup_lt_is_Some_2 _ _ Hin) as [s Hs].
    destruct (Heach c s Hs) as [Hwf Hone].
    destruct (mix_channel_voice len buffer_start c m s Hlen
                ltac:(rewrite Hrest by lia; exact Hs) Hwf Hone Hout)
      as (m1 & x & -> & Hdata1 & He1 & Hlen1 & Hvoice).
    cbn [bind]. replace (Z.of_nat c + 1) with (Z.of_nat (S c)) by lia.
    destruct (IH (S c) m1) as (m' & -> & He' & Hout' & Hsum').
    + lia.
    + rewrite Hdata1, length_insert. exact Hdata.
    + intros c' Hc'. rewrite Hdata1, list_lookup_insert_ne by lia.
      apply Hrest. lia.
    + lia.
    + intros j Hj. rewrite (take_S_r l c s Hs), chorus_snoc.
      apply Hvoice; [exact Hj|apply Hsum; exact Hj].
    + exists m'. split; [reflexivity|]. split; [congruence|].
      split; [exact Hout'|exact Hsum'].
Qed.

(** X26.  The callback adds the channels.  When every channel of the set
    is paused, or holds no sound but one at its consumer slot that is under
    way or to be played as soon as possible, every sample of the buffer the
    callback leaves is the sum, over the channels that are not paused, of
    the sample of the frame each sound has reached, reduced to the range of
    [Int16] by wrap-around; whatever the buffer held before is
    overwritten, and [playback_error] is unchanged. *)
Theorem ws_callback_adds_the_channels (out : list Z) (len : Z)
    (outputBufferDacTime currentTime : Q) (chs : Channels.t) :
  0 < len <= INT_MAX ->
  Z.of_nat (length out) = 2 * len ->
  wf_channels chs ->
  (forall (c : nat) (sounds : Sounds.t),
     Channels.data chs !! c = Some sounds -> one_voice len sounds) ->
  exists chs' : Channels.t,
    ws_callback out len outputBufferDacTime currentTime chs
    = Ok (chs',
          (fun j => to_int16 (chorus (Channels.data chs) j))
            <$> seq 0 (Z.to_nat (2 * len))) /\
    Channels.playback_error chs' = Channels.playback_error chs.
Proof.
  intros Hlen Hout Hwf Hone. unfold ws_callback.
  rewrite (zero_fill_all len out ltac:(lia) Hout). cbn [bind].
  set (chs0 := Channels.set_last chs len (outputBufferDacTime - currentTime)%Q).
  replace (Z.to_nat (Channels.len chs0)) with (length (Channels.data chs))
    by (destruct Hwf as [Hcount _]; cbn; lia).
  destruct (mix_from_voices len outputBufferDacTime (Channels.data chs) Hlen)
    with (n := length (Channels.data chs)) (c := 0%nat)
         (m := mkMixer chs0 (replicate (Z.to_nat (2 * len)) 0) false)
    as (m' & Hrun & He & Hlen_out & Hsum).
  - intros c s Hs. split; [exact (wf_channel_lookup _ _ _ Hwf Hs)|].
    exact (Hone c s Hs).
  - reflexivity.
  - reflexivity.
  - reflexivity.
  - cbn. rewrite length_replicate. lia.
  - intros j Hj. cbn [mx_out take]. rewrite out_at_zeros. reflexivity.
  - change (Z.of_nat 0) with 0 in Hrun. rewrite Hrun. cbn [bind].
    exists (mx_channels m'). split; [|exact He].
    f_equal. f_equal. apply list_eq. intros j. rewrite list_lookup_fmap.
    destruct (decide (j < Z.to_nat (2 * len))%nat) as [Hj|Hj].
    + rewrite lookup_seq_lt by exact Hj.
      rewrite lookup_out_at by lia. cbn. f_equal. apply Hsum. exact Hj.
    + rewrite lookup_ge_None_2 by lia.
      rewrite lookup_ge_None_2 by (rewrite length_seq; lia). reflexivity.
Qed.

(** Every channel of a concrete channel set has at most one sound, on air
    at its consumer slot: by enumeration of the channels and slots. *)
Ltac voice_slots H i :=
  first
    [ solve [vm_compute in H; discriminate H]
    | destruct i as [|i];
      [ vm_compute in H;
        first
          [ discriminate H
          | injection H as <-;
            split; [reflexivity|];
            split; [right; split; [reflexivity|cbn; lra]|];
            split; [split; cbn; unfold INT_MAX; lia|cbn; lia] ]
      | voice_slots H i ] ].
Ltac voice_channels H c :=
  first
    [ solve [vm_compute in H; discriminate H]
    | destruct c as [|c];
      [ vm_compute in H; injection H as <-; right;
        let i := fresh "i" in
        let s := fresh "s" in
        let Hi := fresh "Hi" in
        intros i s Hi; voice_slots Hi i
      | voice_channels H c ] ].

Lemma ws_callback_adds_the_channels_witness :
  exists chs' : Channels.t,
    ws_callback [9; 9; 9; 9] 2 8 8 (channels_of two_voices)
    = Ok (chs',
          (fun j => to_int16 (chorus (Channels.data (channels_of two_voices)) j))
            <$> seq 0 (Z.to_nat (2 * 2))) /\
    Channels.playback_error chs'
      = Channels.playback_error (channels_of two_voices).
Proof.
  apply (ws_callback_adds_the_channels [9; 9; 9; 9] 2 8 8
           (channels_of two_voices)).
  - unfold INT_MAX. lia.
  - reflexivity.
  - wf_channels_by_compute.
  - intros c sounds H. voice_channels H c.
Defined.

(** ** A pause while a sound is on air *)

(** A callback on a set whose channels are all paused or empty at the
    head. *)
Lemma ws_callback_hush (out : list Z) (len : Z)
    (outputBufferDacTime currentTime : Q) (chs : Channels.t) :
  0 <= len ->
  Z.of_nat (length out) = 2 * len ->
  wf_channels chs ->
  (forall c, 0 <= c < Channels.len chs -> quiet chs c) ->
  exists chs' : Channels.t,
    ws_callback out len outputBufferDacTime currentTime chs
      = Ok (chs', replicate (Z.to_nat (2 * len)) 0) /\
    same_slots chs chs'.
Proof.
  intros Hlen Hout Hwf Hquiet. unfold ws_callback.
  rewrite (zero_fill_all len out Hlen Hout). cbn [bind].
  set (chs0 := Channels.set_last chs len (outputBufferDacTime - currentTime)%Q).
  pose proof (same_slots_set_last chs len (outputBufferDacTime - currentTime)%Q)
    as R0. fold chs0 in R0.
  destruct (mix_from_quiet len outputBufferDacTime
              (Z.to_nat (Channels.len chs0)) 0
              (mkMixer chs0 (replicate (Z.to_nat (2 * len)) 0) false))
    as (m & -> & Ho & _ & R).
  - exact (same_slots_wf _ _ R0 Hwf).
  - lia.
  - intros c' Hc'. cbn. apply (same_slots_quiet _ _ c' R0).
    apply Hquiet. destruct Hwf as [Hcount _]. cbn in Hc'. lia.
  - cbn [bind]. cbn in Ho, R. exists (mx_channels m).
    split; [now rewrite Ho|]. exact (same_slots_trans _ _ _ R0 R).
Qed.

(** Any number of callbacks on such a set. *)
Lemma play_buffers_hush (out : list Z) (len : Z) (t0 latency : Q) (n : nat) :
  0 <= len ->
  Z.of_nat (length out) = 2 * len ->
  forall (k : Z) (chs : Channels.t),
    wf_channels chs ->
    (forall c, 0 <= c < Channels.len chs -> quiet chs c) ->
    exists chs' : Channels.t,
      play_buffers n out len t0 latency k chs
        = Ok (chs', replicate (n * Z.to_nat (2 * len)) 0) /\
      same_slots chs chs'.
Proof.
  intros Hlen Hout. induction n as [|n IH]; intros k chs Hwf Hquiet.
  - exists chs. split; [reflexivity|apply same_slots_refl].
  - cbn [play_buffers].
    destruct (ws_callback_hush out len
                (buffer_instant t0 (Channels.samplelen chs) len k)
                (buffer_instant t0 (Channels.samplelen chs) len k - latency)%Q
                chs Hlen Hout Hwf Hquiet) as (chs1 & -> & R1).
    cbn [bind fst snd].
    destruct (IH (k + 1) chs1) as (chs' & -> & R').
    + exact (same_slots_wf _ _ R1 Hwf).
    + intros c Hc. apply (same_slots_quiet _ _ c R1). apply Hquiet.
      destruct R1 as (_ & _ & Hl & _). lia.
    + cbn [bind fst snd]. exists chs'. split.
      * cbn [Nat.mul]. now rewrite replicate_add.
      * exact (same_slots_trans _ _ _ R1 R').
Qed.

(** X27.  A pause holds a sound where it is.  When the only sound of the
    session is under way, or about to start, at the head of a channel and
    that channel is paused with [ws_pause], the callback outputs zeros for
    as many buffers as the pause lasts and leaves the sound as it is; once
    the channel is resumed with [ws_pause], the next callback goes on with
    the sound from the frame it had reached. *)
Theorem paused_sound_resumes_where_it_stopped
    (state : WsState) (channel isstream pause : Z)
    (chs : Channels.t) (sounds : Sounds.t) (s : TimedSound.t)
    (out : list Z) (len : Z) (t0 latency : Q) (n : nat)
    (outputBufferDacTime currentTime : Q) :
  channels state = Some chs ->
  wf_channels chs ->
  exact_rates (Channels.samplerate chs) (Channels.samplelen chs) ->
  0 <= channel ->
  let target :=
    if isstream =? 0 then channel else Channels.len chs ÷ 2 + channel in
  Channels.data chs !! Z.to_nat target = Some sounds ->
  solo chs (Z.to_nat target) s ->
  sound_ok len s ->
  int16_samples s ->
  TimedSound.offset s < TimedSound.len s ->
  on_air s ->
  pause <> 0 ->
  0 < len <= INT_MAX ->
  Z.of_nat (length out) = 2 * len ->
  let o := TimedSound.offset s in
  exists (held resumed : WsState) (chs1 chs2 chs3 chs4 : Channels.t),
    ws_pause state channel isstream pause = Ok held /\
    channels held = Some chs1 /\
    play_buffers n out len t0 latency 0 chs1
      = Ok (chs2, replicate (n * Z.to_nat (2 * len)) 0) /\
    ws_pause (set_channels held (Some chs2)) channel isstream FALSE
      = Ok resumed /\
    channels resumed = Some chs3 /\
    ws_callback out len outputBufferDacTime currentTime chs3
      = Ok (chs4, burst_at s o 0 len) /\
    (if TimedSound.len s <=? len + o then silent chs4
     else solo chs4 (Z.to_nat target) (TimedSound.set_offset s (len + o))).
Proof.
  intros Hchs Hwf Hrates Hchan target Hs Hsolo Hok Hint Hlt Hair Hpause Hlen
    Hout o.
  pose proof Hwf as [Hcount _].
  assert (Hlen0 : 0 <= Channels.len chs) by lia.
  assert (Ht : 0 <= target).
  { subst target. destruct (isstream =? 0); [exact Hchan|].
    assert (0 <= Channels.len chs ÷ 2) by (apply Z.quot_pos; lia). lia. }
  pose proof (wf_channel_lookup _ _ _ Hwf Hs) as Hws.
  assert (Hp : Sounds.paused sounds = 0).
  { destruct Hsolo as (x & Hx & Hp & _). rewrite Hs in Hx.
    injection Hx as <-. exact Hp. }
  set (chs1 := with_channel chs target (Sounds.set_paused sounds pause)).
  assert (Hwf1 : wf_channels chs1).
  { apply wf_channels_with_channel; [exact Hwf|].
    destruct Hws. split; assumption. }
  assert (Hquiet : forall c, 0 <= c < Channels.len chs1 -> quiet chs1 c).
  { intros c Hc. destruct (Nat.eq_dec (Z.to_nat c) (Z.to_nat target)) as [E|E].
    - exists (Sounds.set_paused sounds pause). rewrite E.
      split; [exact (with_channel_lookup _ _ _ _ Hs)|]. left. exact Hpause.
    - destruct (solo_idle chs (Z.to_nat target) s c Hwf Hsolo Hc E)
        as (y & Hy & Hhead).
      exists y. split; [|right; exact Hhead].
      unfold chs1, with_channel. cbn.
      rewrite list_lookup_insert_ne by (intros E'; apply E; now symmetry).
      exact Hy. }
  destruct (play_buffers_hush out len t0 latency n ltac:(lia) Hout 0 chs1
              Hwf1 Hquiet) as (chs2 & Hrun & R12).
  pose proof R12 as (Hl12 & Hab12 & Hlen12 & He12 & Hsr12 & Hsl12).
  unfold chs1 in Hlen12, He12, Hsr12, Hsl12.
  cbn in Hlen12, He12, Hsr12, Hsl12.
  destruct (Hab12 _ _ (with_channel_lookup _ _ _ _ Hs))
    as (y & Hy & (Hyd & Hyl & Hyp & Hyc & Hypi)).
  cbn in Hyd, Hyl, Hyp, Hyc, Hypi.
  set (held := set_channels state (Some chs1)).
  set (chs3 := with_channel chs2 target (Sounds.set_paused y FALSE)).
  assert (R03 : same_slots chs chs3).
  { split; [unfold chs3, with_channel; cbn; rewrite length_insert;
            rewrite <- Hl12; unfold chs1, with_channel; cbn;
            now rewrite length_insert|].
    split; [|repeat split; cbn; congruence].
    intros c x Hx.
    destruct (Nat.eq_dec c (Z.to_nat target)) as [->|E].
    - exists (Sounds.set_paused y FALSE).
      split; [exact (with_channel_lookup _ _ _ _ Hy)|].
      rewrite Hs in Hx. injection Hx as <-.
      repeat split; cbn; unfold FALSE; congruence.
    - destruct (Hab12 c x) as (z & Hz & Rz).
      { unfold chs1, with_channel. cbn.
        rewrite list_lookup_insert_ne by (intros E'; apply E; now symmetry).
        exact Hx. }
      exists z. split; [|exact Rz].
      unfold chs3, with_channel. cbn.
      rewrite list_lookup_insert_ne by (intros E'; apply E; now symmetry).
      exact Hz. }
  destruct (on_air_starts_now len outputBufferDacTime
              (Channels.samplerate chs3) (Channels.samplelen chs3) s
              (Channels.playback_error chs3) Hair) as (Hcase & Hzp & Herr).
  destruct (ws_callback_starting out len outputBufferDacTime currentTime chs3
              (Z.to_nat target) s Hlen Hout (same_slots_wf _ _ R03 Hwf)
              ltac:(destruct R03 as (_ & _ & _ & _ & <- & <-); exact Hrates)
              (same_slots_solo _ _ _ _ R03 Hsolo) Hok Hint Hlt Hcase)
    as (chs4 & Hcb & _ & _ & _ & _ & Hclass).
  rewrite Hzp in Hcb, Hclass. fold o in Hcb, Hclass.
  rewrite Z.sub_0_r in Hclass.
  exists held, (set_channels (set_channels held (Some chs2)) (Some chs3)),
    chs1, chs2, chs3, chs4.
  split.
  { exact (ws_pause_single state channel isstream pause chs sounds
             Hchs Hchan Hlen0 Hs). }
  split; [reflexivity|]. split; [exact Hrun|]. split.
  { pose proof (ws_pause_single (set_channels held (Some chs2)) channel
                  isstream FALSE chs2 y eq_refl Hchan) as Hres.
    cbv zeta in Hres. rewrite <- Hlen12 in Hres. exact (Hres Hlen0 Hy). }
  split; [reflexivity|]. split; [exact Hcb|exact Hclass].
Qed.

Lemma paused_sound_resumes_where_it_stopped_witness :
  exists (held resumed : WsState) (chs1 chs2 chs3 chs4 : Channels.t),
    ws_pause streaming 0 1 TRUE = Ok held /\
    channels held = Some chs1 /\
    play_buffers 2 [9; 9; 9; 9; 9; 9] 3 8 (1 # 2) 0 chs1
      = Ok (chs2, replicate (2 * Z.to_nat (2 * 3)) 0) /\
    ws_pause (set_channels held (Some chs2)) 0 1 FALSE = Ok resumed /\
    channels resumed = Some chs3 /\
    ws_callback [9; 9; 9; 9; 9; 9] 3 10 10 chs3
      = Ok (chs4, burst_at (newTimedSound four_frames (-1)%Q) 0 0 3) /\
    solo chs4 2 (TimedSound.set_offset (newTimedSound four_frames (-1)%Q) 3).
Proof.
  apply (paused_sound_resumes_where_it_stopped streaming 0 1 TRUE
           (channels_of streaming) (channel_at streaming 2)
           (newTimedSound four_frames (-1)%Q) [9; 9; 9; 9; 9; 9] 3 8 (1 # 2) 2
           10 10 eq_refl).
  - wf_channels_by_compute.
  - exact exact_rates_4.
  - lia.
  - reflexivity.
  - solo_by_compute.
  - split; cbn; unfold INT_MAX; lia.
  - apply int16_samples_Forall. cbn. repeat constructor; lia.
  - cbn. lia.
  - right. split; [reflexivity|]. cbn. lra.
  - unfold TRUE. lia.
  - unfold INT_MAX. lia.
  - reflexivity.
Defined.

(** ** The callback never goes wrong in a session *)










(** ** A sound that has to wait for the one before it *)

(** X29.  A sound that was due while the one before it on its channel was
    still playing waits for it.  When the sound at the head of a channel
    ends at frame [ends] of the buffer and the sound behind it was due at
    an earlier frame [due] of that buffer, or before the buffer, and the
    sample rate and the instants are such that the arithmetic of the
    callback on [double]s is exact, the callback plays the rest of the
    first, then at once the second from its first frame, and stores in
    [playback_error] the negative number [due - ends], the frames the
    second is late by.  (A second sound due at frame [ends] or later is not
    covered.) *)
Theorem overlapping_sound_waits_for_the_one_before
    (out : list Z) (len : Z) (outputBufferDacTime currentTime : Q)
    (chs : Channels.t) (c : nat) (s1 s2 : TimedSound.t) :
  0 < len <= INT_MAX ->
  Z.of_nat (length out) = 2 * len ->
  wf_channels chs ->
  exact_rates (Channels.samplerate chs) (Channels.samplelen chs) ->
  duo chs c s1 s2 ->
  sound_ok len s1 ->
  int16_samples s1 ->
  on_air s1 ->
  sound_ok len s2 ->
  int16_samples s2 ->
  TimedSound.offset s2 = 0 ->
  0 < TimedSound.len s2 ->
  (0 < TimedSound.start s2)%Q ->
  exact_timing len (TimedSound.len s1 - TimedSound.offset s1)
    outputBufferDacTime (Channels.samplerate chs) (Channels.samplelen chs)
    (TimedSound.start s2) ->
  let o := TimedSound.offset s1 in
  let ends := TimedSound.len s1 - o in
  let due :=
    Qfloor ((TimedSound.start s2 - outputBufferDacTime)
            * Channels.samplerate chs)%Q in
  0 < ends < len ->
  due < ends ->
  exists chs' : Channels.t,
    ws_callback out len outputBufferDacTime currentTime chs
      = Ok (chs', relay_burst s1 s2 o len) /\
    Channels.playback_error chs' = due - ends /\
    (if TimedSound.len s2 <=? len - ends then silent chs'
     else solo chs' c (TimedSound.set_offset s2 (len - ends))).
Proof.
  intros Hlen Hout Hwf Hrates Hduo Hok1 Hint1 Hair1 Hok2 Hint2 Hzero2 Hframes2
    Hstart2 _ o ends due Hends Hdue.
  destruct (ws_callback_relay out len outputBufferDacTime currentTime chs c
              s1 s2 Hlen Hout Hwf Hrates Hduo Hok1 Hint1 ltac:(fold o; lia)
              Hair1 Hok2 Hint2)
    as (chs' & Hrun & _ & _ & _ & He & Hclass).
  { split; [exact Hzero2|]. split; [exact Hframes2|]. right. exact Hdue. }
  fold o ends in He, Hclass.
  exists chs'. split; [exact Hrun|]. split.
  - rewrite He. destruct (Z.ltb_spec 0 (len - ends)); [|lia].
    unfold lateness_at. now rewrite (Qltb_lt _ _ Hstart2).
  - destruct (Z.ltb_spec (len - ends) 0); [lia|exact Hclass].
Qed.

Lemma overlapping_sound_waits_for_the_one_before_witness :
  exists chs' : Channels.t,
    ws_callback (replicate 12 9) 6 8 8 (channels_of overlapping)
      = Ok (chs',
            relay_burst (newTimedSound four_frames ((8 - 8) + 0)%Q)
              (newTimedSound two_frames ((8 - 8) + (33 # 4))%Q) 0 6) /\
    Channels.playback_error chs' = 1 - 4 /\
    silent chs'.
Proof.
  apply (overlapping_sound_waits_for_the_one_before (replicate 12 9) 6 8 8
           (channels_of overlapping) 0
           (newTimedSound four_frames ((8 - 8) + 0)%Q)
           (newTimedSound two_frames ((8 - 8) + (33 # 4))%Q)).
  - unfold INT_MAX. lia.
  - reflexivity.
  - wf_channels_by_compute.
  - exact exact_rates_4.
  - duo_by_compute.
  - split; cbn; unfold INT_MAX; lia.
  - apply int16_samples_Forall. cbn. repeat constructor; lia.
  - right. split; [reflexivity|]. cbn. lra.
  - split; cbn; unfold INT_MAX; lia.
  - apply int16_samples_Forall. cbn. repeat constructor; lia.
  - reflexivity.
  - cbn. lia.
  - cbn. lra.
  - exact_by_compute.
  - cbn. lia.
  - vm_compute. reflexivity.
Defined.

(** ** Offsets across a callback *)

Section Capacity.
Variable len : Z.
Variable buffer_start : Q.
Variable samplerate samplelen : Q.


End Capacity.




